(* ===== verification/_CoqProject ===== *)
-Q . S2P
Prelude.v
Dictionary.v
DictionaryHeap.v
Sm4.v
Crc.v
CLib.v
Iniparser.v
CFloat.v
Http.v
SelectServer.v
Clients.v
Json.v
JsonText.v
JsonParse.v
BuildJson.v
JsonBuffer.v
JsonCopy.v
JsonHeap.v
Sha256.v
Pcm.v
PcmWrite.v
PcmRing.v
Decode.v
PlayFile.v
Alsa.v
Ftps.v
FtpsTransfer.v
Queue.v
DataFormat.v
FileTransfer.v
Threads.v
TestSelect.v
Fifo.v
TestSockets.v
JpgToRgb.v
KernelRead.v
FtpClient.v
