(* ===== verification/Prelude.v ===== *)
(** * A verification library for the C code collection under src/

    src/ is a collection of C programs and libraries, most of one or two files; the parts that
    work together are cJSON with build_json.c, iniparser with its dictionary, the PCM library
    with the two players of sample/, and the server of http_server with its parser.  The files of
    ffmpeg_sample/ are those of sample/, and those of linux/test/ are those of test/; sample/ and
    test/ are the copies cited.

    ** The machine
    Definitions are translations of the C code for x86-64 (LP64, signed char, two's complement),
    the C locale and glibc.  Integers are [Z], wrapped to their width where the code can leave it
    ([wrap], [sext]); text is [list Z], a C string being its bytes without the NUL; double is
    binary64 (CFloat.v).  An access outside an object, a dereference of NULL, a bad free, a read of
    memory never written, a signed overflow and a loop that does not end are values of [ub], so
    that "the code has no undefined behaviour" is a theorem about a result [Ok], and a fault of the
    code is a theorem about a result [Ub]; [as_int] is the check of a signed sum.  A conversion to a
    narrower type wraps.  One undefined operation has the result that the x86-64 instruction gives
    instead: the shift by a negative count in sha256.c ([shl] in Sha256.v).  Code with state is in the monad [ST]; [wp], [wlp]
    and the class [Preserves] are its program logic, shared by all components.  The outcomes of
    allocations are an oracle, a list of booleans that is used up in order and followed by
    success; the answers of the network and the kernel are scripts of the same kind or a class.

    ** The files
    - Prelude.v: integers, bytes, [ub], [ST] and its logic, arrays of pointers, transition systems.
    - CLib.v, CFloat.v: the functions of the C library on strings, characters and doubles.
    - Dictionary.v (iniparser-main/dictionary.c): the three parallel arrays and all operations,
      refined to a finite map; the class [Store] is what iniparser asks of it.  DictionaryHeap.v
      has the same operations with the blocks of memory they allocate and free.
    - Iniparser.v (iniparser-main/iniparser.c): line reader, loader, dump, accessors by name;
      loading is safe on every file and reads back what dumping wrote.
    - Sm4.v, Sha256.v (encode_decode/), Crc.v (crccheck/): each against a specification: SM4 on 32-bit
      words, FIPS 180-4, the remainder of polynomials over GF(2).
    - Json.v (cJSON.c: parse, print, minify, create), JsonText.v (round trip, printing safe),
      JsonParse.v (the parser on every text), JsonBuffer.v (cJSON_PrintBuffered), JsonCopy.v
      (cJSON_Duplicate, arrays), JsonHeap.v (the edits of the linked children on a store of
      items).
    - BuildJson.v (build_json.c): the messages, made with Json.v and read back by its parser.
    - Http.v (http_server/http_anlyse.c and .h): parser, packet builders, one request.
    - SelectServer.v (tcp_select.c, tcp_server.c, main of http_anlyse.c): one loop over a table of
      clients, with the handler as a parameter that Http.v and the two echo programs fill.
    - Pcm.v, PcmWrite.v, PcmRing.v (sample/pcm.c): the PCM library over the class [Kernel];
      opening, writing with recovery, the memory-mapped ring refined to a queue.
    - Decode.v, PlayFile.v (ffmpeg_alsa_back.c), Alsa.v (ffmpeg_alsa.c): opening and decoding a
      file, and the two players, one on the PCM library, one as two threads that hand over
      two buffers.
    - Ftps.v, FtpsTransfer.v (ftps/ftps_client.c): the FTPS client over scripts of answers;
      what a transfer stores and what it leaves open.  FtpClient.v (ftp_client.c): the plain
      client for Windows sockets.
    - Queue.v (queue/queue.c): the pool of buffers for any number of threads, as a step relation
      with the semantics of mutexes and condition variables.
    - DataFormat.v (data_format_convertion.c), FileTransfer.v (send_file.c, recv_file.c).
    - Clients.v (http_client/http.c, tcp_client.c, tcp_socket.c): the client's packet is one that
      Http.v accepts.
    - Threads.v (the programs of test/ with threads), TestSelect.v (test/TCP_select/select_server.c),
      Fifo.v (test/select_fifo_multiplexing), TestSockets.v (the clients and the server of test/ without
      threads, the broadcast).
    - JpgToRgb.v (jpg_2_rgb), KernelRead.v (kernel_read.c).

    ** The theorems
    - Refinements: dictionary_refines_map, pcm_ring_is_queue, json_chain_edits,
      sm4_one_round_refines; equivalences with a reference: sha256_is_fips, crc_is_remainder,
      json_buffered_print, json_minify_print, select_pass_serves_all.
    - Round trips: json_print_parse, ini_dump_load_roundtrip, sm4_cbc_roundtrip,
      sm4_ecb_roundtrip, http_post_roundtrip.
    - Safety and invariants over all runs: json_parse_outcome, print_value_safe, ini_load_safe,
      dictionary_session, select_loop_safe, queue_no_sharing, alsa_exclusive, pcm_open_close,
      crc_detects_bursts; liveness: queue_fifo_wakes, semaphore_handover, counter_counts_all,
      full_table_starves.
    - What a whole program or a group of functions computes: play_main_delivers, ftps_get_transfer,
      http_job_served, build_json_messages, ini_set_unset_get, ini_section_keys.
    - What the code does with errors: pcm_write_outcome, ftps_transfer_leaves,
      json_duplicate; and the places where it goes wrong:
      json_delete_item, json_unicode_overflow, pcm_full_ring_wrap, sm4_ecb_reads_whole_blocks.
    Where the code is right on a part of its inputs only, the theorem says what it does on the rest, or
    its comment names the part: json_parse_outcome, print_value_safe, json_duplicate,
    dictionary_session, json_chain_edits, select_loop_safe, alsa_exclusive, play_main_delivers,
    pcm_write_outcome and ftps_get_transfer have the faults in their conclusions;
    json_print_parse (finite numbers), json_buffered_print (at most 2^30 bytes),
    ini_dump_load_roundtrip (tables the two formats agree on), pcm_ring_is_queue (not across the
    boundary) and crc_detects_bursts (odd generators) are stated for a part.
    Lemmas that are not in this list but state a fault are next to the code they are about.

    ** Bounds and fuel
    Recursion that is not structural takes fuel, and a theorem of the component shows that the fuel
    its callers pass is enough: parse_fuel in Json.v (four calls for each character), the hash
    table and the line reader by the length of what they go through, pcm_write by its two passes,
    the padding loop of sha256 by the length of the message.  Loops of programs that never end are
    step relations.

    ** Not modelled
    - What the code calls: libjpeg and FFmpeg, whose answers are records in JpgToRgb.v and Decode.v,
      OpenSSL and the kernel, which are scripts or classes here.
    - Console output, and the demo mains whose only effect it is.
    - parse.c (not a translation unit: two fragments), log.h (macros around printf), the driver of
      test/driver, which prints its parameters.
    - For cJSON, the chain of children is a list in Json.v; only JsonHeap.v has its pointers. *)

From Stdlib Require Export ZArith Lia.
From Stdlib Require Export Btauto.
From stdpp Require Export base tactics list gmap option numbers strings.

Declare Scope c_scope.
Delimit Scope c_scope with C.
Open Scope Z_scope.

(** ** Machine integers *)

(** [wrap w x]: the value of [x] converted to an unsigned [w]-bit type. *)
Definition wrap (w x : Z) : Z := x mod 2 ^ w.

(** [sext w x]: the value of [x] converted to a signed (two's complement)
    [w]-bit type, which is what the compilers this code is built with do. *)
Definition sext (w x : Z) : Z := (x + 2 ^ (w - 1)) mod 2 ^ w - 2 ^ (w - 1).

Abbreviation u8 := (wrap 8).
Abbreviation u16 := (wrap 16).
Abbreviation u32 := (wrap 32).
Abbreviation u64 := (wrap 64).
Abbreviation s8 := (sext 8).
Abbreviation s32 := (sext 32).

Infix "<<" := Z.shiftl (at level 31, left associativity) : c_scope.
Infix ">>" := Z.shiftr (at level 31, left associativity) : c_scope.
Infix ".&" := Z.land (at level 32, left associativity) : c_scope.
Infix ".^" := Z.lxor (at level 33, left associativity) : c_scope.
Infix ".|" := Z.lor (at level 34, left associativity) : c_scope.

Definition INT_MAX : Z := 2147483647.
Definition INT_MIN : Z := -2147483648.

(** ** Bytes, strings and pointers *)

(** The bytes of a string literal. *)
Definition str (s : string) : list Z :=
  map (fun a => Z.of_N (Ascii.N_of_ascii a)) (String.list_ascii_of_string s).

(** A C string, without its terminating NUL, is the list of its bytes
    (values 1..255).  A byte read as [char] is signed on the x86-64 builds
    the tree ships; [s8] gives that reading. *)
Abbreviation cstr := (list Z) (only parsing).

Definition is_byte (c : Z) : bool := (0 <=? c) && (c <? 256).
Definition is_char (c : Z) : bool := (0 <? c) && (c <? 256).
Definition byte_list (s : list Z) : Prop := Forall (fun c => 0 <= c < 256) s.
Definition cstr_ok (s : list Z) : Prop := Forall (fun c => 0 < c < 256) s.

(** A [char *] result: NULL, the sentinel [(char * )-1] that iniparser passes as a
    default, or a string. *)
Inductive cptr : Type := Null | Sentinel | Str (s : list Z).

Definition ptr_of (o : option (list Z)) : cptr :=
  match o with Some s => Str s | None => Null end.

Definition ptr_str (p : cptr) : option (list Z) :=
  match p with Str s => Some s | _ => None end.

#[export] Instance cptr_eq_dec : EqDecision cptr.
Proof. solve_decision. Defined.

Definition zlen {A} (l : list A) : Z := Z.of_nat (length l).

(** ** Undefined behaviour as an error *)

Inductive ub : Type :=
  | OobRead      (* a read outside the object *)
  | OobWrite     (* a write outside the object *)
  | BadFree      (* free of something malloc did not return *)
  | NullDeref    (* a dereference of NULL *)
  | UseAfterFree (* an access to a block that was freed *)
  | DivZero      (* a division by zero *)
  | Uninit       (* a use of an object that was never written *)
  | IntOverflow  (* a signed overflow *)
  | NoReturn.    (* a loop that does not end within the fuel given *)

#[export] Instance ub_eq_dec : EqDecision ub.
Proof. solve_decision. Defined.

Inductive res (A : Type) : Type := Ok (a : A) | Ub (e : ub).
Arguments Ok {A} a.
Arguments Ub {A} e.

Definition res_bind {A B} (m : res A) (f : A -> res B) : res B :=
  match m with Ok a => f a | Ub e => Ub e end.

Notation "'let!' x ':=' m 'in' k" := (res_bind m (fun x => k))
  (at level 10, x pattern, m at level 100, k at level 200) : c_scope.

Definition is_ok {A} (m : res A) : bool := match m with Ok _ => true | Ub _ => false end.

Open Scope c_scope.

(** Arithmetic on int: the result, or a signed overflow. *)
Definition int_range (n : Z) : bool := (INT_MIN <=? n) && (n <=? INT_MAX).
Definition as_int (n : Z) : res Z := if int_range n then Ok n else Ub IntOverflow.

(** ** State and undefined behaviour *)

(** A computation that changes a state [S], gives an [A] or has undefined behaviour. *)
Definition ST (S A : Type) : Type := S -> res (A * S).

#[export] Instance ST_ret {S} : MRet (ST S) := fun A a s => Ok (a, s).
#[export] Instance ST_bind {S} : MBind (ST S) := fun A B f m s => let! (a, s) := m s in f a s.
#[export] Instance ST_fmap {S} : FMap (ST S) := fun A B f m s => let! (a, s) := m s in Ok (f a, s).

Definition fault {S A} (e : ub) : ST S A := fun _ => Ub e.
Definition lift {S A} (m : res A) : ST S A := fun s => let! a := m in Ok (a, s).

(** [wpu u m Q s]: from [s], [m] returns and [Q] holds of the result, or it has undefined
    behaviour and [u] holds. *)
Definition wpu (u : Prop) {S A} (m : ST S A) (Q : A -> S -> Prop) (s : S) : Prop :=
  match m s with Ok (a, t) => Q a t | Ub _ => u end.

(** Total correctness, and partial correctness. *)
Abbreviation wp := (wpu False).
Abbreviation wlp := (wpu True).

(** ** Allocation *)

(** The outcomes of the allocation calls to come, in order; an exhausted list
    means that the allocator succeeds. *)
Abbreviation oracle := (list bool) (only parsing).

Definition alloc (o : list bool) : bool * list bool :=
  match o with [] => (true, []) | b :: o' => (b, o') end.

(** ** Bounded search: [for (i = start; i < start + fuel; i++) if (p i) break;] *)

Fixpoint find_first (p : nat -> bool) (i fuel : nat) : option nat :=
  match fuel with
  | O => None
  | S f => if p i then Some i else find_first p (S i) f
  end.

(** Reads of an array of pointers, each cell holding NULL or a string. *)
Definition cell {A} (l : list (option A)) (i : nat) : option A := mjoin (l !! i).

(** * Lemmas *)

Create Rewrite HintDb bits.
Create Rewrite HintDb len.
#[export] Hint Rewrite Z.lxor_spec Z.land_spec Z.lor_spec Z.ldiff_spec
  Z.testbit_0_l Bool.andb_false_r Bool.andb_false_l Bool.andb_true_l
  Bool.andb_true_r Bool.orb_false_l Bool.orb_false_r Bool.xorb_false_l
  Bool.xorb_false_r Z.sub_add Z.add_simpl_r : bits.
#[export] Hint Rewrite Z.shiftl_spec Z.shiftr_spec Z.testbit_mod_pow2
  using lia : bits.

(** [bit_cases]: decide every comparison of a bit index with a constant. *)
Ltac bit_cases :=
  repeat match goal with
  | |- context [?a <? ?b] =>
      first [ rewrite (proj2 (Z.ltb_lt a b)) by lia
            | rewrite (proj2 (Z.ltb_ge a b)) by lia
            | destruct (Z.ltb_spec a b) ]
  end.

(** [bitwise]: prove an equation between integers bit by bit. *)
Ltac bitwise :=
  unfold wrap; apply Z.bits_inj'; intros ?i ?Hi;
  repeat (autorewrite with bits; bit_cases);
  repeat match goal with
  | |- context [Z.testbit ?x ?j] => rewrite (Z.testbit_neg_r x j) by lia
  end;
  autorewrite with bits; try btauto; try reflexivity; try (repeat f_equal; lia).

Lemma wrap_bound w x : 0 <= w -> 0 <= wrap w x < 2 ^ w.
Proof. intros. apply Z.mod_pos_bound. lia. Qed.

Lemma wrap_small w x : 0 <= x < 2 ^ w -> wrap w x = x.
Proof. apply Z.mod_small. Qed.

Lemma wrap_wrap w x : wrap w (wrap w x) = wrap w x.
Proof. apply Zmod_mod. Qed.

Lemma sext_small w x : 0 < w -> - 2 ^ (w - 1) <= x < 2 ^ (w - 1) -> sext w x = x.
Proof.
  intros Hw Hx. unfold sext.
  assert (2 ^ w = 2 * 2 ^ (w - 1)) as E.
  { replace w with (1 + (w - 1)) at 1 by lia. rewrite Z.pow_add_r by lia. reflexivity. }
  rewrite Z.mod_small by lia. lia.
Qed.

Lemma zlen_nonneg {A} (l : list A) : 0 <= zlen l.
Proof. unfold zlen. lia. Qed.

Lemma zlen_app {A} (l k : list A) : zlen (l ++ k) = zlen l + zlen k.
Proof. unfold zlen. rewrite length_app. lia. Qed.

Lemma zlen_cons {A} (a : A) l : zlen (a :: l) = 1 + zlen l.
Proof. unfold zlen. cbn [length]. lia. Qed.

Lemma zlen_nil {A} : zlen (@nil A) = 0.
Proof. reflexivity. Qed.

#[export] Hint Rewrite @zlen_app @zlen_cons @zlen_nil @length_app @length_map : len.

Lemma find_first_Some p i n j :
  find_first p i n = Some j ->
  (i <= j < i + n)%nat /\ p j = true /\ forall k, (i <= k < j)%nat -> p k = false.
Proof.
  revert i. induction n as [|n IH]; intros i; cbn; [done|].
  destruct (p i) eqn:E.
  - intros [= <-]. split_and!; [lia..|done|]. intros; lia.
  - intros (H1 & H2 & H3)%IH. split_and!; [lia..|done|].
    intros k Hk. destruct (decide (k = i)) as [->|]; [done|]. apply H3. lia.
Qed.

Lemma find_first_None p i n :
  find_first p i n = None <-> forall k, (i <= k < i + n)%nat -> p k = false.
Proof.
  revert i. induction n as [|n IH]; intros i; cbn; [split; [intros; lia|done]|].
  destruct (p i) eqn:E.
  - split; [done|]. intros H. rewrite H in E by lia. done.
  - rewrite IH. split; intros H k Hk.
    + destruct (decide (k = i)) as [->|]; [done|]. apply H. lia.
    + apply H. lia.
Qed.

(** A hit that is the only one is the one found. *)
Lemma find_first_unique p i n j :
  (i <= j < i + n)%nat -> p j = true ->
  (forall k, (i <= k < j)%nat -> p k = false) ->
  find_first p i n = Some j.
Proof.
  intros Hj Hp Hl. destruct (find_first p i n) as [k|] eqn:E.
  - apply find_first_Some in E as (H1 & H2 & H3). f_equal.
    destruct (decide (k < j)%nat) as [|]; [rewrite Hl in H2 by lia; done|].
    destruct (decide (j < k)%nat) as [|]; [rewrite H3 in Hp by lia; done|]. lia.
  - rewrite find_first_None in E. rewrite E in Hp by lia. done.
Qed.

Lemma cell_Some {A} (l : list (option A)) i a :
  cell l i = Some a <-> l !! i = Some (Some a).
Proof. unfold cell. destruct (l !! i) as [[?|]|]; cbn; split; congruence. Qed.

Lemma cell_None {A} (l : list (option A)) i :
  cell l i = None <-> l !! i = None \/ l !! i = Some None.
Proof. unfold cell. destruct (l !! i) as [[?|]|]; cbn; intuition congruence. Qed.

Lemma cell_insert {A} (l : list (option A)) i j x :
  (i < length l)%nat ->
  cell (<[i:=x]> l) j = if decide (i = j) then x else cell l j.
Proof.
  intros Hi. unfold cell. case_decide as E.
  - subst. by rewrite list_lookup_insert_eq.
  - by rewrite list_lookup_insert_ne.
Qed.

Lemma cell_app_l {A} (l k : list (option A)) i :
  (i < length l)%nat -> cell (l ++ k) i = cell l i.
Proof. intros. unfold cell. by rewrite lookup_app_l. Qed.

Lemma cell_lt {A} (l : list (option A)) i a : cell l i = Some a -> (i < length l)%nat.
Proof. rewrite cell_Some. apply lookup_lt_Some. Qed.

Lemma res_bind_Ok {A B} (m : res A) (f : A -> res B) b :
  res_bind m f = Ok b <-> exists a, m = Ok a /\ f a = Ok b.
Proof. destruct m; cbn; naive_solver. Qed.

Lemma res_bind_Ub {A B} (m : res A) (f : A -> res B) e :
  res_bind m f = Ub e <-> m = Ub e \/ exists a, m = Ok a /\ f a = Ub e.
Proof. destruct m; cbn; naive_solver. Qed.

Lemma int_range_spec n : int_range n = true <-> INT_MIN <= n <= INT_MAX.
Proof. unfold int_range. rewrite andb_true_iff, !Z.leb_le. done. Qed.

Lemma as_int_Ok n : INT_MIN <= n <= INT_MAX -> as_int n = Ok n.
Proof. intros H%int_range_spec. unfold as_int. by rewrite H. Qed.

Lemma as_int_cases n : as_int n = Ok n /\ INT_MIN <= n <= INT_MAX \/ as_int n = Ub IntOverflow /\ ~ INT_MIN <= n <= INT_MAX.
Proof. unfold as_int. rewrite <- int_range_spec. destruct (int_range n); auto. Qed.

(** What an element of a list contributes to an [omap], before and after an update. *)
Lemma omap_insert {A B} (f : A -> option B) (l : list A) i x y :
  l !! i = Some x ->
  omap f l = omap f (take i l) ++ option_list (f x) ++ omap f (drop (S i) l) /\
  omap f (<[i := y]> l) = omap f (take i l) ++ option_list (f y) ++ omap f (drop (S i) l).
Proof.
  intros Hi. pose proof (lookup_lt_Some _ _ _ Hi) as Hl. split.
  - rewrite <- (take_drop_middle l i x Hi) at 1. rewrite omap_app. cbn. by destruct (f x).
  - rewrite insert_take_drop by done. rewrite omap_app. cbn. by destruct (f y).
Qed.

(** ** Weakest preconditions *)

Section WeakestPrecondition.
Context {u : Prop} {S : Type}.

Lemma wp_bind {A B} (m : ST S A) (f : A -> ST S B) Q s : wpu u m (fun a => wpu u (f a) Q) s -> wpu u (m ≫= f) Q s.
Proof. unfold wpu, mbind, ST_bind. destruct (m s) as [[a t]|e]; cbn [res_bind]; auto. Qed.

Lemma wp_ret {A} (a : A) Q (s : S) : Q a s -> wpu u (mret a) Q s.
Proof. done. Qed.

Lemma wp_fmap {A B} (f : A -> B) (m : ST S A) Q s : wpu u m (fun a => Q (f a)) s -> wpu u (f <$> m) Q s.
Proof. unfold wpu, fmap, ST_fmap. by destruct (m s) as [[a t]|e]. Qed.

Lemma wp_mono {A} (m : ST S A) (Q Q' : A -> S -> Prop) s :
  wpu u m Q s -> (forall a t, Q a t -> Q' a t) -> wpu u m Q' s.
Proof. unfold wpu. destruct (m s) as [[a t]|e]; auto. Qed.

Lemma wp_lift {A} (m : res A) (Q : A -> S -> Prop) s :
  match m with Ok a => Q a s | Ub _ => u end -> wpu u (lift m) Q s.
Proof. unfold wpu, lift. destruct m; cbn; auto. Qed.

Lemma wp_lift_Ok {A} (m : res A) a (Q : A -> S -> Prop) s : m = Ok a -> Q a s -> wpu u (lift m) Q s.
Proof. intros ->. done. Qed.

(** What a precondition says of a run. *)
Lemma wp_Ok {A} (m : ST S A) (Q : A -> S -> Prop) s a t : wpu u m Q s -> m s = Ok (a, t) -> Q a t.
Proof. unfold wpu. intros HQ E. by rewrite E in HQ. Qed.
End WeakestPrecondition.

(** [Preserves R m]: every run of [m] goes from a state to one in relation [R], a preorder.
    The instances let a proof that a whole operation preserves [R] be found by resolution. *)
Class Preserves {S} (R : S -> S -> Prop) {A} (m : ST S A) : Prop := preserves s : wlp m (fun _ t => R s t) s.

Lemma wp_preserves {S A} (R : S -> S -> Prop) (m : ST S A) `{!Preserves R m} (Q : A -> S -> Prop) s :
  (forall a t, R s t -> Q a t) -> wlp m Q s.
Proof. intros HQ. eapply wp_mono; [apply preserves|]. auto. Qed.

Section Preservation.
Context {S : Type} (R : S -> S -> Prop) `{!PreOrder R}.

#[export] Instance preserves_ret {A} (a : A) : Preserves R (mret a).
Proof. intros s. apply wp_ret. reflexivity. Qed.
#[export] Instance preserves_fault {A} e : Preserves R (@fault S A e).
Proof. intros s. exact I. Qed.
#[export] Instance preserves_lift {A} (m : res A) : Preserves R (lift m).
Proof. intros s. apply wp_lift. destruct m; [reflexivity|exact I]. Qed.
#[export] Instance preserves_bind {A B} (m : ST S A) (f : A -> ST S B) :
  Preserves R m -> (forall a, Preserves R (f a)) -> Preserves R (m ≫= f).
Proof.
  intros Hm Hf s. apply wp_bind, (wp_preserves R); [done|]. intros a t Ht. apply (wp_preserves R); [apply Hf|].
  intros b u Hu. by transitivity t.
Qed.
#[export] Instance preserves_fmap {A B} (f : A -> B) (m : ST S A) : Preserves R m -> Preserves R (f <$> m).
Proof. intros Hm s. by apply wp_fmap, (wp_preserves R). Qed.
#[export] Instance preserves_if {A} (b : bool) (m n : ST S A) :
  Preserves R m -> Preserves R n -> Preserves R (if b then m else n).
Proof. by destruct b. Qed.
#[export] Instance preserves_prod {A B C} (p : A * B) (f : A -> B -> ST S C) :
  (forall a b, Preserves R (f a b)) -> Preserves R (let (a, b) := p in f a b).
Proof. destruct p. auto. Qed.
End Preservation.

(** What two relations say of one run. *)
Lemma wp_preserves2 {S A} (R R' : S -> S -> Prop) (m : ST S A) `{!Preserves R m} `{!Preserves R' m} (Q : A -> S -> Prop) s :
  (forall a t, R s t -> R' s t -> Q a t) -> wlp m Q s.
Proof.
  intros HQ. pose proof (preserves (R := R) s) as H. pose proof (preserves (R := R') s) as H'. unfold wpu in *.
  destruct (m s) as [[a t]|e]; auto.
Qed.

(** Less undefined behaviour and a stronger postcondition. *)
Lemma wpu_mono {S A} (u u' : Prop) (m : ST S A) (Q Q' : A -> S -> Prop) s :
  wpu u m Q s -> (u -> u') -> (forall a t, Q a t -> Q' a t) -> wpu u' m Q' s.
Proof. unfold wpu. destruct (m s) as [[a t]|e]; auto. Qed.

(** Two facts of one run. *)
Lemma wp_and {S A} (m : ST S A) (Q Q' : A -> S -> Prop) s : wp m Q s -> wlp m Q' s -> wp m (fun a t => Q a t /\ Q' a t) s.
Proof. unfold wpu. destruct (m s) as [[a t]|e]; auto. Qed.

Lemma wp_run {S A} (m : ST S A) (Q : A -> S -> Prop) s : wp m Q s -> exists a t, m s = Ok (a, t) /\ Q a t.
Proof. unfold wpu. destruct (m s) as [[a t]|e]; [|done]. eauto. Qed.

#[export] Hint Resolve zlen_nonneg : core.

(** ** Transition systems: programs whose steps interleave *)

Section Transitions.
Context {S : Type} (init : S -> Prop) (step : S -> S -> Prop).

Inductive reaches : S -> Prop :=
  | reaches_init s : init s -> reaches s
  | reaches_step s t : reaches s -> step s t -> reaches t.

(** Rule induction, for a property that each step preserves. *)
Lemma reaches_invariant (I : S -> Prop) :
  (forall s, init s -> I s) -> (forall s t, I s -> step s t -> I t) -> forall s, reaches s -> I s.
Proof. intros Hi Hs s. induction 1 as [s H|s t _ IH H]; eauto. Qed.

(** A scheduler: [exec s e] is the step that the event [e] stands for, if there is one. *)
Context {E : Type} (exec : S -> E -> option S).

Definition run_events (es : list E) (s : S) : option S := foldl (fun o e => s ← o; exec s e) (Some s) es.

Lemma run_events_reaches es s t :
  (forall s e t, exec s e = Some t -> step s t) -> reaches s -> run_events es s = Some t -> reaches t.
Proof.
  intros He Hs. revert t. unfold run_events. induction es as [|e es IH] using rev_ind; intros t; [by intros [= <-]|].
  rewrite foldl_app. cbn. destruct (foldl _ _ es) as [r|] eqn:Er; [|done]. intros Et%He.
  eapply reaches_step; [by apply IH|done].
Qed.
End Transitions.
