(* ===== verification/Dictionary.v ===== *)
(** iniparser-main/dictionary.c: the string/string table behind iniparser.

    A dictionary is three parallel arrays of [size] cells; a cell is used when
    its key is not NULL.  Every operation of dictionary.c is here: the hash, the
    linear search, insertion at the first free cell at or after [n] with
    wrap-around, growth, deletion and the dump.  Allocation calls draw their
    outcome from an oracle.  The specification is a finite map from keys to
    optional values ([models]). *)

From S2P Require Import Prelude.

Open Scope c_scope.
Open Scope Z_scope.

(** ** Data and operations *)

Definition DICTMINSZ : nat := 128.

Record dictionary : Type := Dict {
  d_n : Z;                            (* unsigned n: number of entries *)
  d_size : nat;                       (* size_t size: cells of each array *)
  d_val : list (option (list Z));
  d_key : list (option (list Z));
  d_hash : list Z
}.

Definition xstrdup (s : option (list Z)) (o : list bool) : option (list Z) * list bool :=
  match s with
  | None => (None, o)
  | Some s => let (ok, o') := alloc o in (if ok then Some s else None, o')
  end.

(** The three callocs are all made before any is tested. *)
Definition dictionary_grow (d : dictionary) (o : list bool) : Z * dictionary * list bool :=
  let (new_val, o) := alloc o in
  let (new_key, o) := alloc o in
  let (new_hash, o) := alloc o in
  if negb new_val || negb new_key || negb new_hash then (-1, d, o)
  else
    (0, Dict (d_n d) (d_size d * 2)
          (take (d_size d) (d_val d) ++ replicate (d_size d) None)
          (take (d_size d) (d_key d) ++ replicate (d_size d) None)
          (take (d_size d) (d_hash d) ++ replicate (d_size d) 0), o).

Definition hash_step (hash c : Z) : Z :=
  let hash := u32 (hash + u32 (s8 c)) in
  let hash := u32 (hash + (hash << 10)) in
  hash .^ (hash >> 6).

Definition dictionary_hash (key : option (list Z)) : Z :=
  match key with
  | None => 0
  | Some key =>
      let hash := fold_left hash_step key 0 in
      let hash := u32 (hash + (hash << 3)) in
      let hash := hash .^ (hash >> 11) in
      u32 (hash + (hash << 15))
  end.

(** What dictionary_new gives back.  [NewNoKey] is a dictionary whose key array
    is NULL: the test after the three callocs looks at [size], [val] and [hash]. *)
Inductive new_result : Type := NewNull | NewNoKey | NewOk (d : dictionary).

Definition empty_dictionary (size : nat) : dictionary :=
  Dict 0 size (replicate size None) (replicate size None) (replicate size 0).

(** When an array is missing the code frees [(void * ) d->size], an integer. *)
Definition dictionary_new (size : nat) (o : list bool) : res (new_result * list bool) :=
  let size := if (size <? DICTMINSZ)%nat then DICTMINSZ else size in
  let (d, o) := alloc o in
  if negb d then Ok (NewNull, o)
  else
    let (val, o) := alloc o in
    let (key, o) := alloc o in
    let (hash, o) := alloc o in
    if (size =? 0)%nat || negb val || negb hash then Ub BadFree
    else Ok (if key then NewOk (empty_dictionary size) else NewNoKey, o).

(** The loop body's test: the cell is used, its hash and then its key agree. *)
Definition slot_matches (d : dictionary) (key : list Z) (hash : Z) (i : nat) : bool :=
  match cell (d_key d) i with
  | None => false
  | Some k =>
      match d_hash d !! i with
      | Some h => if hash =? h then bool_decide (key = k) else false
      | None => false
      end
  end.

Definition dictionary_find (d : dictionary) (key : list Z) (hash : Z) : option nat :=
  find_first (slot_matches d key hash) 0 (d_size d).

Definition dictionary_get (d : option dictionary) (key : option (list Z)) (def : cptr) : cptr :=
  match d, key with
  | Some d, Some k =>
      let hash := dictionary_hash key in
      match dictionary_find d k hash with
      | Some i => ptr_of (cell (d_val d) i)
      | None => def
      end
  | _, _ => def
  end.

(** [for (i = d->n; d->key[i]; ) if (++i == d->size) i = 0;] *)
Fixpoint dictionary_probe (d : dictionary) (i fuel : nat) : res nat :=
  match d_key d !! i with
  | None => Ub OobRead
  | Some None => Ok i
  | Some (Some _) =>
      match fuel with
      | O => Ub NoReturn
      | S f => dictionary_probe d (if (S i =? d_size d)%nat then 0%nat else S i) f
      end
  end.

Definition dictionary_set (d : option dictionary) (key val : option (list Z))
    (o : list bool) : res (Z * option dictionary * list bool) :=
  match d, key with
  | Some d, Some k =>
      let hash := dictionary_hash key in
      match (if 0 <? d_n d then dictionary_find d k hash else None) with
      | Some i =>
          let (v, o) := xstrdup val o in
          Ok (0, Some (Dict (d_n d) (d_size d) (<[i:=v]> (d_val d)) (d_key d) (d_hash d)), o)
      | None =>
          let '(r, d, o) :=
            if d_n d =? Z.of_nat (d_size d) then dictionary_grow d o else (0, d, o) in
          if negb (r =? 0) then Ok (-1, Some d, o)
          else
            let! i := dictionary_probe d (Z.to_nat (d_n d)) (d_size d) in
            let (k', o) := xstrdup key o in
            let (v', o) := xstrdup val o in
            Ok (0, Some (Dict (u32 (d_n d + 1)) (d_size d) (<[i:=v']> (d_val d))
                              (<[i:=k']> (d_key d)) (<[i:=hash]> (d_hash d))), o)
      end
  | _, _ => Ok (-1, d, o)
  end.

Definition dictionary_unset (d : option dictionary) (key : option (list Z)) : option dictionary :=
  match d, key with
  | Some d, Some k =>
      let hash := dictionary_hash key in
      match dictionary_find d k hash with
      | None => Some d
      | Some i =>
          Some (Dict (u32 (d_n d - 1)) (d_size d) (<[i:=None]> (d_val d))
                     (<[i:=None]> (d_key d)) (<[i:=0]> (d_hash d)))
      end
  | _, _ => d
  end.

(** [%20s]: right-justified in a field of 20. *)
Definition pad_left (w : nat) (s : list Z) : list Z := replicate (w - length s) 32 ++ s.

Definition dump_slot (d : dictionary) (i : nat) : list Z :=
  match cell (d_key d) i with
  | None => []
  | Some k =>
      pad_left 20 k ++ [9] ++ str "["
        ++ match cell (d_val d) i with Some v => v | None => str "UNDEF" end ++ str "]" ++ [10]
  end.

Definition dictionary_dump (d : option dictionary) : list Z :=
  match d with
  | None => []
  | Some d =>
      if d_n d <? 1 then str "empty dictionary" ++ [10]
      else mjoin (dump_slot d <$> seq 0 (d_size d))
  end.

(** ** Invariant and abstraction *)

Fixpoint occupied {A} (l : list (option A)) : nat :=
  match l with
  | [] => 0
  | None :: l => occupied l
  | Some _ :: l => S (occupied l)
  end.

Record wf (d : dictionary) : Prop := {
  wf_key_len : length (d_key d) = d_size d;
  wf_val_len : length (d_val d) = d_size d;
  wf_hash_len : length (d_hash d) = d_size d;
  wf_pos : (0 < d_size d)%nat;
  wf_fits : Z.of_nat (d_size d) < 2 ^ 32;     (* n is an unsigned int *)
  wf_n : d_n d = Z.of_nat (occupied (d_key d));
  wf_hash : forall i k, cell (d_key d) i = Some k ->
            d_hash d !! i = Some (dictionary_hash (Some k));
  wf_inj : forall i j k, cell (d_key d) i = Some k -> cell (d_key d) j = Some k -> i = j
}.

(** The contents of a dictionary as a finite map; a key without a value (a
    section name) maps to [None]. *)
Definition models (d : dictionary) (m : gmap (list Z) (option (list Z))) : Prop :=
  forall k v, m !! k = Some v <->
              exists i, cell (d_key d) i = Some k /\ d_val d !! i = Some v.

(** What is left of the invariant when copies of keys may fail: [n] also counts
    the entries whose key was lost. *)
Record roomy (d : dictionary) : Prop := {
  roomy_key_len : length (d_key d) = d_size d;
  roomy_val_len : length (d_val d) = d_size d;
  roomy_hash_len : length (d_hash d) = d_size d;
  roomy_pos : (0 < d_size d)%nat;
  roomy_occupied : Z.of_nat (occupied (d_key d)) <= d_n d;
  roomy_n : d_n d <= Z.of_nat (d_size d)
}.

(** ** Traces of calls, run on a dictionary and on the map that specifies it *)

Inductive call : Type :=
  | CallSet (k : list Z) (v : option (list Z))
  | CallUnset (k : list Z)
  | CallGet (k : list Z) (def : cptr).

Definition is_set (c : call) : bool := match c with CallSet _ _ => true | _ => false end.

(** The results the caller sees: the status of a set, the pointer of a get. *)
Definition answer : Type := (Z + cptr)%type.

Fixpoint run_calls (cs : list call) (d : option dictionary) : res (list answer) :=
  match cs with
  | [] => Ok []
  | CallSet k v :: cs =>
      let! (r, d', _) := dictionary_set d (Some k) v [] in
      let! l := run_calls cs d' in Ok (inl r :: l)
  | CallUnset k :: cs => run_calls cs (dictionary_unset d (Some k))
  | CallGet k def :: cs =>
      let! l := run_calls cs d in Ok (inr (dictionary_get d (Some k) def) :: l)
  end.

Fixpoint spec_calls (cs : list call) (m : gmap (list Z) (option (list Z))) : list answer :=
  match cs with
  | [] => []
  | CallSet k v :: cs => inl 0 :: spec_calls cs (<[k:=v]> m)
  | CallUnset k :: cs => spec_calls cs (delete k m)
  | CallGet k def :: cs =>
      inr (match m !! k with Some v => ptr_of v | None => def end) :: spec_calls cs m
  end.

(** ** The interface the parser relies on *)

(** A table of strings: the calls iniparser.c makes and what they promise. *)
Class Store (D : Type) := {
  store_get : option D -> option (list Z) -> cptr -> cptr;
  store_set : option D -> option (list Z) -> option (list Z) -> list bool ->
              res (Z * option D * list bool);
  store_unset : option D -> option (list Z) -> option D
}.

Class StoreLaws (D : Type) `{Store D} := {
  store_rep : D -> gmap (list Z) (option (list Z)) -> Prop;
  store_room : D -> nat -> Prop;     (* room for so many more calls of set *)
  store_get_rep : forall d m k def, store_rep d m ->
    store_get (Some d) (Some k) def = match m !! k with Some v => ptr_of v | None => def end;
  store_get_no_table : forall k def, store_get None k def = def;
  store_get_no_key : forall d def, store_get d None def = def;
  store_set_rep : forall d m k v n, store_rep d m -> store_room d (S n) ->
    exists d', store_set (Some d) (Some k) v [] = Ok (0, Some d', []) /\
               store_rep d' (<[k:=v]> m) /\ store_room d' n;
  store_room_le : forall d n n', (n' <= n)%nat -> store_room d n -> store_room d n';
  store_set_null : forall d k v o, d = None \/ k = None -> store_set d k v o = Ok (-1, d, o);
  store_unset_rep : forall d m k, store_rep d m ->
    exists d', store_unset (Some d) (Some k) = Some d' /\ store_rep d' (delete k m)
}.

#[export] Instance dictionary_store : Store dictionary := {
  store_get := dictionary_get;
  store_set := dictionary_set;
  store_unset := dictionary_unset
}.

(** * Lemmas *)

Section Occupied.
Context {A : Type}.
Implicit Types (l : list (option A)).

Lemma occupied_le l : (occupied l <= length l)%nat.
Proof. induction l as [|[?|] l IH]; cbn; lia. Qed.

Lemma occupied_app l k : occupied (l ++ k) = (occupied l + occupied k)%nat.
Proof. induction l as [|[?|] l IH]; cbn; lia. Qed.

Lemma occupied_replicate n : occupied (replicate n (@None A)) = 0%nat.
Proof. induction n; cbn; done. Qed.

Lemma occupied_insert_Some l i (a : A) :
  l !! i = Some None -> occupied (<[i:=Some a]> l) = S (occupied l).
Proof.
  revert i. induction l as [|[?|] l IH]; intros [|i]; cbn; try done.
  - intros H. by rewrite IH.
  - intros H. by rewrite IH.
Qed.

Lemma occupied_insert_None l i (a : A) :
  l !! i = Some (Some a) -> S (occupied (<[i:=None]> l)) = occupied l.
Proof.
  revert i. induction l as [|[?|] l IH]; intros [|i]; cbn; try done.
  - intros H. by rewrite <- (IH i).
  - intros H. by rewrite <- (IH i).
Qed.

Lemma occupied_free l :
  (occupied l < length l)%nat -> exists i, (i < length l)%nat /\ l !! i = Some None.
Proof.
  induction l as [|[a|] l IH]; cbn; intros H; [lia| |exists 0%nat; split; [lia|done]].
  destruct IH as (i & Hi & E); [lia|]. exists (S i). split; [lia|done].
Qed.

Lemma occupied_zero l i : occupied l = 0%nat -> cell l i = None.
Proof.
  revert i. induction l as [|[a|] l IH]; intros [|i]; cbn; try done.
  intros H. by apply IH.
Qed.
End Occupied.

Section Dictionary.
Implicit Types (d : dictionary) (k : list Z) (m : gmap (list Z) (option (list Z))).

Lemma slot_matches_spec d k i :
  wf d ->
  slot_matches d k (dictionary_hash (Some k)) i = true <-> cell (d_key d) i = Some k.
Proof.
  intros W. unfold slot_matches. destruct (cell (d_key d) i) as [k'|] eqn:E; [|done].
  rewrite (wf_hash d W _ _ E). split.
  - destruct (_ =? _); [|done]. rewrite bool_decide_eq_true. congruence.
  - intros [= ->]. rewrite Z.eqb_refl. by rewrite bool_decide_eq_true.
Qed.

Lemma find_Some d k i :
  wf d ->
  dictionary_find d k (dictionary_hash (Some k)) = Some i <-> cell (d_key d) i = Some k.
Proof.
  intros W. unfold dictionary_find. split.
  - intros (_ & H & _)%find_first_Some. by apply slot_matches_spec.
  - intros H. apply find_first_unique.
    + apply cell_lt in H. rewrite (wf_key_len d W) in H. lia.
    + by apply slot_matches_spec.
    + intros j Hj. destruct (slot_matches _ _ _ j) eqn:E; [|done].
      apply slot_matches_spec in E; [|done].
      pose proof (wf_inj d W _ _ _ H E). lia.
Qed.

Lemma find_None d k :
  wf d ->
  dictionary_find d k (dictionary_hash (Some k)) = None <->
  forall i, cell (d_key d) i <> Some k.
Proof.
  intros W. split.
  - intros H i E. apply find_Some in E; [|done]. congruence.
  - intros H. destruct (dictionary_find _ _ _) as [i|] eqn:E; [|done].
    apply find_Some in E; [|done]. by destruct (H i).
Qed.

(** Lookups through the search and through the map agree. *)
Lemma models_find d m k :
  wf d -> models d m ->
  m !! k = match dictionary_find d k (dictionary_hash (Some k)) with
           | Some i => d_val d !! i
           | None => None
           end.
Proof.
  intros W M. destruct (dictionary_find _ _ _) as [i|] eqn:E.
  - apply find_Some in E; [|done].
    assert (i < d_size d)%nat as Hi by (rewrite <- (wf_key_len d W); by eapply cell_lt).
    rewrite <- (wf_val_len d W) in Hi. apply lookup_lt_is_Some in Hi as [v Hv].
    rewrite Hv. apply M. eauto.
  - rewrite find_None in E by done. apply eq_None_not_Some. intros [v Hv].
    apply M in Hv as (i & Hk & _). by apply (E i).
Qed.

Lemma models_find_None d m k :
  wf d -> models d m ->
  dictionary_find d k (dictionary_hash (Some k)) = None <-> m !! k = None.
Proof.
  intros W M. rewrite (models_find d m k W M).
  destruct (dictionary_find _ _ _) as [i|] eqn:E; [|done].
  apply find_Some in E; [|done]. apply cell_lt in E.
  rewrite (wf_key_len d W), <- (wf_val_len d W) in E.
  apply lookup_lt_is_Some in E as [v ->]. done.
Qed.

Lemma get_models d m k def :
  wf d -> models d m ->
  dictionary_get (Some d) (Some k) def =
    match m !! k with Some v => ptr_of v | None => def end.
Proof.
  intros W M. unfold dictionary_get.
  destruct (dictionary_find _ _ _) as [i|] eqn:E.
  - pose proof (models_find d m k W M) as H. rewrite E in H.
    apply find_Some in E; [|done]. apply cell_lt in E.
    rewrite (wf_key_len d W), <- (wf_val_len d W) in E.
    apply lookup_lt_is_Some in E as [v Hv]. unfold cell. rewrite Hv in *. by rewrite H.
  - apply (models_find_None d m k W M) in E. by rewrite E.
Qed.

(** The probe visits every cell from [i] on, so it stops at a free one. *)
Lemma probe_ok d : (occupied (d_key d) < d_size d)%nat -> length (d_key d) = d_size d ->
  forall i, (i < d_size d)%nat ->
  exists j, dictionary_probe d i (d_size d) = Ok j /\ d_key d !! j = Some None.
Proof.
  intros Hocc Hlen i Hi.
  destruct (occupied_free (d_key d)) as (j & Hj & Ej); [lia|]. rewrite Hlen in Hj.
  assert (forall fuel i, (i < d_size d)%nat ->
    ((if decide (i <= j) then j - i else j + d_size d - i) <= fuel)%nat ->
    exists j, dictionary_probe d i fuel = Ok j /\ d_key d !! j = Some None) as Hgo.
  { induction fuel as [|f IH]; intros a Ha Hd; cbn [dictionary_probe].
    - destruct (d_key d !! a) as [[s|]|] eqn:E.
      + case_decide; [|lia]. assert (a = j) as -> by lia. congruence.
      + eauto.
      + apply lookup_ge_None in E. lia.
    - destruct (d_key d !! a) as [[s|]|] eqn:E; [| by eauto | apply lookup_ge_None in E; lia].
      assert (a <> j) by congruence.
      destruct (Nat.eqb_spec (S a) (d_size d)); apply IH;
        repeat case_decide; lia. }
  apply Hgo; [done|]. case_decide; lia.
Qed.

Lemma wf_empty size :
  (0 < size)%nat -> Z.of_nat size < 2 ^ 32 -> wf (empty_dictionary size).
Proof.
  intros H H'. constructor; cbn; rewrite ?length_replicate; try done.
  - by rewrite occupied_replicate.
  - intros i k. rewrite occupied_zero by apply occupied_replicate. done.
  - intros i j k. rewrite occupied_zero by apply occupied_replicate. done.
Qed.

Lemma models_empty size : models (empty_dictionary size) ∅.
Proof.
  intros k v. rewrite lookup_empty. split; [done|]. intros (i & H & _). cbn in H.
  by rewrite occupied_zero in H by apply occupied_replicate.
Qed.

(** Growing keeps the entries where they are. *)
Lemma grow_lookup d o d' o' :
  wf d -> Z.of_nat (d_size d) < 2 ^ 31 -> dictionary_grow d o = (0, d', o') ->
  wf d' /\ d_n d' = d_n d /\ d_size d' = (d_size d * 2)%nat /\
  (forall m, models d m -> models d' m) /\
  (forall i, cell (d_key d') i = cell (d_key d) i).
Proof.
  intros W Hsz. unfold dictionary_grow.
  destruct (alloc o) as [b1 o1], (alloc o1) as [b2 o2], (alloc o2) as [b3 o3].
  destruct (negb b1 || negb b2 || negb b3); [done|]. intros [= <- <-].
  rewrite !take_ge by (rewrite ?(wf_key_len d W), ?(wf_val_len d W), ?(wf_hash_len d W); lia).
  pose proof W as [Hk Hv Hh Hp Hf Hn Hha Hin].
  assert (forall i, cell (d_key d ++ replicate (d_size d) None) i = cell (d_key d) i) as Hc.
  { intros i. unfold cell. destruct (decide (i < length (d_key d))%nat).
    - by rewrite lookup_app_l.
    - rewrite lookup_app_r by lia. rewrite (lookup_ge_None_2 (d_key d)) by lia.
      destruct (replicate _ _ !! _) as [x|] eqn:E; [|done].
      apply lookup_replicate in E as [-> _]. done. }
  split_and!; cbn; auto.
  - constructor; cbn; rewrite ?length_app, ?length_replicate; try lia.
    + rewrite occupied_app, occupied_replicate. lia.
    + intros i k. rewrite Hc. intros E. rewrite lookup_app_l; [by apply Hha|].
      apply cell_lt in E. lia.
    + intros i j k. rewrite !Hc. apply Hin.
  - intros m M k v. rewrite (M k v). split; intros (i & H1 & H2); exists i; cbn in *.
    + rewrite Hc. split; [done|]. rewrite lookup_app_l; [done|].
      apply lookup_lt_Some in H2. lia.
    + rewrite Hc in H1. split; [done|]. apply cell_lt in H1 as H3.
      rewrite lookup_app_l in H2 by lia. done.
Qed.

(** Replacing the value of a used cell. *)
Lemma replace_models d m i k v :
  wf d -> models d m -> cell (d_key d) i = Some k ->
  let d' := Dict (d_n d) (d_size d) (<[i:=v]> (d_val d)) (d_key d) (d_hash d) in
  wf d' /\ models d' (<[k:=v]> m).
Proof.
  intros W M E. pose proof W as [Hk Hv Hh Hp Hf Hn Hha Hin].
  assert (i < length (d_val d))%nat as Hi by (apply cell_lt in E; lia). split.
  - constructor; cbn; rewrite ?length_insert; auto.
  - intros k' v'. cbn. destruct (decide (k = k')) as [<-|Hne].
    + rewrite lookup_insert_eq. split.
      * intros [= <-]. exists i. by rewrite list_lookup_insert_eq.
      * intros (j & Hj & Hvj). rewrite (Hin _ _ _ Hj E) in Hvj.
        rewrite list_lookup_insert_eq in Hvj; congruence.
    + rewrite lookup_insert_ne by done. rewrite (M k' v').
      split; intros (j & Hj & Hvj); exists j; (split; [done|]).
      * rewrite list_lookup_insert_ne; [done|]. intros ->. congruence.
      * rewrite list_lookup_insert_ne in Hvj; [done|]. intros ->. congruence.
Qed.

(** Filling a free cell with a key the map does not have. *)
Lemma fill_models d m i k v :
  wf d -> models d m -> d_key d !! i = Some None -> m !! k = None ->
  d_n d + 1 < 2 ^ 32 ->
  let d' := Dict (u32 (d_n d + 1)) (d_size d) (<[i:=v]> (d_val d))
              (<[i:=Some k]> (d_key d)) (<[i:=dictionary_hash (Some k)]> (d_hash d)) in
  wf d' /\ models d' (<[k:=v]> m).
Proof.
  intros W M E Hm Hn32. pose proof W as [Hk Hv Hh Hp Hf Hn Hha Hin].
  apply lookup_lt_Some in E as Hi.
  assert (forall j, cell (d_key d) j <> Some k) as Hnk.
  { apply find_None; [done|]. by apply (models_find_None d m). }
  split.
  - constructor; cbn; rewrite ?length_insert; auto.
    + rewrite occupied_insert_Some by done. rewrite wrap_small by lia. lia.
    + intros j k'. rewrite cell_insert by done. case_decide as Hij.
      * intros [= <-]. subst j. rewrite list_lookup_insert_eq by lia. done.
      * rewrite list_lookup_insert_ne by done. apply Hha.
    + intros a b k'. rewrite !cell_insert by done. repeat case_decide; subst; try done.
      * intros [= <-] H2. by destruct (Hnk b).
      * intros H2 [= <-]. by destruct (Hnk a).
      * apply Hin.
  - intros k' v'. cbn. destruct (decide (k = k')) as [<-|Hne].
    + rewrite lookup_insert_eq. split.
      * intros [= <-]. exists i. rewrite cell_insert, decide_True by done.
        rewrite list_lookup_insert_eq by lia. done.
      * intros (j & Hj & Hvj). rewrite cell_insert in Hj by done. case_decide; subst.
        -- rewrite list_lookup_insert_eq in Hvj by lia. congruence.
        -- by destruct (Hnk j).
    + rewrite lookup_insert_ne by done. rewrite (M k' v').
      split; intros (j & Hj & Hvj); exists j.
      * assert (i <> j).
        { intros ->. unfold cell in Hj. rewrite E in Hj. done. }
        rewrite cell_insert, decide_False, list_lookup_insert_ne by done. done.
      * rewrite cell_insert in Hj by done. case_decide; [congruence|].
        by rewrite list_lookup_insert_ne in Hvj by done.
Qed.
End Dictionary.

Section Operations.
Implicit Types (d : dictionary) (k : list Z) (m : gmap (list Z) (option (list Z))).

Lemma xstrdup_nil v : xstrdup v [] = (v, []).
Proof. by destruct v. Qed.

Lemma n_zero_find d k :
  wf d ->
  (if 0 <? d_n d then dictionary_find d k (dictionary_hash (Some k)) else None) =
  dictionary_find d k (dictionary_hash (Some k)).
Proof.
  intros W. destruct (Z.ltb_spec 0 (d_n d)); [done|]. symmetry. apply find_None; [done|].
  intros i. rewrite occupied_zero; [done|]. rewrite (wf_n d W) in *. lia.
Qed.

(** What dictionary_set does when its allocations succeed. *)
Lemma set_models d m k v :
  wf d -> models d m -> Z.of_nat (d_size d) < 2 ^ 31 ->
  exists d', dictionary_set (Some d) (Some k) v [] = Ok (0, Some d', []) /\
    wf d' /\ models d' (<[k:=v]> m) /\
    (d_size d' = d_size d \/ d_size d' = 2 * occupied (d_key d))%nat /\
    (occupied (d_key d') <= S (occupied (d_key d)))%nat.
Proof.
  intros W M Hsz. unfold dictionary_set. rewrite n_zero_find by done.
  destruct (dictionary_find _ _ _) as [i|] eqn:F.
  - apply find_Some in F; [|done]. rewrite xstrdup_nil.
    destruct (replace_models d m i k v W M F) as [W' M'].
    eexists. split; [reflexivity|]. cbn. split_and!; auto with lia.
  - apply (models_find_None d m k W M) in F.
    pose proof (wf_n d W) as Hn. pose proof (wf_pos d W) as Hp.
    pose proof (occupied_le (d_key d)) as Hle. rewrite (wf_key_len d W) in Hle.
    assert (exists d1, (if d_n d =? Z.of_nat (d_size d) then dictionary_grow d []
                        else (0, d, [])) = (0, d1, []) /\ wf d1 /\ models d1 m /\
              d_n d1 = d_n d /\ (occupied (d_key d1) < d_size d1)%nat /\
              (d_size d1 = d_size d \/ d_size d1 = 2 * occupied (d_key d))%nat)
      as (d1 & -> & W1 & M1 & Hn1 & Hocc & Hs1).
    { destruct (Z.eqb_spec (d_n d) (Z.of_nat (d_size d))) as [E|E].
      - destruct (dictionary_grow d []) as [[r d1] o1] eqn:G.
        assert (r = 0 /\ o1 = []) as [-> ->] by (revert G; cbn; naive_solver).
        destruct (grow_lookup _ _ _ _ W Hsz G) as (W1 & Hn1 & Hs1 & M1 & _).
        pose proof (wf_n d1 W1). exists d1. split_and!; auto; lia.
      - exists d. split_and!; auto. lia. }
    cbn [negb Z.eqb]. rewrite Hn1, Hn, Nat2Z.id.
    assert (occupied (d_key d) = occupied (d_key d1)) as Eo.
    { pose proof (wf_n d1 W1). lia. }
    destruct (probe_ok d1 Hocc (wf_key_len d1 W1) (occupied (d_key d))) as (j & -> & Ej); [lia|].
    cbn [res_bind]. cbn [xstrdup alloc]. rewrite xstrdup_nil.
    destruct (fill_models d1 m j k v W1 M1 Ej F) as [W' M'].
    { rewrite Hn1, Hn. lia. }
    rewrite Hn1, Hn in *.
    eexists. split; [reflexivity|]. split_and!; auto. cbn.
    rewrite occupied_insert_Some by done. lia.
Qed.

Lemma unset_models d m k :
  wf d -> models d m ->
  exists d', dictionary_unset (Some d) (Some k) = Some d' /\ wf d' /\
    models d' (delete k m) /\ d_size d' = d_size d /\
    (occupied (d_key d') <= occupied (d_key d))%nat.
Proof.
  intros W M. unfold dictionary_unset. pose proof W as [Hk Hv Hh Hp Hf Hn Hha Hin].
  destruct (dictionary_find _ _ _) as [i|] eqn:F.
  - apply find_Some in F as E; [|done]. pose proof E as E'. apply cell_Some in E'.
    apply lookup_lt_Some in E' as Hi.
    pose proof (occupied_insert_None _ _ _ E') as Ho.
    eexists. split; [reflexivity|]. split_and!; cbn; try lia.
    + constructor; cbn; rewrite ?length_insert; auto.
      * pose proof (occupied_le (d_key d)). rewrite wrap_small; [lia|].
        lia.
      * intros j k'. rewrite cell_insert by done. case_decide; [done|].
        intros. rewrite list_lookup_insert_ne by done. by apply Hha.
      * intros a b k'. rewrite !cell_insert by done. repeat case_decide; try done. apply Hin.
    + intros k' v'. cbn. destruct (decide (k = k')) as [<-|Hne].
      * rewrite lookup_delete_eq. split; [done|]. intros (j & Hj & _).
        rewrite cell_insert in Hj by done. case_decide; [done|]. by pose proof (Hin _ _ _ Hj E).
      * rewrite lookup_delete_ne by done. rewrite (M k' v').
        split; intros (j & Hj & Hvj); exists j.
        -- assert (i <> j) by (intros ->; congruence).
           rewrite cell_insert, decide_False, list_lookup_insert_ne by done. done.
        -- rewrite cell_insert in Hj by done. case_decide; [done|].
           by rewrite list_lookup_insert_ne in Hvj by done.
  - apply (models_find_None d m k W M) in F. exists d. rewrite delete_id by done. auto.
Qed.
End Operations.

Section Returns.
Implicit Types (d : dictionary) (k : list Z).

Lemma wf_roomy d : wf d -> roomy d.
Proof.
  intros [Hk Hv Hh Hp Hf Hn Hha Hin]. pose proof (occupied_le (d_key d)). constructor; auto; lia.
Qed.

Lemma occupied_insert_le {A} (l : list (option A)) i x : (occupied (<[i:=x]> l) <= S (occupied l))%nat.
Proof.
  revert i. induction l as [|[a|] l IH]; intros [|i]; try (destruct x; cbn; lia).
  - change (S (occupied (<[i:=x]> l)) <= S (S (occupied l)))%nat. specialize (IH i). lia.
  - cbn. apply IH.
Qed.

Lemma grow_roomy d o :
  roomy d -> exists r d' o', dictionary_grow d o = (r, d', o') /\
    (r = 0 /\ roomy d' /\ d_n d' = d_n d /\ d_size d' = (2 * d_size d)%nat \/ r = -1 /\ d' = d).
Proof.
  intros [Hk Hv Hh Hp Ho Hn]. unfold dictionary_grow.
  destruct (alloc o) as [b1 o1], (alloc o1) as [b2 o2], (alloc o2) as [b3 o3].
  destruct (negb b1 || negb b2 || negb b3); eexists _, _, _; (split; [reflexivity|]); [by right|left].
  rewrite !take_ge by lia. split_and!; cbn; [done| |done|lia].
  constructor; cbn; rewrite ?length_app, ?length_replicate; try lia.
  rewrite occupied_app, occupied_replicate. lia.
Qed.

(** Whatever the allocator does, dictionary_set returns; it fails only when the table cannot grow. *)
Lemma set_returns d k v o :
  roomy d -> Z.of_nat (d_size d) < 2 ^ 31 ->
  exists r d' o', dictionary_set (Some d) (Some k) v o = Ok (r, Some d', o') /\ roomy d' /\
    d_n d' <= d_n d + 1 /\
    (d_size d' = d_size d \/ Z.of_nat (d_size d') = 2 * d_n d) /\ (r = 0 \/ r = -1 /\ d' = d).
Proof.
  intros R Hsz. unfold dictionary_set. pose proof R as [Hk Hv Hh Hp Ho Hn].
  destruct (if 0 <? d_n d then _ else None) as [i|].
  { destruct (xstrdup v o) as [v' o']. eexists 0, _, o'. split; [done|]. split_and!; cbn; auto; [|lia].
    constructor; cbn; rewrite ?length_insert; auto. }
  assert (exists r d1 o1,
    (if d_n d =? Z.of_nat (d_size d) then dictionary_grow d o else (0, d, o)) = (r, d1, o1)
      /\ (r = 0 /\ roomy d1 /\ d_n d1 = d_n d /\ d_n d < Z.of_nat (d_size d1) /\
            (d_size d1 = d_size d \/ Z.of_nat (d_size d1) = 2 * d_n d) \/ r = -1 /\ d1 = d))
    as (r & d1 & o1 & -> & Hr).
  { destruct (Z.eqb_spec (d_n d) (Z.of_nat (d_size d))).
    - destruct (grow_roomy d o R) as (r & d1 & o1 & E & [(-> & ? & ? & ?)|[-> ->]]); eexists _, _, _;
        (split; [exact E|]); [left; split_and!; auto; lia|by right].
    - exists 0, d, o. split; [done|]. left. split_and!; auto; lia. }
  destruct Hr as [(-> & [Hk1 Hv1 Hh1 Hp1 Ho1 Hn1] & En & Hlt & Hs)|[-> ->]]; cbn [negb Z.eqb].
  - destruct (probe_ok d1 ltac:(lia) Hk1 (Z.to_nat (d_n d1)) ltac:(lia)) as (j & -> & _). cbn [res_bind].
    destruct (xstrdup (Some k) o1) as [k' o2], (xstrdup v o2) as [v' o3].
    eexists 0, _, o3. split; [done|]. cbn. rewrite wrap_small by lia. split_and!; auto; try lia.
    pose proof (occupied_insert_le (d_key d1) j k').
    constructor; cbn; rewrite ?length_insert; auto; lia.
  - exists (-1), d, o1. split_and!; auto. lia.
Qed.

Lemma unset_roomy d k : roomy d -> Z.of_nat (d_size d) < 2 ^ 31 ->
  exists d', dictionary_unset (Some d) (Some k) = Some d' /\ roomy d' /\ d_n d' <= d_n d /\ d_size d' = d_size d.
Proof.
  intros R Hsz. pose proof R as [Hk Hv Hh Hp Ho Hn]. unfold dictionary_unset.
  destruct (dictionary_find _ _ _) as [i|] eqn:F; [|exists d; split_and!; auto; lia].
  eexists. split; [done|]. cbn.
  apply find_first_Some in F as (_ & F & _). unfold slot_matches in F.
  destruct (cell (d_key d) i) as [k'|] eqn:E; [|done]. apply cell_Some in E.
  pose proof (occupied_insert_None _ _ _ E). rewrite wrap_small by lia. split_and!; auto; [|lia].
  constructor; cbn; rewrite ?length_insert; auto; rewrite ?wrap_small; lia.
Qed.
End Returns.

#[export] Instance dictionary_store_laws : StoreLaws dictionary.
Proof.
  refine {| store_rep d m := wf d /\ models d m;
            store_room d n := Z.of_nat (d_size d) < 2 ^ 30 /\
                              Z.of_nat (occupied (d_key d) + n) < 2 ^ 29 |}.
  - intros d m k def [W M]. by apply get_models.
  - done.
  - by intros [?|].
  - intros d m k v n [W M] [Hs Hn].
    destruct (set_models d m k v W M) as (d' & E & W' & M' & Hs' & Ho'); [lia|].
    exists d'. split_and!; try done; lia.
  - intros d n n' Hle [Hs Hn]. split; [done|lia].
  - intros d k v o [->| ->]; [done|]. by destruct d.
  - intros d m k [W M]. destruct (unset_models d m k W M) as (d' & E & W' & M' & _).
    exists d'. done.
Defined.

(** The number of cells never exceeds the larger of 128 and twice the number of
    sets made so far. *)
Lemma run_calls_spec cs :
  forall d m c, wf d -> models d m ->
  (d_size d <= DICTMINSZ + 2 * c)%nat -> (occupied (d_key d) <= c)%nat ->
  Z.of_nat (c + length (filter (fun x => is_set x) cs)) < 2 ^ 29 ->
  run_calls cs (Some d) = Ok (spec_calls cs m).
Proof.
  induction cs as [|[k v|k|k def] cs IH]; intros d m c W M Hs Ho Hc; cbn; [done|..].
  - rewrite filter_cons_True in Hc by done. cbn in Hc.
    destruct (set_models d m k v W M) as (d' & E & W' & M' & Hs' & Ho').
    { unfold DICTMINSZ in *. lia. }
    cbn in E. rewrite E. cbn. rewrite (IH d' _ (S c) W' M'); [done|lia..].
  - rewrite filter_cons_False in Hc by naive_solver.
    destruct (unset_models d m k W M) as (d' & E & W' & M' & Hs' & Ho').
    cbn in E. rewrite E. apply (IH d' _ c); auto; lia.
  - rewrite filter_cons_False in Hc by naive_solver.
    pose proof (get_models d m k def W M) as E. cbn in E. rewrite E.
    rewrite (IH d m c W M); auto.
Qed.

Lemma dictionary_new_ok size :
  Z.of_nat size < 2 ^ 32 ->
  exists d, dictionary_new size [] = Ok (NewOk d, []) /\ wf d /\ models d ∅
      /\ d_size d = Nat.max size DICTMINSZ /\ occupied (d_key d) = 0%nat.
Proof.
  intros H. exists (empty_dictionary (Nat.max size DICTMINSZ)). unfold dictionary_new.
  set (size' := if (size <? DICTMINSZ)%nat then DICTMINSZ else size).
  assert (size' = Nat.max size DICTMINSZ) as ->.
  { unfold size'. destruct (Nat.ltb_spec size DICTMINSZ); lia. }
  unfold DICTMINSZ in *. cbn [alloc negb orb].
  destruct (Nat.eqb_spec (Nat.max size 128) 0); [lia|]. cbn.
  split_and!; auto using models_empty.
  - apply wf_empty; lia.
  - apply occupied_replicate.
Qed.

(** * Properties *)

(** C2. A dictionary made by dictionary_new(0) behaves, through any sequence of
    dictionary_set, dictionary_unset and dictionary_get calls with fewer than
    2^29 sets, exactly like a finite map: every set reports success, every get
    returns the value of the last set of that key, or the default, whatever
    the hashes, the collisions, the holes left by unset and the growths. *)
Theorem dictionary_refines_map cs d :
  dictionary_new 0 [] = Ok (NewOk d, []) ->
  Z.of_nat (length (filter (fun x => is_set x) cs)) < 2 ^ 29 ->
  run_calls cs (Some d) = Ok (spec_calls cs ∅).
Proof.
  intros Hn Hc. destruct (dictionary_new_ok 0) as (d' & E & W & M & Hs & Ho); [lia|].
  rewrite E in Hn. injection Hn as <-. apply (run_calls_spec cs d' ∅ 0); auto; lia.
Qed.

Lemma dictionary_refines_map_witness :
  exists d, dictionary_new 0 [] = Ok (NewOk d, [])
      /\ run_calls [CallSet (str "a:b") (Some (str "1")); CallGet (str "a:b") Null;
               CallUnset (str "a:b"); CallGet (str "a:b") Sentinel] (Some d)
    = Ok [inl 0; inr (Str (str "1")); inr Sentinel].
Proof.
  exists (empty_dictionary 128). split; [reflexivity|].
  rewrite (dictionary_refines_map _ (empty_dictionary 128)); [|reflexivity|vm_compute; reflexivity].
  vm_compute. reflexivity.
Defined.

(** dictionary_set under any allocator: the call always returns (the search
    for a free cell ends and stays inside the arrays), and when it reports a
    failure (-1) the dictionary is the one it was given. *)
Lemma dictionary_set_failure_atomic d k v o :
  wf d -> Z.of_nat (d_size d) < 2 ^ 31 ->
  exists r d' o', dictionary_set (Some d) (Some k) v o = Ok (r, Some d', o')
      /\ (r = 0 \/ r = -1) /\ (r = -1 -> d' = d).
Proof.
  intros W Hsz. destruct (set_returns d k v o (wf_roomy d W) Hsz) as (r & d' & o' & E & _ & _ & _ & [->|[-> ->]]);
    eexists _, _, _; (split; [exact E|]); auto.
  split; [by left|done].
Qed.

Lemma dictionary_set_failure_atomic_witness :
  exists r d' o', dictionary_set (Some (Dict 1 1 [None] [Some (str "a")] [3392050242]))
                    (Some (str "b")) None [true; false; true] = Ok (r, Some d', o')
    /\ (r = 0 \/ r = -1) /\ (r = -1 -> d' = Dict 1 1 [None] [Some (str "a")] [3392050242]).
Proof.
  apply dictionary_set_failure_atomic; [|vm_compute; reflexivity].
  assert (forall i k, cell [Some (str "a")] i = Some k -> i = 0%nat /\ k = str "a") as H.
  { intros [|i] k; cbn; [intros [= <-]; auto|]. destruct i; done. }
  constructor; cbn; try lia.
  - intros i k E. apply H in E as [-> ->]. vm_compute. reflexivity.
  - intros i j k Ei Ej. apply H in Ei as [-> _], Ej as [-> _]. reflexivity.
Defined.

(** When the copy of a new key cannot be allocated, dictionary_set still
    reports success and counts an entry, but the key is not stored: a get
    returns the default. *)
Lemma dictionary_set_lost_key d m k v def :
  wf d -> models d m -> m !! k = None -> d_n d < Z.of_nat (d_size d) ->
  exists d', dictionary_set (Some d) (Some k) v [false] = Ok (0, Some d', [])
      /\ d_n d' = d_n d + 1 /\ occupied (d_key d') = occupied (d_key d)
      /\ dictionary_get (Some d') (Some k) def = def.
Proof.
  intros W M Hm Hlt. unfold dictionary_set. rewrite n_zero_find by done.
  pose proof (models_find_None d m k W M) as F. rewrite Hm in F.
  rewrite (proj2 F) by done. clear F.
  destruct (Z.eqb_spec (d_n d) (Z.of_nat (d_size d))); [lia|]. cbn [negb Z.eqb].
  pose proof (wf_n d W) as Hn. pose proof (wf_fits d W) as Hf.
  destruct (probe_ok d) with (i := Z.to_nat (d_n d)) as (j & -> & Ej);
    [lia|apply (wf_key_len d W)|lia|].
  cbn [res_bind xstrdup alloc]. rewrite xstrdup_nil.
  eexists. split; [reflexivity|]. cbn.
  rewrite wrap_small by lia. rewrite (list_insert_id (d_key d)) by done.
  split_and!; auto. unfold dictionary_find. cbn.
  destruct (find_first _ _ _) as [i|] eqn:E; [|done].
  apply find_first_Some in E as (_ & E & _). unfold slot_matches in E. cbn in E.
  pose proof (models_find_None d m k W M) as [_ F]. specialize (F Hm).
  rewrite find_None in F by done.
  destruct (cell (d_key d) i) as [k'|] eqn:Ek; [|done].
  destruct (<[j:=_]> (d_hash d) !! i) as [h|]; [|done].
  destruct (_ =? h); [|done]. rewrite bool_decide_eq_true in E. subst. by destruct (F i).
Qed.

Lemma dictionary_set_lost_key_witness :
  exists d', dictionary_set (Some (empty_dictionary 128)) (Some (str "k")) (Some (str "v")) [false]
               = Ok (0, Some d', [])
      /\ d_n d' = 1 /\ occupied (d_key d') = 0%nat
      /\ dictionary_get (Some d') (Some (str "k")) Sentinel = Sentinel.
Proof.
  apply (dictionary_set_lost_key (empty_dictionary 128) ∅ (str "k") (Some (str "v")) Sentinel).
  - apply wf_empty; lia.
  - apply models_empty.
  - apply lookup_empty.
  - vm_compute. reflexivity.
Defined.
