(* ===== verification/DictionaryHeap.v ===== *)
(** iniparser-main/dictionary.c once more, with its memory: every string that the table
    holds is a block that was allocated, and dictionary_set, _unset, _del and _grow free
    what they replace.

    A block holds the text of a string; the struct and its three arrays are blocks too,
    whose contents are the fields of [pdict].  Addresses are not used twice, so that
    every access to a block that was freed is seen.  Each operation is proved to follow
    the one of Dictionary.v on the table it represents ([repr]), and the ledger [owns]
    accounts for every block: those of the caller, those of the table, and those that
    were lost. *)

From S2P Require Import Prelude Dictionary.

Open Scope c_scope.
Open Scope Z_scope.

(** ** Memory *)

Abbreviation ptr := Z (only parsing).
Abbreviation blocks := (gmap Z (list Z)) (only parsing).

Record Mem : Type := MkMem { heap : gmap ptr (list Z); brk : ptr; oracle : list bool }.

Definition malloc (s : list Z) : ST Mem (option ptr) := fun m =>
  let (ok, o) := alloc (oracle m) in
  if ok then Ok (Some (brk m), MkMem (<[brk m:=s]> (heap m)) (brk m + 1) o)
  else Ok (None, MkMem (heap m) (brk m) o).

Definition free (p : option ptr) : ST Mem unit := fun m =>
  match p with
  | None => Ok (tt, m)
  | Some p =>
      match heap m !! p with
      | Some _ => Ok (tt, MkMem (delete p (heap m)) (brk m) (oracle m))
      | None => Ub BadFree
      end
  end.

(** The string at an address. *)
Definition text (p : ptr) : ST Mem (list Z) := fun m =>
  match heap m !! p with Some s => Ok (s, m) | None => Ub UseAfterFree end.

(** ** The operations *)

Record pdict : Type := PDict {
  p_n : Z;
  p_size : nat;
  p_val : list (option ptr);
  p_key : list (option ptr);
  p_hash : list Z;
  p_vals : ptr; p_keys : ptr; p_hashes : ptr;   (* the blocks of the arrays *)
  p_self : ptr                                  (* the block of the struct *)
}.

Definition set_cell (i : nat) (k v : option ptr) (n h : Z) (d : pdict) : pdict :=
  PDict n (p_size d) (<[i:=v]> (p_val d)) (<[i:=k]> (p_key d)) (<[i:=h]> (p_hash d))
    (p_vals d) (p_keys d) (p_hashes d) (p_self d).

Definition set_val (i : nat) (v : option ptr) (d : pdict) : pdict :=
  PDict (p_n d) (p_size d) (<[i:=v]> (p_val d)) (p_key d) (p_hash d)
    (p_vals d) (p_keys d) (p_hashes d) (p_self d).

Definition xstrdup (s : option ptr) : ST Mem (option ptr) :=
  match s with None => mret None | Some p => t ← text p; malloc t end.

Definition dictionary_grow (d : pdict) : ST Mem (Z * pdict) :=
  new_val ← malloc [];
  new_key ← malloc [];
  new_hash ← malloc [];
  match new_val, new_key, new_hash with
  | Some v, Some k, Some h =>
      free (Some (p_vals d));;
      free (Some (p_keys d));;
      free (Some (p_hashes d));;
      mret (0, PDict (p_n d) (p_size d * 2)
                 (take (p_size d) (p_val d) ++ replicate (p_size d) None)
                 (take (p_size d) (p_key d) ++ replicate (p_size d) None)
                 (take (p_size d) (p_hash d) ++ replicate (p_size d) 0) v k h (p_self d))
  | _, _, _ => free new_val;; free new_key;; free new_hash;; mret (-1, d)
  end.

(** NULL, or a table whose key array is NULL, or a table. *)
Inductive new_result : Type := NewNull | NewNoKey | NewOk (d : pdict).

Definition dictionary_new (size : nat) : ST Mem new_result :=
  let size := if (size <? DICTMINSZ)%nat then DICTMINSZ else size in
  d ← malloc [];
  match d with
  | None => mret NewNull
  | Some d =>
      val ← malloc [];
      key ← malloc [];
      hash ← malloc [];
      match val, hash with
      | Some v, Some h =>
          match key with
          | Some k => mret (NewOk (PDict 0 size (replicate size None) (replicate size None)
                                     (replicate size 0) v k h d))
          | None => mret NewNoKey
          end
      | _, _ => fault BadFree     (* free((void * ) d->size) *)
      end
  end.

Fixpoint del_loop (d : pdict) (i fuel : nat) : ST Mem unit :=
  match fuel with
  | O => mret tt
  | S f => free (cell (p_key d) i);; free (cell (p_val d) i);; del_loop d (S i) f
  end.

Definition dictionary_del (d : option pdict) : ST Mem unit :=
  match d with
  | None => mret tt
  | Some d =>
      del_loop d 0 (p_size d);;
      free (Some (p_vals d));; free (Some (p_keys d));; free (Some (p_hashes d));; free (Some (p_self d))
  end.

Definition iniparser_freedict (d : option pdict) : ST Mem unit := dictionary_del d.

(** The test of the search loops: NULL, then the hashes, then strcmp. *)
Definition slot_matches (d : pdict) (key : ptr) (hash : Z) (i : nat) : ST Mem bool :=
  match cell (p_key d) i with
  | None => mret false
  | Some k =>
      match p_hash d !! i with
      | None => fault OobRead
      | Some h => if hash =? h then s ← text key; t ← text k; mret (bool_decide (s = t)) else mret false
      end
  end.

Fixpoint find_loop (d : pdict) (key : ptr) (hash : Z) (i fuel : nat) : ST Mem (option nat) :=
  match fuel with
  | O => mret None
  | S f => b ← slot_matches d key hash i; if (b : bool) then mret (Some i) else find_loop d key hash (S i) f
  end.

Definition dictionary_find (d : pdict) (key : ptr) (hash : Z) : ST Mem (option nat) :=
  find_loop d key hash 0 (p_size d).

Definition dictionary_get (d : option pdict) (key def : option ptr) : ST Mem (option ptr) :=
  match d, key with
  | Some d, Some key =>
      s ← text key;
      r ← dictionary_find d key (dictionary_hash (Some s));
      mret (match r with Some i => cell (p_val d) i | None => def end)
  | _, _ => mret def
  end.

Fixpoint dictionary_probe (d : pdict) (i fuel : nat) : res nat :=
  match p_key d !! i with
  | None => Ub OobRead
  | Some None => Ok i
  | Some (Some _) =>
      match fuel with
      | O => Ub NoReturn
      | S f => dictionary_probe d (if (S i =? p_size d)%nat then 0%nat else S i) f
      end
  end.

(** The free cell receives copies; what its value held is overwritten. *)
Definition add_entry (d : pdict) (key : ptr) (val : option ptr) (hash : Z) : ST Mem (Z * option pdict) :=
  i ← lift (dictionary_probe d (Z.to_nat (p_n d)) (p_size d));
  k ← xstrdup (Some key);
  v ← xstrdup val;
  mret (0, Some (set_cell i k v (u32 (p_n d + 1)) hash d)).

Definition dictionary_set (d : option pdict) (key val : option ptr) : ST Mem (Z * option pdict) :=
  match d, key with
  | Some d, Some key =>
      s ← text key;
      let hash := dictionary_hash (Some s) in
      r ← (if 0 <? p_n d then dictionary_find d key hash else mret None);
      match r with
      | Some i =>
          free (cell (p_val d) i);;
          v ← xstrdup val;
          mret (0, Some (set_val i v d))
      | None =>
          '(r, d) ← (if p_n d =? Z.of_nat (p_size d) then dictionary_grow d else mret (0, d));
          if negb (r =? 0) then mret (-1, Some d) else add_entry d key val hash
      end
  | _, _ => mret (-1, d)
  end.

Definition dictionary_unset (d : option pdict) (key : option ptr) : ST Mem (option pdict) :=
  match d, key with
  | Some d, Some key =>
      s ← text key;
      r ← dictionary_find d key (dictionary_hash (Some s));
      match r with
      | None => mret (Some d)
      | Some i =>
          free (cell (p_key d) i);;
          free (cell (p_val d) i);;
          mret (Some (set_cell i None None (u32 (p_n d - 1)) 0 d))
      end
  | _, _ => mret d
  end.

(** ** A caller: a table is made, used and deleted *)

Inductive pcall : Type :=
  | PSet (k : ptr) (v : option ptr)
  | PUnset (k : ptr)
  | PGet (k : ptr) (def : option ptr).

(** The caller reads the string it gets at once. *)
Definition show (p : option ptr) : ST Mem cptr :=
  match p with None => mret Null | Some p => Str <$> text p end.

Fixpoint run (cs : list pcall) (d : option pdict) : ST Mem (list answer * option pdict) :=
  match cs with
  | [] => mret ([], d)
  | PSet k v :: cs =>
      '(r, d) ← dictionary_set d (Some k) v;
      '(l, d) ← run cs d;
      mret (inl r :: l, d)
  | PUnset k :: cs => d ← dictionary_unset d (Some k); run cs d
  | PGet k def :: cs =>
      p ← dictionary_get d (Some k) def;
      a ← show p;
      '(l, d) ← run cs d;
      mret (inr a :: l, d)
  end.

(** A caller that gives up when there is no dictionary.  Without a key array every call reads a
    key through NULL, dictionary_del too. *)
Definition session (cs : list pcall) : ST Mem (option (list answer)) :=
  d ← dictionary_new 0;
  match d with
  | NewNull => mret None
  | NewNoKey => fault NullDeref
  | NewOk d =>
      '(l, d) ← run cs (Some d);
      dictionary_del d;;
      mret (Some l)
  end.

(** ** What a table represents, and who owns which block *)

Definition read (h : gmap ptr (list Z)) (p : option ptr) : option (list Z) := p ≫= fun p => h !! p.

(** The table of Dictionary.v with the texts in place of the pointers. *)
Definition contents (h : gmap ptr (list Z)) (d : pdict) : dictionary :=
  Dict (p_n d) (p_size d) (read h <$> p_val d) (read h <$> p_key d) (p_hash d).

Definition held (l : list (option ptr)) : list ptr := omap id l.

Definition footprint (d : pdict) : list ptr :=
  held (p_key d) ++ held (p_val d) ++ [p_vals d; p_keys d; p_hashes d; p_self d].

(** The memory is the caller's blocks [F] and, apart from them, the blocks [ps]. *)
Record owns (F : gmap ptr (list Z)) (ps : list ptr) (m : Mem) : Prop := {
  owns_nodup : NoDup ps;
  owns_live p : p ∈ ps -> is_Some (heap m !! p) /\ F !! p = None;
  owns_frame p : p ∉ ps -> heap m !! p = F !! p;
  owns_fresh p : brk m <= p -> heap m !! p = None
}.

Lemma owns_perm F ps ps' m : owns F ps m -> ps ≡ₚ ps' -> owns F ps' m.
Proof. intros [H1 H2 H3 H4] E. split; [by rewrite <- E| | |done]; intros p; rewrite <- E; auto. Qed.

(** The memory [m] has table [d] at [pd], the blocks [F] of the caller and the blocks [L]
    that nothing points to. *)
Record repr (F : gmap ptr (list Z)) (L : list ptr) (d : dictionary) (pd : pdict) (m : Mem) : Prop := {
  repr_contents : contents (heap m) pd = d;
  repr_owns : owns F (L ++ footprint pd) m
}.

(** No free cell holds a value. *)
Definition tidy (d : pdict) : Prop := forall i, p_key d !! i = Some None -> p_val d !! i = Some None.

(** ** Lemmas: memory *)

Section Memory.
Context {u : Prop} (F : gmap ptr (list Z)).
Implicit Types (m : Mem) (ps : list ptr).

(** [kept ps m m']: the texts at [ps] are as before. *)
Definition kept ps m m' : Prop := forall p, p ∈ ps -> heap m' !! p = heap m !! p.

Lemma wp_alloc s ps m Q :
  owns F ps m ->
  (forall r m', owns F (option_list r ++ ps) m' -> kept ps m m' -> oracle m' = snd (alloc (oracle m)) ->
     match r with
     | Some p => fst (alloc (oracle m)) = true /\ heap m' !! p = Some s
     | None => fst (alloc (oracle m)) = false
     end -> Q r m') ->
  wpu u (malloc s) Q m.
Proof.
  intros [Hn Hl Hf Hb] HQ. unfold wpu, malloc. destruct (alloc (oracle m)) as [[] o] eqn:Ea; apply HQ; cbn; try done.
  - assert (brk m ∉ ps) as Hnp. { intros Hp. destruct (Hl _ Hp) as [[x Hx] _]. by rewrite Hb in Hx. }
    split; cbn.
    + by apply NoDup_cons.
    + intros p. rewrite elem_of_cons. intros [->|Hp].
      * rewrite lookup_insert_eq, <- Hf, Hb by done. eauto.
      * rewrite lookup_insert_ne by (intros <-; done). auto.
    + intros p. rewrite not_elem_of_cons. intros [Hne Hp]. rewrite lookup_insert_ne; auto.
    + intros p Hp. rewrite lookup_insert_ne by lia. apply Hb. lia.
  - intros p Hp. cbn. rewrite lookup_insert_ne; [done|]. intros <-. destruct (Hl _ Hp) as [[x Hx] _]. by rewrite Hb in Hx.
  - by rewrite lookup_insert_eq.
Qed.

Lemma wp_free p ps m Q :
  owns F (option_list p ++ ps) m ->
  (forall m', owns F ps m' -> kept ps m m' -> oracle m' = oracle m -> Q tt m') ->
  wpu u (free p) Q m.
Proof.
  intros [Hn Hl Hf Hb] HQ. destruct p as [p|]; [|by apply HQ]. cbn in *.
  apply NoDup_cons in Hn as [Hp Hn]. destruct (Hl p) as [[s Hs] Hpf]; [by left|].
  unfold wpu, free. rewrite Hs. apply HQ; [|intros q Hq; cbn; rewrite lookup_delete_ne; [done|set_solver]|done].
  split; cbn; [done|..].
  - intros q Hq. rewrite lookup_delete_ne by set_solver. apply Hl. by right.
  - intros q Hq. destruct (decide (p = q)) as [<-|Hne]; [by rewrite lookup_delete_eq|].
    rewrite lookup_delete_ne by done. apply Hf. by rewrite not_elem_of_cons.
  - intros q Hq. destruct (decide (p = q)) as [<-|Hne]; [by rewrite lookup_delete_eq|].
    rewrite lookup_delete_ne by done. by apply Hb.
Qed.

(** The caller's strings can be read at any time. *)
Lemma owns_caller ps m p s : owns F ps m -> F !! p = Some s -> heap m !! p = Some s.
Proof.
  intros [_ Hl Hf _] Hp. rewrite Hf; [done|]. intros Hin. destruct (Hl _ Hin) as [_ E]. congruence.
Qed.

Lemma wp_text p s m Q : heap m !! p = Some s -> Q s m -> wpu u (text p) Q m.
Proof. intros E HQ. unfold wpu, text. by rewrite E. Qed.

Lemma wp_strdup v ps m Q :
  owns F ps m -> (forall p, v = Some p -> is_Some (F !! p)) ->
  (forall r m', owns F (option_list r ++ ps) m' -> kept ps m m' ->
     (read (heap m') r, oracle m') = Dictionary.xstrdup (read F v) (oracle m) -> Q r m') ->
  wpu u (xstrdup v) Q m.
Proof.
  intros Ho Hv HQ. destruct v as [p|]; cbn; [|by apply HQ].
  destruct (Hv p eq_refl) as [s Hs]. cbn in HQ. rewrite Hs in HQ. cbn in HQ.
  apply wp_bind, (wp_text _ s); [by eapply owns_caller|]. eapply wp_alloc; [done|].
  intros r m' Ho' Hk Eo Er. apply HQ; [done..|]. rewrite Eo.
  destruct (alloc (oracle m)) as [b o]; cbn in *. destruct r as [q|]; cbn; [destruct Er as [-> ->]|rewrite Er]; done.
Qed.
End Memory.

(** [member]: an address is in a list because it is in a part of it. *)
Ltac member :=
  first [assumption | apply elem_of_cons; right; member | apply elem_of_app; first [left; member | right; member]].

(** [solve_kept]: follow a text back through the calls that kept it. *)
Ltac solve_kept :=
  let p := fresh "p" in let Hp := fresh "Hp" in
  intros p Hp;
  repeat match goal with
  | H : kept _ _ ?m |- heap ?m !! p = _ => rewrite (H p) by member
  end;
  reflexivity.

(** [give ps]: free a block, where the blocks left are [ps]. *)
Ltac give F ps :=
  first [apply wp_bind|idtac];
  eapply (wp_free F _ ps);
    [match goal with H : owns F _ ?m |- owns F _ ?m => refine (owns_perm F _ _ _ H _); solve_Permutation end|].

(** ** Lemmas: arrays of pointers *)

Section Arrays.
Implicit Types (l : list (option ptr)) (h : gmap ptr (list Z)).

Lemma held_insert l i x y :
  l !! i = Some x -> option_list y ++ held l ≡ₚ option_list x ++ held (<[i:=y]> l).
Proof.
  intros Hi. unfold held. destruct (omap_insert id l i x y Hi) as [-> ->]. solve_Permutation.
Qed.

Lemma held_app l l' : held (l ++ l') = held l ++ held l'.
Proof. apply omap_app. Qed.

Lemma held_replicate n : held (replicate n None) = [].
Proof. by induction n. Qed.

Lemma held_drop l i : (i < length l)%nat -> held (drop i l) = option_list (cell l i) ++ held (drop (S i) l).
Proof.
  intros [x Hx]%lookup_lt_is_Some. rewrite (drop_S l x i Hx). unfold held, cell. rewrite Hx. by destruct x.
Qed.

Lemma elem_of_held p l : p ∈ held l <-> exists i, l !! i = Some (Some p).
Proof.
  unfold held. rewrite list_elem_of_omap. split.
  - intros (x & [i Hi]%list_elem_of_lookup & E). cbn in E. exists i. congruence.
  - intros [i Hi]. exists (Some p). split; [|done]. by apply list_elem_of_lookup_2 in Hi.
Qed.

Lemma texts_kept m m' l : kept (held l) m m' -> read (heap m') <$> l = read (heap m) <$> l.
Proof.
  intros Hk. apply list_fmap_ext. intros i [p|] Hi; [|done]. cbn. apply Hk, elem_of_held. eauto.
Qed.

(** What the array holds, cell [i] apart. *)
Lemma held_split l i : (i < length l)%nat -> held l ≡ₚ option_list (cell l i) ++ held (<[i:=None]> l).
Proof.
  intros [x Hx]%lookup_lt_is_Some. pose proof (held_insert l i x None Hx) as H. unfold cell. by rewrite Hx.
Qed.

Lemma held_store l i y : (i < length l)%nat -> held (<[i:=y]> l) ≡ₚ option_list y ++ held (<[i:=None]> l).
Proof.
  intros Hi. rewrite (held_split _ i) by (by rewrite length_insert). by rewrite list_insert_insert_eq, cell_insert, decide_True.
Qed.

Lemma texts_store m m' l i y :
  kept (held (<[i:=None]> l)) m m' -> read (heap m') <$> <[i:=y]> l = <[i:=read (heap m') y]> (read (heap m) <$> l).
Proof.
  intros Hk. rewrite <- (list_insert_insert_eq l i y None), list_fmap_insert, (texts_kept m m') by done.
  by rewrite list_fmap_insert, list_insert_insert_eq.
Qed.

Lemma read_kept m m' ps r : kept (option_list r ++ ps) m m' -> read (heap m') r = read (heap m) r.
Proof. intros Hk. destruct r as [p|]; [|done]. apply Hk. cbn. by left. Qed.

Lemma read_cell h l i : cell (read h <$> l) i = read h (cell l i).
Proof. unfold cell. rewrite list_lookup_fmap. by destruct (l !! i). Qed.
End Arrays.

Lemma wp_free3 F {A} a b c ps m (k : ST Mem A) Q :
  owns F (option_list a ++ option_list b ++ option_list c ++ ps) m ->
  (forall m', owns F ps m' -> kept ps m m' -> oracle m' = oracle m -> wp k Q m') ->
  wp (free a;; free b;; free c;; k) Q m.
Proof.
  intros Ho HQ. give F (option_list b ++ option_list c ++ ps). intros m1 Ho1 Hk1 Eo1.
  give F (option_list c ++ ps). intros m2 Ho2 Hk2 Eo2. give F ps. intros m3 Ho3 Hk3 Eo3.
  apply HQ; [done| |congruence]. solve_kept.
Qed.

(** ** Lemmas: one cell of a table *)

(** What the table holds, cell [i] apart. *)
Definition others (i : nat) (d : pdict) : list ptr :=
  held (<[i:=None]> (p_key d)) ++ held (<[i:=None]> (p_val d)) ++ [p_vals d; p_keys d; p_hashes d; p_self d].

Section Cell.
Context (d : pdict) (i : nat) (Hk : (i < length (p_key d))%nat) (Hv : (i < length (p_val d))%nat).

Lemma footprint_split : footprint d ≡ₚ option_list (cell (p_key d) i) ++ option_list (cell (p_val d) i) ++ others i d.
Proof.
  unfold footprint, others. rewrite (held_split (p_val d) i), (held_split (p_key d) i) by done. solve_Permutation.
Qed.

Lemma footprint_set_cell k v n h : footprint (set_cell i k v n h d) ≡ₚ option_list k ++ option_list v ++ others i d.
Proof.
  unfold footprint, others. cbn. rewrite (held_store _ i v), (held_store _ i k) by done. solve_Permutation.
Qed.

Lemma contents_set_cell m m' k v n h :
  kept (others i d) m m' ->
  contents (heap m') (set_cell i k v n h d) =
    Dict n (p_size d) (<[i:=read (heap m') v]> (read (heap m) <$> p_val d))
      (<[i:=read (heap m') k]> (read (heap m) <$> p_key d)) (<[i:=h]> (p_hash d)).
Proof.
  intros Hkept. unfold contents. cbn. rewrite !(texts_store m m'); [done|..]; intros p Hp; apply Hkept; unfold others; member.
Qed.

Lemma tidy_set_cell k v n h : (k = None -> v = None) -> tidy d -> tidy (set_cell i k v n h d).
Proof using Hk Hv.
  intros Hkv Ht j. cbn. destruct (decide (i = j)) as [<-|Hne].
  - rewrite !list_lookup_insert_eq by done. intros [= ->]. by rewrite Hkv.
  - rewrite !list_lookup_insert_ne by done. apply Ht.
Qed.
End Cell.

(** ** Each operation follows the one of Dictionary.v *)

Section Simulation.
Context (F : gmap ptr (list Z)).
Implicit Types (m : Mem) (d : dictionary) (pd : pdict) (L : list ptr).

Lemma repr_live L d pd m i p : repr F L d pd m -> cell (p_key pd) i = Some p -> is_Some (heap m !! p).
Proof.
  intros [_ [_ Hl _ _]] Hi%cell_Some. apply Hl. unfold footprint. rewrite !elem_of_app, elem_of_held. eauto.
Qed.

Lemma wp_slot_matches L d pd m key k hash i (Q : bool -> Mem -> Prop) :
  repr F L d pd m -> roomy d -> F !! key = Some k -> (i < p_size pd)%nat ->
  Q (Dictionary.slot_matches d k hash i) m -> wp (slot_matches pd key hash i) Q m.
Proof.
  intros Hr [_ _ Hh _ _ _] Hk Hi HQ. pose proof Hr as [E Ho]. subst d.
  unfold slot_matches, Dictionary.slot_matches in *. cbn in HQ, Hh. rewrite read_cell in HQ.
  destruct (cell (p_key pd) i) as [p|] eqn:Ec; [|exact HQ].
  destruct (repr_live _ _ _ _ _ _ Hr Ec) as [t Ht]. cbn in HQ. rewrite Ht in HQ.
  destruct (lookup_lt_is_Some_2 (p_hash pd) i ltac:(lia)) as [h Eh]. rewrite Eh in HQ |- *.
  destruct (hash =? h); [|exact HQ].
  apply wp_bind, (wp_text _ k); [by eapply owns_caller|]. apply wp_bind, (wp_text _ t); [done|]. exact HQ.
Qed.

Lemma wp_find_loop L d pd m key k hash (Q : option nat -> Mem -> Prop) :
  repr F L d pd m -> roomy d -> F !! key = Some k -> forall fuel i, (i + fuel <= p_size pd)%nat ->
  Q (find_first (Dictionary.slot_matches d k hash) i fuel) m -> wp (find_loop pd key hash i fuel) Q m.
Proof.
  intros Hr Hro Hk. induction fuel as [|fuel IH]; intros i Hi HQ; cbn [find_loop]; [exact HQ|].
  apply wp_bind. eapply wp_slot_matches; [done..|lia|]. cbn in HQ.
  destruct (Dictionary.slot_matches d k hash i); [exact HQ|]. apply IH; [lia|done].
Qed.

Lemma wp_find L d pd m key k hash (Q : option nat -> Mem -> Prop) :
  repr F L d pd m -> roomy d -> F !! key = Some k ->
  Q (Dictionary.dictionary_find d k hash) m -> wp (dictionary_find pd key hash) Q m.
Proof.
  intros Hr Hro Hk HQ. eapply wp_find_loop; [done..|lia|].
  destruct Hr as [<- _]. exact HQ.
Qed.

Lemma probe_sim L d pd m i fuel :
  repr F L d pd m -> dictionary_probe pd i fuel = Dictionary.dictionary_probe d i fuel.
Proof.
  intros Hr. revert i. induction fuel as [|f IH]; intros i; cbn.
  all: destruct (p_key pd !! i) as [[p|]|] eqn:Ec; pose proof Hr as [E _]; subst d; cbn; rewrite list_lookup_fmap, Ec; cbn; try done.
  all: destruct (repr_live _ _ _ _ i p Hr) as [t ->]; [by apply cell_Some|]; done.
Qed.

Lemma contents_kept m m' pd ps : kept ps m m' -> footprint pd ⊆ ps -> contents (heap m') pd = contents (heap m) pd.
Proof.
  intros Hk Hs. unfold contents. f_equal; apply texts_kept; intros p Hp; apply Hk, Hs; unfold footprint; set_solver.
Qed.

Lemma wp_get_pointer L d pd m key k def Q :
  repr F L d pd m -> roomy d -> F !! key = Some k ->
  Q (match Dictionary.dictionary_find d k (dictionary_hash (Some k)) with Some i => cell (p_val pd) i | None => def end) m ->
  wp (dictionary_get (Some pd) (Some key) def) Q m.
Proof.
  intros Hr Hro Hk HQ. apply wp_bind, (wp_text _ k). { eapply owns_caller; [apply Hr|done]. }
  apply wp_bind. eapply wp_find; [done..|]. exact HQ.
Qed.

(** The text of the pointer that dictionary_get gives is the answer of Dictionary.v. *)
Lemma wp_get_show {A} L d pd m key k def (K : cptr -> ST Mem A) Q :
  repr F L d pd m -> roomy d -> F !! key = Some k -> (forall p, def = Some p -> is_Some (F !! p)) ->
  wp (K (Dictionary.dictionary_get (Some d) (Some k) (ptr_of (read F def)))) Q m ->
  wp (p ← dictionary_get (Some pd) (Some key) def; a ← show p; K a) Q m.
Proof.
  intros Hr Hro Hk Hd HQ. apply wp_bind. eapply wp_get_pointer; [done..|]. unfold Dictionary.dictionary_get in HQ.
  destruct (Dictionary.dictionary_find _ _ _) as [i|] eqn:Ef.
  - pose proof Hr as [E Ho]. subst d. cbn in HQ. rewrite read_cell in HQ.
    destruct (cell (p_val pd) i) as [p|] eqn:Ec; [|exact HQ].
    assert (is_Some (heap m !! p)) as [t Ht].
    { apply cell_Some in Ec. apply (owns_live _ _ _ Ho). unfold footprint. rewrite !elem_of_app, !elem_of_held. eauto. }
    cbn in HQ. rewrite Ht in HQ. apply wp_bind, wp_fmap, (wp_text _ t); done.
  - destruct def as [p|]; [|exact HQ]. destruct (Hd p eq_refl) as [t Ht]. cbn in HQ. rewrite Ht in HQ.
    apply wp_bind, wp_fmap, (wp_text _ t); [|done]. eapply owns_caller; [apply Hr|done].
Qed.

Lemma tidy_grow pd (v k h : ptr) :
  length (p_key pd) = p_size pd -> length (p_val pd) = p_size pd -> tidy pd ->
  tidy (PDict (p_n pd) (p_size pd * 2)
                 (take (p_size pd) (p_val pd) ++ replicate (p_size pd) None)
                 (take (p_size pd) (p_key pd) ++ replicate (p_size pd) None)
                 (take (p_size pd) (p_hash pd) ++ replicate (p_size pd) 0) v k h (p_self pd)).
Proof.
  intros Hk Hv Ht i. cbn. rewrite !take_ge by lia. destruct (decide (i < p_size pd)%nat).
  - rewrite !lookup_app_l by lia. apply Ht.
  - rewrite !lookup_app_r, !Hk, !Hv by lia. done.
Qed.

Lemma wp_grow L d pd m r d' o (Q : Z * pdict -> Mem -> Prop) :
  repr F L d pd m -> roomy d -> Dictionary.dictionary_grow d (oracle m) = (r, d', o) ->
  (forall pd' m', repr F L d' pd' m' -> oracle m' = o -> (tidy pd -> tidy pd') -> Q (r, pd') m') ->
  wp (dictionary_grow pd) Q m.
Proof.
  intros [E Ho] [Hlk Hlv _ _ _ _] Hg HQ. unfold Dictionary.dictionary_grow in Hg.
  apply wp_bind. eapply wp_alloc; [done|]. intros rv m1 Ho1 Hk1 Eo1 Er1. destruct (alloc (oracle m)) as [b1 o1]. cbn in Eo1, Er1. subst o1.
  apply wp_bind. eapply wp_alloc; [done|]. intros rk m2 Ho2 Hk2 Eo2 Er2. destruct (alloc (oracle m1)) as [b2 o2]. cbn in Eo2, Er2. subst o2.
  apply wp_bind. eapply wp_alloc; [done|]. intros rh m3 Ho3 Hk3 Eo3 Er3. destruct (alloc (oracle m2)) as [b3 o3]. cbn in Eo3, Er3. subst o3.
  set (base := L ++ footprint pd) in *.
  assert (kept base m m3) as Hk by solve_kept. clear Hk1 Hk2 Hk3.
  assert (negb b1 || negb b2 || negb b3 = true -> wp (free rv;; free rk;; free rh;; mret (-1, pd)) Q m3) as Hfail.
  { intros Hb. rewrite Hb in Hg. injection Hg as <- <- <-. apply (wp_free3 F _ _ _ base).
    { eapply owns_perm; [exact Ho3|solve_Permutation]. }
    intros m4 Ho4 Hk4 Eo4. apply HQ; [|done|done]. split; [|done].
    rewrite <- E. apply (contents_kept _ _ _ base); [solve_kept|set_solver]. }
  destruct rv as [v|]; [|apply Hfail; by rewrite Er1]. destruct rk as [k|]; [|apply Hfail; by rewrite Er2, orb_true_r].
  destruct rh as [h|]; [|apply Hfail; by rewrite Er3, !orb_true_r]. clear Hfail.
  destruct Er1 as [-> _], Er2 as [-> _], Er3 as [-> _]. cbn in Hg. injection Hg as <- <- <-.
  pose (rest := L ++ held (p_key pd) ++ held (p_val pd) ++ [p_self pd]).
  assert (base ≡ₚ p_vals pd :: p_keys pd :: p_hashes pd :: rest) as Pb by (unfold base, rest, footprint; solve_Permutation).
  apply (wp_free3 F _ _ _ ([h; k; v] ++ rest)).
  { eapply owns_perm; [exact Ho3|]. rewrite Pb. solve_Permutation. }
  intros m6 Ho6 Hk6 Eo6. subst d. cbn in Hlk, Hlv. rewrite length_fmap in Hlk, Hlv.
  apply HQ; [|congruence|by apply tidy_grow].
  assert (kept rest m m6) as Hkept.
  { intros p Hp. rewrite Hk6 by member. apply Hk. rewrite Pb. member. }
  split.
  - unfold contents. cbn. rewrite !take_ge by (rewrite ?length_fmap; lia).
    rewrite !fmap_app, !fmap_replicate, !(texts_kept m m6) by (intros p Hp; apply Hkept; member).
    by rewrite !(take_ge (read _ <$> _)) by (rewrite length_fmap; lia).
  - unfold footprint. cbn. rewrite !take_ge, !held_app, !held_replicate by lia.
    eapply owns_perm; [exact Ho6|]. unfold rest. cbn. solve_Permutation.
Qed.

(** ** dictionary_set *)

Lemma probe_free pd fuel : forall i j, dictionary_probe pd i fuel = Ok j -> p_key pd !! j = Some None.
Proof.
  induction fuel as [|f IH]; intros i j; cbn; destruct (p_key pd !! i) as [[p|]|] eqn:E; try done; [congruence|apply IH|congruence].
Qed.

Lemma wp_replace L d pd m val i (Q : Z * option pdict -> Mem -> Prop) :
  repr F L d pd m -> roomy d -> (forall p, val = Some p -> is_Some (F !! p)) -> (i < p_size pd)%nat ->
  (forall pd' m' v o, Dictionary.xstrdup (read F val) (oracle m) = (v, o) ->
     repr F L (Dict (d_n d) (d_size d) (<[i:=v]> (d_val d)) (d_key d) (d_hash d)) pd' m' -> oracle m' = o ->
     (is_Some (cell (p_key pd) i) -> tidy pd -> tidy pd') -> Q (0, Some pd') m') ->
  wp (free (cell (p_val pd) i);; v ← xstrdup val; mret (0, Some (set_val i v pd))) Q m.
Proof.
  intros [E Ho] [_ Hlv _ _ _ _] Hval Hi HQ. subst d. cbn in Hlv. rewrite length_fmap in Hlv.
  pose (rest := L ++ held (p_key pd) ++ held (<[i:=None]> (p_val pd)) ++ [p_vals pd; p_keys pd; p_hashes pd; p_self pd]).
  apply wp_bind. apply (wp_free F _ rest).
  { eapply owns_perm; [exact Ho|]. unfold footprint. rewrite (held_split (p_val pd) i) by lia. unfold rest. solve_Permutation. }
  intros m1 Ho1 Hk1 Eo1. apply wp_bind. eapply wp_strdup; [done..|]. intros r m2 Ho2 Hk2 Er.
  apply wp_ret. rewrite Eo1 in Er. symmetry in Er. assert (kept rest m m2) as Hk by solve_kept.
  eapply HQ; [exact Er| |done|].
  - split.
    + unfold contents. cbn. rewrite (texts_store m m2), (texts_kept m m2); [done|..]; intros p Hp; apply Hk; unfold rest; member.
    + eapply owns_perm; [exact Ho2|]. unfold footprint. cbn. rewrite held_store by lia. unfold rest. solve_Permutation.
  - intros [p Hp] Ht j Hj. cbn in *. rewrite list_lookup_insert_ne; [by apply Ht|]. intros <-. apply cell_Some in Hp. congruence.
Qed.

Lemma wp_add_entry L d pd m key val k hash i (Q : Z * option pdict -> Mem -> Prop) :
  repr F L d pd m -> roomy d -> F !! key = Some k -> (forall p, val = Some p -> is_Some (F !! p)) ->
  Dictionary.dictionary_probe d (Z.to_nat (d_n d)) (d_size d) = Ok i ->
  (forall pd' m' k' v' o1 o2,
     Dictionary.xstrdup (Some k) (oracle m) = (k', o1) -> Dictionary.xstrdup (read F val) o1 = (v', o2) ->
     repr F (option_list (cell (p_val pd) i) ++ L)
       (Dict (u32 (d_n d + 1)) (d_size d) (<[i:=v']> (d_val d)) (<[i:=k']> (d_key d)) (<[i:=hash]> (d_hash d))) pd' m' ->
     oracle m' = o2 ->
     (is_Some k' -> tidy pd -> option_list (cell (p_val pd) i) = [] /\ tidy pd') -> Q (0, Some pd') m') ->
  wp (add_entry pd key val hash) Q m.
Proof.
  intros Hr [Hlk Hlv _ _ _ _] Hkey Hval Hp HQ. pose proof Hr as [E Ho].
  assert (dictionary_probe pd (Z.to_nat (p_n pd)) (p_size pd) = Ok i) as Hp'.
  { rewrite (probe_sim L d pd m) by done. by subst d. }
  apply probe_free in Hp' as Hfree. apply lookup_lt_Some in Hfree as Hi.
  subst d. cbn in Hlk, Hlv. rewrite length_fmap in Hlk, Hlv.
  apply wp_bind. eapply wp_lift_Ok; [exact Hp'|].
  apply wp_bind. eapply (wp_strdup _ (Some key)); [done|intros ? [= <-]; eauto|]. intros rk m1 Ho1 Hk1 Ek.
  apply wp_bind. eapply wp_strdup; [done..|]. intros rv m2 Ho2 Hk2 Ev. apply wp_ret.
  cbn [read mbind option_bind] in Ek. rewrite Hkey in Ek. symmetry in Ek, Ev.
  eapply HQ; [exact Ek|exact Ev| |done|].
  - pose proof (footprint_split pd i Hi ltac:(lia)) as Pf. rewrite (proj2 (cell_None (p_key pd) i)) in Pf by auto.
    assert (kept (L ++ footprint pd) m m2) as Hk by solve_kept. split.
    + rewrite (contents_set_cell _ _ m), <- (read_kept _ _ _ _ Hk2); [done|]. intros p Hq. apply Hk. rewrite Pf. member.
    + eapply owns_perm; [exact Ho2|]. rewrite Pf, footprint_set_cell by lia. cbn. solve_Permutation.
  - intros [t Ht] Htidy. split; [|apply tidy_set_cell; [lia|lia|by intros ->|done]].
    pose proof (Htidy i Hfree) as Hv. unfold cell. by rewrite Hv.
Qed.

(** A cell that the search finds is used. *)
Lemma find_used L d pd m k hash i :
  repr F L d pd m -> Dictionary.dictionary_find d k hash = Some i ->
  (i < p_size pd)%nat /\ exists p, cell (p_key pd) i = Some p.
Proof.
  intros [E _] (Hi & Hs & _)%find_first_Some. subst d. cbn in Hi. split; [lia|].
  unfold Dictionary.slot_matches in Hs. cbn in Hs. rewrite read_cell in Hs. destruct (cell (p_key pd) i); [eauto|done].
Qed.

Lemma wp_room L d pd m r1 d1 o1 (Q : Z * pdict -> Mem -> Prop) :
  repr F L d pd m -> roomy d ->
  (if d_n d =? Z.of_nat (d_size d) then Dictionary.dictionary_grow d (oracle m) else (0, d, oracle m)) = (r1, d1, o1) ->
  (forall pd' m', repr F L d1 pd' m' -> oracle m' = o1 -> (oracle m = [] -> o1 = []) -> (tidy pd -> tidy pd') ->
     (r1 = 0 -> roomy d1) -> Q (r1, pd') m') ->
  wp (if p_n pd =? Z.of_nat (p_size pd) then dictionary_grow pd else mret (0, pd)) Q m.
Proof.
  intros Hr Hro Hg HQ. assert (p_n pd = d_n d /\ p_size pd = d_size d) as [-> ->] by by destruct Hr as [<- _].
  destruct (d_n d =? _); [|injection Hg as <- <- <-; by apply HQ].
  eapply wp_grow; [done..|]. intros pd' m' Hr' Eo' Ht. apply HQ; [done..| |done|].
  - intros Enil. rewrite Enil in Hg. unfold Dictionary.dictionary_grow in Hg. cbn in Hg. congruence.
  - intros ->. destruct (grow_roomy d (oracle m) Hro) as (? & ? & ? & E & H). rewrite E in Hg.
    destruct H as [(_ & ? & _)|[-> _]]; congruence.
Qed.

(** The table follows dictionary_set; blocks are lost only when a copy fails. *)
Lemma wp_set L d pd m key val k r d' o (Q : Z * option pdict -> Mem -> Prop) :
  repr F L d pd m -> roomy d -> F !! key = Some k -> (forall p, val = Some p -> is_Some (F !! p)) ->
  Dictionary.dictionary_set (Some d) (Some k) (read F val) (oracle m) = Ok (r, Some d', o) ->
  (forall L' pd' m', repr F L' d' pd' m' -> oracle m' = o ->
     (oracle m = [] -> tidy pd -> L' = L /\ tidy pd') -> Q (r, Some pd') m') ->
  wp (dictionary_set (Some pd) (Some key) val) Q m.
Proof.
  intros Hr Hro Hkey Hval Hset HQ. unfold Dictionary.dictionary_set in Hset.
  apply wp_bind, (wp_text _ k). { eapply owns_caller; [apply Hr|done]. }
  set (hash := dictionary_hash (Some k)) in *.
  assert (p_n pd = d_n d) as En by by destruct Hr as [<- _].
  assert (forall Q', Q' (if 0 <? d_n d then Dictionary.dictionary_find d k hash else None) m ->
    wp (if 0 <? p_n pd then dictionary_find pd key hash else mret None) Q' m) as Hfind.
  { intros Q' HQ'. rewrite En. destruct (0 <? d_n d); [eapply wp_find; done|done]. }
  apply wp_bind, Hfind. clear Hfind. destruct (if 0 <? d_n d then _ else None) as [i|] eqn:Ef.
  - destruct (Dictionary.xstrdup (read F val) (oracle m)) as [v o'] eqn:Ev. injection Hset as <- <- <-.
    assert (Dictionary.dictionary_find d k hash = Some i) as Hi by by destruct (0 <? d_n d).
    destruct (find_used _ _ _ _ _ _ _ Hr Hi) as (Hlt & q & Eq).
    eapply wp_replace; [done..|]. intros pd' m' v' o Ev' Hr' Eo Ht. rewrite Ev in Ev'. injection Ev' as <- <-.
    eapply HQ; [done..|]. intros _ ?. split; [done|]. apply Ht; eauto.
  - destruct (if d_n d =? _ then _ else _) as [[r1 d1] o1] eqn:Eg.
    apply wp_bind. eapply wp_room; [done..|]. intros pd1 m1 Hr1 Eo1 Enil Ht1 Hro1.
    destruct (Z.eqb_spec r1 0) as [->|Hne]; cbn [negb] in *.
    + destruct (Dictionary.dictionary_probe d1 _ _) as [i|] eqn:Ep; [|done]. cbn [res_bind] in Hset.
      destruct (Dictionary.xstrdup (Some k) o1) as [k' o2] eqn:Ek, (Dictionary.xstrdup (read F val) o2) as [v' o3] eqn:Ev.
      injection Hset as <- <- <-. eapply wp_add_entry; [by auto..|].
      intros pd' m' k'' v'' o4 o5 Ek' Ev' Hr' Eo' Ht'. rewrite Eo1, Ek in Ek'. injection Ek' as <- <-.
      rewrite Ev in Ev'. injection Ev' as <- <-. eapply HQ; [done..|]. intros E Htidy. rewrite (Enil E) in Ek.
      destruct Ht' as [-> ?]; [injection Ek as <- _; eauto|auto|done].
    + injection Hset as <- <- <-. apply wp_ret. eapply HQ; [done..|]. auto.
Qed.

(** ** dictionary_unset, dictionary_new and dictionary_del *)

Lemma wp_unset L d pd m key k d' (Q : option pdict -> Mem -> Prop) :
  repr F L d pd m -> roomy d -> F !! key = Some k ->
  Dictionary.dictionary_unset (Some d) (Some k) = Some d' ->
  (forall pd' m', repr F L d' pd' m' -> oracle m' = oracle m -> (tidy pd -> tidy pd') -> Q (Some pd') m') ->
  wp (dictionary_unset (Some pd) (Some key)) Q m.
Proof.
  intros Hr Hro Hkey Hun HQ. pose proof Hr as [E Ho]. unfold Dictionary.dictionary_unset in Hun.
  apply wp_bind, (wp_text _ k). { by eapply owns_caller. }
  apply wp_bind. eapply wp_find; [done..|].
  destruct (Dictionary.dictionary_find _ _ _) as [i|] eqn:Ef; injection Hun as <-; [|by apply HQ].
  destruct (find_used _ _ _ _ _ _ _ Hr Ef) as (Hlt & q & Eq). subst d.
  destruct Hro as [Hlk Hlv _ _ _ _]. cbn in Hlk, Hlv. rewrite length_fmap in Hlk, Hlv.
  pose proof (footprint_split pd i ltac:(lia) ltac:(lia)) as Pf.
  apply wp_bind, (wp_free F _ (option_list (cell (p_val pd) i) ++ L ++ others i pd)).
  { eapply owns_perm; [exact Ho|]. rewrite Pf. solve_Permutation. }
  intros m1 Ho1 Hk1 Eo1. give F (L ++ others i pd). intros m2 Ho2 Hk2 Eo2.
  apply wp_ret, HQ; [|congruence|apply tidy_set_cell; [lia|lia|done]]. split.
  - rewrite (contents_set_cell _ _ m); [done|]. intros p Hp. rewrite Hk2, Hk1 by member. done.
  - eapply owns_perm; [exact Ho2|]. by rewrite footprint_set_cell by lia.
Qed.

Lemma wp_del_loop pd ps Q fuel : forall i m,
  length (p_key pd) = p_size pd -> length (p_val pd) = p_size pd -> (i + fuel = p_size pd)%nat ->
  owns F (held (drop i (p_key pd)) ++ held (drop i (p_val pd)) ++ ps) m ->
  (forall m', owns F ps m' -> oracle m' = oracle m -> Q tt m') -> wp (del_loop pd i fuel) Q m.
Proof.
  induction fuel as [|fuel IH]; intros i m Hk Hv Hi Ho HQ; cbn [del_loop].
  - rewrite !drop_ge in Ho by lia. by apply HQ.
  - rewrite (held_drop (p_key pd)), (held_drop (p_val pd)) in Ho by lia.
    give F (option_list (cell (p_val pd) i) ++ held (drop (S i) (p_key pd)) ++ held (drop (S i) (p_val pd)) ++ ps).
    intros m1 Ho1 _ Eo1. give F (held (drop (S i) (p_key pd)) ++ held (drop (S i) (p_val pd)) ++ ps).
    intros m2 Ho2 _ Eo2. apply IH; [done..|lia|done|]. intros m' Ho' Eo'. apply HQ; [done|congruence].
Qed.

(** dictionary_del gives back every block of the table. *)
Lemma wp_del L d pd m (Q : unit -> Mem -> Prop) :
  repr F L d pd m -> roomy d -> (forall m', owns F L m' -> Q tt m') -> wp (dictionary_del (Some pd)) Q m.
Proof.
  intros [E Ho] [Hlk Hlv _ _ _ _] HQ. subst d. cbn in Hlk, Hlv. rewrite length_fmap in Hlk, Hlv.
  apply wp_bind, (wp_del_loop _ ([p_vals pd; p_keys pd; p_hashes pd; p_self pd] ++ L)); [done..| |].
  { eapply owns_perm; [exact Ho|]. unfold footprint. rewrite !drop_0. solve_Permutation. }
  intros m1 Ho1 _. apply (wp_free3 F _ _ _ (p_self pd :: L)); [eapply owns_perm; [exact Ho1|cbn; solve_Permutation]|].
  intros m2 Ho2 _ _. apply (wp_free F _ L); [exact Ho2|]. intros m3 Ho3 _ _. by apply HQ.
Qed.

Lemma owns_start m : (forall p, brk m <= p -> heap m !! p = None) -> F = heap m -> owns F [] m.
Proof. intros Hb ->. split; [apply NoDup_nil_2|by intros p ?%elem_of_nil|done|done]. Qed.

(** What the blocks of [F] were before. *)
Lemma owns_end L m : owns F L m -> F ⊆ heap m /\ (L = [] -> heap m = F).
Proof.
  intros Ho. split.
  - apply map_subseteq_spec. intros p s. by apply (owns_caller _ L).
  - intros ->. apply map_eq. intros p. apply (owns_frame _ _ _ Ho), not_elem_of_nil.
Qed.

(** A new table is empty. *)
Lemma new_repr m size :
  owns F [] m -> wlp (dictionary_new size) (fun r m' => forall pd, r = NewOk pd ->
    repr F [] (empty_dictionary (Nat.max size DICTMINSZ)) pd m' /\ tidy pd) m.
Proof.
  intros Ho. unfold dictionary_new.
  assert ((if (size <? DICTMINSZ)%nat then DICTMINSZ else size) = Nat.max size DICTMINSZ) as ->.
  { destruct (Nat.ltb_spec size DICTMINSZ); lia. }
  apply wp_bind. eapply wp_alloc; [done|]. intros [d|] m1 Ho1 _ _ _; [|by apply wp_ret].
  apply wp_bind. eapply wp_alloc; [done|]. intros rv m2 Ho2 _ _ _.
  apply wp_bind. eapply wp_alloc; [done|]. intros rk m3 Ho3 _ _ _.
  apply wp_bind. eapply wp_alloc; [done|]. intros rh m4 Ho4 _ _ _.
  destruct rv as [v|]; [|exact I]. destruct rh as [h|]; [|exact I]. destruct rk as [k|]; [|by apply wp_ret].
  apply wp_ret. intros pd [= <-]. split.
  - split.
    + unfold contents, empty_dictionary. cbn [p_n p_size p_val p_key p_hash]. by rewrite fmap_replicate.
    + eapply owns_perm; [exact Ho4|]. unfold footprint. cbn [p_val p_key p_vals p_keys p_hashes p_self].
      rewrite held_replicate. cbn. solve_Permutation.
  - intros i. done.
Qed.
End Simulation.

(** ** Whole sessions *)

(** The answer to the allocation number [i]. *)
Definition succeeds (m : Mem) (i : nat) : bool := nth i (oracle m) true.

(** How dictionary_new ends, by its four allocations: the struct, val, key, hash. *)
Lemma new_answers m size :
  match dictionary_new size m with
  | Ok (NewNull, m') => succeeds m 0 = false /\ heap m' = heap m
  | Ok (NewNoKey, _) => succeeds m 0 && succeeds m 1 && succeeds m 3 = true /\ succeeds m 2 = false
  | Ok (NewOk _, m') => succeeds m 0 && succeeds m 1 && succeeds m 2 && succeeds m 3 = true /\ oracle m' = drop 4 (oracle m)
  | Ub e => e = BadFree /\ succeeds m 0 = true /\ succeeds m 1 && succeeds m 3 = false
  end.
Proof. destruct m as [h b o]. unfold succeeds. by destruct o as [|[] [|[] [|[] [|[] o]]]]. Qed.

(** The strings of a call belong to the caller. *)
Definition args_in (F : gmap ptr (list Z)) (c : pcall) : Prop :=
  match c with
  | PSet k p | PGet k p => is_Some (F !! k) /\ forall q, p = Some q -> is_Some (F !! q)
  | PUnset k => is_Some (F !! k)
  end.

(** The call of Dictionary.v, on the texts. *)
Definition read_call (F : gmap ptr (list Z)) (c : pcall) : call :=
  match c with
  | PSet k v => CallSet (default [] (F !! k)) (read F v)
  | PUnset k => CallUnset (default [] (F !! k))
  | PGet k def => CallGet (default [] (F !! k)) (ptr_of (read F def))
  end.

Definition is_pset (c : pcall) : bool := match c with PSet _ _ => true | _ => false end.
Definition sets (cs : list pcall) : nat := length (filter (fun c => is_pset c) cs).

Section Run.
Context (F : gmap ptr (list Z)) (good : Prop).

(** If all goes well the table is well formed, has the contents [s] and loses no block. *)
Definition sound (L : list ptr) (d : dictionary) (pd : pdict) (s : gmap (list Z) (option (list Z))) (m : Mem) : Prop :=
  good -> oracle m = [] /\ wf d /\ models d s /\ L = [] /\ tidy pd.

(** The table never has more cells than 128 or twice the sets made so far, [c]. *)
Definition sized (d : dictionary) (c : nat) : Prop :=
  (d_size d <= DICTMINSZ + 2 * c)%nat /\ d_n d <= Z.of_nat c.

(** What holds after a run: the table is there, and the answers were those of a map. *)
Definition ran (cs : list pcall) (s : gmap (list Z) (option (list Z))) (r : list answer * option pdict) (m : Mem) : Prop :=
  exists L d pd, r.2 = Some pd /\ repr F L d pd m /\ roomy d /\
    (good -> L = [] /\ r.1 = spec_calls (read_call F <$> cs) s).

Lemma sound_set L d pd s m k v r d' o L' pd' m' c :
  sound L d pd s m -> sized d c -> Z.of_nat c < 2 ^ 29 ->
  Dictionary.dictionary_set (Some d) (Some k) v (oracle m) = Ok (r, Some d', o) -> oracle m' = o ->
  (oracle m = [] -> tidy pd -> L' = L /\ tidy pd') ->
  sound L' d' pd' (<[k:=v]> s) m' /\ (good -> r = 0).
Proof.
  intros Hs [Hz _] Hc E Eo Ht.
  assert (good -> r = 0 /\ oracle m' = [] /\ wf d' /\ models d' (<[k:=v]> s) /\ L' = [] /\ tidy pd') as H;
    [|split; [intros G; destruct (H G) as (_ & ? & ?); done|intros G; by destruct (H G)]].
  intros (Em & W & M & -> & Htidy)%Hs. rewrite Em in E. destruct (Ht Em Htidy) as [-> ?].
  destruct (set_models d s k v W M) as (d2 & E2 & W2 & M2 & _); [unfold DICTMINSZ in *; lia|].
  rewrite E2 in E. injection E as <- <- <-. done.
Qed.

Lemma run_ok cs : forall L d pd m s c,
  repr F L d pd m -> roomy d -> sound L d pd s m -> sized d c ->
  Z.of_nat (c + sets cs) < 2 ^ 29 -> Forall (args_in F) cs -> wp (run cs (Some pd)) (ran cs s) m.
Proof.
  induction cs as [|[key val|key|key def] cs IH]; intros L d pd m s c Hr Hro Hs Hz Hc Ha; cbn [run].
  - apply wp_ret. exists L, d, pd. split_and!; [done..|]. intros (_ & _ & _ & ? & _)%Hs. done.
  - apply Forall_cons in Ha as [[[k Hk] Hv] Ha]. pose proof Hz as [Hz1 Hz2].
    change (sets (PSet key val :: cs)) with (S (sets cs)) in Hc.
    destruct (set_returns d k (read F val) (oracle m) Hro) as (r & d' & o & E & Hro' & Hn & Hsz & Hr'); [unfold DICTMINSZ in *; lia|].
    apply wp_bind. eapply wp_set; [done..|]. intros L' pd' m' Hrep Eo Ht. apply wp_bind.
    destruct (sound_set _ _ _ _ _ _ _ _ _ _ _ _ _ c Hs Hz ltac:(lia) E Eo Ht) as [Hs' Hr0].
    eapply wp_mono; [apply (IH L' d' pd' m' (<[k:=read F val]> s) (S c)); [done..| |lia|done]|].
    + split; unfold DICTMINSZ in *; lia.
    + intros [l od] m2 (L2 & d2 & pd2 & Eod & Hr2 & Hro2 & Hl). apply wp_ret. exists L2, d2, pd2. split_and!; [done..|].
      intros G. destruct (Hl G) as [-> El]. cbn in *. by rewrite Hk, Hr0, El.
  - apply Forall_cons in Ha as [[k Hk] Ha]. destruct Hz as [Hz1 Hz2].
    destruct (unset_roomy d k Hro) as (d' & E & Hro' & Hn & Hsz); [unfold DICTMINSZ in *; lia|].
    apply wp_bind. eapply wp_unset; [done..|]. intros pd' m' Hr' Eo Ht.
    eapply wp_mono; [apply (IH L d' pd' m' (delete k s) c); [done|done| | |done|done]|].
    + intros (Em & W & M & -> & Htidy)%Hs. destruct (unset_models d s k W M) as (d2 & E2 & W2 & M2 & _).
      rewrite E2 in E. injection E as ->. split_and!; [congruence|done..|auto].
    + split; [lia|]. lia.
    + intros [l od] m2 (L2 & d2 & pd2 & Eod & Hr2 & Hro2 & Hl). exists L2, d2, pd2. split_and!; [done..|].
      intros G. destruct (Hl G) as [-> El]. cbn in *. by rewrite Hk.
  - apply Forall_cons in Ha as [[[k Hk] Hd] Ha].
    apply (wp_get_show F L d _ _ _ k); [done..|]. apply wp_bind.
    eapply wp_mono; [apply (IH L d pd m s c); done|].
    intros [l od] m2 (L2 & d2 & pd2 & Eod & Hr2 & Hro2 & Hl). apply wp_ret. exists L2, d2, pd2. split_and!; [done..|].
    intros G. destruct (Hl G) as [-> El], (Hs G) as (_ & W & M & _). cbn [fst] in *. split; [done|].
    by rewrite get_models with (m := s), El; cbn; rewrite ?Hk.
Qed.

(** The calls on a new table, and dictionary_del. *)
Lemma session_ok cs pd m :
  repr F [] (empty_dictionary (Nat.max 0 DICTMINSZ)) pd m -> tidy pd -> (good -> oracle m = []) ->
  Forall (args_in F) cs -> Z.of_nat (sets cs) < 2 ^ 29 ->
  wp ('(l, d) ← run cs (Some pd); dictionary_del d;; mret (Some l))
     (fun r m' => exists l, r = Some l /\ F ⊆ heap m' /\ (good -> l = spec_calls (read_call F <$> cs) ∅ /\ heap m' = F)) m.
Proof.
  intros Hr Ht Eo Ha Hc.
  assert (roomy (empty_dictionary (Nat.max 0 DICTMINSZ))) as Hro by (apply wf_roomy, wf_empty; unfold DICTMINSZ; lia).
  apply wp_bind. eapply wp_mono; [eapply (run_ok cs) with (s := ∅) (c := 0%nat); [exact Hr|done| | |done|done]|].
  - intros G. split_and!; [by apply Eo| |apply models_empty|done|done]. apply wf_empty; unfold DICTMINSZ; lia.
  - split; unfold empty_dictionary, DICTMINSZ; cbn [d_size d_n]; lia.
  - intros [l od] m2 (L & d & pd2 & Eod & Hr2 & Hro2 & Hl). cbn in Eod. subst od. apply wp_bind. eapply wp_del; [done..|].
    intros m3 Ho3. apply wp_ret. exists l. split; [done|]. destruct (owns_end _ _ _ Ho3) as [Hsub Heq].
    split; [done|]. intros G. destruct (Hl G) as [-> El]. cbn in El. auto.
Qed.
End Run.

(** * Property *)

(** C4. A caller makes a dictionary, uses it through any sequence of dictionary_set,
    dictionary_unset and dictionary_get with strings of its own and fewer than 2^29
    sets, and deletes it; any allocation may fail.  When the four allocations of dictionary_new
    succeed, no call reads or frees a block that is not allocated, whatever fails later, and the caller's
    strings are untouched; if nothing fails later, the answers are those of a finite map and the memory
    is the one it was before: every copy and every array was freed.  When the struct cannot be
    allocated nothing happened.  When val or hash cannot, dictionary_new frees the size of the table as if it were
    a pointer; when only key cannot, it gives out a table without keys, and the next call reads through NULL. *)
Theorem dictionary_session cs m :
  (forall p, brk m <= p -> heap m !! p = None) -> Forall (args_in (heap m)) cs -> Z.of_nat (sets cs) < 2 ^ 29 ->
  match session cs m with
  | Ok (Some l, m') =>
      succeeds m 0 && succeeds m 1 && succeeds m 2 && succeeds m 3 = true /\ heap m ⊆ heap m' /\
      (drop 4 (oracle m) = [] -> l = spec_calls (read_call (heap m) <$> cs) ∅ /\ heap m' = heap m)
  | Ok (None, m') => succeeds m 0 = false /\ heap m' = heap m
  | Ub e => succeeds m 0 = true /\
      (e = BadFree /\ succeeds m 1 && succeeds m 3 = false \/
       e = NullDeref /\ succeeds m 1 && succeeds m 3 = true /\ succeeds m 2 = false)
  end.
Proof.
  intros Hb Ha Hc. pose proof (new_answers m 0) as Hn. pose proof (new_repr (heap m) m 0 (owns_start _ _ Hb eq_refl)) as Hr.
  unfold session, wpu, mbind, ST_bind in *. destruct (dictionary_new 0 m) as [[r m1]|e]; cbn [res_bind]; [|tauto].
  destruct r as [| |pd].
  { done. }
  { destruct Hn as [H1 H2]. rewrite !andb_true_iff in H1. cbn [fault]. rewrite andb_true_iff. tauto. }
  destruct Hn as [Hn Eo], (Hr pd eq_refl) as [Hpd Ht]. clear Hr.
  destruct (wp_run _ _ _ (session_ok (heap m) (drop 4 (oracle m) = []) cs pd m1 Hpd Ht ltac:(by intros <-) Ha Hc)) as (l & m' & E & H).
  destruct H as (x & -> & H). unfold mbind, ST_bind in E. rewrite E. by split.
Qed.

(** The strings of a caller: k, v and w. *)
Definition demo_memory (o : list bool) : Mem :=
  MkMem {[ 1 := str "k"; 2 := str "v"; 3 := str "w" ]} 4 o.

Definition demo_calls : list pcall := [PSet 1 (Some 2); PSet 1 (Some 3); PGet 1 None; PUnset 1; PGet 1 (Some 2)].

Lemma dictionary_session_witness :
  exists l m', session demo_calls (demo_memory [true; true; true; true]) = Ok (Some l, m')
      /\ l = [inl 0; inl 0; inr (Str (str "w")); inr (Str (str "v"))]
      /\ heap m' = heap (demo_memory []).
Proof.
  pose proof (dictionary_session demo_calls (demo_memory [true; true; true; true])) as H.
  destruct (session demo_calls (demo_memory [true; true; true; true])) as [[[l|] m']|e] eqn:E.
  - destruct H as (_ & _ & H).
    + intros p Hp. cbn in *. rewrite ?lookup_insert_ne, ?lookup_singleton_ne by lia. done.
    + repeat constructor; cbn; eauto; intros ? [= <-]; eauto.
    + done.
    + exists l, m'. destruct (H eq_refl) as [-> Em]. split_and!; [reflexivity|vm_compute; reflexivity|exact Em].
  - vm_compute in E. discriminate E.
  - vm_compute in E. discriminate E.
Defined.

(** The pointer that dictionary_get gives cannot be passed back as the new value of the
    same key: dictionary_set frees the value before it copies it. *)
Lemma set_own_value F L d pd m key k i p :
  repr F L d pd m -> roomy d -> 0 < d_n d -> F !! key = Some k ->
  Dictionary.dictionary_find d k (dictionary_hash (Some k)) = Some i -> cell (p_val pd) i = Some p ->
  dictionary_get (Some pd) (Some key) None m = Ok (Some p, m) /\
  dictionary_set (Some pd) (Some key) (Some p) m = Ub UseAfterFree.
Proof.
  intros Hr Hro Hn Hk Hf Hp. pose proof Hr as [E Ho].
  assert (text key m = Ok (k, m)) as Et by (unfold text; by rewrite (owns_caller _ _ _ _ _ Ho Hk)).
  assert (p_n pd = d_n d) as En by by subst d.
  assert (dictionary_find pd key (dictionary_hash (Some k)) m = Ok (Some i, m)) as Ef.
  { assert (wp (dictionary_find pd key (dictionary_hash (Some k))) (fun r m' => r = Some i /\ m' = m) m) as H
      by (eapply wp_find; [done..|]; by rewrite Hf).
    apply wp_run in H as (r & m' & -> & -> & ->). done. }
  assert (is_Some (heap m !! p)) as [v Hv].
  { apply cell_Some in Hp. apply (owns_live _ _ _ Ho). unfold footprint. rewrite !elem_of_app, !elem_of_held. eauto. }
  split; unfold dictionary_get, dictionary_set, mbind, ST_bind; rewrite Et; cbn [res_bind].
  - rewrite Ef. cbn [res_bind]. by rewrite Hp.
  - rewrite En, (proj2 (Z.ltb_lt 0 _) Hn), Ef. cbn [res_bind]. rewrite Hp. unfold free. rewrite Hv. cbn [res_bind].
    unfold xstrdup, mbind, ST_bind, text. cbn [heap]. by rewrite lookup_delete_eq.
Qed.
