(* ===== verification/Sm4.v ===== *)
(** encode_decode/sm4.c: the SM4 block cipher, in ECB and CBC mode.

    The code keeps 32-bit words in [unsigned long], 64 bits wide on the LP64
    targets, and never clears the bits a left rotation pushes above bit 31.  The
    definitions keep the 64-bit values; [spec_*] is SM4 on true 32-bit words, and
    the refinement theorem shows that the stray bits never reach a byte of
    output.  Decryption is proved to invert encryption in both modes. *)

From S2P Require Import Prelude.

Open Scope c_scope.
Open Scope Z_scope.

(** ** Tables *)

Definition SboxTable : list Z :=
  [0xd6; 0x90; 0xe9; 0xfe; 0xcc; 0xe1; 0x3d; 0xb7; 0x16; 0xb6; 0x14; 0xc2; 0x28; 0xfb; 0x2c; 0x05;
   0x2b; 0x67; 0x9a; 0x76; 0x2a; 0xbe; 0x04; 0xc3; 0xaa; 0x44; 0x13; 0x26; 0x49; 0x86; 0x06; 0x99;
   0x9c; 0x42; 0x50; 0xf4; 0x91; 0xef; 0x98; 0x7a; 0x33; 0x54; 0x0b; 0x43; 0xed; 0xcf; 0xac; 0x62;
   0xe4; 0xb3; 0x1c; 0xa9; 0xc9; 0x08; 0xe8; 0x95; 0x80; 0xdf; 0x94; 0xfa; 0x75; 0x8f; 0x3f; 0xa6;
   0x47; 0x07; 0xa7; 0xfc; 0xf3; 0x73; 0x17; 0xba; 0x83; 0x59; 0x3c; 0x19; 0xe6; 0x85; 0x4f; 0xa8;
   0x68; 0x6b; 0x81; 0xb2; 0x71; 0x64; 0xda; 0x8b; 0xf8; 0xeb; 0x0f; 0x4b; 0x70; 0x56; 0x9d; 0x35;
   0x1e; 0x24; 0x0e; 0x5e; 0x63; 0x58; 0xd1; 0xa2; 0x25; 0x22; 0x7c; 0x3b; 0x01; 0x21; 0x78; 0x87;
   0xd4; 0x00; 0x46; 0x57; 0x9f; 0xd3; 0x27; 0x52; 0x4c; 0x36; 0x02; 0xe7; 0xa0; 0xc4; 0xc8; 0x9e;
   0xea; 0xbf; 0x8a; 0xd2; 0x40; 0xc7; 0x38; 0xb5; 0xa3; 0xf7; 0xf2; 0xce; 0xf9; 0x61; 0x15; 0xa1;
   0xe0; 0xae; 0x5d; 0xa4; 0x9b; 0x34; 0x1a; 0x55; 0xad; 0x93; 0x32; 0x30; 0xf5; 0x8c; 0xb1; 0xe3;
   0x1d; 0xf6; 0xe2; 0x2e; 0x82; 0x66; 0xca; 0x60; 0xc0; 0x29; 0x23; 0xab; 0x0d; 0x53; 0x4e; 0x6f;
   0xd5; 0xdb; 0x37; 0x45; 0xde; 0xfd; 0x8e; 0x2f; 0x03; 0xff; 0x6a; 0x72; 0x6d; 0x6c; 0x5b; 0x51;
   0x8d; 0x1b; 0xaf; 0x92; 0xbb; 0xdd; 0xbc; 0x7f; 0x11; 0xd9; 0x5c; 0x41; 0x1f; 0x10; 0x5a; 0xd8;
   0x0a; 0xc1; 0x31; 0x88; 0xa5; 0xcd; 0x7b; 0xbd; 0x2d; 0x74; 0xd0; 0x12; 0xb8; 0xe5; 0xb4; 0xb0;
   0x89; 0x69; 0x97; 0x4a; 0x0c; 0x96; 0x77; 0x7e; 0x65; 0xb9; 0xf1; 0x09; 0xc5; 0x6e; 0xc6; 0x84;
   0x18; 0xf0; 0x7d; 0xec; 0x3a; 0xdc; 0x4d; 0x20; 0x79; 0xee; 0x5f; 0x3e; 0xd7; 0xcb; 0x39; 0x48].

Definition FK : list Z := [0xa3b1bac6; 0x56aa3350; 0x677d9197; 0xb27022dc].

Definition CK : list Z :=
  [0x00070e15; 0x1c232a31; 0x383f464d; 0x545b6269;
   0x70777e85; 0x8c939aa1; 0xa8afb6bd; 0xc4cbd2d9;
   0xe0e7eef5; 0xfc030a11; 0x181f262d; 0x343b4249;
   0x50575e65; 0x6c737a81; 0x888f969d; 0xa4abb2b9;
   0xc0c7ced5; 0xdce3eaf1; 0xf8ff060d; 0x141b2229;
   0x30373e45; 0x4c535a61; 0x686f767d; 0x848b9299;
   0xa0a7aeb5; 0xbcc3cad1; 0xd8dfe6ed; 0xf4fb0209;
   0x10171e25; 0x2c333a41; 0x484f565d; 0x646b7279].

Definition SM4_ENCRYPT : Z := 1.
Definition SM4_DECRYPT : Z := 0.

Record sm4_context : Type := Ctx { mode : Z; sk : list Z }.

(** ** Operations *)

Definition GET_ULONG_BE (b : list Z) (i : nat) : Z :=
  (nth i b 0 << 24) .| (nth (i + 1) b 0 << 16) .| (nth (i + 2) b 0 << 8) .| nth (i + 3) b 0.

Definition PUT_ULONG_BE (n : Z) : list Z := [u8 (n >> 24); u8 (n >> 16); u8 (n >> 8); u8 n].

Definition SHL (x n : Z) : Z := u64 ((x .& 0xFFFFFFFF) << n).
Definition ROTL (x n : Z) : Z := SHL x n .| (x >> (32 - n)).

Definition sm4Sbox (inch : Z) : Z := nth (Z.to_nat inch) SboxTable 0.

Definition sm4Lt (ka : Z) : Z :=
  let b := map sm4Sbox (PUT_ULONG_BE ka) in
  let bb := GET_ULONG_BE b 0 in
  bb .^ ROTL bb 2 .^ ROTL bb 10 .^ ROTL bb 18 .^ ROTL bb 24.

Definition sm4F (x0 x1 x2 x3 rk : Z) : Z := x0 .^ sm4Lt (x1 .^ x2 .^ x3 .^ rk).

Definition sm4CalciRK (ka : Z) : Z :=
  let b := map sm4Sbox (PUT_ULONG_BE ka) in
  let bb := GET_ULONG_BE b 0 in
  bb .^ ROTL bb 13 .^ ROTL bb 23.

(** [for (; i < 32; i++) { k[i+4] = ...; SK[i] = k[i+4]; }]; [k] holds the first
    [i + 4] cells of the array. *)
Fixpoint setkey_loop (fuel i : nat) (k SK : list Z) : list Z :=
  match fuel with
  | O => SK
  | S f =>
      let x := nth i k 0 .^ sm4CalciRK (nth (i + 1) k 0 .^ nth (i + 2) k 0
                                          .^ nth (i + 3) k 0 .^ nth i CK 0) in
      setkey_loop f (S i) (k ++ [x]) (SK ++ [x])
  end.

Definition sm4_setkey (key : list Z) : list Z :=
  let MK i := GET_ULONG_BE key (4 * i) in
  setkey_loop 32 0 (map (fun i => MK i .^ nth i FK 0) [0; 1; 2; 3]%nat) [].

Fixpoint one_round_loop (fuel i : nat) (sk ulbuf : list Z) : list Z :=
  match fuel with
  | O => ulbuf
  | S f =>
      one_round_loop f (S i) sk
        (ulbuf ++ [sm4F (nth i ulbuf 0) (nth (i + 1) ulbuf 0) (nth (i + 2) ulbuf 0)
                     (nth (i + 3) ulbuf 0) (nth i sk 0)])
  end.

(** The 16 bytes written to [output]; [input] is read before they are. *)
Definition sm4_one_round (sk input : list Z) : list Z :=
  let ulbuf := one_round_loop 32 0 sk (map (fun i => GET_ULONG_BE input (4 * i)) [0; 1; 2; 3]%nat) in
  PUT_ULONG_BE (nth 35 ulbuf 0) ++ PUT_ULONG_BE (nth 34 ulbuf 0)
    ++ PUT_ULONG_BE (nth 33 ulbuf 0) ++ PUT_ULONG_BE (nth 32 ulbuf 0).

Definition sm4_setkey_enc (key : list Z) : sm4_context := Ctx SM4_ENCRYPT (sm4_setkey key).

Definition swap_cells (i j : nat) (l : list Z) : list Z := <[j:=nth i l 0]> (<[i:=nth j l 0]> l).

Definition sm4_setkey_dec (key : list Z) : sm4_context :=
  Ctx SM4_ENCRYPT
    (fold_left (fun l i => swap_cells i (31 - i) l) (seq 0 16) (sm4_setkey key)).

(** Both modes read and write a whole block while [length > 0]; [input] is all
    there is to read.  The result is the bytes written. *)
Fixpoint ecb_loop (fuel : nat) (sk : list Z) (length : Z) (input : list Z) : res (list Z) :=
  if negb (0 <? length) then Ok []
  else match fuel with
       | O => Ub NoReturn
       | S f =>
           if zlen input <? 16 then Ub OobRead
           else
             let output := sm4_one_round sk (take 16 input) in
             let! rest := ecb_loop f sk (length - 16) (drop 16 input) in
             Ok (output ++ rest)
       end.

Definition sm4_crypt_ecb (ctx : sm4_context) (mode length : Z) (input : list Z) : res (list Z) :=
  ecb_loop (Z.to_nat length) (sk ctx) length input.

Definition xor_bytes (a b : list Z) : list Z := zip_with (fun x y => u8 (x .^ y)) a b.

Fixpoint cbc_loop (fuel : nat) (enc : bool) (sk : list Z) (length : Z) (iv input : list Z)
    : res (list Z * list Z) :=
  if negb (0 <? length) then Ok ([], iv)
  else match fuel with
       | O => Ub NoReturn
       | S f =>
           if zlen input <? 16 then Ub OobRead
           else
             let block := take 16 input in
             let output := if enc then sm4_one_round sk (xor_bytes block iv)
                           else xor_bytes (sm4_one_round sk block) iv in
             let iv' := if enc then output else block in
             let! (rest, iv'') := cbc_loop f enc sk (length - 16) iv' (drop 16 input) in
             Ok (output ++ rest, iv'')
       end.

(** The bytes written and the final contents of [iv]. *)
Definition sm4_crypt_cbc (ctx : sm4_context) (mode length : Z) (iv input : list Z)
    : res (list Z * list Z) :=
  cbc_loop (Z.to_nat length) (mode =? SM4_ENCRYPT) (sk ctx) length iv input.

(** ** The cipher on 32-bit words *)

Definition rotl32 (x n : Z) : Z := u32 ((x << n) .| (x >> (32 - n))).

Definition spec_tau (x : Z) : Z := GET_ULONG_BE (map sm4Sbox (PUT_ULONG_BE x)) 0.

Definition spec_T (x : Z) : Z :=
  let b := spec_tau x in
  b .^ rotl32 b 2 .^ rotl32 b 10 .^ rotl32 b 18 .^ rotl32 b 24.

Definition quad : Type := (Z * Z * Z * Z)%type.

Definition spec_round (q : quad) (rk : Z) : quad :=
  let '(x0, x1, x2, x3) := q in (x1, x2, x3, x0 .^ spec_T (x1 .^ x2 .^ x3 .^ rk)).

Definition flip (q : quad) : quad := let '(x0, x1, x2, x3) := q in (x3, x2, x1, x0).

Definition quad_of (b : list Z) : quad :=
  (GET_ULONG_BE b 0, GET_ULONG_BE b 4, GET_ULONG_BE b 8, GET_ULONG_BE b 12).

Definition bytes_of (q : quad) : list Z :=
  let '(x0, x1, x2, x3) := q in
  PUT_ULONG_BE x0 ++ PUT_ULONG_BE x1 ++ PUT_ULONG_BE x2 ++ PUT_ULONG_BE x3.

Definition spec_block (rks block : list Z) : list Z :=
  bytes_of (flip (fold_left spec_round rks (quad_of block))).

Definition is_block (b : list Z) : Prop := length b = 16%nat /\ byte_list b.

(** The key (and plain text) of the standard's test vector. *)
Definition demo_key : list Z :=
  [0x01; 0x23; 0x45; 0x67; 0x89; 0xab; 0xcd; 0xef;
   0xfe; 0xdc; 0xba; 0x98; 0x76; 0x54; 0x32; 0x10].

(** * Lemmas *)

Section Words.
Implicit Types (x y n : Z) (b : list Z).

Lemma u32_lxor x y : u32 (x .^ y) = u32 x .^ u32 y.
Proof. bitwise. Qed.

Lemma PUT_u32 x : PUT_ULONG_BE (u32 x) = PUT_ULONG_BE x.
Proof. unfold PUT_ULONG_BE. f_equal; [bitwise|]. f_equal; [bitwise|]. f_equal; [bitwise|]. f_equal; bitwise. Qed.

Lemma GET_PUT x : GET_ULONG_BE (PUT_ULONG_BE x) 0 = u32 x.
Proof. unfold GET_ULONG_BE, PUT_ULONG_BE. cbn [nth Nat.add]. bitwise. Qed.

Lemma byte_bits c i : 0 <= c < 256 -> 8 <= i -> Z.testbit c i = false.
Proof.
  intros Hc Hi. rewrite <- (wrap_small 8 c) by lia. unfold wrap.
  rewrite Z.testbit_mod_pow2 by lia. destruct (Z.ltb_spec i 8); [lia|done].
Qed.

Lemma u8_byte c : 0 <= c < 256 -> u8 c = c.
Proof. intros. by apply wrap_small. Qed.

(** The bytes of a word of four bytes are those bytes. *)
Lemma PUT_word (a b c d : Z) :
  0 <= a < 256 -> 0 <= b < 256 -> 0 <= c < 256 -> 0 <= d < 256 ->
  PUT_ULONG_BE ((a << 24) .| (b << 16) .| (c << 8) .| d) = [a; b; c; d].
Proof.
  intros Ha Hb Hc Hd. unfold PUT_ULONG_BE.
  pose proof (byte_bits a) as A. pose proof (byte_bits b) as B.
  pose proof (byte_bits c) as C. pose proof (byte_bits d) as D.
  assert (forall e i, 0 <= e < 256 -> (Z.testbit e i) = ((i <? 8) && Z.testbit e i)%bool) as H8.
  { intros e i He. destruct (Z.ltb_spec i 8); [done|]. by apply byte_bits. }
  f_equal; [|f_equal; [|f_equal; [|f_equal]]].
  - rewrite <- (u8_byte a) at 2 by done. bitwise. rewrite B, C, D by lia. btauto.
  - rewrite <- (u8_byte b) at 2 by done. bitwise. rewrite C, D by lia. btauto.
  - rewrite <- (u8_byte c) at 2 by done. bitwise. rewrite D by lia. btauto.
  - rewrite <- (u8_byte d) at 2 by done. bitwise.
Qed.

Lemma GET_bound b i : byte_list b -> 0 <= GET_ULONG_BE b i < 2 ^ 32.
Proof.
  intros Hb. assert (forall j, 0 <= nth j b 0 < 256) as H.
  { intros j. destruct (nth_in_or_default j b 0) as [Hi| ->]; [|lia].
    by apply (proj1 (List.Forall_forall _ _) Hb). }
  assert (GET_ULONG_BE b i = u32 (GET_ULONG_BE b i)) as ->; [|by apply wrap_bound].
  unfold GET_ULONG_BE.
  pose proof (fun k => byte_bits _ k (H i)) as A. pose proof (fun k => byte_bits _ k (H (i + 1)%nat)) as B.
  pose proof (fun k => byte_bits _ k (H (i + 2)%nat)) as C. pose proof (fun k => byte_bits _ k (H (i + 3)%nat)) as D.
  bitwise. rewrite A, B, C, D by lia. done.
Qed.
End Words.

Section Refinement.
Implicit Types (x : Z) (q : quad) (l ks : list Z).

Lemma rotl_refines x n : 0 < n < 32 -> u32 (ROTL x n) = rotl32 x n.
Proof.
  intros Hn. unfold ROTL, SHL, rotl32. change 0xFFFFFFFF with (Z.ones 32).
  rewrite Z.land_ones by lia. bitwise.
Qed.

Lemma SboxTable_bytes : byte_list SboxTable.
Proof.
  assert (forallb is_byte SboxTable = true) as H by (vm_compute; reflexivity).
  rewrite forallb_forall in H. apply List.Forall_forall. intros c Hc.
  specialize (H c Hc). unfold is_byte in H. lia.
Qed.

Lemma sm4Sbox_byte x : 0 <= sm4Sbox x < 256.
Proof.
  unfold sm4Sbox. destruct (nth_in_or_default (Z.to_nat x) SboxTable 0) as [H| ->]; [|lia].
  by apply (proj1 (List.Forall_forall _ _) SboxTable_bytes).
Qed.

Lemma spec_tau_bound x : 0 <= spec_tau x < 2 ^ 32.
Proof.
  unfold spec_tau. apply GET_bound. unfold byte_list. rewrite List.Forall_forall. intros c Hc.
  apply in_map_iff in Hc as (y & <- & _). apply sm4Sbox_byte.
Qed.

Lemma sm4Lt_refines x : u32 (sm4Lt x) = spec_T (u32 x).
Proof.
  unfold sm4Lt, spec_T. rewrite !u32_lxor, !rotl_refines by lia.
  unfold spec_tau. rewrite PUT_u32. fold (spec_tau x).
  by rewrite (wrap_small 32 (spec_tau x)) by apply spec_tau_bound.
Qed.

Lemma spec_T_bound x : 0 <= spec_T x < 2 ^ 32.
Proof.
  assert (u32 (spec_T x) = spec_T x) as <-; [|by apply wrap_bound].
  unfold spec_T, rotl32. rewrite !u32_lxor, !wrap_wrap.
  by rewrite (wrap_small 32 (spec_tau x)) by apply spec_tau_bound.
Qed.

Lemma sm4F_refines a b c d k :
  u32 (sm4F a b c d k) = u32 a .^ spec_T (u32 b .^ u32 c .^ u32 d .^ u32 k).
Proof. unfold sm4F. by rewrite u32_lxor, sm4Lt_refines, !u32_lxor. Qed.

(** The four words of [ulbuf] the next round reads. *)
Definition window (i : nat) (l : list Z) : quad :=
  (u32 (nth i l 0), u32 (nth (i + 1) l 0), u32 (nth (i + 2) l 0), u32 (nth (i + 3) l 0)).

Lemma one_round_loop_window fuel : forall i ks l,
  length l = (i + 4)%nat ->
  length (one_round_loop fuel i ks l) = (i + fuel + 4)%nat /\
  window (i + fuel) (one_round_loop fuel i ks l) =
    fold_left spec_round (map (fun j => u32 (nth j ks 0)) (seq i fuel)) (window i l).
Proof.
  induction fuel as [|f IH]; intros i ks l Hl; cbn [one_round_loop seq map fold_left].
  - rewrite !Nat.add_0_r. done.
  - match goal with |- context [one_round_loop f (S i) ks ?l'] => set (l2 := l') end.
    assert (length l2 = (S i + 4)%nat) as Hl2.
    { unfold l2. rewrite length_app. cbn. lia. }
    destruct (IH (S i) ks l2 Hl2) as [IH1 IH2].
    replace (i + S f)%nat with (S i + f)%nat by lia. split; [done|]. rewrite IH2.
    f_equal. unfold window, spec_round, l2.
    rewrite !app_nth1 by lia.
    replace (S i + 3)%nat with (length l) by lia. rewrite nth_middle, sm4F_refines.
    replace (S i)%nat with (i + 1)%nat by lia.
    replace (i + 1 + 1)%nat with (i + 2)%nat by lia.
    replace (i + 1 + 2)%nat with (i + 3)%nat by lia. done.
Qed.

Lemma map_nth_seq l : map (fun j => u32 (nth j l 0)) (seq 0 (length l)) = map u32 l.
Proof.
  rewrite <- (map_map (fun j => nth j l 0) u32). f_equal.
  induction l as [|a l IH]; [done|]. cbn [length seq map nth]. f_equal.
  rewrite <- seq_shift, map_map. apply IH.
Qed.

Lemma one_round_spec ks b :
  length ks = 32%nat -> byte_list b ->
  sm4_one_round ks b = spec_block (map u32 ks) b.
Proof.
  intros Hk Hb. unfold sm4_one_round, spec_block.
  set (l := map _ [0; 1; 2; 3]%nat).
  destruct (one_round_loop_window 32 0 ks l eq_refl) as [_ H].
  rewrite <- Hk, map_nth_seq, Hk in H.
  assert (window 0 l = quad_of b) as E.
  { unfold window, l, quad_of. cbn [map nth Nat.add Nat.mul].
    by rewrite !(wrap_small 32) by (apply GET_bound; done). }
  rewrite E in H. rewrite <- H. unfold window. cbn [Nat.add flip bytes_of].
  by rewrite !PUT_u32.
Qed.

(** One round undoes itself once the four words are reversed. *)
Lemma round_inverse q k : flip (spec_round (flip (spec_round q k)) k) = q.
Proof.
  destruct q as [[[x0 x1] x2] x3]. cbn.
  rewrite (Z.lxor_comm x1 x2), (Z.lxor_assoc x2 x1 x3), (Z.lxor_comm x1 x3),
    <- (Z.lxor_assoc x2 x3 x1), (Z.lxor_comm x2 x3).
  by rewrite Z.lxor_assoc, Z.lxor_nilpotent, Z.lxor_0_r.
Qed.

Lemma flip_flip q : flip (flip q) = q.
Proof. by destruct q as [[[? ?] ?] ?]. Qed.

Lemma rounds_inverse ks : forall q,
  flip (fold_left spec_round (rev ks) (flip (fold_left spec_round ks q))) = q.
Proof.
  induction ks as [|k ks IH]; intros q; cbn; [apply flip_flip|].
  rewrite fold_left_app. cbn. set (z := fold_left spec_round (rev ks) _).
  assert (z = flip (spec_round q k)) as ->.
  { rewrite <- (flip_flip z). f_equal. apply IH. }
  apply round_inverse.
Qed.

Definition quad_ok q : Prop :=
  let '(a, b, c, d) := q in
  u32 a = a /\ u32 b = b /\ u32 c = c /\ u32 d = d.

Lemma spec_round_ok q k : quad_ok q -> quad_ok (spec_round q k).
Proof.
  destruct q as [[[a b] c] d]. intros (Ha & Hb & Hc & Hd). cbn. split_and!; auto.
  rewrite u32_lxor, Ha. f_equal. apply wrap_small, spec_T_bound.
Qed.

Lemma rounds_ok ks : forall q, quad_ok q -> quad_ok (fold_left spec_round ks q).
Proof. induction ks; cbn; auto using spec_round_ok. Qed.

Lemma flip_ok q : quad_ok q -> quad_ok (flip q).
Proof. destruct q as [[[a b] c] d]. cbn. tauto. Qed.

Lemma quad_of_ok b : byte_list b -> quad_ok (quad_of b).
Proof. intros. cbn. split_and!; apply wrap_small; by apply GET_bound. Qed.

Lemma quad_of_bytes q : quad_ok q -> quad_of (bytes_of q) = q.
Proof.
  destruct q as [[[a b] c] d]. intros (Ha & Hb & Hc & Hd). unfold quad_of, bytes_of.
  transitivity (u32 a, u32 b, u32 c, u32 d); [|congruence].
  by rewrite <- !GET_PUT.
Qed.

Lemma block_destruct b : is_block b ->
  exists b0 b1 b2 b3 b4 b5 b6 b7 b8 b9 b10 b11 b12 b13 b14 b15,
    b = [b0; b1; b2; b3; b4; b5; b6; b7; b8; b9; b10; b11; b12; b13; b14; b15].
Proof.
  intros [H _].
  do 16 (destruct b as [|? b]; [done|cbn in H; apply eq_add_S in H || idtac]).
  destruct b; [|done]. repeat eexists.
Qed.

Lemma bytes_of_quad b : is_block b -> bytes_of (quad_of b) = b.
Proof.
  intros Hb. pose proof Hb as [_ Hbytes]. destruct (block_destruct b Hb) as
    (b0 & b1 & b2 & b3 & b4 & b5 & b6 & b7 & b8 & b9 & b10 & b11 & b12 & b13 & b14 & b15 & ->).
  unfold byte_list in Hbytes. rewrite !Forall_cons in Hbytes. destruct_and!.
  unfold bytes_of, quad_of, GET_ULONG_BE. cbn [nth Nat.add].
  by rewrite !PUT_word by done.
Qed.

Lemma PUT_bytes x : byte_list (PUT_ULONG_BE x).
Proof. unfold PUT_ULONG_BE. repeat constructor; by apply wrap_bound. Qed.

Lemma bytes_of_block q : is_block (bytes_of q).
Proof.
  destruct q as [[[a b] c] d]. split; [done|]. unfold bytes_of, byte_list.
  rewrite !Forall_app. split_and!; apply PUT_bytes.
Qed.

Lemma spec_block_inverse ks b :
  is_block b -> spec_block (rev ks) (spec_block ks b) = b.
Proof.
  intros Hb. unfold spec_block.
  rewrite quad_of_bytes by (apply flip_ok, rounds_ok, quad_of_ok; apply Hb).
  by rewrite rounds_inverse, bytes_of_quad.
Qed.

Lemma setkey_loop_length fuel : forall i k SK,
  length (setkey_loop fuel i k SK) = (length SK + fuel)%nat.
Proof. induction fuel as [|f IH]; intros; cbn; [lia|]. rewrite IH, length_app. cbn. lia. Qed.

Lemma sm4_setkey_length key : length (sm4_setkey key) = 32%nat.
Proof. unfold sm4_setkey. by rewrite setkey_loop_length. Qed.

#[local] Opaque sm4_setkey.

Lemma swap_reverses l :
  length l = 32%nat -> fold_left (fun l i => swap_cells i (31 - i) l) (seq 0 16) l = rev l.
Proof.
  intros H. do 32 (destruct l as [|? l]; [discriminate|apply eq_add_S in H || idtac]).
  destruct l; [|discriminate]. reflexivity.
Qed.

Lemma dec_key key : sk (sm4_setkey_dec key) = rev (sk (sm4_setkey_enc key)).
Proof. cbn [sk sm4_setkey_dec sm4_setkey_enc]. apply swap_reverses, sm4_setkey_length. Qed.

Lemma one_round_inverse key b :
  is_block b ->
  sm4_one_round (sk (sm4_setkey_dec key))
    (sm4_one_round (sk (sm4_setkey_enc key)) b) = b.
Proof.
  intros Hb. rewrite dec_key. cbn [sk sm4_setkey_enc].
  rewrite (one_round_spec (sm4_setkey key)) by (apply sm4_setkey_length || apply Hb).
  rewrite one_round_spec.
  - rewrite map_rev. by apply spec_block_inverse.
  - rewrite length_rev. apply sm4_setkey_length.
  - apply bytes_of_block.
Qed.

Lemma one_round_block ks b : is_block (sm4_one_round ks b).
Proof.
  split; [done|]. unfold sm4_one_round, byte_list. rewrite !Forall_app.
  split_and!; apply PUT_bytes.
Qed.
End Refinement.

#[local] Opaque sm4_one_round.

Section Modes.
Implicit Types (key iv input : list Z).

Lemma ecb_loop_step f ks len (x : list Z) (y : list Z) :
  is_block x -> 0 < len ->
  ecb_loop (S f) ks len (x ++ y) =
    res_bind (ecb_loop f ks (len - 16) y) (fun rest => Ok (sm4_one_round ks x ++ rest)).
Proof.
  intros [Hx _] Hl. cbn [ecb_loop]. rewrite (proj2 (Z.ltb_lt 0 len)) by done. cbn [negb].
  rewrite zlen_app. unfold zlen at 1. rewrite Hx.
  destruct (Z.ltb_spec (Z.of_nat 16 + zlen y) 16); [pose proof (zlen_nonneg y); lia|].
  by rewrite take_app_length', drop_app_length' by done.
Qed.

Lemma cbc_loop_step f enc ks len iv (x : list Z) (y : list Z) :
  is_block x -> 0 < len ->
  cbc_loop (S f) enc ks len iv (x ++ y) =
    let output := if enc then sm4_one_round ks (xor_bytes x iv)
                  else xor_bytes (sm4_one_round ks x) iv in
    res_bind (cbc_loop f enc ks (len - 16) (if enc then output else x) y)
      (fun '(rest, iv'') => Ok (output ++ rest, iv'')).
Proof.
  intros [Hx _] Hl. cbn [cbc_loop]. rewrite (proj2 (Z.ltb_lt 0 len)) by done. cbn [negb].
  rewrite zlen_app. unfold zlen at 1. rewrite Hx.
  destruct (Z.ltb_spec (Z.of_nat 16 + zlen y) 16); [pose proof (zlen_nonneg y); lia|].
  by rewrite take_app_length', drop_app_length' by done.
Qed.

(** A byte string of whole blocks. *)
Inductive blocks : nat -> list Z -> Prop :=
  | blocks_nil : blocks 0 []
  | blocks_cons n x y : is_block x -> blocks n y -> blocks (S n) (x ++ y).

Lemma blocks_of n : forall input,
  byte_list input -> length input = (16 * n)%nat -> blocks n input.
Proof.
  induction n as [|n IH]; intros input Hb Hl.
  - destruct input; [constructor|cbn in Hl; lia].
  - rewrite <- (take_drop 16 input). constructor.
    + split; [rewrite length_take; lia|by apply Forall_take].
    + apply IH; [by apply Forall_drop|rewrite length_drop; lia].
Qed.

Lemma blocks_length n input : blocks n input -> length input = (16 * n)%nat.
Proof. induction 1 as [|n x y [Hx _] _ IH]; [done|]. rewrite length_app. lia. Qed.

Lemma ecb_roundtrip key n : forall input f,
  blocks n input -> (n <= f)%nat ->
  exists output, blocks n output /\
    ecb_loop f (sk (sm4_setkey_enc key)) (16 * Z.of_nat n) input = Ok output /\
    ecb_loop f (sk (sm4_setkey_dec key)) (16 * Z.of_nat n) output = Ok input.
Proof.
  induction n as [|n IH]; intros input f Hb Hf; inversion Hb as [|? x y Hx Hy]; subst.
  - exists []. split; [constructor|]. by destruct f.
  - destruct f as [|f]; [lia|].
    destruct (IH y f Hy) as (out & Hout & E1 & E2); [lia|].
    exists (sm4_one_round (sk (sm4_setkey_enc key)) x ++ out).
    replace (16 * Z.of_nat (S n) - 16) with (16 * Z.of_nat n) in * by lia.
    split; [constructor; [apply one_round_block|done]|].
    rewrite !ecb_loop_step by (apply one_round_block || done || lia).
    replace (16 * Z.of_nat (S n) - 16) with (16 * Z.of_nat n) by lia.
    rewrite E1, E2. cbn [res_bind]. by rewrite one_round_inverse.
Qed.

Lemma xor_bytes_bytes (x : list Z) : forall y, byte_list (xor_bytes x y).
Proof.
  unfold byte_list, xor_bytes. induction x as [|a x IH]; intros [|b y]; cbn; constructor; auto.
  by apply (wrap_bound 8).
Qed.

Lemma xor_bytes_block (x y : list Z) : is_block x -> is_block y -> is_block (xor_bytes x y).
Proof.
  intros [Hx _] [Hy _]. split; [|apply xor_bytes_bytes].
  unfold xor_bytes. rewrite length_zip_with. lia.
Qed.

Lemma xor_bytes_cancel (x y : list Z) : is_block x -> is_block y -> xor_bytes (xor_bytes x y) y = x.
Proof.
  intros [Hx Bx] [Hy _]. unfold xor_bytes.
  assert (length x = length y) as Hl by lia. clear Hx Hy.
  revert y Hl. induction Bx as [|a x Ha Bx IH]; intros [|b y] Hl; try done. cbn.
  f_equal; [|apply IH; by injection Hl].
  rewrite <- (u8_byte a) at 2 by done. bitwise.
Qed.

Lemma cbc_roundtrip key n : forall iv input f,
  is_block iv -> blocks n input -> (n <= f)%nat ->
  exists output iv', blocks n output /\
    cbc_loop f true (sk (sm4_setkey_enc key)) (16 * Z.of_nat n) iv input = Ok (output, iv') /\
    cbc_loop f false (sk (sm4_setkey_dec key)) (16 * Z.of_nat n) iv output = Ok (input, iv').
Proof.
  induction n as [|n IH]; intros iv input f Hiv Hb Hf; inversion Hb as [|? x y Hx Hy]; subst.
  - exists [], iv. split; [constructor|]. by destruct f.
  - destruct f as [|f]; [lia|].
    set (c := sm4_one_round (sk (sm4_setkey_enc key)) (xor_bytes x iv)).
    destruct (IH c y f) as (out & iv' & Hout & E1 & E2); [apply one_round_block|done|lia|].
    exists (c ++ out), iv'.
    split; [constructor; [apply one_round_block|done]|].
    rewrite !cbc_loop_step by (apply one_round_block || done || lia). fold c.
    replace (16 * Z.of_nat (S n) - 16) with (16 * Z.of_nat n) by lia. cbn zeta.
    rewrite E1, E2. cbn [res_bind]. unfold c.
    rewrite one_round_inverse by (by apply xor_bytes_block).
    by rewrite xor_bytes_cancel.
Qed.

(** The loop stops exactly when it has read [ceil (len / 16)] whole blocks. *)
Lemma ecb_loop_ok ks f : forall len input,
  len <= 16 * Z.of_nat f ->
  is_ok (ecb_loop f ks len input) = (len <=? 16 * (zlen input / 16)).
Proof.
  induction f as [|f IH]; intros len input Hl; cbn [ecb_loop].
  - destruct (Z.ltb_spec 0 len); [lia|]. cbn. symmetry. apply Z.leb_le.
    pose proof (zlen_nonneg input). Z.to_euclidean_division_equations. lia.
  - pose proof (zlen_nonneg input).
    destruct (Z.ltb_spec 0 len); cbn [negb].
    + destruct (Z.ltb_spec (zlen input) 16).
      * rewrite Z.div_small by lia. cbn. symmetry. apply Z.leb_gt. lia.
      * assert (is_ok (ecb_loop f ks (len - 16) (drop 16 input)) = (len <=? 16 * (zlen input / 16)))
          as <-; [|by destruct (ecb_loop _ _ _ _)].
        rewrite IH by lia.
        assert (zlen (drop 16 input) = zlen input - 16) as ->.
        { unfold zlen in *. rewrite length_drop. lia. }
        replace (zlen input - 16) with (zlen input + (-1) * 16) by lia.
        rewrite Z.div_add by lia. lia.
    + cbn. symmetry. apply Z.leb_le. Z.to_euclidean_division_equations. lia.
Qed.
End Modes.

(** * Properties *)

(** C24. SM4 as coded on 64-bit words, whose left rotations leave bits above bit 31,
    computes for every list of 32 round keys and every block the same bytes as
    SM4 on 32-bit words with the low halves of the round keys. *)
Theorem sm4_one_round_refines ks b :
  length ks = 32%nat -> byte_list b ->
  sm4_one_round ks b = spec_block (map u32 ks) b.
Proof. apply one_round_spec. Qed.

Lemma demo_key_bytes : byte_list demo_key.
Proof. repeat constructor; lia. Qed.

Lemma sm4_one_round_refines_witness :
  sm4_one_round (sm4_setkey demo_key) demo_key = spec_block (map u32 (sm4_setkey demo_key)) demo_key
  /\ spec_block (map u32 (sm4_setkey demo_key)) demo_key =
     [0x68; 0x1e; 0xdf; 0x34; 0xd2; 0x06; 0x96; 0x5e;
      0x86; 0xb3; 0xe9; 0x4f; 0x53; 0x6e; 0x42; 0x46].
Proof.
  split; [|vm_compute; reflexivity].
  apply sm4_one_round_refines; [apply sm4_setkey_length|apply demo_key_bytes].
Defined.

(** C17. In ECB mode, decrypting with the decryption schedule of a key what was
    encrypted with its encryption schedule gives back every byte string of
    whole blocks; both calls return. *)
Theorem sm4_ecb_roundtrip key input n :
  byte_list input -> length input = (16 * n)%nat ->
  exists output,
    sm4_crypt_ecb (sm4_setkey_enc key) SM4_ENCRYPT (zlen input) input = Ok output /\
    length output = length input /\
    sm4_crypt_ecb (sm4_setkey_dec key) SM4_DECRYPT (zlen output) output = Ok input.
Proof.
  intros Hb Hl. pose proof (blocks_of n input Hb Hl) as B. unfold sm4_crypt_ecb.
  assert (zlen input = 16 * Z.of_nat n) as Hz by (unfold zlen; lia).
  destruct (ecb_roundtrip key n input (Z.to_nat (zlen input)) B) as (out & Bo & E1 & E2); [lia|].
  pose proof (blocks_length n out Bo) as Ho.
  assert (zlen out = 16 * Z.of_nat n) as Hzo by (unfold zlen; lia).
  exists out. rewrite Hz in E1, E2. rewrite Hz, Hzo. split_and!; [done|lia|done].
Qed.

Lemma sm4_ecb_roundtrip_witness :
  exists output,
    sm4_crypt_ecb (sm4_setkey_enc demo_key) SM4_ENCRYPT 32 (demo_key ++ demo_key) = Ok output /\
    length output = 32%nat /\
    sm4_crypt_ecb (sm4_setkey_dec demo_key) SM4_DECRYPT (zlen output) output
      = Ok (demo_key ++ demo_key).
Proof.
  apply (sm4_ecb_roundtrip demo_key (demo_key ++ demo_key) 2); [|reflexivity].
  apply Forall_app. split; apply demo_key_bytes.
Defined.

(** C7. In CBC mode, decrypting with the same initial vector gives back the plain
    text, and both calls leave the same vector for the next call. *)
Theorem sm4_cbc_roundtrip key iv input n :
  is_block iv -> byte_list input -> length input = (16 * n)%nat ->
  exists output iv',
    sm4_crypt_cbc (sm4_setkey_enc key) SM4_ENCRYPT (zlen input) iv input = Ok (output, iv') /\
    sm4_crypt_cbc (sm4_setkey_dec key) SM4_DECRYPT (zlen output) iv output = Ok (input, iv').
Proof.
  intros Hiv Hb Hl. pose proof (blocks_of n input Hb Hl) as B. unfold sm4_crypt_cbc.
  assert (zlen input = 16 * Z.of_nat n) as Hz by (unfold zlen; lia).
  destruct (cbc_roundtrip key n iv input (Z.to_nat (zlen input)) Hiv B)
    as (out & iv' & Bo & E1 & E2); [lia|].
  pose proof (blocks_length n out Bo) as Ho.
  assert (zlen out = 16 * Z.of_nat n) as Hzo by (unfold zlen; lia).
  exists out, iv'. rewrite Hz in E1, E2. rewrite Hz, Hzo. done.
Qed.

Lemma sm4_cbc_roundtrip_witness :
  exists output iv',
    sm4_crypt_cbc (sm4_setkey_enc demo_key) SM4_ENCRYPT 32 demo_key (demo_key ++ demo_key)
      = Ok (output, iv') /\
    sm4_crypt_cbc (sm4_setkey_dec demo_key) SM4_DECRYPT (zlen output) demo_key output
      = Ok (demo_key ++ demo_key, iv').
Proof.
  apply (sm4_cbc_roundtrip demo_key demo_key (demo_key ++ demo_key) 2); [|  |reflexivity].
  - split; [reflexivity|apply demo_key_bytes].
  - apply Forall_app. split; apply demo_key_bytes.
Defined.

(** C39. The ECB loop always ends, and it stays inside an input of [zlen input]
    bytes exactly when the length argument, rounded up to whole blocks, fits:
    a length that is not a multiple of 16 makes it read (and write) past the
    end of a buffer of just that length. *)
Theorem sm4_ecb_reads_whole_blocks ctx md len input :
  is_ok (sm4_crypt_ecb ctx md len input) = (len <=? 16 * (zlen input / 16)).
Proof. apply ecb_loop_ok. lia. Qed.
