(* ===== verification/Crc.v ===== *)
(** crccheck/crc16.c: parameterised CRC-8, CRC-16 and CRC-32.

    The three routines are one bitwise shift register at three widths; they are
    written out as in the source and proved equal to [register], the generic
    register of [w] bits.  The register is proved to hold the remainder of a
    polynomial division over GF(2), and the checksums, for odd polynomials, to detect every
    error confined to a burst of at most their width. *)

From S2P Require Import Prelude.

Open Scope c_scope.
Open Scope Z_scope.

(** ** Data: the three parameter types have the same fields *)

Record CRC : Type := Crc {
  poly : Z; InitValue : Z; xor : Z; InputReverse : Z; OutputReverse : Z
}.
Definition CRC_8 : Type := CRC.
Definition CRC_16 : Type := CRC.
Definition CRC_32 : Type := CRC.

Definition crc_8 : CRC_8 := Crc 0x07 0x00 0x00 0 0.
Definition crc_8_ITU : CRC_8 := Crc 0x07 0x00 0x55 0 0.
Definition crc_8_ROHC : CRC_8 := Crc 0x07 0xff 0x00 1 1.
Definition crc_8_MAXIM : CRC_8 := Crc 0x31 0x00 0x00 1 1.

Definition crc_16_IBM : CRC_16 := Crc 0x8005 0x0000 0x0000 1 1.
Definition crc_16_MAXIM : CRC_16 := Crc 0x8005 0x0000 0xffff 1 1.
Definition crc_16_USB : CRC_16 := Crc 0x8005 0xffff 0xffff 1 1.
Definition crc_16_MODBUS : CRC_16 := Crc 0x8005 0xffff 0x0000 1 1.
Definition crc_16_CCITT : CRC_16 := Crc 0x1021 0x0000 0x0000 1 1.
Definition crc_16_CCITT_FALSE : CRC_16 := Crc 0x1021 0xffff 0x0000 0 0.
Definition crc_16_X5 : CRC_16 := Crc 0x1021 0xffff 0xffff 1 1.
Definition crc_16_XMODEM : CRC_16 := Crc 0x1021 0x0000 0x0000 0 0.
Definition crc_16_DNP : CRC_16 := Crc 0x3d65 0x0000 0xffff 1 1.

Definition crc_32 : CRC_32 := Crc 0x04c11db7 0xffffffff 0xffffffff 1 1.
Definition crc_32_MPEG2 : CRC_32 := Crc 0x04c11db7 0xffffffff 0x00000000 0 0.

(** ** Operations *)

Definition reverse8 (data : Z) : Z :=
  fold_left (fun temp i => u8 (temp .| (((data >> i) .& 0x01) << (7 - i))))
    (map Z.of_nat (seq 0 8)) 0.

Definition reverse16 (data : Z) : Z :=
  fold_left (fun temp i => u16 (temp .| (((data >> i) .& 0x0001) << (15 - i))))
    (map Z.of_nat (seq 0 16)) 0.

Definition reverse32 (data : Z) : Z :=
  fold_left (fun temp i => u32 (temp .| (((data >> i) .& 0x01) << (31 - i))))
    (map Z.of_nat (seq 0 32)) 0.

(** [for (i = 0; i < 8; i++)]: the bit loop of each routine. *)
Definition bits8 (type : CRC_8) (crc : Z) : Z :=
  Nat.iter 8 (fun crc => if negb ((crc .& 0x80) =? 0)
                         then u8 ((crc << 1) .^ poly type) else u8 (crc << 1)) crc.

Definition bits16 (type : CRC_16) (crc : Z) : Z :=
  Nat.iter 8 (fun crc => if negb ((crc .& 0x8000) =? 0)
                         then u16 ((crc << 1) .^ poly type) else u16 (crc << 1)) crc.

Definition bits32 (type : CRC_32) (crc : Z) : Z :=
  Nat.iter 8 (fun crc => if negb ((crc .& 0x80000000) =? 0)
                         then u32 (u32 (crc << 1) .^ poly type) else u32 (crc << 1)) crc.

(** [for (; num > 0; num--)] over [addr]: reading past the buffer is an error. *)
Fixpoint crc_loop (body : Z -> Z -> Z) (num : nat) (addr : list Z) (crc : Z) : res Z :=
  match num with
  | O => Ok crc
  | S num =>
      match addr with
      | [] => Ub OobRead
      | data :: addr => crc_loop body num addr (body crc data)
      end
  end.

Definition crc8 (addr : list Z) (num : Z) (type : CRC_8) : res Z :=
  let! crc := crc_loop (fun crc data =>
      let data := if InputReverse type =? 1 then reverse8 data else data in
      bits8 type (u8 (crc .^ data))) (Z.to_nat num) addr (InitValue type) in
  let crc := if OutputReverse type =? 1 then reverse8 crc else crc in
  Ok (u8 (crc .^ xor type)).

Definition crc16 (addr : list Z) (num : Z) (type : CRC_16) : res Z :=
  let! crc := crc_loop (fun crc data =>
      let data := if InputReverse type =? 1 then reverse8 data else data in
      bits16 type (u16 (crc .^ (data << 8)))) (Z.to_nat num) addr (InitValue type) in
  let crc := if OutputReverse type =? 1 then reverse16 crc else crc in
  Ok (u16 (crc .^ xor type)).

Definition crc32 (addr : list Z) (num : Z) (type : CRC_32) : res Z :=
  let! crc := crc_loop (fun crc data =>
      let data := if InputReverse type =? 1 then reverse8 data else data in
      bits32 type (u32 (crc .^ (data << 24)))) (Z.to_nat num) addr (InitValue type) in
  let crc := if OutputReverse type =? 1 then reverse32 crc else crc in
  Ok (u32 (crc .^ xor type)).

(** ** The generic register *)

(** Reversal of the low [w] bits. *)
Definition reverse (w data : Z) : Z :=
  fold_left (fun temp i => wrap w (temp .| (((data >> i) .& 1) << (w - 1 - i))))
    (map Z.of_nat (seq 0 (Z.to_nat w))) 0.

(** One step: shift, and subtract the polynomial [2 ^ w + p] when a bit falls out. *)
Definition step (w p crc : Z) : Z :=
  (crc << 1) .^ (if Z.testbit crc (w - 1) then (1 << w) .^ p else 0).

Definition byte_step (w p crc data : Z) : Z := Nat.iter 8 (step w p) (crc .^ (data << (w - 8))).

Definition register (w p : Z) (msg : list Z) (crc : Z) : Z := fold_left (byte_step w p) msg crc.

Definition rev_in (type : CRC) (msg : list Z) : list Z :=
  if InputReverse type =? 1 then map reverse8 msg else msg.

(** A parameter set whose fields fit the width. *)
Record crc_ok (w : Z) (type : CRC) : Prop := {
  poly_fits : 0 <= poly type < 2 ^ w;
  init_fits : 0 <= InitValue type < 2 ^ w;
  xor_fits : 0 <= xor type < 2 ^ w
}.

(** Polynomials over GF(2) as integers: the big-endian value of a message, and
    the product of a quotient, given by its coefficients, with a divisor. *)
Definition message_poly (msg : list Z) : Z := fold_left (fun v d => (v << 8) .^ d) msg 0.

Definition times (q : list bool) (divisor : Z) : Z :=
  fold_left (fun v (b : bool) => (v << 1) .^ (if b then divisor else 0)) q 0.

(** [r] is a remainder of the division of the message polynomial, shifted by the
    width, with the initial value added to its head, by the generator. *)
Definition remainder (w : Z) (type : CRC) (msg : list Z) (r : Z) : Prop :=
  0 <= r < 2 ^ w /\
  exists q, length q = (8 * length msg)%nat /\
    (message_poly (rev_in type msg) << w) .^ (InitValue type << (8 * zlen msg))
    = times q ((1 << w) .^ poly type) .^ r.

(** The last two lines of each routine. *)
Definition finish (w : Z) (type : CRC) (r : Z) : Z :=
  wrap w ((if OutputReverse type =? 1 then reverse w r else r) .^ xor type).

Definition checksum (w : Z) (type : CRC) (msg : list Z) : Z :=
  finish w type (register w (poly type) (rev_in type msg) (InitValue type)).

(** [crc] computes at width [w] the finished remainder, and there is only one. *)
Definition computes_remainder (w : Z) (crc : list Z -> Z -> CRC -> res Z) (type : CRC) (msg : list Z) : Prop :=
  exists r, remainder w type msg r /\ (forall r', remainder w type msg r' -> r' = r) /\
    crc msg (zlen msg) type = Ok (finish w type r).

(** The messages differ, and the bits in which they differ lie within [w] consecutive ones, in the order in
    which the register takes the bits: [e] is the pattern of the error, [j] the number of bits after it. *)
Definition burst (w : Z) (type : CRC) (x y : list Z) : Prop :=
  length x = length y /\
  exists e j, 0 < e < 2 ^ w /\ 0 <= j /\ message_poly (rev_in type x) .^ message_poly (rev_in type y) = e << j.

Definition distinguishes (crc : list Z -> Z -> CRC -> res Z) (type : CRC) (x y : list Z) : Prop :=
  crc x (zlen x) type <> crc y (zlen y) type.

(** The check values of the catalogue of CRC parameters: the CRC of "123456789". *)
Definition check_message : list Z := str "123456789".

(** * Lemmas *)

Section Register.
Implicit Types (w p c d : Z) (type : CRC) (msg : list Z).

Lemma high_bits w x i : 0 <= w -> 0 <= x < 2 ^ w -> w <= i -> Z.testbit x i = false.
Proof.
  intros Hw Hx Hi. rewrite <- (wrap_small w x) by done. unfold wrap.
  rewrite Z.testbit_mod_pow2 by lia. destruct (Z.ltb_spec i w); [lia|done].
Qed.

Lemma step_wrap w p c :
  0 < w -> 0 <= c < 2 ^ w -> 0 <= p < 2 ^ w ->
  step w p c = wrap w ((c << 1) .^ (if Z.testbit c (w - 1) then p else 0)).
Proof.
  intros Hw Hc Hp. unfold step, wrap. apply Z.bits_inj'. intros i Hi.
  rewrite Z.testbit_mod_pow2, !Z.lxor_spec, Z.shiftl_spec by lia.
  destruct (Z.ltb_spec i w) as [Hiw|Hiw].
  - destruct (Z.testbit c (w - 1)); [|done]. rewrite Z.lxor_spec, Z.shiftl_1_l.
    rewrite (Z.pow2_bits_false w i) by lia. btauto.
  - destruct (decide (i = w)) as [->|Hne].
    + destruct (Z.testbit c (w - 1)) eqn:E; [|by rewrite Z.testbit_0_l].
      rewrite Z.lxor_spec, Z.shiftl_1_l, Z.pow2_bits_true by lia.
      by rewrite (high_bits w p w) by lia.
    + rewrite (high_bits w c (i - 1)) by lia.
      destruct (Z.testbit c (w - 1)); [|by rewrite Z.testbit_0_l].
      rewrite Z.lxor_spec, Z.shiftl_1_l, Z.pow2_bits_false by lia.
      by rewrite (high_bits w p i) by lia.
Qed.

Lemma step_bound w p c :
  0 < w -> 0 <= c < 2 ^ w -> 0 <= p < 2 ^ w -> 0 <= step w p c < 2 ^ w.
Proof. intros. rewrite step_wrap by done. apply wrap_bound. lia. Qed.

Lemma steps_bound w p c n :
  0 < w -> 0 <= c < 2 ^ w -> 0 <= p < 2 ^ w -> 0 <= Nat.iter n (step w p) c < 2 ^ w.
Proof. intros. induction n; cbn; auto using step_bound. Qed.

Lemma lxor_bound w a b : 0 <= w -> 0 <= a < 2 ^ w -> 0 <= b < 2 ^ w -> 0 <= a .^ b < 2 ^ w.
Proof.
  intros Hw Ha Hb. assert (wrap w (a .^ b) = a .^ b) as <-; [|by apply wrap_bound].
  rewrite <- (wrap_small w a) at 2 by done. rewrite <- (wrap_small w b) at 2 by done. bitwise.
Qed.

Lemma shifted_byte w d : 8 <= w -> 0 <= d < 256 -> 0 <= d << (w - 8) < 2 ^ w.
Proof.
  intros Hw Hd. rewrite Z.shiftl_mul_pow2 by lia.
  assert (2 ^ w = 2 ^ 8 * 2 ^ (w - 8)) as -> by (rewrite <- Z.pow_add_r by lia; f_equal; lia).
  change (2 ^ 8) with 256. nia.
Qed.

Lemma byte_step_bound w p c d :
  8 <= w -> 0 <= p < 2 ^ w -> 0 <= c < 2 ^ w -> 0 <= d < 256 -> 0 <= byte_step w p c d < 2 ^ w.
Proof. intros. apply steps_bound; [lia| |done]. apply lxor_bound; [lia|done|by apply shifted_byte]. Qed.

(** The single test of the code, [crc & (1 << (w - 1))]. *)
Lemma top_bit w c : 0 < w -> negb ((c .& 2 ^ (w - 1)) =? 0) = Z.testbit c (w - 1).
Proof.
  intros Hw. destruct (Z.testbit c (w - 1)) eqn:E.
  - destruct (Z.eqb_spec (c .& 2 ^ (w - 1)) 0) as [H|]; [|done].
    assert (Z.testbit (c .& 2 ^ (w - 1)) (w - 1) = true) as T.
    { rewrite Z.land_spec, E, Z.pow2_bits_true by lia. done. }
    by rewrite H, Z.testbit_0_l in T.
  - assert (c .& 2 ^ (w - 1) = 0) as ->; [|done].
    apply Z.bits_inj'. intros i Hi. rewrite Z.land_spec, Z.testbit_0_l.
    destruct (decide (i = w - 1)) as [->|]; [by rewrite E|].
    rewrite Z.pow2_bits_false by lia. apply andb_false_r.
Qed.

(** The bit loop at a width, in the form the three routines share. *)
Lemma bit_loop w p n c :
  0 < w -> 0 <= p < 2 ^ w -> 0 <= c < 2 ^ w ->
  Nat.iter n (fun crc => if negb ((crc .& 2 ^ (w - 1)) =? 0)
                         then wrap w ((crc << 1) .^ p) else wrap w (crc << 1)) c
  = Nat.iter n (step w p) c.
Proof.
  intros Hw Hp Hc. induction n as [|n IH]; [done|]. cbn [Nat.iter nat_rect]. 
  fold (Nat.iter n (step w p) c) in *. unfold Nat.iter in IH. rewrite IH.
  fold (Nat.iter n (step w p) c).
  rewrite top_bit, step_wrap by (lia || done || by apply steps_bound).
  destruct (Z.testbit _ _); [done|]. by rewrite Z.lxor_0_r.
Qed.

Lemma bits8_step type c : 0 <= poly type < 2 ^ 8 -> 0 <= c < 2 ^ 8 ->
  bits8 type c = Nat.iter 8 (step 8 (poly type)) c.
Proof. intros. by apply (bit_loop 8). Qed.

Lemma bits16_step type c : 0 <= poly type < 2 ^ 16 -> 0 <= c < 2 ^ 16 ->
  bits16 type c = Nat.iter 8 (step 16 (poly type)) c.
Proof. intros. by apply (bit_loop 16). Qed.

Lemma bits32_step type c : 0 <= poly type < 2 ^ 32 -> 0 <= c < 2 ^ 32 ->
  bits32 type c = Nat.iter 8 (step 32 (poly type)) c.
Proof.
  intros. rewrite <- (bit_loop 32) by done. unfold bits32. change (2 ^ (32 - 1)) with 0x80000000.
  generalize 8%nat as n. intros n. induction n as [|n IH]; cbn; [done|].
  unfold Nat.iter in IH. rewrite IH. destruct (negb _); [|done]. bitwise.
Qed.

Lemma reverse8_eq d : reverse8 d = reverse 8 d.
Proof. unfold reverse. by change (Z.to_nat 8) with 8%nat; change (8 - 1) with 7. Qed.
Lemma reverse16_eq d : reverse16 d = reverse 16 d.
Proof. unfold reverse. by change (Z.to_nat 16) with 16%nat; change (16 - 1) with 15. Qed.
Lemma reverse32_eq d : reverse32 d = reverse 32 d.
Proof. unfold reverse. by change (Z.to_nat 32) with 32%nat; change (32 - 1) with 31. Qed.
End Register.

(** From here on the unrolled reversals are known by their equations only. *)
#[local] Opaque reverse8 reverse16 reverse32.

Section Reverse.
Implicit Types (w d i : Z).

Lemma land_1_bit d i : Z.testbit (d .& 1) i = (i =? 0) && Z.testbit d 0.
Proof.
  rewrite Z.land_spec. destruct (Z.eqb_spec i 0) as [->|]; [apply andb_true_r|].
  destruct (Z.ltb_spec i 0); [by rewrite (Z.testbit_neg_r 1) by lia; apply andb_false_r|].
  change 1 with (2 ^ 0). rewrite Z.pow2_bits_false by lia. apply andb_false_r.
Qed.

Lemma reverse_bit w d i :
  0 < w -> 0 <= i ->
  Z.testbit (reverse w d) i = (i <? w) && Z.testbit d (w - 1 - i).
Proof.
  intros Hw Hi. unfold reverse.
  assert (forall n, (n <= Z.to_nat w)%nat ->
    Z.testbit (fold_left (fun temp i => wrap w (temp .| (((d >> i) .& 1) << (w - 1 - i))))
                 (map Z.of_nat (seq 0 n)) 0) i
    = (i <? w) && (w - 1 - i <? Z.of_nat n) && Z.testbit d (w - 1 - i)) as H.
  { induction n as [|n IH]; intros Hn.
    - cbn [seq map fold_left]. rewrite Z.testbit_0_l. destruct (Z.ltb_spec i w); [|done].
      by rewrite (proj2 (Z.ltb_ge _ _)) by lia.
    - rewrite seq_S, map_app, fold_left_app. cbn [map fold_left]. unfold wrap at 1.
      rewrite Z.testbit_mod_pow2, Z.lor_spec, IH, Z.shiftl_spec by lia. rewrite Nat.add_0_l.
      destruct (Z.ltb_spec i w); [|done]. cbn [andb].
      rewrite land_1_bit by lia. destruct (decide (w - 1 - i = Z.of_nat n)) as [E|E].
      + rewrite (proj2 (Z.ltb_lt _ (Z.of_nat (S n)))), (proj2 (Z.ltb_ge _ (Z.of_nat n))) by lia.
        rewrite (proj2 (Z.eqb_eq _ _)), Z.shiftr_spec by lia. rewrite E. cbn [andb orb]. f_equal; lia.
      + rewrite (proj2 (Z.eqb_neq _ _)) by lia. rewrite andb_false_l, orb_false_r.
        destruct (Z.ltb_spec (w - 1 - i) (Z.of_nat n)), (Z.ltb_spec (w - 1 - i) (Z.of_nat (S n)));
          done || lia. }
  rewrite H by lia. destruct (Z.ltb_spec i w); [|done].
  rewrite (proj2 (Z.ltb_lt _ _)) by lia. done.
Qed.

Lemma reverse_bound w d : 0 < w -> 0 <= reverse w d < 2 ^ w.
Proof.
  intros Hw. assert (wrap w (reverse w d) = reverse w d) as <-; [|apply wrap_bound; lia].
  apply Z.bits_inj'. intros i Hi. unfold wrap. rewrite Z.testbit_mod_pow2 by lia.
  rewrite reverse_bit by lia. by destruct (i <? w).
Qed.

Lemma reverse_involutive w d : 0 < w -> reverse w (reverse w d) = wrap w d.
Proof.
  intros Hw. apply Z.bits_inj'. intros i Hi. unfold wrap.
  rewrite Z.testbit_mod_pow2, reverse_bit by lia.
  destruct (Z.ltb_spec i w); [|done]. rewrite reverse_bit by lia.
  rewrite (proj2 (Z.ltb_lt _ _)) by lia. cbn. f_equal. lia.
Qed.

Lemma reverse_inj w a b :
  0 < w -> 0 <= a < 2 ^ w -> 0 <= b < 2 ^ w -> reverse w a = reverse w b -> a = b.
Proof.
  intros Hw Ha Hb E. rewrite <- (wrap_small w a), <- (wrap_small w b) by done.
  by rewrite <- !reverse_involutive, E by done.
Qed.

Lemma reverse8_byte d : 0 <= reverse8 d < 256.
Proof. rewrite reverse8_eq. by apply (reverse_bound 8). Qed.

Lemma rev_in_bytes type msg : byte_list msg -> byte_list (rev_in type msg).
Proof.
  unfold rev_in, byte_list. intros H. destruct (_ =? _); [|done].
  apply List.Forall_forall. intros c Hc. apply in_map_iff in Hc as (d & <- & _).
  apply reverse8_byte.
Qed.

Lemma rev_in_length type msg : length (rev_in type msg) = length msg.
Proof. unfold rev_in. destruct (_ =? _); [apply length_map|done]. Qed.

Lemma finish_inj w type a b :
  0 < w -> 0 <= xor type < 2 ^ w -> 0 <= a < 2 ^ w -> 0 <= b < 2 ^ w ->
  finish w type a = finish w type b -> a = b.
Proof.
  intros Hw Hx Ha Hb E. unfold finish in E.
  pose proof (reverse_bound w a Hw). pose proof (reverse_bound w b Hw).
  rewrite !wrap_small in E by (apply lxor_bound; [lia|by destruct (_ =? _)|done]).
  apply (f_equal (fun z => z .^ xor type)) in E.
  rewrite !Z.lxor_assoc, Z.lxor_nilpotent, !Z.lxor_0_r in E.
  destruct (_ =? _); [by apply (reverse_inj w)|done].
Qed.
End Reverse.

Section Loop.
Implicit Types (type : CRC) (msg : list Z).

Lemma fold_left_cons_eq {A B} (f : A -> B -> A) b l a : fold_left f (b :: l) a = fold_left f l (f a b).
Proof. reflexivity. Qed.

Lemma register_nil w p c : register w p [] c = c.
Proof. reflexivity. Qed.

Lemma register_cons w p d msg c : register w p (d :: msg) c = register w p msg (byte_step w p c d).
Proof. apply (fold_left_cons_eq (byte_step w p)). Qed.

Lemma register_app w p a b c : register w p (a ++ b) c = register w p b (register w p a c).
Proof. apply fold_left_app. Qed.

Lemma rev_in_nil type : rev_in type [] = [].
Proof. unfold rev_in. by destruct (_ =? _). Qed.

Lemma rev_in_cons type d msg :
  rev_in type (d :: msg) = (if InputReverse type =? 1 then reverse8 d else d) :: rev_in type msg.
Proof. unfold rev_in. by destruct (_ =? _). Qed.

#[local] Opaque register rev_in.

Lemma register_bound w p msg c :
  8 <= w -> 0 <= p < 2 ^ w -> byte_list msg -> 0 <= c < 2 ^ w -> 0 <= register w p msg c < 2 ^ w.
Proof.
  intros Hw Hp Hm. revert c. induction Hm as [|d msg Hd Hm IH]; intros c Hc; [done|].
  rewrite register_cons. apply IH. by apply byte_step_bound.
Qed.

Lemma input_byte type d : 0 <= d < 256 -> 0 <= (if InputReverse type =? 1 then reverse8 d else d) < 256.
Proof. intros. destruct (_ =? _); [apply reverse8_byte|done]. Qed.

Lemma loop_register w type body msg : forall c,
  8 <= w -> 0 <= poly type < 2 ^ w -> byte_list msg -> 0 <= c < 2 ^ w ->
  (forall c d, 0 <= c < 2 ^ w -> 0 <= d < 256 ->
     body c d = byte_step w (poly type) c (if InputReverse type =? 1 then reverse8 d else d)) ->
  crc_loop body (length msg) msg c = Ok (register w (poly type) (rev_in type msg) c).
Proof.
  intros c Hw Hp Hm Hc Hb. revert c Hc. induction Hm as [|d msg Hd Hm IH]; intros c Hc.
  - by rewrite rev_in_nil, register_nil.
  - cbn [length crc_loop]. rewrite Hb, rev_in_cons, register_cons by done. apply IH.
    by apply byte_step_bound, input_byte.
Qed.

Lemma to_nat_zlen {A} (l : list A) : Z.to_nat (zlen l) = length l.
Proof. unfold zlen. lia. Qed.

Lemma crc8_byte type c d :
  crc_ok 8 type -> 0 <= c < 2 ^ 8 -> 0 <= d < 256 ->
  bits8 type (u8 (c .^ d)) = byte_step 8 (poly type) c d.
Proof.
  intros [Hp _ _] Hc Hd. pose proof (shifted_byte 8 d ltac:(lia) Hd) as Hs. unfold byte_step.
  change (8 - 8) with 0 in *. rewrite Z.shiftl_0_r in *. rewrite (wrap_small 8) by (by apply lxor_bound).
  by apply bits8_step, lxor_bound.
Qed.

Lemma crc8_checksum type msg :
  crc_ok 8 type -> byte_list msg -> crc8 msg (zlen msg) type = Ok (checksum 8 type msg).
Proof.
  intros Hok Hm. pose proof Hok as [Hp Hi Hx]. unfold crc8. rewrite to_nat_zlen.
  rewrite (loop_register 8 type); [|done..|by intros c d Hc Hd; apply crc8_byte, input_byte].
  cbn [res_bind]. unfold checksum, finish. by rewrite reverse8_eq.
Qed.

Lemma crc16_byte type c d :
  crc_ok 16 type -> 0 <= c < 2 ^ 16 -> 0 <= d < 256 ->
  bits16 type (u16 (c .^ (d << 8))) = byte_step 16 (poly type) c d.
Proof.
  intros [Hp _ _] Hc Hd. pose proof (shifted_byte 16 d ltac:(lia) Hd) as Hs. unfold byte_step.
  change (16 - 8) with 8 in *. rewrite (wrap_small 16) by (by apply lxor_bound).
  by apply bits16_step, lxor_bound.
Qed.

Lemma crc16_checksum type msg :
  crc_ok 16 type -> byte_list msg -> crc16 msg (zlen msg) type = Ok (checksum 16 type msg).
Proof.
  intros Hok Hm. pose proof Hok as [Hp Hi Hx]. unfold crc16. rewrite to_nat_zlen.
  rewrite (loop_register 16 type); [|done..|by intros c d Hc Hd; apply crc16_byte, input_byte].
  cbn [res_bind]. unfold checksum, finish. by rewrite reverse16_eq.
Qed.

Lemma crc32_byte type c d :
  crc_ok 32 type -> 0 <= c < 2 ^ 32 -> 0 <= d < 256 ->
  bits32 type (u32 (c .^ (d << 24))) = byte_step 32 (poly type) c d.
Proof.
  intros [Hp _ _] Hc Hd. pose proof (shifted_byte 32 d ltac:(lia) Hd) as Hs. unfold byte_step.
  change (32 - 8) with 24 in *. rewrite (wrap_small 32) by (by apply lxor_bound).
  by apply bits32_step, lxor_bound.
Qed.

Lemma crc32_checksum type msg :
  crc_ok 32 type -> byte_list msg -> crc32 msg (zlen msg) type = Ok (checksum 32 type msg).
Proof.
  intros Hok Hm. pose proof Hok as [Hp Hi Hx]. unfold crc32. rewrite to_nat_zlen.
  rewrite (loop_register 32 type); [|done..|by intros c d Hc Hd; apply crc32_byte, input_byte].
  cbn [res_bind]. unfold checksum, finish. by rewrite reverse32_eq.
Qed.

End Loop.

Section Division.
Implicit Types (w p c d r G : Z) (type : CRC) (msg : list Z) (q : list bool).

Lemma shiftl_lxor a b n : 0 <= n -> (a .^ b) << n = (a << n) .^ (b << n).
Proof. intros Hn. apply Z.shiftl_lxor. Qed.

Lemma lxor_cancel a b c : a .^ b = a .^ c -> b = c.
Proof.
  intros E. apply (f_equal (Z.lxor a)) in E.
  by rewrite <- !Z.lxor_assoc, Z.lxor_nilpotent, !Z.lxor_0_l in E.
Qed.

Lemma times_snoc q b G : times (q ++ [b]) G = (times q G << 1) .^ (if b then G else 0).
Proof. unfold times. by rewrite fold_left_app. Qed.

Lemma times_app q k G : times (q ++ k) G = (times q G << zlen k) .^ times k G.
Proof.
  induction k as [|b k IH] using rev_ind.
  - rewrite app_nil_r. cbn. by rewrite Z.lxor_0_r.
  - pose proof (zlen_nonneg k).
    rewrite app_assoc, !times_snoc, IH, shiftl_lxor, Z.shiftl_shiftl by lia.
    rewrite zlen_app. by rewrite Z.lxor_assoc.
Qed.

Lemma times_cons b q G : times (b :: q) G = ((if b then G else 0) << zlen q) .^ times q G.
Proof. change (b :: q) with ([b] ++ q). rewrite times_app. by destruct b. Qed.

Lemma times_bound w q G : 0 <= w -> 0 <= G < 2 ^ (w + 1) -> 0 <= times q G < 2 ^ (w + zlen q).
Proof.
  intros Hw HG. induction q as [|b q IH] using rev_ind.
  - change (zlen []) with 0. rewrite Z.add_0_r. split; [done|]. apply Z.pow_pos_nonneg; lia.
  - rewrite times_snoc, zlen_app. change (zlen [b]) with 1. pose proof (zlen_nonneg q).
    replace (w + (zlen q + 1)) with (1 + (w + zlen q)) by lia.
    assert (2 ^ (w + 1) <= 2 ^ (1 + (w + zlen q))) by (apply Z.pow_le_mono_r; lia).
    apply lxor_bound; [lia| |destruct b; lia].
    rewrite Z.shiftl_mul_pow2, Z.pow_add_r by lia. lia.
Qed.

Lemma generator_bound w p : 0 < w -> 0 <= p < 2 ^ w -> 0 <= (1 << w) .^ p < 2 ^ (w + 1).
Proof.
  intros Hw Hp. rewrite Z.shiftl_1_l. rewrite Z.pow_add_r by lia.
  replace (2 ^ w * 2 ^ 1) with (2 ^ (w + 1)) by (rewrite Z.pow_add_r by lia; done).
  assert (2 ^ (w + 1) = 2 * 2 ^ w) by (rewrite Z.pow_add_r by lia; lia).
  apply lxor_bound; lia.
Qed.

Lemma generator_top w p : 0 < w -> 0 <= p < 2 ^ w -> Z.testbit ((1 << w) .^ p) w = true.
Proof.
  intros. rewrite Z.lxor_spec, Z.shiftl_1_l, Z.pow2_bits_true, (high_bits w p w) by lia. done.
Qed.

(** A remainder is determined by the dividend. *)
Lemma division_unique w G : 0 < w -> 0 <= G < 2 ^ (w + 1) -> Z.testbit G w = true ->
  forall q q' r r', length q = length q' -> 0 <= r < 2 ^ w -> 0 <= r' < 2 ^ w ->
  times q G .^ r = times q' G .^ r' -> r = r'.
Proof.
  intros Hw HG Ht q. induction q as [|b q IH]; intros [|b' q'] r r' Hl Hr Hr' E; try done.
  injection Hl as Hl. apply (IH q' r r'); [done..|]. rewrite !times_cons in E.
  assert (zlen q' = zlen q) as El by (unfold zlen; lia). rewrite El in E.
  assert (b = b') as ->; [|by rewrite !Z.lxor_assoc in E; apply lxor_cancel in E].
  apply (f_equal (fun z => Z.testbit z (w + zlen q))) in E. pose proof (zlen_nonneg q).
  pose proof (times_bound w q G ltac:(lia) HG). pose proof (times_bound w q' G ltac:(lia) HG) as B.
  rewrite El in B. rewrite !Z.lxor_spec, !Z.shiftl_spec, Z.add_simpl_r in E by lia.
  rewrite (high_bits (w + zlen q) (times q G)), (high_bits (w + zlen q) (times q' G)) in E by lia.
  rewrite (high_bits w r), (high_bits w r'), !xorb_false_r in E by lia.
  destruct b, b'; rewrite ?Ht, ?Z.testbit_0_l in E; done.
Qed.

Lemma steps_division w p n c :
  exists q, length q = n /\
    c << Z.of_nat n = times q ((1 << w) .^ p) .^ Nat.iter n (step w p) c.
Proof.
  induction n as [|n (q & Hq & E)].
  - exists []. split; [done|]. by rewrite Z.shiftl_0_r.
  - set (r := Nat.iter n (step w p) c) in *.
    exists (q ++ [Z.testbit r (w - 1)]). split; [rewrite length_app; cbn; lia|].
    change (Nat.iter (S n) (step w p) c) with (step w p r). unfold step. rewrite times_snoc.
    replace (Z.of_nat (S n)) with (Z.of_nat n + 1) by lia.
    rewrite <- Z.shiftl_shiftl, E, shiftl_lxor by lia.
    apply Z.bits_inj'. intros i _. rewrite !Z.lxor_spec. destruct (Z.testbit _ _); rewrite ?Z.lxor_spec; btauto.
Qed.

Lemma message_poly_snoc msg d : message_poly (msg ++ [d]) = (message_poly msg << 8) .^ d.
Proof. unfold message_poly. by rewrite fold_left_app. Qed.

Lemma register_snoc w p msg d c : register w p (msg ++ [d]) c = byte_step w p (register w p msg c) d.
Proof. unfold register. by rewrite fold_left_app. Qed.

Lemma register_division w p msg c : 8 <= w ->
  exists q, length q = (8 * length msg)%nat /\
    (message_poly msg << w) .^ (c << (8 * zlen msg))
    = times q ((1 << w) .^ p) .^ register w p msg c.
Proof.
  intros Hw. induction msg as [|d msg (q & Hq & E)] using rev_ind.
  - exists []. split; [done|]. cbn. by rewrite Z.shiftl_0_l, Z.shiftl_0_r, Z.lxor_0_l.
  - rewrite message_poly_snoc, register_snoc, zlen_app. unfold byte_step.
    set (r := register w p msg c) in *.
    destruct (steps_division w p 8 (r .^ (d << (w - 8)))) as (k & Hk & E').
    exists (q ++ k). split; [rewrite !length_app; cbn; lia|].
    rewrite times_app, Z.lxor_assoc, <- E'. change (zlen [d]) with 1. change (Z.of_nat 8) with 8.
    replace (zlen k) with 8 by (unfold zlen; lia).
    rewrite !shiftl_lxor, !Z.shiftl_shiftl by (pose proof (zlen_nonneg msg); lia).
    replace (w - 8 + 8) with w by lia. replace (8 * (zlen msg + 1)) with (8 * zlen msg + 8) by lia.
    rewrite <- Z.lxor_assoc, <- shiftl_lxor, <- E, shiftl_lxor, !Z.shiftl_shiftl by (pose proof (zlen_nonneg msg); lia).
    replace (8 + w) with (w + 8) by lia. rewrite !Z.lxor_assoc. f_equal. apply Z.lxor_comm.
Qed.

Lemma register_remainder w type msg : 8 <= w -> crc_ok w type -> byte_list msg ->
  remainder w type msg (register w (poly type) (rev_in type msg) (InitValue type)) /\
  forall r, remainder w type msg r -> r = register w (poly type) (rev_in type msg) (InitValue type).
Proof.
  intros Hw [Hp Hi _] Hm. destruct (register_division w (poly type) (rev_in type msg) (InitValue type) Hw)
    as (q & Hq & E). unfold zlen in E. rewrite rev_in_length in Hq, E. fold (zlen msg) in E.
  pose proof (register_bound w (poly type) _ (InitValue type) Hw Hp (rev_in_bytes type msg Hm) Hi).
  split; [split; [done|by exists q]|]. intros r (Hr & q' & Hq' & E').
  apply (division_unique w ((1 << w) .^ poly type) ltac:(lia)) with q' q;
    [apply generator_bound; lia|apply generator_top; lia|lia|done|done|congruence].
Qed.
End Division.

Section Detection.
Implicit Types (w p c d : Z) (type : CRC) (msg : list Z).

(** A generator with a constant term makes the step injective. *)
Lemma step_inj w p a b :
  0 < w -> Z.odd p = true -> 0 <= a < 2 ^ w -> 0 <= b < 2 ^ w -> step w p a = step w p b -> a = b.
Proof.
  intros Hw Hp Ha Hb E.
  assert (forall x, Z.testbit (step w p x) 0 = Z.testbit x (w - 1)) as H0.
  { intros x. unfold step. rewrite Z.lxor_spec, Z.shiftl_spec, Z.testbit_neg_r by lia.
    destruct (Z.testbit x (w - 1)); [|done]. rewrite Z.lxor_spec, Z.shiftl_1_l.
    rewrite Z.pow2_bits_false, Z.bit0_odd, Hp by lia. done. }
  assert (Z.testbit a (w - 1) = Z.testbit b (w - 1)) as Et by (by rewrite <- !H0, E).
  unfold step in E. rewrite Et in E. rewrite !(Z.lxor_comm (_ << 1)) in E.
  apply lxor_cancel in E. rewrite !Z.shiftl_mul_pow2 in E by lia. lia.
Qed.

Lemma steps_inj w p n a b :
  0 < w -> Z.odd p = true -> 0 <= p < 2 ^ w -> 0 <= a < 2 ^ w -> 0 <= b < 2 ^ w ->
  Nat.iter n (step w p) a = Nat.iter n (step w p) b -> a = b.
Proof.
  intros Hw Ho Hp Ha Hb. induction n as [|n IH]; [done|]. rewrite !Nat.iter_succ.
  intros E. apply IH. revert E. apply step_inj; auto using steps_bound.
Qed.

Lemma steps_zero w p n : Nat.iter n (step w p) 0 = 0.
Proof. induction n as [|n IH]; [done|]. rewrite Nat.iter_succ, IH. unfold step. by rewrite Z.testbit_0_l. Qed.

(** Quotients add, and leading zeros do not count. *)
Lemma times_xor q q' G : length q = length q' -> times (zip_with xorb q q') G = times q G .^ times q' G.
Proof.
  revert q'. induction q as [|b q IH]; intros [|b' q'] Hl; try done. injection Hl as Hl. cbn [zip_with]. rewrite !times_cons, IH by done.
  replace (zlen (zip_with xorb q q')) with (zlen q) by (unfold zlen; rewrite length_zip_with; lia).
  replace (zlen q') with (zlen q) by (unfold zlen; lia). pose proof (zlen_nonneg q).
  apply Z.bits_inj'. intros i _. destruct b, b'; cbn [xorb]; rewrite !Z.lxor_spec, ?Z.shiftl_0_l, ?Z.testbit_0_l; btauto.
Qed.

Lemma times_zeros n q G : times (replicate n false ++ q) G = times q G.
Proof.
  rewrite times_app. replace (times (replicate n false) G) with 0; [by rewrite Z.shiftl_0_l|].
  induction n as [|n IH]; [done|]. cbn [replicate]. rewrite times_cons, <- IH. by rewrite Z.shiftl_0_l.
Qed.

(** A burst is no multiple of a generator with a constant term. *)
Lemma burst_divides w p q e n :
  0 < w -> Z.odd p = true -> 0 <= p < 2 ^ w -> 0 < e < 2 ^ w -> e << Z.of_nat n <> times q ((1 << w) .^ p).
Proof.
  intros Hw Ho Hp He E. destruct (steps_division w p n e) as (q' & Hq' & E').
  set (G := (1 << w) .^ p) in *. rewrite E in E'.
  assert (times (replicate (length q') false ++ q) G .^ 0 = times (replicate (length q) false ++ q') G .^ Nat.iter n (step w p) e) as E2.
  { by rewrite !times_zeros, Z.lxor_0_r. }
  apply (division_unique w G) in E2.
  - rewrite <- (steps_zero w p n) in E2. apply steps_inj in E2; lia || done.
  - done.
  - by apply generator_bound.
  - by apply generator_top.
  - rewrite !length_app, !length_replicate. lia.
  - lia.
  - apply steps_bound; [done|lia|done].
Qed.

Lemma register_detects w p x y c e j :
  8 <= w -> Z.odd p = true -> 0 <= p < 2 ^ w -> length x = length y ->
  0 < e < 2 ^ w -> 0 <= j -> message_poly x .^ message_poly y = e << j -> register w p x c <> register w p y c.
Proof.
  intros Hw Ho Hp Hl He Hj E Er.
  destruct (register_division w p x c Hw) as (q & Hq & Ex), (register_division w p y c Hw) as (q' & Hq' & Ey).
  rewrite Er in Ex. replace (zlen y) with (zlen x) in Ey by (unfold zlen; lia).
  apply (burst_divides w p (zip_with xorb q q') e (Z.to_nat (j + w))); [lia|done|done|done|].
  rewrite times_xor by lia. rewrite Z2Nat.id by lia. rewrite <- Z.shiftl_shiftl, <- E, shiftl_lxor by lia.
  set (r := register w p y c) in *. set (G := (1 << w) .^ p) in *. set (i := c << _) in *.
  assert (message_poly x << w = i .^ (times q G .^ r)) as ->.
  { rewrite <- Ex, (Z.lxor_comm _ i), <- Z.lxor_assoc, Z.lxor_nilpotent. by rewrite Z.lxor_0_l. }
  assert (message_poly y << w = i .^ (times q' G .^ r)) as ->.
  { rewrite <- Ey, (Z.lxor_comm _ i), <- Z.lxor_assoc, Z.lxor_nilpotent. by rewrite Z.lxor_0_l. }
  apply Z.bits_inj'. intros k _. rewrite !Z.lxor_spec. btauto.
Qed.

Lemma message_poly_bound msg : byte_list msg -> 0 <= message_poly msg < 2 ^ (8 * zlen msg).
Proof.
  induction msg as [|d msg IH] using rev_ind; intros H; [done|].
  apply Forall_app in H as [Hm Hd]. apply Forall_inv in Hd. specialize (IH Hm).
  rewrite message_poly_snoc, zlen_app. change (zlen [d]) with 1. pose proof (zlen_nonneg msg).
  replace (8 * (zlen msg + 1)) with (8 * zlen msg + 8) by lia.
  assert (2 ^ (8 * zlen msg + 8) = 256 * 2 ^ (8 * zlen msg)) as E by (rewrite Z.pow_add_r by lia; lia).
  apply lxor_bound; [lia| |lia]. rewrite Z.shiftl_mul_pow2 by lia. lia.
Qed.

Lemma message_poly_inj a b :
  length a = length b -> byte_list a -> byte_list b -> message_poly a = message_poly b -> a = b.
Proof.
  revert b. induction a as [|d a IH] using rev_ind; intros b Hl Ha Hb E.
  - by destruct b.
  - destruct b as [|e b _] using rev_ind; [rewrite length_app in Hl; cbn in Hl; lia|].
    rewrite !length_app in Hl. cbn in Hl. rewrite !message_poly_snoc in E.
    apply Forall_app in Ha as [Ha Hd]. apply Forall_app in Hb as [Hb He].
    apply Forall_inv in Hd, He.
    assert (forall x y i, 0 <= y < 256 -> 0 <= i -> Z.testbit ((x << 8) .^ y) (i + 8) = Z.testbit x i) as Hh.
    { intros x y i Hy Hi. rewrite Z.lxor_spec, Z.shiftl_spec, (high_bits 8 y) by lia.
      rewrite xorb_false_r. f_equal. lia. }
    assert (message_poly a = message_poly b) as E'.
    { apply Z.bits_inj'. intros i Hi. by rewrite <- (Hh (message_poly a) d), <- (Hh (message_poly b) e), E. }
    rewrite E' in E. apply lxor_cancel in E as ->. f_equal. by apply IH; [lia|..].
Qed.

Lemma message_poly_app a b : message_poly (a ++ b) = (message_poly a << (8 * zlen b)) .^ message_poly b.
Proof.
  induction b as [|d b IH] using rev_ind.
  - rewrite app_nil_r. change (message_poly []) with 0. by rewrite Z.shiftl_0_r, Z.lxor_0_r.
  - rewrite app_assoc, !message_poly_snoc, IH, zlen_app. change (zlen [d]) with 1. pose proof (zlen_nonneg b).
    rewrite shiftl_lxor, Z.shiftl_shiftl, Z.lxor_assoc by lia. do 3 f_equal. lia.
Qed.

Lemma rev_in_app type a b : rev_in type (a ++ b) = rev_in type a ++ rev_in type b.
Proof. unfold rev_in. destruct (_ =? _); [apply map_app|done]. Qed.

Lemma map_inj_on {A B} (P : A -> Prop) (f : A -> B) a b :
  (forall x y, P x -> P y -> f x = f y -> x = y) ->
  Forall P a -> Forall P b -> map f a = map f b -> a = b.
Proof.
  intros Hf Ha. revert b. induction Ha as [|x a Hx Ha IH]; intros [|y b] Hb E; try done.
  apply Forall_cons in Hb as [Hy Hb]. injection E as E1 E2. f_equal; auto.
Qed.

Lemma rev_in_inj type a b : byte_list a -> byte_list b -> rev_in type a = rev_in type b -> a = b.
Proof.
  unfold rev_in. destruct (_ =? _); [|done]. apply map_inj_on. intros x y Hx Hy E.
  apply (reverse_inj 8); [done..|].
  transitivity (reverse8 x); [symmetry; apply reverse8_eq|].
  rewrite E. apply reverse8_eq.
Qed.

Lemma checksum_detects w type x y :
  8 <= w -> crc_ok w type -> Z.odd (poly type) = true -> byte_list x -> byte_list y -> burst w type x y ->
  checksum w type x <> checksum w type y.
Proof.
  intros Hw [Hp Hi Hx] Ho Bx By (Hl & e & j & He & Hj & E) Ec.
  apply finish_inj in Ec; [|lia|done|apply register_bound; try done; by apply rev_in_bytes..].
  revert Ec. apply (register_detects w (poly type) _ _ _ e j); try done. by rewrite !rev_in_length.
Qed.

(** Messages that differ only in a few whole bytes. *)
Lemma burst_bytes w type a m m' b :
  byte_list m -> byte_list m' -> length m = length m' -> m <> m' -> 8 * zlen m <= w ->
  burst w type (a ++ m ++ b) (a ++ m' ++ b).
Proof.
  intros Bm Bm' Hl Hne Hw. split; [rewrite !length_app; lia|].
  assert (zlen (rev_in type m) = zlen m /\ zlen (rev_in type m') = zlen m) as [L L'] by (unfold zlen; rewrite !rev_in_length; lia).
  exists (message_poly (rev_in type m) .^ message_poly (rev_in type m')), (8 * zlen (rev_in type b)).
  pose proof (message_poly_bound _ (rev_in_bytes type m Bm)) as B. pose proof (message_poly_bound _ (rev_in_bytes type m' Bm')) as B'.
  rewrite L in B. rewrite L' in B'. pose proof (zlen_nonneg m). pose proof (zlen_nonneg (rev_in type b)). split; [|split; [lia|]].
  - assert (2 ^ (8 * zlen m) <= 2 ^ w) by (apply Z.pow_le_mono_r; lia).
    pose proof (lxor_bound (8 * zlen m) _ _ ltac:(lia) B B') as Bx.
    destruct (decide (message_poly (rev_in type m) .^ message_poly (rev_in type m') = 0)) as [E|]; [|lia].
    apply Z.lxor_eq in E. apply message_poly_inj in E; [|by rewrite !rev_in_length|by apply rev_in_bytes..].
    by apply rev_in_inj in E.
  - rewrite !rev_in_app, !message_poly_app, !zlen_app, L, L', !shiftl_lxor by lia.
    apply Z.bits_inj'. intros i _. rewrite !Z.lxor_spec. btauto.
Qed.
End Detection.

(** * Properties *)

(** C25. Each of crc8, crc16 and crc32, for any parameters that fit its width and
    any message, returns the remainder of the GF(2) division of the (optionally
    bit-reversed) message polynomial by the generator, finished by the output
    reversal and xor; the remainder exists and is unique. *)
Theorem crc_is_remainder type msg :
  byte_list msg ->
  (crc_ok 8 type -> computes_remainder 8 crc8 type msg) /\
  (crc_ok 16 type -> computes_remainder 16 crc16 type msg) /\
  (crc_ok 32 type -> computes_remainder 32 crc32 type msg).
Proof.
  intros Hm. split_and!; intros Hok;
    (eexists; split_and!; [by apply register_remainder|by apply register_remainder|]).
  - by apply crc8_checksum.
  - by apply crc16_checksum.
  - by apply crc32_checksum.
Qed.

Lemma crc_is_remainder_witness :
  computes_remainder 8 crc8 crc_8_ROHC check_message /\
  computes_remainder 16 crc16 crc_16_X5 check_message /\
  computes_remainder 32 crc32 crc_32 check_message.
Proof.
  assert (byte_list check_message) as Hm by (repeat constructor; done).
  split_and!.
  - apply (crc_is_remainder crc_8_ROHC check_message Hm). split; done.
  - apply (crc_is_remainder crc_16_X5 check_message Hm). split; done.
  - apply (crc_is_remainder crc_32 check_message Hm). split; done.
Defined.

(** C11. When the generator has a constant term, that is, an odd polynomial (as all the presets have), the
    checksum tells apart any two messages of the same length that differ only inside one burst no
    longer than the checksum: 8 bits for crc8, 16 for crc16, 32 for crc32, at any bit position, consecutive in the
    order in which the register takes the bits (with reversed input the low bit of a byte first). *)
Theorem crc_detects_bursts type x y :
  Z.odd (poly type) = true -> byte_list x -> byte_list y ->
  (crc_ok 8 type -> burst 8 type x y -> distinguishes crc8 type x y) /\
  (crc_ok 16 type -> burst 16 type x y -> distinguishes crc16 type x y) /\
  (crc_ok 32 type -> burst 32 type x y -> distinguishes crc32 type x y).
Proof.
  intros Ho Hx Hy. unfold distinguishes. split_and!; intros Hok Hb.
  - rewrite !crc8_checksum by done. intros [= E]. by apply (checksum_detects 8) in E.
  - rewrite !crc16_checksum by done. intros [= E]. by apply (checksum_detects 16) in E.
  - rewrite !crc32_checksum by done. intros [= E]. by apply (checksum_detects 32) in E.
Qed.

(** Sixteen bits over three bytes, and four whole bytes. *)
Lemma crc_detects_bursts_witness :
  distinguishes crc16 crc_16_XMODEM [1; 2; 3; 4] [1; 13; 252; 244] /\
  distinguishes crc16 crc_16_MODBUS [1; 16; 3; 4] [1; 231; 252; 4] /\
  distinguishes crc32 crc_32 (str "abcd!") (str "dcba!").
Proof.
  split_and!.
  - apply (crc_detects_bursts crc_16_XMODEM [1; 2; 3; 4] [1; 13; 252; 244]);
      [reflexivity|repeat constructor; done|repeat constructor; done|split; done|].
    split; [reflexivity|]. exists 0xffff, 4. split; [lia|]. split; [lia|]. vm_compute. reflexivity.
  - apply (crc_detects_bursts crc_16_MODBUS [1; 16; 3; 4] [1; 231; 252; 4]);
      [reflexivity|repeat constructor; done|repeat constructor; done|split; done|].
    apply (burst_bytes 16 crc_16_MODBUS [1] [16; 3] [231; 252] [4]);
      first [reflexivity|discriminate|(repeat constructor; done)].
  - apply (crc_detects_bursts crc_32 (str "abcd!") (str "dcba!"));
      [reflexivity|repeat constructor; done|repeat constructor; done|split; done|].
    apply (burst_bytes 32 crc_32 [] (str "abcd") (str "dcba") (str "!"));
      first [reflexivity|discriminate|(repeat constructor; done)].
Defined.

(** The presets give the check values of the CRC catalogue on "123456789". *)
Example crc_check_values :
  map (crc8 check_message 9) [crc_8; crc_8_ITU; crc_8_ROHC; crc_8_MAXIM]
  = map Ok [0xf4; 0xa1; 0xd0; 0xa1] /\
  map (crc16 check_message 9)
    [crc_16_IBM; crc_16_MAXIM; crc_16_USB; crc_16_MODBUS; crc_16_CCITT; crc_16_CCITT_FALSE;
     crc_16_X5; crc_16_XMODEM; crc_16_DNP]
  = map Ok [0xbb3d; 0x44c2; 0xb4c8; 0x4b37; 0x2189; 0x29b1; 0x906e; 0x31c3; 0xea82] /\
  map (crc32 check_message 9) [crc_32; crc_32_MPEG2] = map Ok [0xcbf43926; 0x0376e6e7].
Proof. vm_compute. done. Qed.
