(* ===== verification/CLib.v ===== *)
(** The parts of the C library the sources call on strings: character classes,
    searches, integer printing and reading, and the directives of sscanf that
    occur in the tree.  Strings are lists of bytes without the terminating NUL;
    the character classes are those of the "C" locale. *)

From S2P Require Import Prelude.

Open Scope c_scope.
Open Scope Z_scope.

(** ** Character classes *)

Definition isspace (c : Z) : bool := (c =? 32) || ((9 <=? c) && (c <=? 13)).
Definition isdigit (c : Z) : bool := (48 <=? c) && (c <=? 57).
Definition isupper (c : Z) : bool := (65 <=? c) && (c <=? 90).
Definition tolower (c : Z) : Z := if isupper c then c + 32 else c.

(** ** Searches: the offset of the first occurrence *)

Fixpoint strchr (s : list Z) (c : Z) : option nat :=
  match s with
  | [] => None
  | x :: s => if x =? c then Some 0%nat else S <$> strchr s c
  end.

Fixpoint is_prefix (p s : list Z) : bool :=
  match p, s with
  | [], _ => true
  | x :: p, y :: s => (x =? y) && is_prefix p s
  | _ :: _, [] => false
  end.

Fixpoint strstr (s p : list Z) : option nat :=
  if is_prefix p s then Some 0%nat
  else match s with [] => None | _ :: s => S <$> strstr s p end.

(** [strncmp(s, t, n) == 0]: the first [n] bytes agree, the NULs included. *)
Definition strncmp_eq (s t : list Z) (n : nat) : bool := bool_decide (take n (s ++ [0]) = take n (t ++ [0])).

(** The longest prefix of [s] whose bytes satisfy [p], and the rest. *)
Fixpoint span (p : Z -> bool) (s : list Z) : list Z * list Z :=
  match s with
  | [] => ([], [])
  | c :: s' => if p c then let (m, r) := span p s' in (c :: m, r) else ([], s)
  end.

Definition skip_space (s : list Z) : list Z := (span isspace s).2.

(** The C string held by a buffer: its bytes before the first NUL. *)
Definition c_string (buf : list Z) : list Z := (span (fun c => negb (c =? 0)) buf).1.

(** [%-30s]: left-justified in a field of [w]. *)
Definition pad_right (w : nat) (s : list Z) : list Z := s ++ replicate (w - length s) 32.

(** ** Integers as text *)

Definition digit_char (d : Z) : Z := if d <? 10 then 48 + d else 87 + d.

(** The value of a character as a digit of a base up to 36. *)
Definition digit_value (c : Z) : Z :=
  if isdigit c then c - 48
  else if (97 <=? c) && (c <=? 122) then c - 87
  else if isupper c then c - 55 else 99.

Fixpoint digits (b : Z) (fuel : nat) (n : Z) (acc : list Z) : list Z :=
  match fuel with
  | O => acc
  | S f =>
      let acc := digit_char (n mod b) :: acc in
      if n / b =? 0 then acc else digits b f (n / b) acc
  end.

(** [n >= 0] in base [b]; a number has no more digits than bits. *)
Definition print_nat (b n : Z) : list Z := digits b (S (Z.to_nat (Z.log2 n))) n [].

(** [%d] *)
Definition print_int (n : Z) : list Z := if n <? 0 then 45 :: print_nat 10 (- n) else print_nat 10 n.

Fixpoint read_digits (b acc : Z) (s : list Z) : Z * list Z :=
  match s with
  | [] => (acc, [])
  | c :: s' => if digit_value c <? b then read_digits b (acc * b + digit_value c) s' else (acc, s)
  end.

Definition starts_digit (b : Z) (s : list Z) : bool :=
  match s with c :: _ => digit_value c <? b | [] => false end.

Definition sign (s : list Z) : bool * list Z :=
  match s with
  | [] => (false, s)
  | c :: s' => if c =? 45 then (true, s') else if c =? 43 then (false, s') else (false, s)
  end.

Definition clamp (lo hi x : Z) : Z := Z.max lo (Z.min hi x).

(** The digits strtol(s, NULL, base) reads: base 0 stands for the usual C
    notation.  No digits give 0. *)
Definition strto_base (base : Z) (s : list Z) : Z * list Z :=
  let hex s := match s with
               | z :: x :: s' => (z =? 48) && ((x =? 120) || (x =? 88)) && starts_digit 16 s'
               | _ => false end in
  if (base =? 16) || (base =? 0) then
    if hex s then (16, drop 2 s)
    else if base =? 16 then (16, s)
    else match s with z :: _ => if z =? 48 then (8, s) else (10, s) | [] => (10, s) end
  else (base, s).

Definition LONG_MAX : Z := 2 ^ 63 - 1.
Definition LONG_MIN : Z := - 2 ^ 63.
Definition ULONG_MAX : Z := 2 ^ 64 - 1.

Definition strtol (s : list Z) (base : Z) : Z :=
  let (neg, s) := sign (skip_space s) in
  let (b, s) := strto_base base s in
  let v := (read_digits b 0 s).1 in
  clamp LONG_MIN LONG_MAX (if neg : bool then - v else v).

(** strtoul negates in the unsigned type, and saturates. *)
Definition strtoul (s : list Z) (base : Z) : Z :=
  let (neg, s) := sign (skip_space s) in
  let (b, s) := strto_base base s in
  let v := (read_digits b 0 s).1 in
  if ULONG_MAX <? v then ULONG_MAX else if neg : bool then u64 (- v) else v.

Definition atoi (s : list Z) : Z := s32 (strtol s 10).

(** ** sscanf *)

Inductive directive : Type :=
  | DLit (c : Z)                 (* an ordinary character *)
  | DSpace                       (* white space *)
  | DSet (p : Z -> bool)         (* %[...] *)
  | DStr                         (* %s *)
  | DInt                         (* %d *)
  | DULong.                      (* %lu *)

Inductive scanned : Type := SStr (s : list Z) | SInt (n : Z).

(** An integer item: white space, an optional sign and at least one digit. *)
Definition scan_number (s : list Z) : option (Z * list Z) :=
  let (neg, s) := sign (skip_space s) in
  if starts_digit 10 s then
    let (v, r) := read_digits 10 0 s in Some (if neg : bool then - v else v, r)
  else None.

(** The items assigned, in order; their number is the result of the call (the
    callers do not tell 0 from EOF). *)
Fixpoint sscanf (s : list Z) (ds : list directive) : list scanned :=
  match ds with
  | [] => []
  | DLit c :: ds => match s with x :: s => if x =? c then sscanf s ds else [] | [] => [] end
  | DSpace :: ds => sscanf (skip_space s) ds
  | DSet p :: ds =>
      match span p s with ([], _) => [] | (m, r) => SStr m :: sscanf r ds end
  | DStr :: ds =>
      match span (fun c => negb (isspace c)) (skip_space s) with
      | ([], _) => [] | (m, r) => SStr m :: sscanf r ds end
  | DInt :: ds =>
      match scan_number s with
      | None => [] | Some (v, r) => SInt (s32 (clamp LONG_MIN LONG_MAX v)) :: sscanf r ds end
  | DULong :: ds =>
      match scan_number s with
      | None => []
      | Some (v, r) => SInt (if ULONG_MAX <? Z.abs v then ULONG_MAX else u64 v) :: sscanf r ds end
  end.

(** * Lemmas *)

Section Span.
Implicit Types (p : Z -> bool) (s m r : list Z).

Lemma span_app p s m r : span p s = (m, r) -> s = m ++ r /\ Forall (fun c => p c = true) m.
Proof.
  revert m r. induction s as [|c s IH]; cbn; intros m r H; [by injection H as <- <-|].
  destruct (p c) eqn:E; [|by injection H as <- <-].
  destruct (span p s) as [m' r']. injection H as <- <-.
  destruct (IH m' r' eq_refl) as [-> F]. split; [done|by constructor].
Qed.

Lemma span_all p m r :
  Forall (fun c => p c = true) m -> (forall c r', r = c :: r' -> p c = false) -> span p (m ++ r) = (m, r).
Proof.
  intros F H. induction F as [|c m Hc F IH]; cbn.
  - destruct r as [|c r]; [done|]. cbn. by rewrite (H c r eq_refl).
  - by rewrite Hc, IH.
Qed.

Lemma span_full p m : Forall (fun c => p c = true) m -> span p m = (m, []).
Proof. intros F. rewrite <- (app_nil_r m) at 1. by apply span_all. Qed.

Lemma span_stop p c s : p c = false -> span p (c :: s) = ([], c :: s).
Proof. intros H. cbn. by rewrite H. Qed.

Lemma skip_space_nonspace c s : isspace c = false -> skip_space (c :: s) = c :: s.
Proof. intros H. unfold skip_space. by rewrite span_stop. Qed.

Lemma skip_space_spaces n c s : isspace c = false -> skip_space (replicate n 32 ++ c :: s) = c :: s.
Proof.
  intros H. unfold skip_space. rewrite span_all; [done| |].
  - by apply Forall_replicate.
  - by intros ? ? [= <- <-].
Qed.

Lemma span_rest_head p s m c r : span p s = (m, c :: r) -> p c = false.
Proof.
  revert m. induction s as [|x s IH]; cbn; intros m H; [done|].
  destruct (p x) eqn:E; [|by injection H as <- <- <-].
  destruct (span p s) as [m' r'] eqn:E'. injection H as <- ->. by eapply IH.
Qed.

Lemma c_string_no_nul s : Forall (fun c => c <> 0) (c_string s).
Proof.
  unfold c_string. destruct (span _ s) as [m r] eqn:E. apply span_app in E as [_ F].
  eapply Forall_impl; [exact F|]. cbn. intros c H ->. done.
Qed.

Lemma c_string_id s : Forall (fun c => c <> 0) s -> c_string s = s.
Proof.
  intros H. unfold c_string. rewrite span_full; [done|].
  eapply Forall_impl; [exact H|]. cbn. intros c Hc. by destruct (Z.eqb_spec c 0).
Qed.

Lemma c_string_length s : (length (c_string s) <= length s)%nat.
Proof.
  unfold c_string. destruct (span _ s) as [m r] eqn:E. apply span_app in E as [-> _].
  rewrite length_app. cbn. lia.
Qed.
End Span.

Section Search.
Implicit Types (s p : list Z).

Lemma strchr_None s c : strchr s c = None <-> c ∉ s.
Proof.
  induction s as [|x s IH]; cbn; [split; [intros _ H; by apply elem_of_nil in H|done]|].
  rewrite not_elem_of_cons. destruct (Z.eqb_spec x c) as [->|]; [naive_solver|].
  rewrite fmap_None, IH. naive_solver.
Qed.

Lemma strchr_Some s c i : strchr s c = Some i -> s !! i = Some c /\ c ∉ take i s.
Proof.
  revert i. induction s as [|x s IH]; cbn; intros i H; [done|].
  destruct (Z.eqb_spec x c) as [->|].
  - injection H as <-. split; [done|]. intros H. by apply elem_of_nil in H.
  - apply fmap_Some in H as (j & E & ->). apply IH in E as [H1 H2]. split; [done|].
    cbn. rewrite not_elem_of_cons. naive_solver.
Qed.

Lemma strchr_app_r s c r : c ∉ s -> strchr (s ++ c :: r) c = Some (length s).
Proof.
  induction s as [|x s IH]; cbn; intros H; [by rewrite Z.eqb_refl|].
  apply not_elem_of_cons in H as [H1 H2]. destruct (Z.eqb_spec x c); [done|].
  by rewrite IH.
Qed.

Lemma is_prefix_app p s : is_prefix p s = true <-> exists r, s = p ++ r.
Proof.
  revert s. induction p as [|x p IH]; cbn; intros s; [naive_solver|].
  destruct s as [|y s]; [naive_solver|]. rewrite andb_true_iff, IH, Z.eqb_eq. naive_solver.
Qed.

Lemma strstr_Some s p i : strstr s p = Some i -> exists a b, s = a ++ p ++ b /\ length a = i.
Proof.
  revert i. induction s as [|x s IH]; intros i; cbn [strstr];
    (destruct (is_prefix p _) eqn:E; [intros [= <-]; apply is_prefix_app in E as [r ->]; by exists [], r|]);
    [done|].
  intros (j & Ej & ->)%fmap_Some. apply IH in Ej as (a & b & -> & <-). by exists (x :: a), b.
Qed.
End Search.

Section Numbers.
Implicit Types (b n v acc : Z) (s r : list Z).

Lemma digit_char_value d : 0 <= d < 36 -> digit_value (digit_char d) = d.
Proof.
  intros H. unfold digit_char, digit_value, isdigit, isupper.
  destruct (Z.ltb_spec d 10).
  - rewrite (proj2 (Z.leb_le 48 _)), (proj2 (Z.leb_le _ 57)) by lia. cbn [andb]. lia.
  - rewrite (proj2 (Z.leb_gt (87 + d) 57)) by lia. rewrite andb_false_r.
    rewrite (proj2 (Z.leb_le 97 _)), (proj2 (Z.leb_le _ 122)) by lia. cbn [andb]. lia.
Qed.

Lemma read_digits_app b acc s r :
  2 <= b <= 36 -> Forall (fun c => digit_value c < b) s -> starts_digit b r = false ->
  read_digits b acc (s ++ r) = ((read_digits b acc s).1, r).
Proof.
  intros Hb F Hr. revert acc. induction F as [|c s Hc F IH]; intros acc; cbn.
  - destruct r as [|c r]; [done|]. cbn in *. by rewrite Hr.
  - rewrite (proj2 (Z.ltb_lt _ _)) by done. apply IH.
Qed.

(** Reading back the digits written continues the number already read. *)
Lemma digits_spec b : 2 <= b <= 36 -> forall fuel n (acc : list Z),
  0 <= n < b ^ Z.of_nat fuel -> (0 < fuel)%nat -> exists ds,
    digits b fuel n acc = ds ++ acc /\ ds <> [] /\ Forall (fun c => digit_value c < b) ds /\
    (forall c, c ∈ ds -> 48 <= c < 128 /\ isspace c = false) /\
    forall v, (read_digits b v ds).1 = v * b ^ zlen ds + n.
Proof.
  intros Hb. induction fuel as [|f IH]; intros n acc Hn Hf; [lia|]. cbn [digits].
  pose proof (Z.mod_pos_bound n b ltac:(lia)) as Hm.
  assert (digit_value (digit_char (n mod b)) = n mod b) as Hd by (apply digit_char_value; lia).
  assert (forall c, c ∈ [digit_char (n mod b)] -> 48 <= c < 128 /\ isspace c = false) as Hc.
  { intros c ->%list_elem_of_singleton. unfold digit_char, isspace.
    destruct (Z.ltb_spec (n mod b) 10); split; try lia;
    repeat match goal with |- context [?x =? ?y] => destruct (Z.eqb_spec x y) | |- context [?x <=? ?y] => destruct (Z.leb_spec x y) end; lia || done. }
  destruct (Z.eqb_spec (n / b) 0) as [E|E].
  - exists [digit_char (n mod b)]. split_and!; [done|done| |done|].
    + constructor; [by rewrite Hd; lia|done].
    + intros v. cbn [read_digits]. rewrite Hd, (proj2 (Z.ltb_lt _ _)) by lia. cbn [fst].
      change (zlen [digit_char (n mod b)]) with 1. rewrite Z.pow_1_r.
      pose proof (Z.div_mod n b ltac:(lia)) as D. rewrite E in D. lia.
  - assert (0 <= n / b) by (apply Z.div_pos; lia).
    destruct f as [|f]; [|destruct (IH (n / b) (digit_char (n mod b) :: acc)) as (ds & E1 & E2 & E3 & E4 & E5)].
    + rewrite Z.pow_1_r in Hn. rewrite Z.div_small in E by lia. done.
    + rewrite (Nat2Z.inj_succ (S f)), Z.pow_succ_r in Hn by lia.
      split; [done|]. apply Z.div_lt_upper_bound; lia.
    + lia.
    + exists (ds ++ [digit_char (n mod b)]). split_and!.
      * by rewrite E1, <- app_assoc.
      * by destruct ds.
      * apply Forall_app. split; [done|]. constructor; [by rewrite Hd; lia|done].
      * intros c [?|?]%elem_of_app; auto.
      * intros v. assert (forall l x u, Forall (fun c => digit_value c < b) l ->
          (read_digits b u (l ++ [x])).1 = (read_digits b (read_digits b u l).1 [x]).1) as Ha.
        { intros l x u F. revert u. induction F as [|c l Hl F IHl]; intros u; [done|].
          cbn [app read_digits]. rewrite (proj2 (Z.ltb_lt _ _)) by done. apply IHl. }
        rewrite Ha, E5 by done. cbn [read_digits]. rewrite Hd, (proj2 (Z.ltb_lt _ _)) by lia. cbn [fst].
        rewrite zlen_app, Z.pow_add_r by (try apply zlen_nonneg; done). change (b ^ zlen [digit_char (n mod b)]) with (b ^ 1).
        rewrite Z.pow_1_r. pose proof (Z.div_mod n b ltac:(lia)) as D. nia.
Qed.

Lemma print_nat_spec b n : 2 <= b <= 36 -> 0 <= n ->
  print_nat b n <> [] /\ Forall (fun c => digit_value c < b) (print_nat b n) /\
  (forall c, c ∈ print_nat b n -> 48 <= c < 128 /\ isspace c = false) /\
  (read_digits b 0 (print_nat b n)).1 = n.
Proof.
  intros Hb Hn. unfold print_nat.
  destruct (digits_spec b Hb (S (Z.to_nat (Z.log2 n))) n []) as (ds & E1 & E2 & E3 & E4 & E5); [|lia|].
  - split; [done|]. rewrite Nat2Z.inj_succ, Z2Nat.id by apply Z.log2_nonneg.
    destruct (decide (n = 0)) as [->|].
    + apply Z.pow_pos_nonneg; [lia|]. cbn. lia.
    + pose proof (Z.log2_spec n ltac:(lia)) as [_ H].
      assert (2 ^ Z.succ (Z.log2 n) <= b ^ Z.succ (Z.log2 n)); [|lia].
      apply Z.pow_le_mono_l. lia.
  - rewrite E1, app_nil_r. split_and!; [done..|]. rewrite E5. lia.
Qed.

(** What sscanf("%d") reads after what printf("%d") wrote. *)
Lemma scan_print_int n r :
  starts_digit 10 r = false -> scan_number (print_int n ++ r) = Some (n, r).
Proof.
  intros Hr.
  assert (forall m, 0 <= m ->
    (starts_digit 10 (print_nat 10 m ++ r) = true /\
     read_digits 10 0 (print_nat 10 m ++ r) = (m, r)) /\
    (exists c t, print_nat 10 m ++ r = c :: t /\ 48 <= c < 128 /\ isspace c = false)) as Hm.
  { intros m Hm0. destruct (print_nat_spec 10 m ltac:(lia) Hm0) as (N & F & S & V).
    rewrite read_digits_app, V by (done || lia).
    destruct (print_nat 10 m) as [|c ds]; [done|]. apply Forall_cons in F as [F _].
    cbn. rewrite (proj2 (Z.ltb_lt _ _)) by done. split; [done|].
    exists c, (ds ++ r). split; [done|]. apply S. by left. }
  unfold scan_number, print_int. destruct (Z.ltb_spec n 0) as [Hn|Hn].
  - change ((45 :: print_nat 10 (- n)) ++ r) with (45 :: print_nat 10 (- n) ++ r).
    rewrite skip_space_nonspace by done.
    change (sign (45 :: print_nat 10 (- n) ++ r)) with (true, print_nat 10 (- n) ++ r); cbn iota.
    destruct (Hm (- n) ltac:(lia)) as [[-> ->] _]. by rewrite Z.opp_involutive.
  - destruct (Hm n Hn) as [[E1 E2] (c & t & E & Hc & Hs)]. rewrite E in *.
    rewrite skip_space_nonspace by done.
    assert (sign (c :: t) = (false, c :: t)) as ->.
    { unfold sign. destruct (Z.eqb_spec c 45), (Z.eqb_spec c 43); lia || done. }
    by rewrite E1, E2.
Qed.

Lemma print_int_head n : exists c t, print_int n = c :: t /\ isspace c = false.
Proof.
  unfold print_int. destruct (Z.ltb_spec n 0); [by exists 45, (print_nat 10 (- n))|].
  destruct (print_nat_spec 10 n ltac:(lia) ltac:(lia)) as (N & _ & S & _).
  destruct (print_nat 10 n) as [|c t]; [done|]. exists c, t. split; [done|]. apply S. by left.
Qed.

Lemma digits_length b fuel : forall n (acc : list Z) k, 2 <= b -> 0 <= n < b ^ Z.of_nat k -> (0 < k)%nat ->
  (length (digits b fuel n acc) <= k + length acc)%nat.
Proof.
  induction fuel as [|f IH]; intros n acc k Hb Hn Hk; cbn [digits]; [lia|].
  destruct (Z.eqb_spec (n / b) 0) as [E|E]; [cbn; lia|].
  assert (1 < k)%nat.
  { destruct (decide (k = 1%nat)) as [->|]; [|lia]. rewrite Z.pow_1_r in Hn. by rewrite Z.div_small in E. }
  etransitivity; [apply (IH _ _ (k - 1)%nat)|cbn; lia]; [done| |lia].
  split; [apply Z.div_pos; lia|]. apply Z.div_lt_upper_bound; [lia|].
  rewrite <- Z.pow_succ_r by lia. replace (Z.succ (Z.of_nat (k - 1))) with (Z.of_nat k) by lia. lia.
Qed.

Lemma print_nat_length n k : 0 <= n < 10 ^ Z.of_nat k -> (0 < k)%nat -> (length (print_nat 10 n) <= k)%nat.
Proof. intros. unfold print_nat. etransitivity; [apply digits_length; [lia|done|done]|cbn; lia]. Qed.

(** An int has at most ten digits and a sign. *)
Lemma print_int_length n : -10000000000 < n < 10000000000 -> (length (print_int n) <= 11)%nat.
Proof.
  intros Hn. unfold print_int. destruct (Z.ltb_spec n 0); cbn [length].
  - pose proof (print_nat_length (- n) 10). lia.
  - pose proof (print_nat_length n 10). lia.
Qed.
End Numbers.

Lemma sscanf_literal l s ds : sscanf (l ++ s) (map DLit l ++ ds) = sscanf s ds.
Proof. induction l as [|c l IH]; [done|]. cbn [app map sscanf]. by rewrite Z.eqb_refl. Qed.

(** ** Decimal digits, the last one first *)

Lemma digits_acc b f n (acc : list Z) : digits b f n acc = digits b f n [] ++ acc.
Proof.
  revert n acc. induction f as [|f IH]; intros n acc; cbn [digits]; [done|].
  destruct (n / b =? 0); [done|]. rewrite IH, (IH _ [_]), <- app_assoc. done.
Qed.

Lemma digits_fuel b f1 f2 n (acc : list Z) :
  2 <= b -> 0 <= n < b ^ Z.of_nat f1 -> n < b ^ Z.of_nat f2 -> (0 < f1)%nat -> (0 < f2)%nat ->
  digits b f1 n acc = digits b f2 n acc.
Proof.
  intros Hb. revert f2 n acc. induction f1 as [|f1 IH]; intros [|f2] n acc H1 H2 ? ?; [lia..|].
  cbn [digits]. destruct (Z.eqb_spec (n / b) 0) as [|E]; [done|].
  assert (0 <= n / b) by (apply Z.div_pos; lia).
  rewrite Nat2Z.inj_succ, Z.pow_succ_r in H1, H2 by lia.
  assert (n / b < b ^ Z.of_nat f1) by (apply Z.div_lt_upper_bound; lia).
  assert (n / b < b ^ Z.of_nat f2) by (apply Z.div_lt_upper_bound; lia).
  apply IH; try lia.
  - destruct f1; [cbn in *; lia|lia].
  - destruct f2; [cbn in *; lia|lia].
Qed.

Lemma log2_fuel b n : 2 <= b -> 0 <= n -> n < b ^ Z.of_nat (S (Z.to_nat (Z.log2 n))).
Proof.
  intros Hb Hn. rewrite Nat2Z.inj_succ, Z2Nat.id by apply Z.log2_nonneg.
  destruct (decide (n = 0)) as [->|]; [apply Z.pow_pos_nonneg; [lia|]; cbn; lia|].
  pose proof (Z.log2_spec n ltac:(lia)) as [_ H].
  assert (2 ^ Z.succ (Z.log2 n) <= b ^ Z.succ (Z.log2 n)); [|lia]. apply Z.pow_le_mono_l. lia.
Qed.

Lemma print_nat_digit n : 0 <= n < 10 -> print_nat 10 n = [48 + n].
Proof.
  intros Hn. unfold print_nat. cbn [digits]. rewrite Z.div_small, Z.mod_small by lia. cbn [Z.eqb].
  unfold digit_char. by rewrite (proj2 (Z.ltb_lt _ _)) by lia.
Qed.

Lemma print_nat_snoc n : 10 <= n -> print_nat 10 n = print_nat 10 (n / 10) ++ [48 + n mod 10].
Proof.
  intros Hn. unfold print_nat at 1. cbn [digits].
  assert (1 <= n / 10) by (apply Z.div_le_lower_bound; lia).
  destruct (Z.eqb_spec (n / 10) 0) as [|_]; [lia|].
  pose proof (Z.mod_pos_bound n 10 ltac:(lia)).
  unfold digit_char at 1. rewrite (proj2 (Z.ltb_lt _ _)) by lia. rewrite digits_acc. f_equal.
  unfold print_nat. apply digits_fuel; try lia.
  - split; [lia|].
    assert (Z.of_nat (Z.to_nat (Z.log2 n)) = Z.log2 n) as -> by (apply Z2Nat.id, Z.log2_nonneg).
    pose proof (Z.log2_spec n ltac:(lia)) as [_ H2]. rewrite Z.pow_succ_r in H2 by apply Z.log2_nonneg.
    assert (2 ^ Z.log2 n <= 10 ^ Z.log2 n) by (apply Z.pow_le_mono_l; lia).
    apply Z.div_lt_upper_bound; lia.
  - apply log2_fuel; lia.
  - assert (0 < Z.log2 n); [|lia]. apply Z.log2_pos. lia.
Qed.

(** Induction on a decimal number by its last digit. *)
Lemma decimal_ind (P : Z -> Prop) :
  (forall n, 0 <= n < 10 -> P n) -> (forall n, 10 <= n -> P (n / 10) -> P n) -> forall n, 0 <= n -> P n.
Proof.
  intros Hd Hs. apply Zlt_0_ind. intros n IH Hn.
  destruct (decide (n < 10)); [auto|]. apply Hs; [lia|].
  assert (0 <= n / 10 < n) by (split; [apply Z.div_pos; lia|apply Z.div_lt; lia]). apply IH; lia.
Qed.

Lemma print_nat_isdigit n : 0 <= n -> Forall (fun c => isdigit c = true) (print_nat 10 n).
Proof.
  assert (forall d, 0 <= d < 10 -> isdigit (48 + d) = true) as Hd.
  { intros d Hd. unfold isdigit. by rewrite !(proj2 (Z.leb_le _ _)) by lia. }
  revert n. apply decimal_ind.
  - intros n Hn. rewrite print_nat_digit by done. constructor; auto.
  - intros n Hn IH. rewrite print_nat_snoc by done. apply Forall_app. split; [done|].
    constructor; [|done]. apply Hd, Z.mod_pos_bound. lia.
Qed.

(** A number that is not zero does not start with a zero. *)
Lemma print_nat_head n : 0 < n -> exists c t, print_nat 10 n = c :: t /\ 49 <= c <= 57.
Proof.
  intros Hn. assert (0 <= n) as H0 by lia. revert Hn. pattern n. apply decimal_ind; [..|done]; clear n H0.
  - intros n Hn Hp. rewrite print_nat_digit by done. exists (48 + n), []. split; [done|lia].
  - intros n Hn IH _. rewrite print_nat_snoc by done.
    destruct IH as (c & t & -> & Hc); [|by exists c, (t ++ [48 + n mod 10])].
    assert (1 <= n / 10) by (apply Z.div_le_lower_bound; lia). lia.
Qed.
