(* ===== verification/Iniparser.v ===== *)
(** iniparser-main/iniparser.c: the INI file reader and writer.

    The reader turns the bytes of a file into calls of dictionary_set, one line
    at a time, through five fixed buffers; the writer prints a dictionary back
    as sections and quoted values.  The accessors are written against the
    [Store] interface of the dictionary; the functions that walk the arrays of
    the table use the dictionary itself.  Copies into the fixed buffers are
    checked against their sizes.  The error callback is the list of messages it
    is called with. *)

From S2P Require Import Prelude CLib Dictionary.

Open Scope c_scope.
Open Scope Z_scope.

Definition ASCIILINESZ : nat := 1024.
Definition INI_INVALID_KEY : cptr := Sentinel.

Inductive line_status : Type :=
  | LINE_UNPROCESSED | LINE_ERROR | LINE_EMPTY | LINE_COMMENT | LINE_SECTION | LINE_VALUE.

#[export] Instance line_status_eq_dec : EqDecision line_status.
Proof. solve_decision. Defined.

(** What the error callback is told. *)
Inductive message : Type :=
  | MsgTooLong (ininame : list Z) (lineno : Z)
  | MsgSyntax (ininame : list Z) (lineno : Z) (line : list Z)
  | MsgNoMemory
  | MsgCannotOpen (ininame : list Z).

(** A copy of [s] and its NUL into a buffer of [size] bytes. *)
Definition into (size : nat) (s : list Z) : res (list Z) :=
  if (length s <? size)%nat then Ok s else Ub OobWrite.

Definition opt_str (s : option (list Z)) : list Z := default [] s.

(** ** String helpers *)

(** At most [len - 1] characters are converted. *)
Definition strlwc (inp : option (list Z)) (len : nat) : option (list Z) :=
  match inp with
  | None => None
  | Some s => if (len =? 0)%nat then None else Some (map tolower (take (len - 1) s))
  end.

(** [while (last > s) { if (!isspace(last[-1])) break; last--; }] *)
Fixpoint strip_last (s : list Z) (last : nat) : nat :=
  match last with
  | O => O
  | S l => match s !! l with
           | Some c => if isspace c then strip_last s l else last
           | None => last
           end
  end.

Definition strstrip (s : option (list Z)) : option (list Z) * nat :=
  match s with
  | None => (None, 0%nat)
  | Some s =>
      let s := skip_space s in
      let last := strip_last s (length s) in
      (Some (take last s), last)
  end.

Definition iniparser_set_error_callback {A} (default_error_callback : A) (errback : option A) : A :=
  match errback with Some f => f | None => default_error_callback end.

(** ** Access through the table's interface *)

Section Access.
Context {D : Type} `{Store D}.

Definition iniparser_getstring (d : option D) (key : option (list Z)) (def : cptr) : cptr :=
  match d, key with
  | Some _, Some _ =>
      let lc_key := strlwc key (ASCIILINESZ + 1) in
      store_get d lc_key def
  | _, _ => def
  end.

Definition iniparser_getlongint (d : option D) (key : option (list Z)) (notfound : Z) : Z :=
  match iniparser_getstring d key INI_INVALID_KEY with
  | Str s => strtol s 0
  | _ => notfound
  end.

Definition iniparser_getint64 (d : option D) (key : option (list Z)) (notfound : Z) : Z :=
  match iniparser_getstring d key INI_INVALID_KEY with
  | Str s => strtol s 0
  | _ => notfound
  end.

Definition iniparser_getuint64 (d : option D) (key : option (list Z)) (notfound : Z) : Z :=
  match iniparser_getstring d key INI_INVALID_KEY with
  | Str s => strtoul s 0
  | _ => notfound
  end.

Definition iniparser_getint (d : option D) (key : option (list Z)) (notfound : Z) : Z :=
  s32 (iniparser_getlongint d key notfound).

(** atof is the C library's. *)
Definition iniparser_getdouble {double} (atof : list Z -> double) (d : option D)
    (key : option (list Z)) (notfound : double) : double :=
  match iniparser_getstring d key INI_INVALID_KEY with
  | Str s => atof s
  | _ => notfound
  end.

Definition iniparser_getboolean (d : option D) (key : option (list Z)) (notfound : Z) : Z :=
  match iniparser_getstring d key INI_INVALID_KEY with
  | Str s =>
      let c := match s with c :: _ => c | [] => 0 end in
      if (c =? 121) || (c =? 89) || (c =? 49) || (c =? 116) || (c =? 84) then 1
      else if (c =? 110) || (c =? 78) || (c =? 48) || (c =? 102) || (c =? 70) then 0
      else notfound
  | _ => notfound
  end.

Definition iniparser_find_entry (ini : option D) (entry : option (list Z)) : bool :=
  negb (bool_decide (iniparser_getstring ini entry INI_INVALID_KEY = INI_INVALID_KEY)).

(** The value is cut to 1024 bytes, the lower-cased name too. *)
Definition iniparser_set (ini : option D) (entry val : option (list Z)) (o : list bool)
    : res (Z * option D * list bool) :=
  let val := match val with
             | Some v => Some (take (Nat.min (length v) ASCIILINESZ) v)
             | None => None
             end in
  store_set ini (strlwc entry (ASCIILINESZ + 1)) val o.

Definition iniparser_unset (ini : option D) (entry : option (list Z)) : option D :=
  store_unset ini (strlwc entry (ASCIILINESZ + 1)).
End Access.

(** ** Walks over the table *)

Definition iniparser_getnsec (d : option dictionary) : Z :=
  match d with
  | None => -1
  | Some d =>
      fold_left (fun nsec i =>
        match cell (d_key d) i with
        | None => nsec
        | Some k => match strchr k 58 with None => nsec + 1 | Some _ => nsec end
        end) (seq 0 (d_size d)) 0
  end.

(** The loop of iniparser_getsecname: the index it stops at and [foundsec]. *)
Fixpoint secname_loop (d : dictionary) (n : Z) (i fuel : nat) (foundsec : Z) : nat * Z :=
  match fuel with
  | O => (i, foundsec)
  | S f =>
      match cell (d_key d) i with
      | None => secname_loop d n (S i) f foundsec
      | Some k =>
          match strchr k 58 with
          | Some _ => secname_loop d n (S i) f foundsec
          | None => let foundsec := foundsec + 1 in
                    if n <? foundsec then (i, foundsec) else secname_loop d n (S i) f foundsec
          end
      end
  end.

Definition iniparser_getsecname (d : option dictionary) (n : Z) : option (list Z) :=
  match d with
  | None => None
  | Some d =>
      if n <? 0 then None
      else let (i, foundsec) := secname_loop d n 0 (d_size d) 0 in
           if foundsec <=? n then None else cell (d_key d) i
  end.

Definition dump_entry (d : dictionary) (i : nat) : list Z :=
  match cell (d_key d) i with
  | None => []
  | Some k =>
      match cell (d_val d) i with
      | Some v => str "[" ++ k ++ str "]=[" ++ v ++ str "]" ++ [10]
      | None => str "[" ++ k ++ str "]=UNDEF" ++ [10]
      end
  end.

Definition iniparser_dump (d : option dictionary) : list Z :=
  match d with
  | None => []
  | Some d => mjoin (dump_entry d <$> seq 0 (d_size d))
  end.

(** escape_value writes nothing when the value is NULL: [escaped] keeps what it
    held.  Its buffer has 2 * 1024 + 2 bytes. *)
Fixpoint escape (value : list Z) : list Z :=
  match value with
  | [] => []
  | c :: value => if (c =? 92) || (c =? 34) then 92 :: c :: escape value else c :: escape value
  end.

Definition escape_value (escaped : list Z) (value : option (list Z)) : res (list Z) :=
  match value with
  | None => Ok escaped
  | Some v => into (ASCIILINESZ * 2 + 2) (escape v)
  end.

(** The loops that print keys: [name] selects a key and gives the name printed. *)
Fixpoint print_keys (d : dictionary) (name : list Z -> option (list Z)) (idx : list nat)
    (escaped : list Z) : res (list Z) :=
  match idx with
  | [] => Ok []
  | i :: idx =>
      match k ← cell (d_key d) i; name k with
      | None => print_keys d name idx escaped
      | Some n =>
          let! escaped := escape_value escaped (cell (d_val d) i) in
          let! rest := print_keys d name idx escaped in
          Ok (n ++ str " = " ++ [34] ++ escaped ++ [34; 10] ++ rest)
      end
  end.

Definition iniparser_dumpsection_ini (d : option dictionary) (s : option (list Z)) : res (list Z) :=
  match d with
  | None => Ok []
  | Some dd =>
      if negb (iniparser_find_entry d s) then Ok []
      else match s with
           | None => Ok []                   (* not found above *)
           | Some s =>
               if (ASCIILINESZ + 1 <? length s)%nat then Ok []
               else
                 let! keym := into (ASCIILINESZ + 1) (s ++ [58]) in
                 let! keys := print_keys dd
                   (fun k => if strncmp_eq k keym (length s + 1)
                             then Some (pad_right 30 (drop (length s + 1) k)) else None)
                   (seq 0 (d_size dd)) [] in
                 Ok ([10] ++ str "[" ++ s ++ str "]" ++ [10] ++ keys ++ [10])
           end
  end.

Fixpoint dump_sections (d : option dictionary) (secs : list Z) : res (list Z) :=
  match secs with
  | [] => Ok []
  | i :: secs =>
      let! out := iniparser_dumpsection_ini d (iniparser_getsecname d i) in
      let! rest := dump_sections d secs in
      Ok (out ++ rest)
  end.

Definition iniparser_dump_ini (d : option dictionary) : res (list Z) :=
  match d with
  | None => Ok []
  | Some dd =>
      let nsec := iniparser_getnsec d in
      if nsec <? 1 then print_keys dd (fun k => Some k) (seq 0 (d_size dd)) []
      else
        let! out := dump_sections d (map Z.of_nat (seq 0 (Z.to_nat nsec))) in
        Ok (out ++ [10])
  end.

(** strlwc(s, keym, sizeof(keym)); keym[seclen] = ':'; the cell written must
    be inside keym. *)
Definition section_prefix (s : list Z) : res (list Z) :=
  if (length s <? ASCIILINESZ + 1)%nat
  then Ok (opt_str (strlwc (Some s) (ASCIILINESZ + 1)) ++ [58])
  else Ub OobWrite.

Definition iniparser_getsecnkeys (d : option dictionary) (s : option (list Z)) : res Z :=
  match d, s with
  | Some dd, Some s' =>
      if negb (iniparser_find_entry d s) then Ok 0
      else
        let! keym := section_prefix s' in
        Ok (fold_left (fun nkeys j =>
              match cell (d_key dd) j with
              | None => nkeys
              | Some k => if strncmp_eq k keym (length s' + 1) then nkeys + 1 else nkeys
              end) (seq 0 (d_size dd)) 0)
  | _, _ => Ok 0
  end.

(** The keys stored through [keys], an array of [room] pointers, or NULL. *)
Definition iniparser_getseckeys (d : option dictionary) (s : option (list Z)) (room : option nat)
    : res (option (list (list Z))) :=
  match d, s, room with
  | Some dd, Some s', Some room =>
      if negb (iniparser_find_entry d s) then Ok None
      else
        let! keym := section_prefix s' in
        let keys := fold_left (fun keys j =>
              match cell (d_key dd) j with
              | None => keys
              | Some k => if strncmp_eq k keym (length s' + 1) then keys ++ [k] else keys
              end) (seq 0 (d_size dd)) [] in
        if (length keys <=? room)%nat then Ok (Some keys) else Ub OobWrite
  | _, _, _ => Ok None
  end.

(** ** Reading one line *)

(** The characters of [quoted] up to the closing quote, with escapes removed. *)
Fixpoint unquote (quote : Z) (esc : bool) (quoted : list Z) : list Z :=
  match quoted with
  | [] => []
  | c :: q =>
      if negb esc then
        if c =? 92 then unquote quote true q
        else if c =? quote then []
        else c :: unquote quote false q
      else c :: unquote quote false q
  end.

(** Without memory for the copy the value becomes empty. *)
Definition parse_quoted_value (value : list Z) (quote : Z) (o : list bool)
    : list Z * list bool * list message :=
  let (quoted, o) := xstrdup (Some value) o in
  match quoted with
  | None => ([], o, [MsgNoMemory])
  | Some quoted => (unquote quote false quoted, o, [])
  end.

(** The three output buffers of iniparser_line, of 1025 bytes each. *)
Record outputs : Type := Outputs { o_section : list Z; o_key : list Z; o_value : list Z }.

Definition set_section (b : outputs) (s : list Z) : outputs := Outputs s (o_key b) (o_value b).
Definition set_key (b : outputs) (k : list Z) : outputs := Outputs (o_section b) k (o_value b).
Definition set_value (b : outputs) (v : list Z) : outputs := Outputs (o_section b) (o_key b) v.

Definition BUFSZ : nat := ASCIILINESZ + 1.
Definition not_char (c x : Z) : bool := negb (x =? c).

(** "%[^=] = \"%[^\n]\"" *)
Definition fmt_dquote : list directive :=
  [DSet (not_char 61); DSpace; DLit 61; DSpace; DLit 34; DSet (not_char 10); DLit 34].
(** "%[^=] = '%[^\n]'" *)
Definition fmt_squote : list directive :=
  [DSet (not_char 61); DSpace; DLit 61; DSpace; DLit 39; DSet (not_char 10); DLit 39].
(** "%[^=] = %[^;#]" *)
Definition fmt_plain : list directive :=
  [DSet (not_char 61); DSpace; DLit 61; DSpace; DSet (fun c => not_char 59 c && not_char 35 c)].
(** "%[^=] = %[;#]" *)
Definition fmt_comment : list directive :=
  [DSet (not_char 61); DSpace; DLit 61; DSpace; DSet (fun c => (c =? 59) || (c =? 35))].
(** "%[^=] %[=]" *)
Definition fmt_empty : list directive :=
  [DSet (not_char 61); DSpace; DSet (fun c => c =? 61)].

(** sscanf(line, fmt, key, value): the number of items and the buffers. *)
Definition scan_pair (line : list Z) (fmt : list directive) (b : outputs) : res (nat * outputs) :=
  match sscanf line fmt with
  | [SStr k] => let! k := into BUFSZ k in Ok (1%nat, set_key b k)
  | [SStr k; SStr v] =>
      let! k := into BUFSZ k in
      let! v := into BUFSZ v in
      Ok (2%nat, set_value (set_key b k) v)
  | _ => Ok (0%nat, b)
  end.

(** A call whose left neighbour in [a || b] may have made it unnecessary. *)
Definition scan_or (done : bool) (line : list Z) (fmt : list directive) (b : outputs)
    : res (nat * outputs) :=
  if done then Ok (0%nat, b) else scan_pair line fmt b.

(** strstrip(key); strlwc(key, key, len); *)
Definition clean_key (b : outputs) (len : nat) : outputs :=
  set_key b (opt_str (strlwc (strstrip (Some (o_key b))).1 len)).

(** The branch for a line between square brackets. *)
Definition section_line (line : list Z) (b : outputs) : res outputs :=
  let! section := match sscanf line [DLit 91; DSet (not_char 10)] with
                  | [SStr s] => into BUFSZ s
                  | _ => Ok (o_section b)
                  end in
  let len := length section in
  match last section with
  | None => Ub OobRead                       (* section[len - 1] *)
  | Some c =>
      let section := if c =? 93 then take (len - 1) section else section in
      let section := opt_str (strstrip (Some section)).1 in
      Ok (set_section b (opt_str (strlwc (Some section) len)))
  end.

(** The branches for a line with a value; [len] is the length of the line. *)
Definition value_line (line : list Z) (len : nat) (b : outputs) (o : list bool)
    : res (line_status * outputs * list bool * list message) :=
  let! (d_quote, b) := scan_pair line fmt_dquote b in
  let! (s_quote, b) := scan_or (d_quote =? 2)%nat line fmt_squote b in
  if (d_quote =? 2)%nat || (s_quote =? 2)%nat then
    let b := clean_key b len in
    let '(v, o, msgs) := parse_quoted_value (o_value b) (if (d_quote =? 2)%nat then 34 else 39) o in
    Ok (LINE_VALUE, set_value b v, o, msgs)
  else
    let! (n, b) := scan_pair line fmt_plain b in
    if (n =? 2)%nat then
      let b := clean_key b len in
      let v := opt_str (strstrip (Some (o_value b))).1 in
      let v := if bool_decide (v = [34; 34]) || bool_decide (v = [39; 39]) then [] else v in
      Ok (LINE_VALUE, set_value b v, o, [])
    else
      let! (n, b) := scan_pair line fmt_comment b in
      let! (m, b) := scan_or (n =? 2)%nat line fmt_empty b in
      if (n =? 2)%nat || (m =? 2)%nat
      then Ok (LINE_VALUE, set_value (clean_key b len) [], o, [])
      else Ok (LINE_ERROR, b, o, []).

(** Without memory for the copy of the line it counts as empty. *)
Definition iniparser_line (input_line : list Z) (b : outputs) (o : list bool)
    : res (line_status * outputs * list bool * list message) :=
  let (line, o) := xstrdup (Some input_line) o in
  let (line, len) := strstrip line in
  match opt_str line with
  | [] => Ok (LINE_EMPTY, b, o, [])
  | c :: _ =>
      let line := opt_str line in
      if (c =? 35) || (c =? 59) then Ok (LINE_COMMENT, b, o, [])
      else if (c =? 91) && bool_decide (last line = Some 93) then
        let! b := section_line line b in Ok (LINE_SECTION, b, o, [])
      else value_line line len b o
  end.

(** ** Reading a file *)

(** fgets with a buffer of [size] bytes: the bytes read, the rest of the file
    and whether the end of the file was met; nothing read at the end is NULL. *)
Fixpoint fgets_bytes (n : nat) (f : list Z) : list Z * list Z * bool :=
  match n with
  | O => ([], f, false)
  | S n =>
      match f with
      | [] => ([], [], true)
      | c :: f => if c =? 10 then ([c], f, false)
                  else let '(m, r, e) := fgets_bytes n f in (c :: m, r, e)
      end
  end.

Definition fgets (size : nat) (f : list Z) : option (list Z * list Z * bool) :=
  match fgets_bytes (size - 1) f with
  | ([], _, true) => None
  | r => Some r
  end.

Section Load.
Context {D : Type} `{Store D}.

(** The local variables of iniparser_load_file and what is left to read. *)
Record loader : Type := Loader {
  l_file : list Z;
  l_line : list Z;
  l_last : nat;
  l_lineno : Z;
  l_errs : Z;
  l_dict : option D;
  l_out : outputs;
  l_log : list message;
  l_oracle : list bool
}.

(** The end of the loop body: the variables after it, or the value returned. *)
Inductive outcome : Type := Next (st : loader) | Leave (st : loader) | Fail (st : loader).

(** The end of the line once trailing white space is cut, and the index tested
    for a backslash. *)
Definition trim_line (line : list Z) : list Z := take (strip_last line (length line)) line.

(** switch (iniparser_line(...)): the line's effect on the table, and mem_err. *)
Definition process_line (ininame : list Z) (line : list Z) (st : loader) : res (Z * loader) :=
  let! (sta, out, o, msgs) := iniparser_line line (l_out st) (l_oracle st) in
  let st' d errs log o :=
    Loader (l_file st) [] 0 (l_lineno st) errs d out (l_log st ++ msgs ++ log) o in
  match sta with
  | LINE_SECTION =>
      let! (mem_err, d, o) := store_set (l_dict st) (Some (o_section out)) None o in
      Ok (mem_err, st' d (l_errs st) [] o)
  | LINE_VALUE =>
      let! tmp := into (ASCIILINESZ * 2 + 2) (o_section out ++ [58] ++ o_key out) in
      let! (mem_err, d, o) := store_set (l_dict st) (Some tmp) (Some (o_value out)) o in
      Ok (mem_err, st' d (l_errs st) [] o)
  | LINE_ERROR =>
      Ok (0, st' (l_dict st) (l_errs st + 1) [MsgSyntax ininame (l_lineno st) line] o)
  | _ => Ok (0, st' (l_dict st) (l_errs st) [] o)
  end.

(** The body of the while loop, after a successful fgets. *)
Definition load_step (ininame : list Z) (chunk rest : list Z) (eof : bool) (st : loader) : res outcome :=
  let line := take (l_last st) (l_line st) ++ c_string chunk in
  let st := Loader rest line (l_last st) (l_lineno st + 1) (l_errs st) (l_dict st)
                   (l_out st) (l_log st) (l_oracle st) in
  if (length line <=? 1)%nat then Ok (Next st)
  else if bool_decide (last line <> Some 10) && negb eof then
    Ok (Fail (Loader rest line (l_last st) (l_lineno st) (l_errs st) None (l_out st)
                (l_log st ++ [MsgTooLong ininame (l_lineno st)]) (l_oracle st)))
  else
    let line := trim_line line in
    if bool_decide (last line = Some 92) then
      Ok (Next (Loader rest line (length line - 1) (l_lineno st) (l_errs st) (l_dict st)
                  (l_out st) (l_log st) (l_oracle st)))
    else
      let! (mem_err, st) := process_line ininame line st in
      if mem_err <? 0 then
        Ok (Leave (Loader (l_file st) (l_line st) 0 (l_lineno st) (l_errs st) (l_dict st)
                     (l_out st) (l_log st ++ [MsgNoMemory]) (l_oracle st)))
      else Ok (Next st).

(** if (errs) { dictionary_del(dict); dict = NULL; } *)
Definition load_end (st : loader) : option D * list message :=
  (if l_errs st =? 0 then l_dict st else None, l_log st).

Fixpoint load_loop (fuel : nat) (ininame : list Z) (st : loader) : res (option D * list message) :=
  match fgets (ASCIILINESZ - l_last st) (l_file st) with
  | None => Ok (load_end st)
  | Some (chunk, rest, eof) =>
      match fuel with
      | O => Ub NoReturn
      | S fuel =>
          let! r := load_step ininame chunk rest eof st in
          match r with
          | Next st => load_loop fuel ininame st
          | Leave st => Ok (load_end st)
          | Fail st => Ok (None, l_log st)
          end
      end
  end.

(** Every fgets takes at least a byte, so the length of the file is fuel enough. *)
Definition load_from (d : D) (file ininame : list Z) (o : list bool) : res (option D * list message) :=
  load_loop (length file) ininame
    (Loader file [] 0 0 0 (Some d) (Outputs [] [] []) [] o).
End Load.

(** A dictionary without a key array: any call that looks at the keys faults. *)
Inductive keyless : Type := Keyless.

#[export] Instance keyless_store : Store keyless := {
  store_get _ _ def := def;
  store_set d k v o := match d, k with Some _, Some _ => Ub NullDeref | _, _ => Ok (-1, d, o) end;
  store_unset d _ := d
}.

Inductive loaded : Type := LoadedNull | LoadedKeyless | Loaded (d : dictionary).

Definition iniparser_load_file (file ininame : list Z) (o : list bool) : res (loaded * list message) :=
  let! (dict, o) := dictionary_new 0 o in
  match dict with
  | NewNull => Ok (LoadedNull, [])
  | NewNoKey =>
      let! (d, log) := load_from Keyless file ininame o in
      match d with
      | None => Ub NullDeref                 (* dictionary_del reads d->key[i] *)
      | Some _ => Ok (LoadedKeyless, log)
      end
  | NewOk d =>
      let! (d, log) := load_from d file ininame o in
      Ok (match d with Some d => Loaded d | None => LoadedNull end, log)
  end.

(** [fopen] is the environment's: the bytes of a file that can be opened. *)
Definition iniparser_load (fopen : list Z -> option (list Z)) (ininame : list Z) (o : list bool)
    : res (loaded * list message) :=
  match fopen ininame with
  | None => Ok (LoadedNull, [MsgCannotOpen ininame])
  | Some file => iniparser_load_file file ininame o
  end.

(** * Lemmas *)

(** ** Trimming and case *)

Section Strip.
Implicit Types (s a w : list Z).

Lemma strip_last_spec s n : (n <= length s)%nat ->
  let k := strip_last s n in
  (k <= n)%nat /\ (forall i c, (k <= i < n)%nat -> s !! i = Some c -> isspace c = true) /\
  (forall c, s !! (k - 1)%nat = Some c -> (0 < k)%nat -> isspace c = false).
Proof.
  induction n as [|n IH]; intros Hn; cbn [strip_last]; [split_and!; intros; lia|].
  destruct (lookup_lt_is_Some_2 s n) as [c Hc]; [lia|]. rewrite Hc.
  destruct (isspace c) eqn:E.
  - destruct (IH ltac:(lia)) as (H1 & H2 & H3). split_and!; [lia| |done].
    intros i c' Hi Hc'. destruct (decide (i = n)) as [->|]; [congruence|]. apply (H2 i); [lia|done].
  - split_and!; [lia|intros; lia|]. intros c' Hc' _. replace (S n - 1)%nat with n in Hc' by lia. congruence.
Qed.

Lemma trim_line_prefix s : exists w, s = trim_line s ++ w /\ Forall (fun c => isspace c = true) w.
Proof.
  unfold trim_line. destruct (strip_last_spec s (length s)) as (H1 & H2 & H3); [lia|].
  set (k := strip_last s (length s)) in *. exists (drop k s). split; [by rewrite take_drop|].
  apply Forall_lookup. intros i c Hi. rewrite lookup_drop in Hi. apply (H2 (k + i)%nat); [|done].
  apply lookup_lt_Some in Hi. lia.
Qed.

Lemma trim_line_last s c : last (trim_line s) = Some c -> isspace c = false.
Proof.
  unfold trim_line. destruct (strip_last_spec s (length s)) as (H1 & H2 & H3); [lia|].
  set (k := strip_last s (length s)) in *. rewrite last_lookup, length_take, Nat.min_l by lia.
  intros [Hc Hk]%lookup_take_Some. apply H3; [|lia]. by rewrite <- Hc, <- Nat.sub_1_r.
Qed.

Lemma trim_line_length s : (length (trim_line s) <= length s)%nat.
Proof. unfold trim_line. rewrite length_take. lia. Qed.

(** What trimming gives is known from a decomposition of the text. *)
Lemma trim_line_app a c w :
  isspace c = false -> Forall (fun x => isspace x = true) w -> trim_line (a ++ [c] ++ w) = a ++ [c].
Proof.
  intros Hc Hw. set (s := a ++ [c] ++ w). unfold trim_line.
  destruct (strip_last_spec s (length s)) as (H1 & H2 & H3); [lia|].
  set (k := strip_last s (length s)) in *.
  assert (s !! length a = Some c) as Ha by (by apply list_lookup_middle).
  assert (length s = (length a + 1 + length w)%nat) as Hl by (unfold s; rewrite !length_app; cbn; lia).
  assert (k = length a + 1)%nat as ->.
  { destruct (decide (k <= length a)%nat) as [Hk|Hk].
    - assert (isspace c = true); [|congruence]. apply (H2 (length a)); [lia|done].
    - destruct (decide (k = length a + 1)%nat) as [|Hne]; [done|].
      destruct (lookup_lt_is_Some_2 s (k - 1)) as [x Hx]; [lia|].
      assert (isspace x = true); [|by rewrite (H3 x Hx) in * by lia].
      apply (proj1 (Forall_lookup _ _) Hw (k - 1 - length a - 1)%nat). revert Hx. unfold s.
      rewrite lookup_app_r by lia. rewrite lookup_app_r by (cbn; lia). intros <-. f_equal; cbn; lia. }
  unfold s. rewrite app_assoc, take_app_length'; [done|]. rewrite length_app. cbn. lia.
Qed.

Lemma trim_line_id s : (forall c, last s = Some c -> isspace c = false) -> trim_line s = s.
Proof.
  intros H. destruct (trim_line_prefix s) as (w & E & Hw).
  destruct w as [|x w _] using rev_ind; [by rewrite E at 2; rewrite app_nil_r|].
  apply Forall_app in Hw as [_ Hx]. apply Forall_inv in Hx. cbn in Hx.
  rewrite H in Hx; [done|]. rewrite E, app_assoc. apply last_snoc.
Qed.

Lemma strstrip_length s : (length (opt_str (strstrip (Some s)).1) <= length s)%nat.
Proof.
  cbn. rewrite length_take. unfold skip_space. destruct (span isspace s) as [m r] eqn:E.
  apply span_app in E as [-> _]. cbn. rewrite length_app. lia.
Qed.

(** The name between blanks. *)
Lemma strstrip_padded a c d w :
  isspace c = false -> isspace d = false -> Forall (fun x => isspace x = true) w ->
  (strstrip (Some ((c :: a) ++ w))).1 = Some (c :: a) \/ last (c :: a) <> Some d.
Proof.
  intros Hc Hd Hw. destruct (decide (last (c :: a) = Some d)) as [E|]; [left|by right].
  unfold strstrip. change ((c :: a) ++ w) with (c :: a ++ w). rewrite skip_space_nonspace by done.
  cbn [fst]. f_equal. apply last_Some in E as [l E].
  change (c :: a ++ w) with ((c :: a) ++ w). rewrite E, <- app_assoc. by apply trim_line_app.
Qed.

Lemma length_strlwc s n : (length (opt_str (strlwc (Some s) n)) <= length s)%nat.
Proof. unfold strlwc. destruct (_ =? _)%nat; cbn; [lia|]. rewrite length_map, length_take. lia. Qed.

Lemma length_take_le s n : (length (take n s) <= length s)%nat.
Proof. rewrite length_take. lia. Qed.
End Strip.

(** ** Safety of the reader *)

Section Safety.
Implicit Types (s line : list Z) (b : outputs).

Definition item_length (i : scanned) : nat := match i with SStr s => length s | SInt _ => 0 end.

Lemma read_digits_length (b acc : Z) s : (length (read_digits b acc s).2 <= length s)%nat.
Proof. revert acc. induction s as [|c s IH]; intros acc; cbn; [lia|]. destruct (_ <? _); cbn; [|lia]. specialize (IH (acc * b + digit_value c)). lia. Qed.

Lemma span_length p s : (length (span p s).1 + length (span p s).2 = length s)%nat.
Proof.
  destruct (span p s) as [m r] eqn:E. apply span_app in E as [-> _]. by rewrite length_app.
Qed.

Lemma skip_space_length s : (length (skip_space s) <= length s)%nat.
Proof. unfold skip_space. pose proof (span_length isspace s). lia. Qed.

Lemma scan_number_length s v r : scan_number s = Some (v, r) -> (length r <= length s)%nat.
Proof.
  unfold scan_number. pose proof (skip_space_length s).
  assert (length (sign (skip_space s)).2 <= length (skip_space s))%nat.
  { unfold sign. destruct (skip_space s) as [|c t]; [done|]. repeat destruct (_ =? _); cbn; lia. }
  destruct (sign (skip_space s)) as [neg t]. destruct (starts_digit 10 t); [|done].
  pose proof (read_digits_length 10 0 t). destruct (read_digits 10 0 t). intros [= _ <-]. cbn in *. lia.
Qed.

Lemma sscanf_length ds : forall s, Forall (fun i => (item_length i <= length s)%nat) (sscanf s ds).
Proof.
  assert (forall (l : list scanned) n m, (n <= m)%nat -> Forall (fun i => (item_length i <= n)%nat) l ->
     Forall (fun i => (item_length i <= m)%nat) l) as Hm.
  { intros l n m Hnm F. eapply Forall_impl; [exact F|]. cbn. lia. }
  induction ds as [|d ds IH]; intros s; [constructor|]. destruct d; cbn [sscanf].
  - destruct s as [|x s]; [done|]. destruct (x =? c); [|done].
    eapply Hm; [|apply IH]. cbn. lia.
  - eapply Hm; [|apply IH]. apply skip_space_length.
  - pose proof (span_length p s). destruct (span p s) as [[|x m] r]; [done|].
    constructor; cbn in *; [lia|]. eapply Hm; [|apply IH]. lia.
  - pose proof (span_length (fun c => negb (isspace c)) (skip_space s)).
    pose proof (skip_space_length s). destruct (span _ _) as [[|x m] r]; [done|].
    constructor; cbn in *; [lia|]. eapply Hm; [|apply IH]. lia.
  - destruct (scan_number s) as [[v r]|] eqn:E; [|done]. apply scan_number_length in E.
    constructor; cbn; [lia|]. eapply Hm; [|apply IH]. done.
  - destruct (scan_number s) as [[v r]|] eqn:E; [|done]. apply scan_number_length in E.
    constructor; cbn; [lia|]. eapply Hm; [|apply IH]. done.
Qed.

(** The contents of the three output buffers always leave room. *)
Record outputs_ok (b : outputs) : Prop := {
  section_fits : (length (o_section b) <= 1023)%nat;
  key_fits : (length (o_key b) <= 1023)%nat;
  value_fits : (length (o_value b) <= 1023)%nat
}.

Lemma into_ok n s : (length s < n)%nat -> into n s = Ok s.
Proof. intros H. unfold into. by rewrite (proj2 (Nat.ltb_lt _ _)). Qed.

Lemma scan_pair_ok line fmt b : (length line <= 1023)%nat -> outputs_ok b ->
  exists n b', scan_pair line fmt b = Ok (n, b') /\ outputs_ok b'.
Proof.
  intros Hl [H1 H2 H3]. unfold scan_pair. pose proof (sscanf_length fmt line) as F.
  assert (BUFSZ = 1025)%nat as -> by done.
  destruct (sscanf line fmt) as [|[k|] [|[v|] [|]]];
    repeat match goal with F : Forall _ (_ :: _) |- _ => apply Forall_cons in F as [? F] end;
    cbn [item_length] in *; rewrite ?into_ok by lia; cbn; rewrite ?into_ok by lia; cbn;
    eexists _, _; (split; [reflexivity|]); split; cbn; lia.
Qed.

Lemma scan_or_ok d line fmt b : (length line <= 1023)%nat -> outputs_ok b ->
  exists n b', scan_or d line fmt b = Ok (n, b') /\ outputs_ok b'.
Proof. intros. destruct d; cbn; [by exists 0%nat, b|by apply scan_pair_ok]. Qed.

Lemma clean_key_ok b n : outputs_ok b -> outputs_ok (clean_key b n).
Proof.
  intros [H1 H2 H3]. split; cbn [clean_key set_key o_section o_key o_value]; auto.
  destruct (strstrip (Some (o_key b))) as [[k|] l] eqn:E; [|done].
  pose proof (strstrip_length (o_key b)) as Hs. rewrite E in Hs. cbn [fst opt_str default] in *.
  pose proof (length_strlwc k n). unfold opt_str in *. cbn in Hs. lia.
Qed.

Lemma set_value_ok b v : outputs_ok b -> (length v <= 1023)%nat -> outputs_ok (set_value b v).
Proof. by intros [] ?; split. Qed.

Lemma unquote_length q e s : (length (unquote q e s) <= length s)%nat.
Proof.
  revert e. induction s as [|c s IH]; intros e; cbn; [lia|].
  destruct e; cbn; [specialize (IH false); lia|]. destruct (c =? 92); [specialize (IH true); lia|].
  destruct (c =? q); cbn; [lia|]. specialize (IH false). lia.
Qed.

Lemma value_line_ok line len b : (length line <= 1023)%nat -> outputs_ok b ->
  exists sta b', value_line line len b [] = Ok (sta, b', [], []) /\ outputs_ok b'.
Proof.
  intros Hl Hb. unfold value_line.
  destruct (scan_pair_ok line fmt_dquote b Hl Hb) as (n1 & b1 & -> & Hb1). cbn.
  destruct (scan_or_ok (n1 =? 2)%nat line fmt_squote b1 Hl Hb1) as (n2 & b2 & -> & Hb2). cbn.
  destruct (_ || _).
  - eexists _, _. split; [reflexivity|]. apply set_value_ok; [by apply clean_key_ok|].
    pose proof (unquote_length (if (n1 =? 2)%nat then 34 else 39) false (o_value b2)).
    destruct Hb2. cbn. lia.
  - destruct (scan_pair_ok line fmt_plain b2 Hl Hb2) as (n3 & b3 & -> & Hb3). cbn.
    destruct (n3 =? 2)%nat.
    + eexists _, _. split; [reflexivity|]. apply set_value_ok; [by apply clean_key_ok|].
      destruct (_ || _); [cbn; lia|]. pose proof (strstrip_length (o_value b3)). destruct Hb3.
      unfold clean_key, set_key. cbn [o_value]. cbn in *. lia.
    + destruct (scan_pair_ok line fmt_comment b3 Hl Hb3) as (n4 & b4 & -> & Hb4). cbn.
      destruct (scan_or_ok (n4 =? 2)%nat line fmt_empty b4 Hl Hb4) as (n5 & b5 & -> & Hb5). cbn.
      destruct (_ || _); eexists _, _; (split; [reflexivity|]); [|done].
      apply set_value_ok; [by apply clean_key_ok|cbn; lia].
Qed.

Lemma section_line_ok line b : (length line <= 1023)%nat -> outputs_ok b -> 10 ∉ line ->
  hd_error line = Some 91 -> last line = Some 93 ->
  exists b', section_line line b = Ok b' /\ outputs_ok b'.
Proof.
  intros Hl [H1 H2 H3] Hn Hh Ht. unfold section_line.
  destruct line as [|x [|y line]]; [done|cbn in *; congruence|]. injection Hh as ->.
  apply not_elem_of_cons in Hn as [_ Hn]. cbn [sscanf]. rewrite Z.eqb_refl.
  destruct (span (not_char 10) (y :: line)) as [m r] eqn:E.
  pose proof (span_length (not_char 10) (y :: line)) as Hs. rewrite E in Hs. cbn in Hs, Hl.
  assert (m <> []) as Hne.
  { intros ->. revert E. cbn. unfold not_char. apply not_elem_of_cons in Hn as [Hy _].
    destruct (Z.eqb_spec y 10); [lia|]. cbn. by destruct (span _ _). }
  destruct m as [|z m]; [done|]. cbn [sscanf]. rewrite into_ok by (change BUFSZ with 1025%nat; cbn in *; lia).
  cbn [res_bind]. destruct (last (z :: m)) as [c|] eqn:El; [|by apply last_None in El].
  eexists. split; [reflexivity|]. split; cbn [set_section o_section o_key o_value]; auto.
  match goal with |- context [strlwc (Some ?s) ?n] => pose proof (length_strlwc s n) as L1 end.
  match goal with H : context [strstrip (Some ?s)] |- _ => pose proof (strstrip_length s) as L2 end.
  pose proof (length_take_le (z :: m) (length (z :: m) - 1)). destruct (c =? 93); cbn in *; lia.
Qed.

Lemma iniparser_line_ok line b : (length line <= 1023)%nat -> outputs_ok b -> 10 ∉ line ->
  exists sta b', iniparser_line line b [] = Ok (sta, b', [], []) /\ outputs_ok b'.
Proof.
  intros Hl Hb Hn. unfold iniparser_line. cbn [xstrdup alloc].
  pose proof (strstrip_length line) as Hs.
  assert (10 ∉ opt_str (strstrip (Some line)).1) as Hn'.
  { cbn. intros [i [Hi _]%lookup_take_Some]%list_elem_of_lookup. apply list_elem_of_lookup_2 in Hi.
    apply Hn. unfold skip_space in Hi. destruct (span isspace line) as [m r] eqn:E.
    apply span_app in E as [-> _]. apply elem_of_app. by right. }
  destruct (strstrip (Some line)) as [l len]. cbn [fst] in *.
  destruct (opt_str l) as [|c t] eqn:E; [by exists LINE_EMPTY, b|].
  destruct (_ || _); [by exists LINE_COMMENT, b|].
  destruct ((c =? 91) && _) eqn:B.
  - apply andb_true_iff in B as [->%Z.eqb_eq B%bool_decide_eq_true].
    destruct (section_line_ok (91 :: t) b) as (b' & -> & Hb'); [lia|done..|].
    by exists LINE_SECTION, b'.
  - apply value_line_ok; [lia|done].
Qed.
End Safety.

(** ** The loop of the reader *)

Section Loading.
Context {D : Type} `{StoreLaws D}.
Implicit Types (st : loader (D := D)) (m : gmap (list Z) (option (list Z))).

Lemma fgets_bytes_spec n : forall f a r e, fgets_bytes n f = (a, r, e) ->
  f = a ++ r /\ (length a <= n)%nat /\ (a = [] -> n = 0%nat \/ e = true) /\
  (10 ∉ a \/ exists b, a = b ++ [10] /\ 10 ∉ b).
Proof.
  induction n as [|n IH]; intros f a r e Hf; cbn in Hf.
  - injection Hf as <- <- <-. split_and!; auto. left. apply not_elem_of_nil.
  - destruct f as [|c f].
    { injection Hf as <- <- <-. split_and!; auto; [cbn; lia|]. left. apply not_elem_of_nil. }
    destruct (Z.eqb_spec c 10) as [->|Hc].
    { injection Hf as <- <- <-. split_and!; [done|cbn; lia|done|]. right. exists []. split; [done|apply not_elem_of_nil]. }
    destruct (fgets_bytes n f) as [[a' r'] e'] eqn:E. injection Hf as <- <- <-.
    destruct (IH _ _ _ _ E) as (-> & Hl & _ & Hn). split_and!; [done|cbn; lia|done|].
    destruct Hn as [Hn|(b & -> & Hn)].
    + left. by apply not_elem_of_cons.
    + right. exists (c :: b). split; [done|]. by apply not_elem_of_cons.
Qed.

Lemma fgets_spec size f chunk rest eof : (2 <= size)%nat ->
  fgets size f = Some (chunk, rest, eof) ->
  f = chunk ++ rest /\ chunk <> [] /\ (length chunk < size)%nat /\
  (10 ∉ chunk \/ exists b, chunk = b ++ [10] /\ 10 ∉ b).
Proof.
  intros Hs Hf. unfold fgets in Hf. destruct (fgets_bytes (size - 1) f) as [[a r] e] eqn:E.
  destruct (fgets_bytes_spec _ _ _ _ _ E) as (-> & Hl & Hne & Hn).
  destruct a as [|c a].
  - destruct Hne as [|He]; [done|lia|]. by rewrite He in Hf.
  - injection Hf as <- <- <-. split_and!; [done|done|cbn in *; lia|done].
Qed.

(** The variables of the reader between two calls of fgets: there is room for
    two more bytes in [line], the table represents [m] and can take an entry per
    byte to come, and an error has been reported exactly when one is counted. *)
Record loader_ok (st : loader (D := D)) (m : gmap (list Z) (option (list Z))) : Prop := {
  last_fits : (l_last st <= 1022)%nat;
  last_line : (l_last st <= length (l_line st))%nat;
  kept_line : 10 ∉ take (l_last st) (l_line st);
  outs_ok : outputs_ok (l_out st);
  dict_rep : exists d, l_dict st = Some d /\ store_rep d m /\ store_room d (length (l_file st));
  no_failure : l_oracle st = [];
  errs_nonneg : 0 <= l_errs st;
  log_errs : l_errs st = 0 <-> l_log st = []
}.

Definition step_ok (n : nat) (r : outcome (D := D)) : Prop :=
  match r with
  | Next st => (length (l_file st) < n)%nat /\ exists m, loader_ok st m
  | Leave _ => False
  | Fail st => l_log st <> []
  end.

Lemma room_less d n n' : store_room d n -> (n' <= n)%nat -> store_room d n'.
Proof. intros. eapply store_room_le; eauto. Qed.

Lemma process_line_ok ininame line st m :
  (length line <= 1023)%nat -> 10 ∉ line -> outputs_ok (l_out st) -> l_oracle st = [] ->
  (exists d, l_dict st = Some d /\ store_rep d m /\ store_room d (S (length (l_file st)))) ->
  0 <= l_errs st -> (l_errs st = 0 <-> l_log st = []) ->
  exists st' m', process_line ininame line st = Ok (0, st') /\ loader_ok st' m' /\ l_file st' = l_file st.
Proof.
  intros Hl Hn Ho Hor (d & Hd & Hr & Hroom) He Hlog. unfold process_line. rewrite Hor.
  destruct (iniparser_line_ok line (l_out st) Hl Ho Hn) as (sta & b & -> & Hb). cbn [res_bind].
  assert (forall d' m' errs log, store_rep d' m' -> store_room d' (length (l_file st)) -> 0 <= errs ->
    (errs = 0 <-> l_log st ++ log = []) ->
    loader_ok (Loader (l_file st) [] 0 (l_lineno st) errs (Some d') b (l_log st ++ [] ++ log) []) m') as Hok.
  { intros. constructor; cbn; auto; [lia|apply not_elem_of_nil|]. by exists d'. }
  assert (store_room d (length (l_file st))) by (eapply room_less; [done|lia]).
  assert (l_log st ++ [] = [] <-> l_log st = []) as Hnil by (by rewrite app_nil_r).
  destruct sta; rewrite ?Hd; try (eexists _, m; split; [reflexivity|]; split; [apply Hok; tauto|done]).
  - eexists _, m. split; [reflexivity|]. split; [|done]. apply Hok; try done; [lia|].
    split; [lia|]. intros [_ E]%app_eq_nil. done.
  - destruct (store_set_rep d m (o_section b) None _ Hr Hroom) as (d' & E & Hr' & Hroom').
    rewrite E. cbn. eexists _, _. split; [reflexivity|]. split; [|done]. apply Hok; try done. tauto.
  - destruct Hb as [B1 B2 B3]. rewrite into_ok by (rewrite length_app; cbn; unfold ASCIILINESZ; lia). cbn [res_bind].
    destruct (store_set_rep d m (o_section b ++ [58] ++ o_key b) (Some (o_value b)) _ Hr Hroom) as (d' & E & Hr' & Hroom').
    rewrite E. cbn. eexists _, _. split; [reflexivity|]. split; [|done]. apply Hok; try done. tauto.
Qed.

(** The text left after trimming holds no newline. *)
Lemma trimmed_no_newline s chunk :
  10 ∉ s -> (10 ∉ chunk \/ exists b, chunk = b ++ [10] /\ 10 ∉ b) ->
  10 ∉ trim_line (s ++ c_string chunk).
Proof.
  intros Hs Hc. destruct (trim_line_prefix (s ++ c_string chunk)) as (w & E & Hw).
  intros Hin. pose proof (trim_line_last (s ++ c_string chunk)) as Hl.
  assert (exists q, chunk = c_string chunk ++ q) as [q Hq].
  { unfold c_string. destruct (span _ chunk) as [a r] eqn:Es. apply span_app in Es as [-> _]. by exists r. }
  destruct Hc as [Hc|(b & Hb & Hc)].
  - assert (10 ∈ s ++ c_string chunk) as [?|Hx]%elem_of_app by (rewrite E; apply elem_of_app; by left); [done|].
    apply Hc. rewrite Hq. apply elem_of_app. by left.
  - assert (s ++ c_string chunk = (s ++ b) ++ [10] \/ 10 ∉ s ++ c_string chunk) as [Ef|Ef].
    { rewrite Hb in Hq. destruct q as [|x q _] using rev_ind.
      - left. rewrite app_nil_r in Hq. rewrite Hb, <- Hq. by rewrite app_assoc.
      - right. rewrite app_assoc in Hq. apply app_inj_tail in Hq as [Hq _].
        rewrite not_elem_of_app. split; [done|]. rewrite Hb. intros Hx. apply Hc. rewrite Hq. apply elem_of_app. by left. }
    + destruct (trim_line (s ++ c_string chunk)) as [|y t _] using rev_ind; [by apply elem_of_nil in Hin|].
      destruct w as [|z w _] using rev_ind.
      * rewrite app_nil_r, Ef in E. apply app_inj_tail in E as [_ <-].
        specialize (Hl 10). rewrite last_snoc in Hl. by discriminate Hl.
      * rewrite Ef, app_assoc in E. apply app_inj_tail in E as [E _].
        assert (10 ∈ s ++ b) as [?|?]%elem_of_app; [|done..]. rewrite E. apply elem_of_app. by left.
    + apply Ef. rewrite E. apply elem_of_app. by left.
Qed.

Lemma load_step_ok ininame chunk rest eof st m :
  loader_ok st m -> l_file st = chunk ++ rest -> chunk <> [] ->
  (length chunk < ASCIILINESZ - l_last st)%nat ->
  (10 ∉ chunk \/ exists b, chunk = b ++ [10] /\ 10 ∉ b) ->
  exists r, load_step ininame chunk rest eof st = Ok r /\ step_ok (length (l_file st)) r.
Proof.
  intros [Hl Hll Hk Ho (d & Hd & Hr & Hroom) Hor He Hlog] Hf Hne Hc Hnl. unfold load_step.
  set (line := take (l_last st) (l_line st) ++ c_string chunk). cbn zeta. cbn [l_last l_line].
  assert (length rest < length (l_file st))%nat as Hlt.
  { rewrite Hf, length_app. destruct chunk; [done|cbn; lia]. }
  assert (length line <= 1023)%nat as Hline.
  { unfold line, ASCIILINESZ in *. pose proof (c_string_length chunk). rewrite length_app, length_take. lia. }
  assert (store_room d (length rest)) by (eapply room_less; [done|lia]).
  destruct (Nat.leb_spec (length line) 1) as [Hle|Hgt].
  { eexists. split; [reflexivity|]. split; [done|]. exists m. constructor; cbn; eauto.
    - unfold line in *. rewrite length_app, length_take in *. lia.
    - unfold line in *. rewrite length_app, length_take, Nat.min_l in Hle by lia.
      destruct (decide (l_last st = 0%nat)) as [->|Hz]; [apply not_elem_of_nil|].
      assert (l_last st = 1%nat) as E by lia. destruct (c_string chunk); [|cbn in Hle; lia].
      rewrite app_nil_r, E, take_take in *. done. }
  destruct (bool_decide (last line <> Some 10) && negb eof) eqn:B.
  { eexists. split; [reflexivity|]. cbn. intros E. by apply app_eq_nil in E as [_ E]. }
  pose proof (trimmed_no_newline _ chunk Hk Hnl) as Hn. fold line in Hn.
  pose proof (trim_line_length line). clear B.
  destruct (bool_decide (last (trim_line line) = Some 92)).
  - eexists. split; [reflexivity|]. split; [done|]. exists m. constructor; cbn; eauto; [lia|lia|].
    intros [i [Hi _]%lookup_take_Some]%list_elem_of_lookup. apply Hn. by eapply list_elem_of_lookup_2.
  - destruct (process_line_ok ininame (trim_line line)
      (Loader rest line (l_last st) (l_lineno st + 1) (l_errs st) (l_dict st)
         (l_out st) (l_log st) (l_oracle st)) m) as (st' & m' & -> & Hok & Hfile); cbn; auto; try lia.
    + exists d. split_and!; auto. eapply room_less; [exact Hroom|lia].
    + eexists. split; [reflexivity|]. cbn. rewrite Hfile. cbn. split; [done|by exists m'].
Qed.

Lemma loop_fgets st m : loader_ok st m ->
  match fgets (ASCIILINESZ - l_last st) (l_file st) with
  | None => True
  | Some (chunk, rest, eof) =>
      forall ininame, exists r, load_step ininame chunk rest eof st = Ok r /\ step_ok (length (l_file st)) r
  end.
Proof.
  intros Hok. destruct (fgets _ _) as [[[chunk rest] eof]|] eqn:E; [|done]. intros ininame.
  pose proof (last_fits _ _ Hok).
  apply fgets_spec in E as (Hf & Hne & Hl & Hn); [|unfold ASCIILINESZ; lia].
  by eapply load_step_ok.
Qed.

(** The reader always returns; a NULL dictionary comes with a report, a
    dictionary without. *)
Lemma load_loop_ok ininame fuel : forall st m, loader_ok st m -> (length (l_file st) <= fuel)%nat ->
  exists dict log, load_loop fuel ininame st = Ok (dict, log) /\
    match dict with Some d => log = [] /\ exists m', store_rep d m' | None => log <> [] end.
Proof.
  assert (forall st m, loader_ok st m -> let (dict, log) := load_end st in
    match dict with Some d => log = [] /\ exists m', store_rep d m' | None => log <> [] end) as Hend.
  { intros st m [_ _ _ _ (d & Hd & Hr & _) _ _ Hlog]. unfold load_end. rewrite Hd.
    destruct (Z.eqb_spec (l_errs st) 0); [split; [tauto|by exists m]|tauto]. }
  induction fuel as [|fuel IH]; intros st m Hok Hf; cbn [load_loop];
    pose proof (loop_fgets st m Hok) as Hs; pose proof (Hend st m Hok) as He;
    destruct (fgets _ _) as [[[chunk rest] eof]|] eqn:E;
    try (destruct (load_end st) as [dict log]; by exists dict, log).
  - exfalso. pose proof (last_fits _ _ Hok).
    apply fgets_spec in E as (E & Hne & _); [|unfold ASCIILINESZ; lia].
    rewrite E, length_app in Hf. destruct chunk; [done|cbn in Hf; lia].
  - destruct (Hs ininame) as ([st'|st'|st'] & -> & Hr); cbn [res_bind].
    + destruct Hr as [Hl [m' Hr]]. apply (IH st' m'); [done|lia].
    + done.
    + by exists None, (l_log st').
Qed.
End Loading.

(** ** What the writer prints, line by line *)

(** A name of a section or of a value that survives the reader: lower case, no
    blank at either end, no newline. *)
Record name_ok (s : list Z) : Prop := {
  name_lower : map tolower s = s;
  name_line : 10 ∉ s;
  name_string : 0 ∉ s;
  name_head : forall c, hd_error s = Some c -> isspace c = false;
  name_last : forall c, last s = Some c -> isspace c = false
}.

Record section_ok (s : list Z) : Prop := {
  section_name : name_ok s;
  section_short : (length s <= 1020)%nat
}.

(** The line of an entry, without its newline. *)
Definition entry_text (n v : list Z) : list Z :=
  pad_right 30 n ++ str " = " ++ [34] ++ escape v ++ [34].

Record entry_ok (n v : list Z) : Prop := {
  entry_name : name_ok n;
  entry_nonempty : n <> [];
  entry_equals : 61 ∉ n;
  entry_start : forall c, hd_error n = Some c -> c <> 35 /\ c <> 59;
  entry_value : 10 ∉ v /\ 0 ∉ v;
  entry_short : (length (entry_text n v) <= 1022)%nat
}.

Inductive item : Type := IBlank | ISection (s : list Z) | IEntry (n v : list Z).

Definition item_line (i : item) : list Z :=
  match i with IBlank => [] | ISection s => str "[" ++ s ++ str "]" | IEntry n v => entry_text n v end.

Definition item_ok (i : item) : Prop :=
  match i with IBlank => True | ISection s => section_ok s | IEntry n v => entry_ok n v end.

Definition items_text (l : list item) : list Z := mjoin ((fun i => item_line i ++ [10]) <$> l).

(** The entries a list of lines stands for, in order, starting in section [sec]. *)
Fixpoint bindings (sec : list Z) (l : list item) : list (list Z * option (list Z)) :=
  match l with
  | [] => []
  | IBlank :: l => bindings sec l
  | ISection s :: l => (s, None) :: bindings s l
  | IEntry n v :: l => (sec ++ [58] ++ n, Some v) :: bindings sec l
  end.

Definition insert_all (bs : list (list Z * option (list Z))) (m : gmap (list Z) (option (list Z))) :=
  fold_left (fun m b => <[b.1:=b.2]> m) bs m.

Section Lines.
Implicit Types (s n v l : list Z).

Lemma opt_str_Some s : opt_str (Some s) = s.
Proof. reflexivity. Qed.

Lemma unquote_escape v r : unquote 34 false (escape v ++ 34 :: r) = v.
Proof.
  induction v as [|c v IH]; cbn [escape]; [done|].
  destruct ((c =? 92) || (c =? 34)) eqn:E; cbn [app unquote negb].
  - by rewrite Z.eqb_refl, IH.
  - apply orb_false_iff in E as [-> ->]. by rewrite IH.
Qed.

Lemma escape_elem c v : c ∈ escape v -> c = 92 \/ c ∈ v.
Proof.
  induction v as [|x v IH]; cbn; [by intros ?%elem_of_nil|].
  destruct (_ || _); rewrite ?elem_of_cons; naive_solver.
Qed.

Lemma tolower_nonspace s : strlwc (Some s) (S (length s)) = Some (map tolower s).
Proof. unfold strlwc. cbn [Nat.eqb]. by rewrite Nat.sub_succ, Nat.sub_0_r, take_ge. Qed.

Lemma strlwc_id s k : map tolower s = s -> (length s < k)%nat -> strlwc (Some s) k = Some s.
Proof.
  intros Hs Hk. unfold strlwc. destruct (Nat.eqb_spec k 0); [lia|]. rewrite take_ge by lia. by rewrite Hs.
Qed.

Lemma strstrip_name n w : name_ok n -> Forall (fun c => isspace c = true) w -> n <> [] ->
  (strstrip (Some (n ++ w))).1 = Some n.
Proof.
  intros [_ _ _ Hh Hl] Hw Hn. destruct n as [|c a]; [done|].
  destruct (last (c :: a)) as [d|] eqn:E; [|by apply last_None in E].
  by destruct (strstrip_padded a c d w (Hh c eq_refl) (Hl d eq_refl) Hw) as [->|].
Qed.

Lemma strstrip_name_only n : name_ok n -> (strstrip (Some n)).1 = Some n.
Proof.
  intros Hn. destruct n as [|c a]; [done|]. rewrite <- (app_nil_r (c :: a)) at 1.
  by apply strstrip_name.
Qed.

(** A line that begins and ends with visible characters is not changed. *)
Lemma strstrip_whole c s d : isspace c = false -> isspace d = false -> last (c :: s) = Some d ->
  strstrip (Some (c :: s)) = (Some (c :: s), length (c :: s)).
Proof.
  intros Hc Hd Hl. unfold strstrip. rewrite skip_space_nonspace by done.
  assert (trim_line (c :: s) = c :: s) as E.
  { apply trim_line_id. intros x Hx. congruence. }
  unfold trim_line in E. rewrite E. f_equal.
  pose proof (f_equal length E) as El. rewrite length_take in El.
  destruct (strip_last_spec (c :: s) (length (c :: s))) as [Hk _]; [lia|]. lia.
Qed.

Lemma iniparser_line_section s b : section_ok s ->
  iniparser_line (item_line (ISection s)) b [] = Ok (LINE_SECTION, set_section b s, [], []).
Proof.
  intros [Hs Hlen]. unfold iniparser_line, item_line. cbn [xstrdup alloc].
  change (str "[" ++ s ++ str "]") with (91 :: (s ++ [93])).
  rewrite (strstrip_whole 91 (s ++ [93]) 93); [|done|done|apply (last_snoc 93 (91 :: s))].
  rewrite opt_str_Some, (bool_decide_eq_true_2 (last _ = _)) by apply (last_snoc 93 (91 :: s)).
  cbn [Z.eqb orb andb Pos.eqb]. unfold section_line. cbn [sscanf Z.eqb Pos.eqb].
  rewrite span_full.
  2:{ apply Forall_forall. intros x [Hx| ->%list_elem_of_singleton]%elem_of_app; [|done].
      unfold not_char. destruct (Z.eqb_spec x 10) as [->|]; [|done]. by destruct (name_line _ Hs). }
  destruct (s ++ [93]) as [|x t] eqn:E; [by apply app_eq_nil in E as [_ Hx]|]. rewrite <- E. clear x t E.
  rewrite into_ok by (rewrite length_app; change BUFSZ with 1025%nat; cbn; lia). cbn [res_bind].
  rewrite last_snoc. cbn [Z.eqb Pos.eqb]. rewrite length_app. cbn [length].
  rewrite Nat.add_sub, take_app_length. rewrite strstrip_name_only, opt_str_Some by done.
  rewrite strlwc_id; [done|by destruct Hs|lia].
Qed.

Lemma entry_head n v c t : n = c :: t -> exists q, entry_text n v = c :: q.
Proof. intros ->. by eexists. Qed.

Lemma entry_last n v : last (entry_text n v) = Some 34.
Proof. unfold entry_text. rewrite !app_assoc. apply last_snoc. Qed.

Lemma scan_entry n v : entry_ok n v -> exists w,
  Forall (fun c => isspace c = true) w /\
  sscanf (entry_text n v) fmt_dquote = [SStr (n ++ w); SStr (escape v ++ [34])].
Proof.
  intros Hok. exists (replicate (30 - length n) 32 ++ [32]). split.
  { apply Forall_app. split; [by apply Forall_replicate|by constructor]. }
  unfold entry_text, pad_right, fmt_dquote. cbn [sscanf].
  replace ((n ++ replicate (30 - length n) 32) ++ str " = " ++ [34] ++ escape v ++ [34])
    with ((n ++ replicate (30 - length n) 32 ++ [32]) ++ 61 :: 32 :: 34 :: escape v ++ [34])
    by (rewrite <- !app_assoc; done).
  rewrite span_all.
  2:{ apply Forall_app. split; [|apply Forall_app; split; [by apply Forall_replicate|by constructor]].
      apply Forall_forall. intros x Hx. unfold not_char. destruct (Z.eqb_spec x 61) as [->|]; [|done].
      by destruct (entry_equals _ _ Hok). }
  2:{ by intros ? ? [= <- <-]. }
  destruct (n ++ replicate (30 - length n) 32 ++ [32]) as [|x t] eqn:E.
  { apply app_eq_nil in E as [-> _]. by destruct (entry_nonempty _ _ Hok). }
  rewrite <- E. clear x t E. f_equal. rewrite skip_space_nonspace by done. cbn [Z.eqb Pos.eqb].
  change (32 :: 34 :: escape v ++ [34]) with (replicate 1 32 ++ 34 :: (escape v ++ [34])).
  rewrite skip_space_spaces by done. cbn [Z.eqb Pos.eqb]. rewrite span_full.
  2:{ apply Forall_app. split; [|by constructor]. apply Forall_forall. intros x Hx. unfold not_char.
      destruct (Z.eqb_spec x 10) as [->|]; [|done]. apply escape_elem in Hx as [?|Hx]; [done|].
      by destruct (entry_value _ _ Hok). }
  by destruct (escape v ++ [34]) eqn:E; [apply app_eq_nil in E as [_ Hx]|].
Qed.

Lemma entry_parts n v : length (entry_text n v) = (length n + (30 - length n) + length (escape v) + 5)%nat.
Proof. unfold entry_text, pad_right. rewrite !length_app, length_replicate. cbn [length str]. change (length (str " = ")) with 3%nat. lia. Qed.

Lemma iniparser_line_entry n v b : entry_ok n v ->
  iniparser_line (entry_text n v) b [] = Ok (LINE_VALUE, Outputs (o_section b) n v, [], []).
Proof.
  intros Hok. pose proof (entry_name _ _ Hok) as Hn. pose proof (entry_short _ _ Hok) as Hs.
  unfold iniparser_line. cbn [xstrdup alloc].
  destruct n as [|c t] eqn:En; [by destruct (entry_nonempty _ _ Hok)|].
  destruct (entry_head n v c t En) as [q Eq]. rewrite <- En in *.
  assert (strstrip (Some (entry_text n v)) = (Some (entry_text n v), length (entry_text n v))) as ->.
  { rewrite Eq. apply (strstrip_whole c q 34); [|done|rewrite <- Eq; apply entry_last].
    apply (name_head _ Hn). by rewrite En. }
  rewrite !opt_str_Some.
  destruct (entry_start _ _ Hok c) as [H35 H59]; [by rewrite En|].
  rewrite Eq. rewrite (proj2 (Z.eqb_neq c 35)), (proj2 (Z.eqb_neq c 59)) by done. cbn [orb].
  rewrite <- Eq, entry_last. cbn [bool_decide]. rewrite andb_false_r.
  unfold value_line, scan_pair. destruct (scan_entry n v Hok) as (w & Hw & E). rewrite E.
  assert (length (n ++ w) < BUFSZ /\ length (escape v ++ [34%Z]) < BUFSZ)%nat as [L1 L2].
  { pose proof (sscanf_length fmt_dquote (entry_text n v)) as F. rewrite E in F.
    apply Forall_cons in F as [F1 F]. apply Forall_inv in F. cbn in F1, F. unfold BUFSZ, ASCIILINESZ. lia. }
  rewrite !into_ok by done. cbn [res_bind scan_or Nat.eqb orb].
  unfold clean_key, set_key, set_value. cbn [o_key o_section o_value].
  rewrite strstrip_name by (done || by rewrite En). unfold parse_quoted_value. cbn [xstrdup alloc].
  rewrite unquote_escape. rewrite strlwc_id; [done|by destruct Hn|]. rewrite entry_parts in *. lia.
Qed.
End Lines.

(** ** Reading back printed lines *)

Section ReadBack.
Context {D : Type} `{StoreLaws D}.
Implicit Types (st : loader (D := D)) (m : gmap (list Z) (option (list Z))).

(** Nothing pending and nothing reported, the text [file] to come, section [sec]. *)
Record reading (st : loader (D := D)) (file sec : list Z) (m : gmap (list Z) (option (list Z))) : Prop := {
  r_file : l_file st = file;
  r_last : l_last st = 0%nat;
  r_errs : l_errs st = 0;
  r_log : l_log st = [];
  r_oracle : l_oracle st = [];
  r_section : o_section (l_out st) = sec;
  r_section_fits : (length sec <= 1020)%nat;
  r_dict : exists d, l_dict st = Some d /\ store_rep d m /\ store_room d (length file)
}.

Lemma fgets_bytes_line n l rest : 10 ∉ l -> (length l < n)%nat ->
  fgets_bytes n (l ++ 10 :: rest) = (l ++ [10], rest, false).
Proof.
  revert n. induction l as [|c l IH]; intros [|n] Hn Hl; cbn in Hl; try lia; cbn [fgets_bytes app]; [done|].
  apply not_elem_of_cons in Hn as [Hc Hn]. destruct (Z.eqb_spec c 10); [done|].
  by rewrite IH by (done || lia).
Qed.

Lemma fgets_line size l rest : 10 ∉ l -> (length l + 1 < size)%nat ->
  fgets size (l ++ 10 :: rest) = Some (l ++ [10], rest, false).
Proof.
  intros Hn Hl. unfold fgets. rewrite fgets_bytes_line by (done || lia). by destruct l.
Qed.

(** A printed line that ends with a visible character other than a backslash is
    handed to iniparser_line as it is. *)
Lemma load_step_line ininame l c rest st :
  0 ∉ l -> last l = Some c -> isspace c = false -> c <> 92 -> l_last st = 0%nat ->
  load_step ininame (l ++ [10]) rest false st =
  let! (mem_err, st) := process_line ininame l
    (Loader rest (l ++ [10]) 0 (l_lineno st + 1) (l_errs st) (l_dict st) (l_out st) (l_log st) (l_oracle st)) in
  if mem_err <? 0 then
    Ok (Leave (Loader (l_file st) (l_line st) 0 (l_lineno st) (l_errs st) (l_dict st)
                 (l_out st) (l_log st ++ [MsgNoMemory]) (l_oracle st)))
  else Ok (Next st).
Proof.
  intros Hz0 Hl Hc Hb Hlast. unfold load_step. rewrite Hlast, take_0, app_nil_l.
  rewrite c_string_id.
  2:{ apply Forall_app. split; [|by constructor]. apply Forall_forall. by intros x Hx ->. }
  apply last_Some in Hl as [a ->]. rewrite !length_app.
  destruct (Nat.leb_spec (length a + length [c] + length [10]) 1) as [Hle|_]; [cbn in Hle; lia|].
  cbn [l_line l_last]. rewrite (bool_decide_eq_false_2 (last _ <> Some 10)).
  2:{ intros Hne. by apply Hne, last_snoc. }
  cbn [andb]. rewrite <- (app_assoc a), (trim_line_app a c [10]) by (done || by repeat constructor).
  rewrite (bool_decide_eq_false_2 (last (a ++ [c]) = Some 92)); [|rewrite last_snoc; congruence].
  done.
Qed.

Lemma item_line_ok i : item_ok i ->
  10 ∉ item_line i /\ 0 ∉ item_line i /\ (length (item_line i) <= 1022)%nat /\
  (i = IBlank \/ exists c, last (item_line i) = Some c /\ isspace c = false /\ c <> 92).
Proof.
  destruct i as [|s|n v]; cbn [item_ok item_line].
  - intros _. split_and!; try apply not_elem_of_nil; [cbn; lia|by left].
  - intros [[_ Hn10 Hz0 _ _] Hl]. change (str "[") with [91]. change (str "]") with [93].
    rewrite !not_elem_of_app, !list_elem_of_singleton, !length_app. cbn [length].
    split_and!; try done; [lia|]. right. exists 93. rewrite app_assoc. split_and!; [apply last_snoc|done..].
  - intros Hok. pose proof (entry_name _ _ Hok) as [_ Hn10 Hz0 _ _].
    destruct (entry_value _ _ Hok) as [V10 V0]. split_and!.
    1,2: unfold entry_text, pad_right; change (str " = ") with [32; 61; 32];
      rewrite !elem_of_app, !elem_of_cons, elem_of_replicate;
      intros [[?|[? _]]|[?|[?|[?%escape_elem|?]]]]; try done; set_solver.
    + apply (entry_short _ _ Hok).
    + right. exists 34. split_and!; [apply entry_last|done..].
Qed.

Lemma section_ok_length s : section_ok s -> (length s <= 1020)%nat.
Proof. by intros []. Qed.

(** One printed line is read back in one round of the loop. *)
Lemma read_item ininame i rest st sec m : item_ok i -> reading st (item_line i ++ 10 :: rest) sec m ->
  fgets (ASCIILINESZ - l_last st) (l_file st) = Some (item_line i ++ [10], rest, false) /\
  exists st', load_step ininame (item_line i ++ [10]) rest false st = Ok (Next st') /\
    reading st' rest (match i with ISection s => s | _ => sec end) (insert_all (bindings sec [i]) m).
Proof.
  intros Hi [Hf Hla He Hlo Hor Hse Hsf (d & Hd & Hr & Hroom)].
  destruct (item_line_ok i Hi) as (Hn10 & Hz0 & Hlen & Hlast).
  split; [rewrite Hla, Hf; apply fgets_line; [done|unfold ASCIILINESZ; lia]|].
  assert (store_room d (S (length rest))) as Hroom'.
  { eapply room_less; [done|]. rewrite length_app. cbn. lia. }
  destruct Hlast as [->|(c & Hl & Hc & Hb)].
  - unfold load_step. rewrite Hla. eexists. split; [reflexivity|]. constructor; cbn; auto.
    exists d. split_and!; auto. eapply room_less; [done|lia].
  - rewrite (load_step_line ininame _ c) by done. unfold process_line. cbn [l_out l_oracle l_dict l_file l_errs l_log].
    rewrite Hor, Hd. destruct i as [|s|n v]; [done| |]; cbn [item_ok] in Hi.
    + rewrite iniparser_line_section by done. cbn [res_bind].
      destruct (store_set_rep d m s None _ Hr Hroom') as (d' & E & Hr' & Hroom'').
      cbn [set_section o_section]. rewrite E. cbn [res_bind]. eexists. split; [reflexivity|].
      constructor; cbn; rewrite ?Hlo; auto; [by apply section_ok_length|]. by exists d'.
    + change (item_line (IEntry n v)) with (entry_text n v). rewrite iniparser_line_entry by done. cbn [res_bind o_section o_key o_value].
      assert (length n <= 1022)%nat by (pose proof (entry_short _ _ Hi) as L; rewrite entry_parts in L; lia).
      rewrite into_ok by (rewrite !length_app, Hse; cbn; unfold ASCIILINESZ; lia). cbn [res_bind].
      rewrite Hse. destruct (store_set_rep d m (sec ++ [58] ++ n) (Some v) _ Hr Hroom') as (d' & E & Hr' & Hroom'').
      rewrite E. cbn [res_bind]. eexists. split; [reflexivity|]. constructor; cbn; rewrite ?Hlo; auto. by exists d'.
Qed.

Lemma insert_all_cons sec i l m : insert_all (bindings sec (i :: l)) m =
  insert_all (bindings (match i with ISection s => s | _ => sec end) l) (insert_all (bindings sec [i]) m).
Proof. by destruct i. Qed.

Lemma read_items ininame l : forall st sec m fuel, Forall item_ok l ->
  reading st (items_text l) sec m -> (length (items_text l) <= fuel)%nat ->
  exists d, load_loop fuel ininame st = Ok (Some d, []) /\ store_rep d (insert_all (bindings sec l) m).
Proof.
  induction l as [|i l IH]; intros st sec m fuel Hl Hr Hf.
  - destruct Hr as [Hfile Hla He Hlo _ _ _ (d & Hd & Hrep & _)]. exists d. split; [|done].
    destruct fuel; cbn [load_loop]; rewrite Hfile, Hla; cbn [fgets items_text fmap list_fmap mjoin];
      unfold load_end; by rewrite He, Hd, Hlo.
  - apply Forall_cons in Hl as [Hi Hl].
    assert (items_text (i :: l) = item_line i ++ 10 :: items_text l) as Et.
    { unfold items_text. cbn. by rewrite <- app_assoc. }
    rewrite Et in *. destruct (read_item ininame i _ st sec m Hi Hr) as (Hg & st' & Hs & Hr').
    rewrite length_app in Hf. cbn in Hf. destruct fuel as [|fuel]; [lia|]. cbn [load_loop].
    rewrite Hg, Hs. cbn [res_bind]. rewrite insert_all_cons. apply IH; [done..|lia].
Qed.
End ReadBack.

(** ** The writer *)

(** A table the writer and the reader agree on: section names without a value,
    and entries whose section is there, all printable. *)
Record loadable (m : gmap (list Z) (option (list Z))) : Prop := {
  lo_section : forall s v, m !! s = Some v -> 58 ∉ s -> v = None /\ section_ok s;
  lo_entry : forall s n v, 58 ∉ s -> m !! (s ++ 58 :: n) = Some v ->
    m !! s = Some None /\ exists v', v = Some v' /\ entry_ok n v'
}.

(** The section names and the entries of a section, in the order of the cells. *)
Definition section_at (d : dictionary) (i : nat) : option (list Z) :=
  k ← cell (d_key d) i; match strchr k 58 with None => Some k | Some _ => None end.

Definition sections (d : dictionary) : list (list Z) := omap (section_at d) (seq 0 (d_size d)).

Definition entry_at (d : dictionary) (s : list Z) (i : nat) : option item :=
  k ← cell (d_key d) i;
  if strncmp_eq k (s ++ [58]) (length s + 1)
  then v ← cell (d_val d) i; Some (IEntry (drop (length s + 1) k) v) else None.

Definition entries (d : dictionary) (s : list Z) : list item := omap (entry_at d s) (seq 0 (d_size d)).

Definition section_items (d : dictionary) (s : list Z) : list item :=
  [IBlank; ISection s] ++ entries d s ++ [IBlank].

Definition dump_items (d : dictionary) : list item :=
  match sections d with
  | [] => []
  | secs => mjoin (section_items d <$> secs) ++ [IBlank]
  end.

Section Writer.
Context (d : dictionary) (m : gmap (list Z) (option (list Z))).
Hypothesis (W : wf d) (M : models d m) (L : loadable m).

Lemma strncmp_prefix k s : strncmp_eq k (s ++ [58]) (length s + 1) = true <-> exists n, k = s ++ 58 :: n.
Proof.
  unfold strncmp_eq. rewrite bool_decide_eq_true.
  assert (length s + 1 = length (s ++ [58%Z]))%nat as El by (by rewrite length_app).
  rewrite El, take_app_length. split.
  - intros E. pose proof (take_drop (length (s ++ [58])) (k ++ [0])) as T. rewrite E in T.
    destruct (drop (length (s ++ [58])) (k ++ [0])) as [|x t _] using rev_ind.
    + rewrite app_nil_r in T. by apply app_inj_tail in T as [_ ?].
    + rewrite app_assoc in T. apply app_inj_tail in T as [<- _]. exists t. by rewrite <- app_assoc.
  - intros [n ->]. change (s ++ 58 :: n) with (s ++ [58] ++ n). by rewrite !app_assoc, <- app_assoc, take_app_length.
Qed.

Lemma getnsec_sections : iniparser_getnsec (Some d) = Z.of_nat (length (sections d)).
Proof.
  unfold iniparser_getnsec, sections. generalize (seq 0 (d_size d)) as l.
  intros l. assert (forall acc, fold_left (fun nsec i =>
        match cell (d_key d) i with
        | None => nsec
        | Some k => match strchr k 58 with None => nsec + 1 | Some _ => nsec end
        end) l acc = acc + Z.of_nat (length (omap (section_at d) l))) as Hg; [|by rewrite Hg].
  induction l as [|i l IH]; intros acc; cbn [fold_left omap list_omap]; [cbn; lia|].
  rewrite IH. unfold section_at at 2. destruct (cell (d_key d) i) as [k|]; cbn; [|lia].
  destruct (strchr k 58); cbn; lia.
Qed.

Lemma secname_loop_spec n : forall fuel i found, found <= n ->
  let r := secname_loop d n i fuel found in
  match omap (section_at d) (seq i fuel) !! Z.to_nat (n - found) with
  | Some s => r.2 = n + 1 /\ cell (d_key d) r.1 = Some s
  | None => r.2 <= n
  end.
Proof.
  induction fuel as [|f IH]; intros i found Hf; cbn [secname_loop seq omap list_omap]; [done|].
  unfold section_at at 1. destruct (cell (d_key d) i) as [k|] eqn:E; cbn; [|by apply IH].
  destruct (strchr k 58); [by apply IH|].
  destruct (Z.ltb_spec n (found + 1)) as [Hn|Hn].
  - replace (Z.to_nat (n - found)) with 0%nat by lia. cbn. split; [lia|done].
  - replace (Z.to_nat (n - found)) with (S (Z.to_nat (n - (found + 1)))) by lia. cbn. apply IH. lia.
Qed.

Lemma getsecname_sections i : (i < length (sections d))%nat ->
  iniparser_getsecname (Some d) (Z.of_nat i) = sections d !! i.
Proof.
  intros Hi. unfold iniparser_getsecname. destruct (Z.ltb_spec (Z.of_nat i) 0); [lia|].
  pose proof (secname_loop_spec (Z.of_nat i) (d_size d) 0 0 ltac:(lia)) as Hs. cbn zeta in Hs.
  rewrite Z.sub_0_r, Nat2Z.id in Hs. fold (sections d) in Hs.
  destruct (secname_loop d (Z.of_nat i) 0 (d_size d) 0) as [j c]. cbn in Hs.
  destruct (lookup_lt_is_Some_2 _ _ Hi) as [s E]. rewrite E in *. destruct Hs as [-> Hc].
  by rewrite (proj2 (Z.leb_gt _ _)) by lia.
Qed.

Lemma sections_elem s : s ∈ sections d <-> m !! s = Some None /\ 58 ∉ s.
Proof.
  unfold sections. rewrite list_elem_of_omap. split.
  - intros (i & _ & Hs). unfold section_at in Hs. apply bind_Some in Hs as (k & Hk & Hs).
    destruct (strchr k 58) eqn:E; [done|]. injection Hs as ->. apply strchr_None in E.
    pose proof (cell_lt _ _ _ Hk) as Hl. rewrite (wf_key_len _ W), <- (wf_val_len _ W) in Hl.
    destruct (lookup_lt_is_Some_2 _ _ Hl) as [v Hv].
    assert (m !! s = Some v) as Hm by (apply M; by exists i).
    by destruct (lo_section _ L s v Hm E) as [-> _].
  - intros [Hm Hn]. apply M in Hm as (i & Hk & Hv). exists i. split.
    + apply elem_of_seq. pose proof (cell_lt _ _ _ Hk). rewrite (wf_key_len _ W) in *. lia.
    + unfold section_at. rewrite Hk. cbn. apply strchr_None in Hn. by rewrite Hn.
Qed.

Lemma entries_elem s x : 58 ∉ s ->
  x ∈ entries d s <-> exists n v, x = IEntry n v /\ m !! (s ++ 58 :: n) = Some (Some v).
Proof.
  intros Hs. unfold entries. rewrite list_elem_of_omap. split.
  - intros (i & _ & Hx). unfold entry_at in Hx. apply bind_Some in Hx as (k & Hk & Hx).
    destruct (strncmp_eq _ _ _) eqn:E; [|done]. apply bind_Some in Hx as (v & Hv & [= <-]).
    apply strncmp_prefix in E as [n ->]. eexists _, v. split; [reflexivity|].
    rewrite drop_app_ge by lia. replace (length s + 1 - length s)%nat with 1%nat by lia. cbn.
    apply M. exists i. split; [done|]. by apply cell_Some.
  - intros (n & v & -> & Hm). apply M in Hm as (i & Hk & Hv). exists i. split.
    + apply elem_of_seq. pose proof (cell_lt _ _ _ Hk). rewrite (wf_key_len _ W) in *. lia.
    + unfold entry_at. rewrite Hk. cbn. rewrite (proj2 (strncmp_prefix _ _)) by eauto.
      rewrite (proj2 (cell_Some _ _ _) Hv). cbn. rewrite drop_app_ge by lia.
      by replace (length s + 1 - length s)%nat with 1%nat by lia.
Qed.

Lemma entries_ok s : m !! s = Some None -> 58 ∉ s -> Forall item_ok (entries d s).
Proof.
  intros Hm Hs. apply Forall_forall. intros x (n & v & -> & Hx)%entries_elem; [|done].
  destruct (lo_entry _ L s n _ Hs Hx) as (_ & v' & [= <-] & Hok). done.
Qed.

Lemma print_keys_entries s idx esc : 58 ∉ s ->
  print_keys d (fun k => if strncmp_eq k (s ++ [58]) (length s + 1)
                         then Some (pad_right 30 (drop (length s + 1) k)) else None) idx esc
  = Ok (items_text (omap (entry_at d s) idx)).
Proof.
  intros Hs. revert esc. induction idx as [|i idx IH]; intros esc; cbn [print_keys omap list_omap]; [done|].
  unfold entry_at at 1. destruct (cell (d_key d) i) as [k|] eqn:Hk; cbn [mbind option_bind]; [|apply IH].
  destruct (strncmp_eq _ _ _) eqn:E; [|apply IH]. apply strncmp_prefix in E as [n ->].
  pose proof (cell_lt _ _ _ Hk) as Hl. rewrite (wf_key_len _ W), <- (wf_val_len _ W) in Hl.
  destruct (lookup_lt_is_Some_2 _ _ Hl) as [w Hw].
  destruct (lo_entry _ L s n w Hs) as (_ & v & -> & Hok); [apply M; by exists i|].
  rewrite (proj2 (cell_Some _ _ _) Hw). cbn [mbind option_bind].
  pose proof (entry_short _ _ Hok) as Hsh. rewrite entry_parts in Hsh.
  unfold escape_value. rewrite into_ok by (unfold ASCIILINESZ; lia). cbn [res_bind]. rewrite IH. cbn [res_bind].
  rewrite drop_app_ge by lia. replace (length s + 1 - length s)%nat with 1%nat by lia. cbn [drop].
  unfold items_text. cbn [fmap list_fmap mjoin list_join item_line]. unfold entry_text.
  by rewrite <- !app_assoc.
Qed.

Lemma dump_section s : s ∈ sections d ->
  iniparser_dumpsection_ini (Some d) (Some s) = Ok (items_text (section_items d s)).
Proof.
  intros [Hm Hs]%sections_elem. destruct (lo_section _ L s _ Hm Hs) as [_ [Hn Hlen]].
  unfold iniparser_dumpsection_ini, iniparser_find_entry, iniparser_getstring.
  rewrite strlwc_id by (unfold ASCIILINESZ; destruct Hn; done || lia). cbn [store_get dictionary_store].
  rewrite (get_models d m s _ W M), Hm. cbn [ptr_of].
  rewrite bool_decide_eq_false_2 by done. cbn [negb].
  destruct (Nat.ltb_spec (ASCIILINESZ + 1) (length s)); [unfold ASCIILINESZ in *; lia|].
  rewrite into_ok by (rewrite length_app; cbn; unfold ASCIILINESZ; lia). cbn [res_bind].
  rewrite print_keys_entries by done. cbn [res_bind]. f_equal.
  unfold items_text, section_items, entries. rewrite !fmap_app, !join_app. cbn [fmap list_fmap mjoin list_join item_line].
  rewrite !app_nil_r, <- !app_assoc. done.
Qed.

Lemma dump_sections_items : forall n, (n <= length (sections d))%nat ->
  dump_sections (Some d) (map Z.of_nat (seq n (length (sections d) - n)))
  = Ok (items_text (mjoin (section_items d <$> drop n (sections d)))).
Proof.
  intros n. remember (length (sections d) - n)%nat as k eqn:Ek. revert n Ek.
  induction k as [|k IH]; intros n Ek Hn; cbn [seq map dump_sections].
  - by rewrite drop_ge by lia.
  - rewrite getsecname_sections by lia. destruct (lookup_lt_is_Some_2 (sections d) n) as [s Es]; [lia|].
    rewrite Es, dump_section by by eapply list_elem_of_lookup_2. cbn [res_bind].
    rewrite IH by lia. cbn [res_bind]. rewrite (drop_S (sections d) s n) by done.
    cbn [fmap list_fmap mjoin list_join]. unfold items_text. by rewrite fmap_app, join_app.
Qed.

Lemma first_colon k : 58 ∈ k -> exists s n, k = s ++ 58 :: n /\ 58 ∉ s.
Proof.
  induction k as [|c k IH]; [by intros ?%elem_of_nil|].
  destruct (decide (c = 58)) as [->|Hc]; [intros _; exists [], k; split; [done|apply not_elem_of_nil]|].
  intros [?|(s & n & -> & Hs)%IH]%elem_of_cons; [by subst|]. exists (c :: s), n. split; [done|]. by apply not_elem_of_cons.
Qed.

Lemma no_sections : sections d = [] -> m = ∅.
Proof.
  intros E. apply map_eq. intros k. rewrite lookup_empty. destruct (m !! k) as [v|] eqn:Hk; [|done].
  assert (exists s, s ∈ sections d) as [s Hs]; [|rewrite E in Hs; by apply elem_of_nil in Hs].
  destruct (decide (58 ∈ k)) as [(s & n & -> & Hs)%first_colon|Hk'].
  - destruct (lo_entry _ L s n v Hs Hk) as [Hm _]. exists s. by apply sections_elem.
  - destruct (lo_section _ L k v Hk Hk') as [-> _]. exists k. by apply sections_elem.
Qed.

Lemma empty_print name idx esc : m = ∅ -> print_keys d name idx esc = Ok [].
Proof.
  intros ->. induction idx as [|i idx IH]; cbn [print_keys]; [done|].
  destruct (cell (d_key d) i) as [k|] eqn:Hk; [|done]. exfalso.
  pose proof (cell_lt _ _ _ Hk) as Hl. rewrite (wf_key_len _ W), <- (wf_val_len _ W) in Hl.
  destruct (lookup_lt_is_Some_2 _ _ Hl) as [w Hw].
  assert ((∅ : gmap (list Z) (option (list Z))) !! k = Some w) as E by (apply M; by exists i).
  by rewrite lookup_empty in E.
Qed.

Lemma dump_ini_items : iniparser_dump_ini (Some d) = Ok (items_text (dump_items d)).
Proof.
  unfold iniparser_dump_ini, dump_items. rewrite getnsec_sections.
  pose proof (dump_sections_items 0 ltac:(lia)) as Hd. rewrite Nat.sub_0_r, drop_0 in Hd.
  destruct (sections d) as [|s secs] eqn:E.
  - apply empty_print. by apply no_sections.
  - rewrite <- E in *. destruct (Z.ltb_spec (Z.of_nat (length (sections d))) 1) as [Hl|_].
    { rewrite E in Hl. cbn in Hl. lia. }
    rewrite Nat2Z.id, Hd. cbn [res_bind]. f_equal. unfold items_text. by rewrite fmap_app, join_app.
Qed.

Lemma dump_items_ok : Forall item_ok (dump_items d).
Proof.
  assert (forall secs, (forall s, s ∈ secs -> s ∈ sections d) ->
    Forall item_ok (mjoin (section_items d <$> secs))) as Hs.
  { intros secs. induction secs as [|s secs IH]; intros Hin; [constructor|]. cbn [fmap list_fmap mjoin list_join].
    apply Forall_app. split; [|apply IH; intros; apply Hin; by right].
    assert (s ∈ sections d) as [Hm Hn]%sections_elem by (apply Hin; by left).
    unfold section_items. repeat apply Forall_app_2; [|by apply entries_ok|by repeat constructor].
    destruct (lo_section _ L s _ Hm Hn) as [_ Hok]. by constructor; [|constructor]. }
  unfold dump_items. destruct (sections d) as [|s secs]; [constructor|].
  apply Forall_app_2; [apply Hs; auto|by repeat constructor].
Qed.

Lemma bindings_entries sec es l : (forall x, x ∈ es -> exists n v, x = IEntry n v) ->
  forall k v, (k, v) ∈ bindings sec (es ++ l) <->
    (exists n w, IEntry n w ∈ es /\ k = sec ++ 58 :: n /\ v = Some w) \/ (k, v) ∈ bindings sec l.
Proof.
  intros Hes k v. induction es as [|x es IH]; cbn [app].
  - split; [by right|]. intros [(n & w & Hn & _)|?]; [by apply elem_of_nil in Hn|done].
  - destruct (Hes x) as (n & w & ->); [by left|]. cbn [bindings].
    rewrite elem_of_cons, IH by (intros; apply Hes; by right). split.
    + intros [[= -> ->]|[(n' & w' & Hn & -> & ->)|?]]; [left; exists n, w|left; exists n', w'|by right].
      * split; [by left|done].
      * split; [by right|done].
    + intros [(n' & w' & [[= -> ->]|Hn]%elem_of_cons & -> & ->)|?]; [by left|right; left; eauto|by right; right].
Qed.

Lemma dump_bindings k v : (k, v) ∈ bindings [] (dump_items d) <-> m !! k = Some v.
Proof.
  assert (forall secs sec, (forall s, s ∈ secs -> 58 ∉ s) ->
    (k, v) ∈ bindings sec (mjoin (section_items d <$> secs) ++ [IBlank]) <->
    exists s, s ∈ secs /\ ((k = s /\ v = None) \/
      exists n w, m !! (s ++ 58 :: n) = Some (Some w) /\ k = s ++ 58 :: n /\ v = Some w)) as Hb.
  { intros secs. induction secs as [|s secs IH]; intros sec Hc.
    - cbn. split; [by intros ?%elem_of_nil|]. by intros (s & ?%elem_of_nil & _).
    - cbn [fmap list_fmap mjoin list_join]. unfold section_items. rewrite <- !app_assoc. cbn [app bindings].
      assert (58 ∉ s) as Hs by (apply Hc; by left).
      rewrite elem_of_cons, bindings_entries.
      2:{ intros x (n & w & -> & _)%entries_elem; eauto. }
      cbn [app bindings]. rewrite IH by (intros; apply Hc; by right). split.
      + intros [[= -> ->]|[(n & w & (n' & w' & [= <- <-] & Hn)%entries_elem & -> & ->)|(s' & Hs' & ?)]]; [| |done|].
        * exists s. split; [by left|by left].
        * exists s. split; [by left|]. right. eauto.
        * exists s'. split; [by right|done].
      + intros (s' & [->|Hs']%elem_of_cons & Hx).
        * destruct Hx as [[-> ->]|(n & w & Hm & -> & ->)]; [by left|]. right. left. exists n, w.
          split; [|done]. apply entries_elem; [done|]. eauto.
        * right. right. eauto. }
  unfold dump_items. destruct (sections d) as [|s0 secs] eqn:E.
  - rewrite (no_sections E), lookup_empty. cbn. split; [by intros ?%elem_of_nil|done].
  - rewrite <- E, Hb by (by intros s [_ ?]%sections_elem). split.
    + intros (s & [Hm Hs]%sections_elem & [[-> ->]|(n & w & Hn & -> & ->)]); done.
    + intros Hk. destruct (decide (58 ∈ k)) as [(s & n & -> & Hs)%first_colon|Hk'].
      * destruct (lo_entry _ L s n v Hs Hk) as (Hm & w & -> & _). exists s.
        split; [by apply sections_elem|]. right. eauto.
      * destruct (lo_section _ L k v Hk Hk') as [-> _]. exists k. split; [by apply sections_elem|by left].
Qed.
End Writer.

Lemma insert_all_lookup (bs : list (list Z * option (list Z))) (m0 m : gmap (list Z) (option (list Z))) :
  (forall k v, (k, v) ∈ bs -> m !! k = Some v) -> (forall k v, m0 !! k = Some v -> m !! k = Some v) ->
  forall k v, insert_all bs m0 !! k = Some v <-> (k, v) ∈ bs \/ m0 !! k = Some v.
Proof.
  revert m0. induction bs as [|[k0 v0] bs IH]; intros m0 Hb Hm k v; cbn.
  - split; [by right|]. intros [?%elem_of_nil|?]; done.
  - assert (m !! k0 = Some v0) as Hk0 by (apply Hb; by left). fold (insert_all bs (<[k0:=v0]> m0)).
    rewrite IH.
    + rewrite elem_of_cons, lookup_insert_Some. split.
      * intros [?|[[-> ->]|[_ ?]]]; tauto.
      * intros [[[= -> ->]|?]|Hk]; [tauto|tauto|]. destruct (decide (k0 = k)) as [->|]; [|tauto].
        apply Hm in Hk as Hk'. right. left. split; congruence.
    + intros k1 v1 H1. apply Hb. by right.
    + intros k1 v1 [[<- <-]|[_ H1]]%lookup_insert_Some; [done|by apply Hm].
Qed.

Lemma insert_all_eq (bs : list (list Z * option (list Z))) (m : gmap (list Z) (option (list Z))) :
  (forall k v, (k, v) ∈ bs <-> m !! k = Some v) -> insert_all bs ∅ = m.
Proof.
  intros Hb. apply map_eq. intros k. apply option_eq. intros v.
  rewrite (insert_all_lookup bs ∅ m), Hb, lookup_empty; [naive_solver|naive_solver|].
  intros k' v'. by rewrite lookup_empty.
Qed.

(** ** Lookup by name *)

(** The name under which an entry is stored and looked up. *)
Definition stored_name (k : list Z) : list Z := map tolower (take ASCIILINESZ k).

Definition has_prefix (p k : list Z) : Prop := exists r, k = p ++ r.

Section Names.
Implicit Types (k s : list Z).

Lemma strlwc_name k : strlwc (Some k) (ASCIILINESZ + 1) = Some (stored_name k).
Proof. reflexivity. Qed.

Lemma strncmp_prefix_cut k p n : length p = n -> Forall (fun c => c <> 0) p ->
  strncmp_eq k p n = true <-> has_prefix p k.
Proof.
  intros <- Hp. unfold strncmp_eq, has_prefix. rewrite bool_decide_eq_true, take_app_length. split.
  - intros E. pose proof (take_drop (length p) (k ++ [0])) as T. rewrite E in T.
    destruct (drop (length p) (k ++ [0])) as [|x t _] using rev_ind.
    + rewrite app_nil_r in T. rewrite T in Hp. apply Forall_app in Hp as [_ Hp]. by apply Forall_inv in Hp.
    + rewrite app_assoc in T. apply app_inj_tail in T as [<- _]. by exists t.
  - intros [r ->]. by rewrite <- app_assoc, take_app_length.
Qed.

Lemma fold_left_ext {A B} (f g : A -> B -> A) l acc :
  (forall a b, f a b = g a b) -> fold_left f l acc = fold_left g l acc.
Proof. intros E. revert acc. induction l as [|b l IH]; intros acc; cbn; [done|]. by rewrite E, IH. Qed.

Lemma fold_count (p : nat -> bool) l acc :
  fold_left (fun n j => if p j then n + 1 else n) l acc = acc + Z.of_nat (length (filter (fun j => p j) l)).
Proof.
  revert acc. induction l as [|j l IH]; intros acc; cbn [fold_left]; [cbn; lia|]. rewrite IH.
  destruct (p j) eqn:E.
  - rewrite filter_cons_True by (by rewrite E). cbn. lia.
  - rewrite filter_cons_False by (rewrite E; by intros []). lia.
Qed.

Lemma fold_collect {A} (g : nat -> option A) l acc :
  fold_left (fun ks j => match g j with Some k => ks ++ [k] | None => ks end) l acc = acc ++ omap g l.
Proof.
  revert acc. induction l as [|j l IH]; intros acc; cbn [fold_left omap list_omap]; [by rewrite app_nil_r|].
  rewrite IH. destruct (g j); [|done]. by rewrite <- app_assoc.
Qed.

Lemma length_omap_filter {A} (g : nat -> option A) (p : nat -> bool) l :
  (forall j, p j = true <-> is_Some (g j)) -> length (omap g l) = length (filter (fun j => p j) l).
Proof.
  intros Hp. induction l as [|j l IH]; [done|]. cbn [omap list_omap]. destruct (g j) as [a|] eqn:E.
  - rewrite filter_cons_True by (apply Is_true_true, Hp; by rewrite E). cbn. by rewrite IH.
  - rewrite filter_cons_False; [done|]. intros Hj%Is_true_true. apply Hp in Hj as [a Ha]. congruence.
Qed.

(** The key in cell [j] when it belongs to the section with prefix [keym]. *)
Definition section_key (d : dictionary) (keym : list Z) (n : nat) (j : nat) : option (list Z) :=
  k ← cell (d_key d) j; if strncmp_eq k keym n then Some k else None.

Lemma section_key_NoDup d keym n l : wf d -> NoDup l -> NoDup (omap (section_key d keym n) l).
Proof.
  intros W. induction 1 as [|j l Hj Hl IH]; cbn [omap list_omap]; [constructor|].
  destruct (section_key d keym n j) as [k|] eqn:E; [|done]. constructor; [|done].
  intros (i & Hi & Ei)%list_elem_of_omap. unfold section_key in *.
  apply bind_Some in E as (k1 & H1 & E1), Ei as (k2 & H2 & E2).
  destruct (strncmp_eq k1 keym n), (strncmp_eq k2 keym n); try done.
  injection E1 as ->. injection E2 as ->. by rewrite (wf_inj d W i j k) in Hi.
Qed.

Lemma section_prefix_ok s : (length s <= ASCIILINESZ)%nat -> section_prefix s = Ok (map tolower s ++ [58]).
Proof.
  intros Hs. unfold section_prefix. rewrite (proj2 (Nat.ltb_lt _ _)) by lia.
  rewrite strlwc_name, opt_str_Some. unfold stored_name. by rewrite take_ge.
Qed.
End Names.

(** * Properties *)

(** C8. A table that the two formats agree on ([loadable]): section names without a value, and every other key a
    section that is there, a colon, and a name, with a value that is not NULL; names in lower case, without blanks at
    their ends, an equals sign or a comment mark at their start, values of one line, and lines of at most 1022 characters.
    Written by iniparser_dump_ini, it is read back by iniparser_load_file without a report as
    a table with exactly the same entries: quoting and escaping, the padding of
    names, the case and blank rules, and the growth and hashing of both tables
    included.  ([unloadable_tables] shows what becomes of others.) *)
Theorem ini_dump_load_roundtrip d m ininame :
  wf d -> models d m -> loadable m ->
  exists text, iniparser_dump_ini (Some d) = Ok text /\
    (Z.of_nat (length text) < 2 ^ 29 -> exists d',
      iniparser_load_file text ininame [] = Ok (Loaded d', []) /\ wf d' /\ models d' m).
Proof.
  intros W M L. exists (items_text (dump_items d)). split; [by eapply dump_ini_items|]. intros Hl.
  destruct (dictionary_new_ok 0) as (d0 & E0 & W0 & M0 & Hs0 & Ho0); [lia|].
  unfold iniparser_load_file. rewrite E0. cbn [res_bind]. unfold load_from.
  destruct (read_items ininame (dump_items d)
    (Loader (items_text (dump_items d)) [] 0 0 0 (Some d0) (Outputs [] [] []) [] []) [] ∅
    (length (items_text (dump_items d)))) as (d' & -> & W' & M'); [by eapply dump_items_ok| |done|].
  - constructor; cbn; try done; [lia|]. exists d0. split_and!; try done; unfold DICTMINSZ in *; lia.
  - exists d'. cbn [res_bind]. split_and!; [done..|]. revert M'. rewrite (insert_all_eq _ m); [done|].
    intros k v. by apply dump_bindings.
Qed.

Definition sample_table : gmap (list Z) (option (list Z)) :=
  <[str "net:path" := Some (str "a\b=c;d ")]> (<[str "net" := None]> ∅).

Lemma sample_loadable : loadable sample_table.
Proof.
  unfold sample_table. split.
  - intros s v [[<- <-]|[_ [[<- <-]|[_ Hs]]%lookup_insert_Some]]%lookup_insert_Some Hn.
    + destruct Hn. apply list_elem_of_In. vm_compute. tauto.
    + split; [done|]. repeat split; intros;
        first [ done | (intros Hc%list_elem_of_In; vm_compute in Hc; lia) | (simplify_eq/=; done) | (simplify_eq/=; lia) | (vm_compute; lia) ].
    + by rewrite lookup_empty in Hs.
  - intros s n v Hn [[E <-]|[_ [[E <-]|[_ Hs]]%lookup_insert_Some]]%lookup_insert_Some.
    + assert (s = str "net" /\ n = str "path") as [-> ->].
      { pose proof (strchr_app_r s 58 n Hn) as Hp. rewrite <- E in Hp. injection Hp as Hp.
        destruct s as [|? [|? [|? [|? ?]]]]; cbn in Hp; try done. by injection E as <- <- <- <-. }
      split; [done|]. eexists. split; [reflexivity|].
      repeat split; intros;
        first [ done | (intros Hc%list_elem_of_In; vm_compute in Hc; lia) | (simplify_eq/=; done) | (simplify_eq/=; lia) | (vm_compute; lia) ].
    + exfalso. pose proof (strchr_app_r s 58 n Hn) as Hp. by rewrite <- E in Hp.
    + by rewrite lookup_empty in Hs.
Qed.

Lemma ini_dump_load_roundtrip_witness :
  exists d text, models d sample_table /\ iniparser_dump_ini (Some d) = Ok text /\
    (Z.of_nat (length text) < 2 ^ 29 -> exists d',
      iniparser_load_file text (str "x.ini") [] = Ok (Loaded d', []) /\ wf d' /\ models d' sample_table).
Proof.
  destruct (dictionary_new_ok 0) as (d0 & _ & W0 & M0 & Hs0 & _); [lia|].
  unfold DICTMINSZ in Hs0.
  destruct (set_models d0 _ (str "net") None W0 M0) as (d1 & _ & W1 & M1 & Hs1 & _); [lia|].
  pose proof (occupied_le (d_key d0)) as Ho0. rewrite (wf_key_len _ W0) in Ho0.
  destruct (set_models d1 _ (str "net:path") (Some (str "a\b=c;d ")) W1 M1) as (d2 & _ & W2 & M2 & _ & _); [lia|].
  destruct (ini_dump_load_roundtrip d2 sample_table (str "x.ini") W2 M2 sample_loadable) as (text & E & R).
  exists d2, text. done.
Defined.

(** A table of these keys, written and read back, and what [key] is then: None when the file is not read. *)
Definition reread_table (l : list (string * option string)) (key : string) : option cptr :=
  let built := fold_left (fun d kv => match dictionary_set d (Some (str kv.1)) (str <$> kv.2) [] with Ok (_, d, _) => d | Ub _ => None end)
                 l (match dictionary_new 0 [] with Ok (NewOk d, _) => Some d | _ => None end) in
  match iniparser_dump_ini built with
  | Ok text => match iniparser_load_file text (str "x.ini") [] with
               | Ok (Loaded d, _) => Some (dictionary_get (Some d) (Some (str key)) Null)
               | _ => None
               end
  | Ub _ => None
  end.

(** A key without a value gets the value of the key before it, a key without a section counts as one and loses its
    value, and a value with a
    newline makes the file unreadable. *)
Example unloadable_tables :
  reread_table [("a", None); ("a:b", Some "1"); ("a:c", None)] "a:c" = Some (Str (str "1")) /\
  reread_table [("a", None); ("a:b", Some "1"); ("c", Some "2")] "c" = Some Null /\
  reread_table [("a", None); ("a:b", Some (String (Ascii.ascii_of_nat 10) "x"))] "a:b" = None.
Proof. vm_compute. done. Qed.

(** C18. The reader is safe on every file: whatever its bytes (NULs, overlong or
    unterminated lines, dangling continuations, syntax errors), with memory
    available iniparser_load_file returns, writes inside its fixed buffers, and
    either gives a well-formed table and reports nothing or gives NULL and
    reports why. *)
Theorem ini_load_safe file ininame :
  Z.of_nat (length file) < 2 ^ 29 ->
  exists r log, iniparser_load_file file ininame [] = Ok (r, log) /\
    match r with
    | Loaded d => log = [] /\ wf d /\ exists m, models d m
    | LoadedNull => log <> []
    | LoadedKeyless => False
    end.
Proof.
  intros Hl. destruct (dictionary_new_ok 0) as (d0 & E0 & W0 & M0 & Hs0 & Ho0); [lia|].
  unfold iniparser_load_file. rewrite E0. cbn [res_bind]. unfold load_from.
  destruct (load_loop_ok ininame (length file)
    (Loader file [] 0 0 0 (Some d0) (Outputs [] [] []) [] []) ∅) as (dict & log & -> & Hr); [|done|].
  - constructor; cbn; try done; try lia; [apply not_elem_of_nil|split; cbn; lia|].
    exists d0. split_and!; try done; unfold DICTMINSZ in *; lia.
  - cbn [res_bind]. destruct dict as [d|].
    + destruct Hr as [-> (m & Hw & Hm)]. exists (Loaded d), []. eauto 10.
    + exists LoadedNull, log. done.
Qed.

Lemma ini_load_safe_witness :
  exists r log, iniparser_load_file (str "[a" ++ [10] ++ str "k=\") [] [] = Ok (r, log) /\
    match r with
    | Loaded d => log = [] /\ wf d /\ exists m, models d m
    | LoadedNull => log <> []
    | LoadedKeyless => False
    end.
Proof. apply (ini_load_safe (str "[a" ++ [10] ++ str "k=\") []). vm_compute. reflexivity. Defined.

(** C34. Access by name ignores case and looks at 1024 bytes of the name: after
    iniparser_set every name that agrees so far gives the value (cut to 1024
    bytes) and every other name what it gave before; after iniparser_unset it
    gives the default. *)
Theorem ini_set_unset_get {D} `{StoreLaws D} (d : D) m k v :
  store_rep d m -> store_room d 1 ->
  (exists d', iniparser_set (Some d) (Some k) (Some v) [] = Ok (0, Some d', []) /\
    forall k' def, iniparser_getstring (Some d') (Some k') def =
      if decide (stored_name k' = stored_name k) then Str (take ASCIILINESZ v)
      else iniparser_getstring (Some d) (Some k') def) /\
  (exists d', iniparser_unset (Some d) (Some k) = Some d' /\
    forall k' def, iniparser_getstring (Some d') (Some k') def =
      if decide (stored_name k' = stored_name k) then def
      else iniparser_getstring (Some d) (Some k') def).
Proof.
  intros Hr Hroom. unfold iniparser_set, iniparser_unset, iniparser_getstring.
  assert (take (Nat.min (length v) ASCIILINESZ) v = take ASCIILINESZ v) as ->.
  { destruct (decide (length v <= ASCIILINESZ)%nat); [by rewrite Nat.min_l, !take_ge by lia|by rewrite Nat.min_r by lia]. }
  rewrite !strlwc_name. split.
  - destruct (store_set_rep d m (stored_name k) (Some (take ASCIILINESZ v)) 0 Hr Hroom) as (d' & E & Hr' & _).
    exists d'. split; [done|]. intros k' def. rewrite !strlwc_name, (store_get_rep _ _ _ _ Hr'), (store_get_rep _ _ _ _ Hr).
    case_decide as Hk; [by rewrite Hk, lookup_insert_eq|by rewrite lookup_insert_ne by congruence].
  - destruct (store_unset_rep d m (stored_name k) Hr) as (d' & E & Hr').
    exists d'. split; [done|]. intros k' def. rewrite !strlwc_name, (store_get_rep _ _ _ _ Hr'), (store_get_rep _ _ _ _ Hr).
    case_decide as Hk; [by rewrite Hk, lookup_delete_eq|by rewrite lookup_delete_ne by congruence].
Qed.

Lemma ini_set_unset_get_witness :
  exists d', iniparser_set (Some (empty_dictionary 128)) (Some (str "Net:Port")) (Some (str "80")) []
    = Ok (0, Some d', []) /\
    iniparser_getstring (Some d') (Some (str "NET:port")) Null = Str (str "80").
Proof.
  destruct (dictionary_new_ok 0) as (d0 & E & W0 & M0 & Hs0 & Ho0); [lia|].
  assert (d0 = empty_dictionary 128) as -> by (by injection E as <-).
  destruct (ini_set_unset_get (empty_dictionary 128) ∅ (str "Net:Port") (str "80"))
    as [(d' & Es & Hg) _]; [exact (conj W0 M0)|split; vm_compute; reflexivity|].
  exists d'. split; [done|]. by rewrite Hg, decide_True.
Defined.

(** C35. For a section of the table whose name fits the buffer,
    iniparser_getsecnkeys gives the number of keys that begin with the lower-cased
    name and a colon, and iniparser_getseckeys stores exactly those keys, each
    once, without overrunning an array of that many pointers. *)
Theorem ini_section_keys d m s :
  wf d -> models d m -> Forall (fun c => c <> 0) (map tolower s) -> (length s <= 1024)%nat ->
  iniparser_find_entry (Some d) (Some s) = true ->
  exists keys, iniparser_getsecnkeys (Some d) (Some s) = Ok (zlen keys) /\
    iniparser_getseckeys (Some d) (Some s) (Some (length keys)) = Ok (Some keys) /\
    NoDup keys /\
    forall k, k ∈ keys <-> is_Some (m !! k) /\ has_prefix (map tolower s ++ [58]) k.
Proof.
  intros W M Hz Hs Hf. set (keym := map tolower s ++ [58]). set (n := (length s + 1)%nat).
  assert (length keym = n) as Hn by (unfold keym, n; rewrite length_app, length_map; done).
  assert (Forall (fun c => c <> 0) keym) as Hk by (apply Forall_app_2; [done|by constructor]).
  exists (omap (section_key d keym n) (seq 0 (d_size d))).
  unfold iniparser_getsecnkeys, iniparser_getseckeys. rewrite Hf. cbn [negb].
  rewrite section_prefix_ok by done. fold keym n. cbn [res_bind]. split_and!.
  - f_equal. unfold zlen. erewrite (length_omap_filter _ (fun j => match cell (d_key d) j with
      None => false | Some k => strncmp_eq k keym n end)).
    2:{ intros j. unfold section_key. destruct (cell (d_key d) j) as [k|]; cbn; [|split; [done|by intros [? ?]]].
        destruct (strncmp_eq k keym n); split; try done; by intros [? ?]. }
    rewrite <- (Z.add_0_l (Z.of_nat _)), <- fold_count. apply fold_left_ext. intros acc j.
    by destruct (cell (d_key d) j).
  - rewrite (fold_left_ext _ (fun ks j => match section_key d keym n j with
      Some k => ks ++ [k] | None => ks end)).
    + rewrite fold_collect. cbn [app]. by rewrite Nat.leb_refl.
    + intros acc j. unfold section_key. destruct (cell (d_key d) j) as [k|]; cbn; [|done].
      by destruct (strncmp_eq _ _ _).
  - apply section_key_NoDup; [done|apply NoDup_seq].
  - intros k. rewrite list_elem_of_omap. split.
    + intros (j & _ & (k1 & H1 & E1)%bind_Some). destruct (strncmp_eq k1 keym n) eqn:E; [|done].
      injection E1 as ->. split; [|by apply (strncmp_prefix_cut k keym n)].
      pose proof (cell_lt _ _ _ H1) as Hl. rewrite (wf_key_len _ W), <- (wf_val_len _ W) in Hl.
      destruct (lookup_lt_is_Some_2 _ _ Hl) as [w Hw]. exists w. apply M. by exists j.
    + intros [[v (j & Hj & Hv)%M] Hp]. exists j. split.
      * apply elem_of_seq. pose proof (cell_lt _ _ _ Hj). rewrite (wf_key_len _ W) in *. lia.
      * unfold section_key. rewrite Hj. cbn. by rewrite (proj2 (strncmp_prefix_cut k keym n Hn Hk)).
Qed.

Definition two_keys : res (Z * option dictionary * list bool) :=
  let! (_, d, o) := dictionary_set (Some (empty_dictionary 128)) (Some (str "a")) None [] in
  dictionary_set d (Some (str "a:k")) (Some (str "1")) o.

Lemma ini_section_keys_witness :
  exists d keys, iniparser_getsecnkeys (Some d) (Some (str "A")) = Ok (zlen keys) /\
    iniparser_getseckeys (Some d) (Some (str "A")) (Some (length keys)) = Ok (Some keys) /\
    NoDup keys /\ str "a:k" ∈ keys.
Proof.
  destruct (dictionary_new_ok 0) as (d0 & E & W0 & M0 & Hs0 & Ho0); [lia|].
  assert (d0 = empty_dictionary 128) as -> by (by injection E as <-).
  destruct (set_models _ _ (str "a") None W0 M0) as (d1 & E1 & W1 & M1 & Hs1 & _); [vm_compute; done|].
  destruct (set_models _ _ (str "a:k") (Some (str "1")) W1 M1) as (d2 & E2 & W2 & M2 & _ & _).
  { rewrite Ho0 in Hs1. cbn in Hs1. destruct Hs1 as [->| ->]; vm_compute; done. }
  exists d2. destruct (ini_section_keys d2 _ (str "A") W2 M2) as (keys & Hn & Hk & Hd & Hin).
  - by repeat constructor.
  - vm_compute. lia.
  - unfold iniparser_find_entry, iniparser_getstring. rewrite strlwc_name. cbn [store_get dictionary_store].
    rewrite (get_models d2 _ _ _ W2 M2). reflexivity.
  - exists keys. split_and!; try done. apply Hin. split; [by eexists|by exists (str "k")].
Defined.

(** The guard of iniparser_dumpsection_ini compares the name with the whole
    buffer: for a stored section whose name has 1024 bytes, which iniparser_set
    can create, sprintf writes the colon and the NUL past its end. *)
Lemma ini_dumpsection_overflow d m s v :
  wf d -> models d m -> m !! s = Some v -> map tolower s = s -> length s = 1024%nat ->
  iniparser_dumpsection_ini (Some d) (Some s) = Ub OobWrite.
Proof.
  intros W M Hm Hs Hl. unfold iniparser_dumpsection_ini, iniparser_find_entry, iniparser_getstring.
  rewrite strlwc_name. unfold stored_name. rewrite take_ge, Hs by (unfold ASCIILINESZ; lia).
  cbn [store_get dictionary_store]. rewrite (get_models d m s _ W M), Hm.
  rewrite bool_decide_eq_false_2 by (by destruct v). cbn [negb]. rewrite Hl. cbn [Nat.ltb].
  assert ((ASCIILINESZ + 1 <? 1024)%nat = false) as -> by done.
  unfold into. rewrite length_app, Hl. done.
Qed.

Lemma ini_dumpsection_overflow_witness :
  exists d, iniparser_dumpsection_ini (Some d) (Some (replicate 1024 97)) = Ub OobWrite.
Proof.
  destruct (dictionary_new_ok 0) as (d0 & E & W0 & M0 & Hs0 & Ho0); [lia|].
  destruct (set_models _ _ (replicate 1024 97) None W0 M0) as (d1 & E1 & W1 & M1 & _ & _).
  { rewrite Hs0. vm_compute. done. }
  exists d1. apply (ini_dumpsection_overflow d1 _ _ None W1 M1); [by rewrite lookup_insert_eq| |].
  - vm_compute. reflexivity.
  - reflexivity.
Defined.
