(* ===== verification/CFloat.v ===== *)
(** The type double as the sources use it: IEEE binary64 with round to nearest
    even, computed by the Standard Library's [SpecFloat], and its text: %f and
    %e printing, correctly rounded, and the reading of a decimal number. *)

From Stdlib Require Import Floats.SpecFloat.
From S2P Require Import Prelude CLib.

Open Scope c_scope.
Open Scope Z_scope.

Definition double : Type := spec_float.

Definition dprec : Z := 53.
Definition demax : Z := 1024.

Definition dadd : double -> double -> double := SFadd dprec demax.
Definition dsub : double -> double -> double := SFsub dprec demax.
Definition dmul : double -> double -> double := SFmul dprec demax.
Definition ddiv : double -> double -> double := SFdiv dprec demax.
Definition dltb : double -> double -> bool := SFltb.
Definition dleb : double -> double -> bool := SFleb.
Definition deqb : double -> double -> bool := SFeqb.
Definition dabs : double -> double := SFabs.

(** The double nearest to an integer: (double) n. *)
Definition dofZ (n : Z) : double := binary_normalize dprec demax n 0 false.

(** The double nearest to p / q. *)
Definition dratio (sign : bool) (p : Z) (q : positive) : double :=
  match p with
  | Zpos p => SFdiv dprec demax (S754_finite sign p 0) (S754_finite false q 0)
  | _ => S754_zero sign
  end.

(** A finite number as [m * 2 ^ e]; the integer part towards zero. *)
Definition trunc_parts (m : positive) (e : Z) : Z :=
  if 0 <=? e then Zpos m * 2 ^ e else Zpos m / 2 ^ (- e).

(** (int) d on x86-64: cvttsd2si gives INT_MIN for what does not fit. *)
Definition dtoint (d : double) : Z :=
  match d with
  | S754_zero _ => 0
  | S754_finite s m e =>
      let v := trunc_parts m e in
      let v := if s then - v else v in
      if (INT_MIN <=? v) && (v <=? INT_MAX) then v else INT_MIN
  | _ => INT_MIN
  end.

Definition dfloor (d : double) : double :=
  match d with
  | S754_finite s m e =>
      if 0 <=? e then d
      else
        let q := Zpos m / 2 ^ (- e) in
        let exact := Zpos m mod 2 ^ (- e) =? 0 in
        if s then (if exact then d else dofZ (- q - 1))
        else if q =? 0 then S754_zero false else dofZ q
  | _ => d
  end.

(** [n / d] rounded to the nearest integer, ties to even, for [d > 0]. *)
Definition round_div (n d : Z) : Z :=
  let q := n / d in
  let r := n mod d in
  match 2 * r ?= d with
  | Lt => q
  | Gt => q + 1
  | Eq => if Z.even q then q else q + 1
  end.

(** A number of [k] decimals, [v] in units of 10 ^ - k. *)
Definition print_fixed (k : nat) (v : Z) : list Z :=
  let ip := print_nat 10 (v / 10 ^ Z.of_nat k) in
  let fp := print_nat 10 (v mod 10 ^ Z.of_nat k) in
  match k with
  | O => ip
  | S _ => ip ++ [46] ++ replicate (k - length fp) 48 ++ fp
  end.

Definition with_sign (s : bool) (l : list Z) : list Z := if s then 45 :: l else l.

(** %.<k>f *)
Definition print_f (k : nat) (d : double) : list Z :=
  match d with
  | S754_zero s => with_sign s (print_fixed k 0)
  | S754_infinity s => with_sign s (str "inf")
  | S754_nan => str "nan"
  | S754_finite s m e =>
      let n := Zpos m * 10 ^ Z.of_nat k in
      with_sign s (print_fixed k (if 0 <=? e then n * 2 ^ e else round_div n (2 ^ (- e))))
  end.

(** %lf *)
Definition print_lf (d : double) : list Z := print_f 6 d.

(** The decimal exponent [x] with 10 ^ x <= p / q < 10 ^ (x + 1), from an
    estimate that is at most one too small. *)
Definition dec_exponent (p q : Z) : Z :=
  let est := (Z.log2 p - Z.log2 q) * 30103 / 100000 in
  let ge x := if 0 <=? x then 10 ^ x * q <=? p else q <=? p * 10 ^ (- x) in
  if ge (est + 1) then est + 1 else if ge est then est else est - 1.

(** %e: seven significant digits. *)
Definition print_e (d : double) : list Z :=
  let out s v x :=
    with_sign s (print_fixed 6 v ++ [101] ++ (if x <? 0 then [45] else [43])
      ++ (if Z.abs x <? 10 then [48] else []) ++ print_nat 10 (Z.abs x)) in
  match d with
  | S754_zero s => out s 0 0
  | S754_infinity s => with_sign s (str "inf")
  | S754_nan => str "nan"
  | S754_finite s m e =>
      let p := if 0 <=? e then Zpos m * 2 ^ e else Zpos m in
      let q := if 0 <=? e then 1 else 2 ^ (- e) in
      let x := dec_exponent p q in
      let v := if x <=? 6 then round_div (p * 10 ^ (6 - x)) q else round_div p (q * 10 ^ (x - 6)) in
      if v =? 10 ^ 7 then out s (10 ^ 6) (x + 1) else out s v x
  end.

(** Reading a decimal floating number (strtod, sscanf %lf): the value and the
    rest of the text, or nothing when no number starts there.  The words "inf"
    and "nan" and hexadecimal numbers are not read. *)
Definition scan_lf (s : list Z) : option (double * list Z) :=
  let (neg, s) := sign (skip_space s) in
  let (ip, s1) := span isdigit s in
  let '(fp, s2) := match s1 with
                   | c :: t => if c =? 46 then span isdigit t else ([], s1)
                   | [] => ([], s1)
                   end in
  match ip ++ fp with
  | [] => None
  | ds =>
      let '(x, s3) := match s2 with
                      | c :: t => if (c =? 101) || (c =? 69)
                                  then match scan_number t with
                                       | Some (x, r) => if isspace (hd 0 t) then (0, s2) else (x, r)
                                       | None => (0, s2)
                                       end
                                  else (0, s2)
                      | [] => (0, s2)
                      end in
      let x := clamp (-400 - zlen ds) 400 (x - zlen fp) in
      let v := (read_digits 10 0 ds).1 in
      Some (if 0 <=? x then dratio neg (v * 10 ^ x) 1 else dratio neg v (Z.to_pos (10 ^ (- x))), s3)
  end.

Definition atof (s : list Z) : double := match scan_lf s with Some (d, _) => d | None => S754_zero false end.

Example print_lf_samples :
  map print_lf [dofZ 10; atof (str "0.5"); atof (str "-3.14159265"); atof (str "1e-7"); atof (str "123456789.987")]
  = [str "10.000000"; str "0.500000"; str "-3.141593"; str "0.000000"; str "123456789.987000"].
Proof. vm_compute. reflexivity. Qed.

Example print_e_samples :
  map print_e [dofZ 10000000000; atof (str "1.5e-9"); atof (str "-9.99999999e22"); atof (str "1e100")]
  = [str "1.000000e+10"; str "1.500000e-09"; str "-1.000000e+23"; str "1.000000e+100"].
Proof. vm_compute. reflexivity. Qed.

(** * Integers below 2^53 are exact *)

Definition bitlen (n : Z) : Z := Z.log2 n + 1.

(** The double of an integer with [bitlen n <= 53]: a mantissa of 53 bits. *)
Definition exact (s : bool) (n : Z) : double :=
  match n * 2 ^ (53 - bitlen n) with
  | Zpos m => S754_finite s m (bitlen n - 53)
  | _ => S754_zero s
  end.

Lemma digits2_size p : digits2_pos p = Pos.size p.
Proof. induction p; cbn; congruence. Qed.

Lemma Zdigits2_bitlen p : Zpos (digits2_pos p) = bitlen (Zpos p).
Proof. rewrite digits2_size. unfold bitlen. destruct p; cbn; lia. Qed.

Lemma bitlen_scale n a : 0 < n -> 0 <= a -> bitlen (n * 2 ^ a) = bitlen n + a.
Proof.
  intros. unfold bitlen. rewrite <- Z.shiftl_mul_pow2 by lia. rewrite Z.log2_shiftl by lia. lia.
Qed.

Lemma bitlen_pos n : 0 < n -> 1 <= bitlen n.
Proof. intros. unfold bitlen. pose proof (Z.log2_nonneg n). lia. Qed.

Lemma bitlen_bound n k : 0 < n < 2 ^ k -> bitlen n <= k.
Proof.
  intros [? Hn]. unfold bitlen. assert (Z.log2 n < k); [|lia]. apply Z.log2_lt_pow2; [lia|done].
Qed.

Lemma bitlen_mono n m : n <= m -> bitlen n <= bitlen m.
Proof. intros. unfold bitlen. pose proof (Z.log2_le_mono n m). lia. Qed.

Lemma fexp_eq d : 1 <= d -> fexp dprec demax d = d - 53.
Proof. intros. unfold fexp, emin, dprec, demax. lia. Qed.

Lemma shr_1_double x : 0 < x -> shr_1 (Build_shr_record (x * 2) false false) = Build_shr_record x false false.
Proof. intros. destruct x as [|p|p]; [lia| |lia]. by rewrite Z.mul_comm. Qed.

Lemma iter_twice (f : shr_record -> shr_record) p r y :
  SpecFloat.iter_pos f p r = Build_shr_record y false false ->
  SpecFloat.iter_pos f p (SpecFloat.iter_pos f p r) = SpecFloat.iter_pos f p (Build_shr_record y false false).
Proof. by intros ->. Qed.

Lemma shr_iter p x :
  0 < x ->
  SpecFloat.iter_pos shr_1 p (Build_shr_record (x * 2 ^ Zpos p) false false) = Build_shr_record x false false.
Proof.
  revert x. induction p as [p IH|p IH|]; intros x Hx; cbn [SpecFloat.iter_pos].
  - rewrite (Pos2Z.inj_xI p). replace (x * 2 ^ (2 * Zpos p + 1)) with (x * 2 ^ Zpos p * 2 ^ Zpos p * 2).
    + assert (0 < 2 ^ Zpos p) by (apply Z.pow_pos_nonneg; lia).
      rewrite shr_1_double by lia. etransitivity; [apply (iter_twice shr_1 p _ (x * 2 ^ Zpos p)), IH; lia|by apply IH].
    + rewrite Z.pow_add_r, <- Z.add_diag, Z.pow_add_r by lia. lia.
  - rewrite (Pos2Z.inj_xO p). replace (x * 2 ^ (2 * Zpos p)) with (x * 2 ^ Zpos p * 2 ^ Zpos p).
    + assert (0 < 2 ^ Zpos p) by (apply Z.pow_pos_nonneg; lia). etransitivity; [apply (iter_twice shr_1 p _ (x * 2 ^ Zpos p)), IH; lia|by apply IH].
    + rewrite <- Z.add_diag, Z.pow_add_r by lia. lia.
  - change (2 ^ 1) with 2. by apply shr_1_double.
Qed.

Lemma shr_exact x e k :
  0 < x -> 0 <= k -> shr (Build_shr_record (x * 2 ^ k) false false) e k = (Build_shr_record x false false, e + k).
Proof.
  intros Hx Hk. unfold shr. destruct k as [|p|p]; [|by rewrite shr_iter|lia].
  by rewrite Z.mul_1_r, Z.add_0_r.
Qed.

(** Rounding a multiple of a power of two that is an integer of at most 53 bits. *)
Lemma round_exact s n a :
  0 < n < 2 ^ 53 -> 53 - bitlen n <= a ->
  binary_round_aux dprec demax s (n * 2 ^ a) (- a) loc_Exact = exact s n.
Proof.
  intros Hn Ha. pose proof (bitlen_bound n 53 Hn) as Hd. pose proof (bitlen_pos n (proj1 Hn)) as Hd1.
  set (m := n * 2 ^ (53 - bitlen n)).
  assert (0 < m) as Hm by (unfold m; assert (0 < 2 ^ (53 - bitlen n)) by (apply Z.pow_pos_nonneg; lia); lia).
  assert (bitlen m = 53) as Hdm by (unfold m; rewrite bitlen_scale by lia; lia).
  assert (E : n * 2 ^ a = m * 2 ^ (a - (53 - bitlen n))).
  { unfold m. rewrite <- Z.mul_assoc, <- Z.pow_add_r by lia. do 2 f_equal. lia. }
  assert (Hdig : forall z, 0 < z -> Zdigits2 z = bitlen z).
  { intros z Hz. destruct z; try lia. cbn [Zdigits2]. apply Zdigits2_bitlen. }
  assert (0 < n * 2 ^ a) as Hp by (assert (0 < 2 ^ a) by (apply Z.pow_pos_nonneg; lia); lia).
  unfold binary_round_aux, shr_fexp, shr_record_of_loc.
  rewrite Hdig by done. rewrite bitlen_scale by lia. rewrite fexp_eq by lia.
  replace (bitlen n + a + - a - 53 - - a) with (a - (53 - bitlen n)) by lia.
  rewrite E, shr_exact by lia. cbn [shr_m loc_of_shr_record round_nearest_even].
  rewrite Hdig by done. rewrite Hdm, fexp_eq by lia.
  replace (53 + _ - 53 - _) with 0 by lia. cbn [shr shr_m].
  unfold exact. fold m. destruct m as [|p|p]; [lia| |lia].
  rewrite (proj2 (Z.leb_le _ _)) by (unfold demax, dprec; lia). f_equal. lia.
Qed.

Lemma exact_finite s n :
  0 < n < 2 ^ 53 ->
  exists m, exact s n = S754_finite s m (bitlen n - 53) /\ Zpos m = n * 2 ^ (53 - bitlen n).
Proof.
  intros Hn. pose proof (bitlen_bound n 53 Hn). unfold exact.
  assert (0 < 2 ^ (53 - bitlen n)) by (apply Z.pow_pos_nonneg; lia).
  destruct (n * 2 ^ (53 - bitlen n)) as [|p|p] eqn:E; [lia|eauto|lia].
Qed.

Lemma iter_xO p m : Zpos (Pos.iter xO m p) = Zpos m * 2 ^ Zpos p.
Proof.
  induction p as [|p IH] using Pos.peano_ind.
  - cbn. lia.
  - rewrite Pos.iter_succ, Pos2Z.inj_succ, Z.pow_succ_r by lia. rewrite Pos2Z.inj_xO, IH. lia.
Qed.

Lemma shl_align_eq m e e' :
  e' <= e -> Zpos (shl_align m e e').1 = Zpos m * 2 ^ (e - e') /\ (shl_align m e e').2 = e'.
Proof.
  intros He. unfold shl_align. destruct (e' - e) as [|p|p] eqn:E; [|lia|].
  - cbn. replace (e - e') with 0 by lia. split; lia.
  - cbn [fst snd]. split; [|done]. rewrite iter_xO. do 2 f_equal. lia.
Qed.

Lemma binary_round_exact s n a p :
  0 < n < 2 ^ 53 -> Zpos p = n * 2 ^ a -> 0 <= a -> binary_round dprec demax s p (- a) = exact s n.
Proof.
  intros Hn Hp Ha. pose proof (bitlen_bound n 53 Hn) as Hd. pose proof (bitlen_pos n (proj1 Hn)) as Hd1.
  unfold binary_round. rewrite Zdigits2_bitlen, Hp, bitlen_scale by lia. rewrite fexp_eq by lia.
  replace (bitlen n + a + - a - 53) with (bitlen n - 53) by lia.
  destruct (decide (bitlen n - 53 <= - a)).
  - destruct (shl_align_eq p (- a) (bitlen n - 53)) as [E1 E2]; [done|].
    destruct (shl_align p _ _) as [mz ez]. cbn [fst snd] in *. subst ez. rewrite E1, Hp.
    rewrite <- Z.mul_assoc, <- Z.pow_add_r by lia.
    replace (bitlen n - 53) with (- (53 - bitlen n)) by lia.
    replace (a + _) with (53 - bitlen n) by lia. apply round_exact; [done|lia].
  - unfold shl_align. destruct (bitlen n - 53 - - a) as [|q|q] eqn:E; [|..]; try lia;
      rewrite Hp; apply round_exact; (done || lia).
Qed.

Lemma dofZ_eq z : - 2 ^ 53 < z < 2 ^ 53 -> dofZ z = exact (z <? 0) (Z.abs z).
Proof.
  intros Hz. unfold dofZ, binary_normalize. destruct z as [|p|p]; [done| |].
  - apply (binary_round_exact false (Zpos p) 0 p); lia.
  - apply (binary_round_exact true (Zpos p) 0 p); lia.
Qed.

Lemma mul_exact s1 s2 n1 n2 :
  0 < n1 < 2 ^ 53 -> 0 < n2 < 2 ^ 53 -> n1 * n2 < 2 ^ 53 ->
  dmul (exact s1 n1) (exact s2 n2) = exact (xorb s1 s2) (n1 * n2).
Proof.
  intros H1 H2 H12. destruct (exact_finite s1 n1 H1) as (m1 & -> & E1), (exact_finite s2 n2 H2) as (m2 & -> & E2).
  pose proof (bitlen_bound n1 53 H1). pose proof (bitlen_bound n2 53 H2).
  unfold dmul, SFmul. rewrite Pos2Z.inj_mul, E1, E2.
  replace (n1 * 2 ^ (53 - bitlen n1) * (n2 * 2 ^ (53 - bitlen n2)))
    with (n1 * n2 * 2 ^ (53 - bitlen n1 + (53 - bitlen n2))) by (rewrite Z.pow_add_r by lia; lia).
  replace (bitlen n1 - 53 + (bitlen n2 - 53)) with (- (53 - bitlen n1 + (53 - bitlen n2))) by lia.
  apply round_exact; [nia|].
  assert (Z.log2 n1 + Z.log2 n2 <= Z.log2 (n1 * n2)) by (apply Z.log2_mul_below; lia).
  unfold bitlen in *. lia.
Qed.

Lemma add_exact n1 n2 :
  0 < n1 < 2 ^ 53 -> 0 < n2 < 2 ^ 53 -> n1 + n2 < 2 ^ 53 ->
  dadd (exact false n1) (exact false n2) = exact false (n1 + n2).
Proof.
  intros H1 H2 H12. destruct (exact_finite false n1 H1) as (m1 & -> & E1), (exact_finite false n2 H2) as (m2 & -> & E2).
  pose proof (bitlen_bound n1 53 H1). pose proof (bitlen_bound n2 53 H2).
  unfold dadd, SFadd, cond_Zopp. set (ez := Z.min _ _).
  destruct (shl_align_eq m1 (bitlen n1 - 53) ez) as [F1 _]; [lia|].
  destruct (shl_align_eq m2 (bitlen n2 - 53) ez) as [F2 _]; [lia|].
  rewrite F1, F2, E1, E2, <- !Z.mul_assoc, <- !Z.pow_add_r by lia.
  replace (53 - bitlen n1 + _) with (- ez) by lia. replace (53 - bitlen n2 + _) with (- ez) by lia.
  rewrite <- Z.mul_add_distr_r. assert (0 < 2 ^ (- ez)) by (apply Z.pow_pos_nonneg; lia).
  unfold binary_normalize. destruct ((n1 + n2) * 2 ^ (- ez)) as [|p|p] eqn:Ep; [nia| |nia].
  replace ez with (- - ez) by lia. apply (binary_round_exact false (n1 + n2) (- ez) p); [lia|done|lia].
Qed.

(** Integer arithmetic in doubles. *)
Lemma dmul_int a b :
  - 2 ^ 53 < a < 2 ^ 53 -> 0 < b < 2 ^ 53 -> - 2 ^ 53 < a * b < 2 ^ 53 -> dmul (dofZ a) (dofZ b) = dofZ (a * b).
Proof.
  intros Ha Hb Hab. destruct (decide (a = 0)) as [->|Hn].
  - rewrite Z.mul_0_l, (dofZ_eq b) by lia. destruct (exact_finite (b <? 0) (Z.abs b)) as (m & -> & _); [lia|].
    rewrite (proj2 (Z.ltb_ge b 0)) by lia. reflexivity.
  - rewrite !dofZ_eq by lia. rewrite mul_exact by nia. rewrite Z.abs_mul. f_equal.
    rewrite (proj2 (Z.ltb_ge b 0)) by lia.
    destruct (Z.ltb_spec a 0), (Z.ltb_spec (a * b) 0); cbn; auto; nia.
Qed.

Lemma dadd_int a b :
  0 <= a < 2 ^ 53 -> 0 <= b -> a + b < 2 ^ 53 -> dadd (dofZ a) (dofZ b) = dofZ (a + b).
Proof.
  intros Ha Hb Hab. destruct (decide (a = 0)) as [->|Hna].
  { destruct (decide (b = 0)) as [->|]; [done|]. rewrite Z.add_0_l, (dofZ_eq b) by lia.
    by destruct (exact_finite (b <? 0) (Z.abs b)) as (m & -> & _); [lia|]. }
  destruct (decide (b = 0)) as [->|Hnb].
  { rewrite Z.add_0_r, (dofZ_eq a) by lia.
    by destruct (exact_finite (a <? 0) (Z.abs a)) as (m & -> & _); [lia|]. }
  rewrite !dofZ_eq by lia. rewrite !(proj2 (Z.ltb_ge _ _)) by lia. rewrite !Z.abs_eq by lia. apply add_exact; lia.
Qed.

Lemma dtoint_int z : INT_MIN <= z <= INT_MAX -> dtoint (dofZ z) = z.
Proof.
  intros Hz. unfold INT_MIN, INT_MAX in *. destruct (decide (z = 0)) as [->|]; [done|].
  rewrite dofZ_eq by lia. destruct (exact_finite (z <? 0) (Z.abs z)) as (m & -> & E); [lia|].
  assert (bitlen (Z.abs z) <= 32) by (apply bitlen_bound; lia).
  cbn [dtoint]. unfold trunc_parts. rewrite (proj2 (Z.leb_gt 0 (bitlen (Z.abs z) - 53))) by lia.
  rewrite E. replace (- (bitlen (Z.abs z) - 53)) with (53 - bitlen (Z.abs z)) by lia.
  rewrite Z.div_mul by (apply Z.pow_nonzero; lia).
  assert ((if z <? 0 then - Z.abs z else Z.abs z) = z) as -> by (destruct (Z.ltb_spec z 0); lia).
  unfold INT_MIN, INT_MAX.
  destruct (Z.leb_spec (-2147483648) z), (Z.leb_spec z 2147483647); cbn [andb]; lia.
Qed.

Lemma exact_le n m : 0 < n <= m -> m < 2 ^ 53 -> dleb (exact false n) (exact false m) = true.
Proof.
  intros Hn Hm. destruct (exact_finite false n) as (p & -> & Ep); [lia|].
  destruct (exact_finite false m) as (q & -> & Eq2); [lia|].
  pose proof (bitlen_mono n m ltac:(lia)) as Hb. unfold dleb, SFleb, SFcompare.
  destruct (Z.compare_spec (bitlen n - 53) (bitlen m - 53)) as [E| |]; [|done|lia].
  assert (Zpos p <= Zpos q) as Hpq.
  { rewrite Ep, Eq2. replace (bitlen m) with (bitlen n) by lia. apply Z.mul_le_mono_nonneg_r; [|lia].
    apply Z.pow_nonneg. lia. }
  change (Pos.compare_cont Eq p q) with (Pos.compare p q).
  destruct (Pos.compare_spec p q); [done|done|lia].
Qed.

Lemma exact_ge n m : 0 < n <= m -> m < 2 ^ 53 -> dleb (exact true m) (exact true n) = true.
Proof.
  intros Hn Hm. destruct (exact_finite true n) as (p & -> & Ep); [lia|].
  destruct (exact_finite true m) as (q & -> & Eq2); [lia|].
  pose proof (bitlen_mono n m ltac:(lia)) as Hb. unfold dleb, SFleb, SFcompare.
  destruct (Z.compare_spec (bitlen m - 53) (bitlen n - 53)) as [E| |]; [|lia|done].
  assert (Zpos p <= Zpos q) as Hpq.
  { rewrite Ep, Eq2. replace (bitlen m) with (bitlen n) by lia. apply Z.mul_le_mono_nonneg_r; [|lia].
    apply Z.pow_nonneg. lia. }
  change (Pos.compare_cont Eq q p) with (Pos.compare q p).
  destruct (Pos.compare_spec q p); [done|lia|done].
Qed.

(** The order of integers is that of their doubles. *)
Lemma dleb_int a b : - 2 ^ 53 < a <= b -> b < 2 ^ 53 -> dleb (dofZ a) (dofZ b) = true.
Proof.
  intros Ha Hb.
  assert (forall z, - 2 ^ 53 < z < 2 ^ 53 -> z <> 0 -> exists m, dofZ z = S754_finite (z <? 0) m (bitlen (Z.abs z) - 53)) as Hf.
  { intros z Hz Hz0. rewrite dofZ_eq by done. destruct (exact_finite (z <? 0) (Z.abs z)) as (m & -> & _); [lia|]. eauto. }
  destruct (decide (a = 0)) as [->|], (decide (b = 0)) as [->|]; [done|..].
  - destruct (Hf b) as [m ->]; [lia..|]. by rewrite (proj2 (Z.ltb_ge b 0)) by lia.
  - destruct (Hf a) as [m ->]; [lia..|]. by rewrite (proj2 (Z.ltb_lt a 0)) by lia.
  - destruct (decide (a < 0)), (decide (b < 0)).
    + rewrite !dofZ_eq by lia. rewrite !(proj2 (Z.ltb_lt _ 0)) by lia. apply exact_ge; lia.
    + destruct (Hf a) as [m ->]; [lia..|]. destruct (Hf b) as [k ->]; [lia..|].
      rewrite (proj2 (Z.ltb_lt a 0)), (proj2 (Z.ltb_ge b 0)) by lia. done.
    + lia.
    + rewrite !dofZ_eq by lia. rewrite !(proj2 (Z.ltb_ge _ 0)) by lia. apply exact_le; lia.
Qed.

Lemma deqb_int_zero z : - 2 ^ 53 < z < 2 ^ 53 -> deqb (dofZ z) (dofZ 0) = (z =? 0).
Proof.
  intros Hz. destruct (Z.eqb_spec z 0) as [->|]; [done|]. rewrite dofZ_eq by done.
  destruct (exact_finite (z <? 0) (Z.abs z)) as (m & -> & _); [lia|]. by destruct (z <? 0).
Qed.

(** * The length and the form of a printed number *)

(** The values of the type double are the finite numbers with a mantissa of 53 bits, or less for the
    smallest exponent, the infinities and nan. *)
Definition is_double (d : double) : Prop := valid_binary dprec demax d = true.

Lemma is_double_finite s m e : is_double (S754_finite s m e) -> Zpos m < 2 ^ 53 /\ -1074 <= e <= 971.
Proof.
  unfold is_double, valid_binary, bounded, canonical_mantissa. intros [Hm He]%andb_true_iff.
  apply Zeq_bool_eq in Hm. apply Zle_bool_imp_le in He. unfold fexp, emin, dprec, demax in Hm, He.
  rewrite Zdigits2_bitlen in Hm. split; [|lia].
  assert (bitlen (Zpos m) <= 53) as Hb by lia. unfold bitlen in Hb.
  apply Z.log2_lt_pow2; lia.
Qed.

(** The exponent of a number that is not above another one. *)
Lemma below_exponent s m e t M E :
  dltb (dabs (S754_finite s m e)) (S754_finite t M E) = true \/
  t = false /\ dltb (S754_finite t M E) (dabs (S754_finite s m e)) = false -> e <= E.
Proof.
  unfold dltb, SFltb, SFcompare, dabs, SFabs. destruct t.
  { intros [H|[[=] _]]. discriminate H. }
  destruct (Z.compare_spec e E), (Z.compare_spec E e); intros [H1|[_ H1]]; try lia; done.
Qed.

Lemma round_div_bound n d : 0 <= n -> 0 < d -> 0 <= round_div n d <= n / d + 1.
Proof.
  intros Hn Hd. assert (0 <= n / d) by (apply Z.div_pos; lia). unfold round_div.
  destruct (2 * (n mod d) ?= d); [destruct (Z.even _)|..]; lia.
Qed.

(** A mantissa times a power of two, rounded. *)
Definition scaled (n e : Z) : Z := if 0 <=? e then n * 2 ^ e else round_div n (2 ^ (- e)).

Lemma scaled_bound n e k b : 0 <= n < b -> e <= k -> -1074 <= e -> 0 <= scaled n e <= (if 0 <=? k then b * 2 ^ k else b / 2 ^ (- k)) + 1.
Proof.
  intros Hn He Hl. unfold scaled. destruct (Z.leb_spec 0 e), (Z.leb_spec 0 k); try lia.
  - assert (0 < 2 ^ e <= 2 ^ k) as Hp by (split; [lia|apply Z.pow_le_mono_r; lia]).
    generalize dependent (2 ^ e). generalize (2 ^ k). intros. nia.
  - pose proof (round_div_bound n (2 ^ (- e)) ltac:(lia) ltac:(lia)).
    assert (n / 2 ^ (- e) <= n) by (apply Z.div_le_upper_bound; nia).
    assert (0 < 2 ^ k) by lia. nia.
  - pose proof (round_div_bound n (2 ^ (- e)) ltac:(lia) ltac:(lia)) as Hr.
    assert (n / 2 ^ (- e) <= b / 2 ^ (- k)); [|lia]. transitivity (n / 2 ^ (- k)).
    + apply Z.div_le_compat_l; [lia|]. split; [lia|]. apply Z.pow_le_mono_r; lia.
    + apply Z.div_le_mono; lia.
Qed.

(** A sign, an integer part without leading zeros, [k] digits behind a point. *)
Lemma print_fixed_form k v :
  0 <= v -> exists fp, print_fixed k v = print_nat 10 (v / 10 ^ Z.of_nat k) ++ (if (k =? 0)%nat then [] else 46 :: fp) /\
    Forall (fun c => isdigit c = true) fp /\ length fp = k.
Proof.
  intros Hv. assert (0 < 10 ^ Z.of_nat k) as Hp by lia. pose proof (Z.mod_pos_bound v (10 ^ Z.of_nat k) Hp) as Hm.
  unfold print_fixed. destruct k as [|k]; [exists []; by rewrite app_nil_r|].
  set (n := v mod 10 ^ Z.of_nat (S k)) in *. pose proof (print_nat_length n (S k) ltac:(lia) ltac:(lia)).
  exists (replicate (S k - length (print_nat 10 n)) 48 ++ print_nat 10 n). split_and!; [done| |].
  - apply Forall_app. split; [by apply Forall_replicate|]. apply print_nat_isdigit. lia.
  - rewrite length_app, length_replicate. lia.
Qed.

Lemma print_fixed_length k j v : 0 <= v < 10 ^ Z.of_nat (k + j) -> (0 < j)%nat -> (length (print_fixed k v) <= j + (if (k =? 0)%nat then 0 else S k))%nat.
Proof.
  intros Hv Hj. destruct (print_fixed_form k v) as (fp & -> & _ & Hl); [lia|]. rewrite length_app.
  assert (length (print_nat 10 (v / 10 ^ Z.of_nat k)) <= j)%nat.
  { apply print_nat_length; [|done]. split; [apply Z.div_pos; lia|]. apply Z.div_lt_upper_bound; [lia|].
    rewrite <- Z.pow_add_r by lia. rewrite <- Nat2Z.inj_add. lia. }
  destruct (k =? 0)%nat; cbn [length]; lia.
Qed.

(** The decimal exponent of [p / q] is not far from the estimate. *)
Definition below (p q x : Z) : Prop := if 0 <=? x then p < 10 ^ x * q else p * 10 ^ (- x) < q.

Lemma below_succ p q x : 0 < p -> 0 < q -> below p q x -> below p q (x + 1).
Proof.
  unfold below. intros Hp Hq. destruct (Z.leb_spec 0 x), (Z.leb_spec 0 (x + 1)); try lia.
  - intros. rewrite Z.pow_add_r by lia. change (10 ^ 1) with 10. lia.
  - replace x with (-1) by lia. cbn. lia.
  - intros Hlow. replace (- x) with (1 + - (x + 1)) in Hlow by lia. rewrite Z.pow_add_r in Hlow by lia. change (10 ^ 1) with 10 in Hlow.
    assert (0 < 10 ^ (- (x + 1))) by lia. nia.
Qed.

Lemma round_below p q x : 0 < p -> 0 < q -> below p q (x + 2) ->
  0 <= (if x <=? 6 then round_div (p * 10 ^ (6 - x)) q else round_div p (q * 10 ^ (x - 6))) <= 10 ^ 8 + 1.
Proof.
  intros Hp Hq Hb. unfold below in Hb. destruct (Z.leb_spec x 6) as [Hx|Hx].
  - assert (0 < 10 ^ (6 - x)) by lia. pose proof (round_div_bound (p * 10 ^ (6 - x)) q ltac:(lia) Hq).
    assert (p * 10 ^ (6 - x) / q <= 10 ^ 8); [|lia]. apply Z.div_le_upper_bound; [done|].
    destruct (Z.leb_spec 0 (x + 2)).
    + assert (10 ^ (x + 2) * 10 ^ (6 - x) = 10 ^ 8) as E by (rewrite <- Z.pow_add_r by lia; f_equal; lia). nia.
    + replace (6 - x) with (- (x + 2) + 8) by lia. rewrite Z.pow_add_r by lia. lia.
  - assert (0 < 10 ^ (x - 6)) by lia. pose proof (round_div_bound p (q * 10 ^ (x - 6)) ltac:(lia) ltac:(lia)).
    rewrite (proj2 (Z.leb_le 0 (x + 2))) in Hb by lia.
    assert (p / (q * 10 ^ (x - 6)) <= 10 ^ 8); [|lia]. apply Z.div_le_upper_bound; [lia|].
    replace (x + 2) with (x - 6 + 8) in Hb by lia. rewrite Z.pow_add_r in Hb by lia. lia.
Qed.

Definition estimate (l : Z) : Z := l * 30103 / 100000.

(** 10 ^ (the estimate + 3) is above 2 ^ (l + 1), for every exponent of a double. *)
Definition estimate_ok (l : Z) : bool :=
  let y := estimate l + 3 in
  if 0 <=? y then (l + 1 <? 0) || (2 ^ (l + 1) <=? 10 ^ y) else (l + 1 <? 0) && (10 ^ (- y) <=? 2 ^ (- (l + 1))).

Lemma estimate_all l : -1074 <= l <= 1024 -> estimate_ok l = true.
Proof.
  intros Hl. assert (forallb estimate_ok (map (fun n => Z.of_nat n - 1074) (seq 0 2099)) = true) as H by (vm_compute; reflexivity).
  rewrite forallb_forall in H. apply H, in_map_iff. exists (Z.to_nat (l + 1074)). split; [lia|]. apply in_seq. lia.
Qed.

Lemma estimate_below p q : 0 < p -> 0 < q -> -1074 <= Z.log2 p - Z.log2 q <= 1024 ->
  below p q (estimate (Z.log2 p - Z.log2 q) + 3).
Proof.
  intros Hp Hq Hl. pose proof (estimate_all _ Hl) as H. unfold estimate_ok in H. unfold below.
  pose proof (Z.log2_spec p Hp) as [_ Hlp]. pose proof (Z.log2_spec q Hq) as [Hlq _].
  pose proof (Z.log2_nonneg p). pose proof (Z.log2_nonneg q).
  set (lp := Z.log2 p) in *. set (lq := Z.log2 q) in *. set (y := estimate (lp - lq) + 3) in *. clearbody y lp lq.
  destruct (Z.leb_spec 0 y).
  - apply orb_true_iff in H as [H%Z.ltb_lt|H%Z.leb_le].
    + assert (2 ^ Z.succ lp <= 2 ^ lq) by (apply Z.pow_le_mono_r; lia). assert (0 < 10 ^ y) by lia. nia.
    + destruct (decide (lp - lq + 1 < 0)).
      * assert (2 ^ Z.succ lp <= 2 ^ lq) by (apply Z.pow_le_mono_r; lia). assert (0 < 10 ^ y) by lia. nia.
      * assert (2 ^ Z.succ lp = 2 ^ (lp - lq + 1) * 2 ^ lq) as E by (rewrite <- Z.pow_add_r by lia; f_equal; lia). nia.
  - apply andb_true_iff in H as [Hl1%Z.ltb_lt Hl2%Z.leb_le].
    assert (2 ^ lq = 2 ^ (- (lp - lq + 1)) * 2 ^ Z.succ lp) as E by (rewrite <- Z.pow_add_r by lia; f_equal; lia).
    assert (0 < 2 ^ Z.succ lp) by lia. assert (0 < 10 ^ (- y)) by lia. nia.
Qed.

Lemma dec_exponent_bound p q : 0 < p -> 0 < q -> -1074 <= Z.log2 p - Z.log2 q <= 1024 ->
  below p q (dec_exponent p q + 2) /\ -400 <= dec_exponent p q <= 400.
Proof.
  intros Hp Hq Hl. pose proof (estimate_below p q Hp Hq Hl) as Hb. unfold dec_exponent. fold (estimate (Z.log2 p - Z.log2 q)).
  assert (-400 < estimate (Z.log2 p - Z.log2 q) < 400) as He by (unfold estimate; Z.to_euclidean_division_equations; lia).
  set (y := estimate _) in *. clearbody y.
  assert (forall x, (if 0 <=? x then 10 ^ x * q <=? p else q <=? p * 10 ^ (- x)) = false -> below p q x) as Hlt.
  { intros x. unfold below. destruct (0 <=? x); intros ?%Z.leb_gt; lia. }
  destruct (if 0 <=? y + 1 then _ else _) eqn:E1.
  { split; [|lia]. by replace (y + 1 + 2) with (y + 3) by lia. }
  apply Hlt in E1. destruct (if 0 <=? y then _ else _) eqn:E2.
  { split; [|lia]. replace (y + 2) with (y + 1 + 1) by lia. by apply below_succ. }
  split; [|lia]. replace (y - 1 + 2) with (y + 1) by lia. done.
Qed.

(** What %f and %e make of a finite number: digits, at most a point and an exponent. *)
Inductive numeral : list Z -> Prop := Numeral s n fp ex :
  0 <= n -> Forall (fun c => isdigit c = true) fp ->
  ex = [] \/ (exists g ds, ex = 101 :: g :: ds /\ (g = 43 \/ g = 45) /\ Forall (fun c => isdigit c = true) ds /\ 0 < zlen ds <= 4) ->
  numeral (with_sign s (print_nat 10 n ++ match fp with [] => [] | _ => 46 :: fp end ++ ex)).

Lemma print_fixed_numeral s k v : 0 <= v -> numeral (with_sign s (print_fixed k v)).
Proof.
  intros Hv. destruct (print_fixed_form k v Hv) as (fp & -> & Hd & Hl). set (n := v / _).
  assert (0 <= n) by (apply Z.div_pos; lia). clearbody n.
  replace (if (k =? 0)%nat then [] else 46 :: fp) with (match fp with [] => [] | _ => 46 :: fp end ++ []).
  - apply Numeral; auto.
  - rewrite app_nil_r. subst k. by destruct fp.
Qed.

Definition finite (d : double) : Prop := match d with S754_zero _ | S754_finite _ _ _ => True | _ => False end.

(** %.0f below 10 ^ 60. *)
Lemma print_f0_fits d : is_double d -> dltb (dabs d) (dofZ (10 ^ 60)) = true -> (length (print_f 0 d) <= 62)%nat /\ numeral (print_f 0 d).
Proof.
  intros Hd Hlt. assert (exists s v, print_f 0 d = with_sign s (print_fixed 0 v) /\ 0 <= v < 10 ^ 61) as (s & v & -> & Hv).
  { assert (exists M, dofZ (10 ^ 60) = S754_finite false M 147) as [M EM] by (eexists; vm_compute; reflexivity).
    rewrite EM in Hlt. clear EM.
    destruct d as [s|s| |s m e]; [exists s, 0; cbn [print_f]; split; [reflexivity|lia]|discriminate Hlt..|].
    apply is_double_finite in Hd as [Hm He].
    pose proof (below_exponent _ _ _ _ _ _ (or_introl Hlt)) as Hle. clear Hlt.
    exists s, (scaled (Zpos m * 10 ^ Z.of_nat 0) e). split; [done|].
    pose proof (scaled_bound (Zpos m * 10 ^ Z.of_nat 0) e 147 (2 ^ 53)) as H. cbn [Z.leb Z.compare Pos.compare Pos.compare_cont] in H. lia. }
  split; [|apply print_fixed_numeral; lia].
  pose proof (print_fixed_length 0 61 v Hv ltac:(lia)). destruct s; cbn [with_sign length]; cbn [Nat.eqb] in *; lia.
Qed.

(** %f up to 10 ^ 9; nan is printed as nan. *)
Lemma print_f6_fits d : is_double d -> dltb (dofZ (10 ^ 9)) (dabs d) = false ->
  (length (print_f 6 d) <= 62)%nat /\ (finite d -> numeral (print_f 6 d)).
Proof.
  intros Hd Hlt. assert (d = S754_nan \/ d <> S754_nan) as [->|Hnan] by (by destruct d; auto); [cbn; split; [lia|done]|].
  assert (exists s v, print_f 6 d = with_sign s (print_fixed 6 v) /\ 0 <= v < 10 ^ 16) as (s & v & -> & Hv).
  { assert (exists M, dofZ (10 ^ 9) = S754_finite false M (-23)) as [M EM] by (eexists; vm_compute; reflexivity).
    rewrite EM in Hlt. destruct d as [s|s| |s m e]; [exists s, 0; cbn [print_f]; split; [reflexivity|lia]|discriminate Hlt|by destruct Hnan|].
    apply is_double_finite in Hd as [Hm He].
    pose proof (below_exponent s m e false M (-23) (or_intror (conj eq_refl Hlt))) as Hle. clear Hlt EM.
    exists s, (scaled (Zpos m * 10 ^ Z.of_nat 6) e). split; [done|].
    pose proof (scaled_bound (Zpos m * 10 ^ Z.of_nat 6) e (-23) (2 ^ 53 * 10 ^ 6)) as H.
    change (if 0 <=? -23 then _ else _) with (2 ^ 30 * 10 ^ 6) in H. change (Z.of_nat 6) with 6 in *. lia. }
  split; [|intros _; apply print_fixed_numeral; lia].
  pose proof (print_fixed_length 6 10 v Hv ltac:(lia)). destruct s; cbn [with_sign length]; cbn [Nat.eqb] in *; lia.
Qed.

Lemma exponent_text s v x :
  0 <= v <= 10 ^ 9 -> -401 <= x <= 401 ->
  let t := with_sign s (print_fixed 6 v ++ [101] ++ (if x <? 0 then [45] else [43]) ++ (if Z.abs x <? 10 then [48] else []) ++ print_nat 10 (Z.abs x)) in
  (length t <= 62)%nat /\ numeral t.
Proof.
  intros Hv Hx t. pose proof (print_nat_length (Z.abs x) 3 ltac:(lia) ltac:(lia)) as Hl.
  pose proof (print_nat_isdigit (Z.abs x) ltac:(lia)) as Hd.
  assert (0 < length (print_nat 10 (Z.abs x)))%nat as Hpos.
  { pose proof (print_nat_spec 10 (Z.abs x) ltac:(lia) ltac:(lia)) as [Hn _]. destruct (print_nat _ _); [done|cbn; lia]. }
  destruct (print_fixed_form 6 v) as (fp & E & Hfp & Hlen); [lia|]. split.
  - pose proof (print_fixed_length 6 4 v ltac:(cbn; lia) ltac:(lia)) as Hf. subst t.
    assert (forall l : list Z, (length (with_sign s l) <= S (length l))%nat) as Hs by (intros; destruct s; cbn; lia).
    etransitivity; [apply Hs|]. rewrite !length_app. cbn [Nat.eqb length] in *.
    destruct (x <? 0), (Z.abs x <? 10); cbn [length]; lia.
  - subst t. rewrite E. set (n := v / _). assert (0 <= n) by (apply Z.div_pos; lia). clearbody n. cbn [Nat.eqb].
    rewrite <- app_assoc. replace (46 :: fp) with (match fp with [] => [] | _ => 46 :: fp end) by by destruct fp.
    apply Numeral; [done..|]. right.
    exists (if x <? 0 then 45 else 43), ((if Z.abs x <? 10 then [48] else []) ++ print_nat 10 (Z.abs x)).
    split; [by destruct (x <? 0)|]. split; [destruct (x <? 0); auto|]. split.
    + apply Forall_app. split; [|done]. destruct (Z.abs x <? 10); by repeat constructor.
    + unfold zlen. rewrite length_app. destruct (Z.abs x <? 10); cbn [length]; lia.
Qed.

(** %e. *)
Lemma print_e_fits d : is_double d -> (length (print_e d) <= 62)%nat /\ (finite d -> numeral (print_e d)).
Proof.
  intros Hd. destruct d as [s|s| |s m e]; [|destruct s; cbn; split; (lia || done)|cbn; split; (lia || done)|].
  { destruct (exponent_text s 0 0) as [H1 H2]; [lia..|]. exact (conj H1 (fun _ => H2)). }
  apply is_double_finite in Hd as [Hm He]. unfold print_e.
  set (p := if 0 <=? e then Zpos m * 2 ^ e else Zpos m). set (q := if 0 <=? e then 1 else 2 ^ (- e)).
  assert (0 < p /\ 0 < q /\ -1074 <= Z.log2 p - Z.log2 q <= 1024) as (Hp & Hq & Hl).
  { pose proof (Z.log2_nonneg (Zpos m)). assert (Z.log2 (Zpos m) < 53) by (apply Z.log2_lt_pow2; lia).
    subst p q. destruct (Z.leb_spec 0 e).
    - rewrite <- Z.shiftl_mul_pow2, Z.log2_shiftl by lia. rewrite Z.shiftl_mul_pow2 by lia. change (Z.log2 1) with 0.
      assert (0 < 2 ^ e) by lia. lia.
    - rewrite Z.log2_pow2 by lia. lia. }
  destruct (dec_exponent_bound p q Hp Hq Hl) as [Hb Hx]. pose proof (round_below p q _ Hp Hq Hb) as Hv.
  clearbody p q. set (x := dec_exponent p q) in *. clearbody x. cbn zeta.
  set (v := if x <=? 6 then _ else _) in *. clearbody v.
  destruct (v =? 10 ^ 7).
  - destruct (exponent_text s (10 ^ 6) (x + 1)) as [H1 H2]; [lia..|]. exact (conj H1 (fun _ => H2)).
  - destruct (exponent_text s v x) as [H1 H2]; [lia..|]. exact (conj H1 (fun _ => H2)).
Qed.
