(* ===== verification/Http.v ===== *)
(** http_server/http_anlyse.c: the request parser, the packet builders and the
    handling of one request by the analysis server.

    The globals and the locals of the server are fixed character arrays filled
    by strncpy and sprintf; they are modelled as byte lists of their size, so
    that a missing terminator, an overrun and a NULL pointer are visible as
    errors.  The external effects of a request (packets sent, commands run,
    files removed) are the list of actions it performs. *)

From S2P Require Import Prelude CLib CFloat.

Open Scope c_scope.
Open Scope Z_scope.

(** ** Character arrays *)

(** The string at the start of an array: a read past an array without a NUL. *)
Definition read_str (buf : list Z) : res (list Z) :=
  if bool_decide (0 ∈ buf) then Ok (c_string buf) else Ub OobRead.

(** Bytes written at [off]. *)
Definition write_at (buf : list Z) (off : Z) (s : list Z) : res (list Z) :=
  if (0 <=? off) && (off + zlen s <=? zlen buf)
  then Ok (take (Z.to_nat off) buf ++ s ++ drop (Z.to_nat off + length s) buf)
  else Ub OobWrite.

(** strncpy(dst, src, n): exactly n bytes, padded with zeros after the end of
    src; n is converted to size_t. *)
Definition strncpy (dst src : list Z) (n : Z) : res (list Z) :=
  if n <? 0 then Ub OobWrite
  else if zlen dst <? n then Ub OobWrite
  else let n := Z.to_nat n in Ok (take n (src ++ replicate n 0) ++ drop n dst).

(** sprintf(&buf[pos], ...): the text and its NUL; the position after it. *)
Definition sprintf (buf : list Z) (pos : Z) (s : list Z) : res (list Z * Z) :=
  let! buf := write_at buf pos (s ++ [0]) in Ok (buf, pos + zlen s).

Fixpoint sprintfs (buf : list Z) (pos : Z) (l : list (list Z)) : res (list Z * Z) :=
  match l with
  | [] => Ok (buf, pos)
  | s :: l => let! (buf, pos) := sprintf buf pos s in sprintfs buf pos l
  end.

Definition zeros (n : nat) : list Z := replicate n 0.

(** ** strtok with the separators [","], over a string *)

Definition is_sep (c : Z) : bool := (c =? 34) || (c =? 44).

(** The tokens of repeated calls, and the string with the separator after each
    token overwritten by NUL. *)
Fixpoint strtok_all (cur s : list Z) : list (list Z) * list Z :=
  match s with
  | [] => (match cur with [] => [] | _ => [cur] end, [])
  | c :: s =>
      if is_sep c then
        match cur with
        | [] => let (ts, s) := strtok_all [] s in (ts, c :: s)
        | _ => let (ts, s) := strtok_all [] s in (cur :: ts, 0 :: s)
        end
      else let (ts, s) := strtok_all (cur ++ [c]) s in (ts, c :: s)
  end.

(** ** Data *)

(** struct multi_str: eight rows of eight bytes, one after the other. *)
Record multi_str : Type := MultiStr { count : Z; data : list Z }.

(** The global request; object_list[512], which no code uses, is left out. *)
Record request_content_A_t : Type := RequestA {
  request_host_ip : list Z;              (* 16 *)
  request_host_port : Z;
  request_id : list Z;                   (* 64 *)
  object_id : Z;
  type_list : list Z;                    (* 32 *)
  type_data : multi_str;
  image_normal_path : list Z;            (* 128 *)
  image_normal_path_data : multi_str;
  image_path_list : list Z;              (* 128 *)
  image_path_list_data : multi_str
}.

Definition empty_multi : multi_str := MultiStr 0 (zeros 64).
Definition empty_request : request_content_A_t :=
  RequestA (zeros 16) 0 (zeros 64) 0 (zeros 32) empty_multi (zeros 128) empty_multi (zeros 128) empty_multi.

Record Area : Type := MkArea { a_count : Z; a_x : list double; a_y : list double }.

(** The global result, without cls_id[8], which no code uses. *)
Record result_json_t : Type := ResultJson {
  r_count : Z;
  r_type : list Z;                       (* 32 *)
  r_value : list Z;                      (* 32 *)
  r_code : Z;
  res_image_path : list Z;               (* 256 *)
  r_desc : list Z;                       (* 32 *)
  r_area : list Area;                    (* 32 of 4 points *)
  r_conf : double
}.

Definition dzero : double := dofZ 0.
Definition empty_area : Area := MkArea 0 (replicate 4 dzero) (replicate 4 dzero).
Definition empty_result : result_json_t :=
  ResultJson 0 (zeros 32) (zeros 32) 0 (zeros 256) (zeros 32) (replicate 32 empty_area) dzero.

(** ** check_if_post *)

Fixpoint strrchr_from (s : list Z) (c : Z) (i : nat) (found : option nat) : option nat :=
  match s with
  | [] => found
  | x :: s => strrchr_from s c (S i) (if x =? c then Some i else found)
  end.
Definition strrchr (s : list Z) (c : Z) : option nat := strrchr_from s c 0 None.

(** The result with the arrays [file_name] and [content] after the call. *)
Definition check_if_post (data file_name content : list Z) : res (Z * list Z * list Z) :=
  if is_prefix (str "POST ") data then
    match strstr data (str " HTTP") with
    | None => Ok (-1, file_name, content)
    | Some tail =>
        let! file_name := strncpy file_name (drop 5 data) (Z.of_nat tail - 5) in
        let head := strchr data 123 in
        let tail := strrchr data 125 in
        match head, tail with
        | Some head, Some tail =>
            let! content := strncpy content (drop head data) (Z.of_nat tail - Z.of_nat head + 1) in
            Ok (0, file_name, content)
        | _, _ => Ok (-1, file_name, content)
        end
    end
  else if is_prefix (str "HTTP/") data then Ok (2, file_name, content)
  else Ok (-1, file_name, content).

(** ** parse_post_A_content *)

(** The text after the first quote behind the key: a NULL Start or a missing
    quote is used as a pointer. *)
Definition value_start (data key : list Z) : res (list Z) :=
  match strstr data key with
  | None => Ub NullDeref
  | Some start =>
      let after := drop (start + length key) data in
      match strchr after 34 with
      | None => Ub NullDeref
      | Some v => Ok (drop (v + 1) after)
      end
  end.

(** strncpy of the quoted value into [dst]; with no closing quote the length is
    a negative number. *)
Definition copy_value (dst data key : list Z) : res (list Z) :=
  let! value := value_start data key in
  match strchr value 34 with
  | None => Ub OobWrite
  | Some n => strncpy dst value (Z.of_nat n)
  end.

(** sscanf(text, "%d", &old) *)
Definition scan_int (text : list Z) (old : Z) : Z :=
  match sscanf text [DInt] with [SInt n] => n | _ => old end.

(** The loop of sprintf calls into the rows of a multi_str. *)
Fixpoint fill_rows (rows : list Z) (i : Z) (tokens : list (list Z)) : res (Z * list Z) :=
  match tokens with
  | [] => Ok (i, rows)
  | t :: tokens =>
      let! rows := write_at rows (8 * i) (t ++ [0]) in
      fill_rows rows (i + 1) tokens
  end.

(** strtok over the string in [buf], each token stored as a row. *)
Definition split_list (buf : list Z) (m : multi_str) : res (list Z * multi_str) :=
  let! s := read_str buf in
  let (tokens, s') := strtok_all [] s in
  let! (n, rows) := fill_rows (data m) 0 tokens in
  Ok (s' ++ drop (length s) buf, MultiStr n rows).

(** printf("%s\t", data[i]) for every row counted. *)
Fixpoint print_rows (m : multi_str) (i : nat) (n : nat) : res unit :=
  match n with
  | O => Ok tt
  | S n => let! _ := read_str (drop (8 * i) (data m)) in print_rows m (S i) n
  end.

(** The keys looked for: a quoted name, with the colon. *)
Definition jname (name : string) : list Z := [34] ++ str name ++ [34].
Definition jkey (name : string) : list Z := jname name ++ [58].

Definition parse_post_A_content (text : list Z) (r : request_content_A_t)
    : res (Z * request_content_A_t) :=
  match strstr text (jkey "requestHostIp") with
  | None => Ok (-1, r)
  | Some _ =>
      let! ip := copy_value (request_host_ip r) text (jkey "requestHostIp") in
      let! port_text := value_start text (jkey "requestHostPort") in
      let port := scan_int port_text (request_host_port r) in
      let! id := copy_value (request_id r) text (jkey "requestId") in
      let! object_text := value_start text (jkey "objectId") in
      let object := scan_int object_text (object_id r) in
      let! types := copy_value (type_list r) text (jkey "typeList") in
      let has_normal := bool_decide (is_Some (strstr text (jkey "imageNormalPath"))) in
      let! normal := if has_normal then copy_value (image_normal_path r) text (jkey "imageNormalPath")
                     else Ok (image_normal_path r) in
      let! path := copy_value (image_path_list r) text (jkey "imageList") in
      (* the printf of the five strings *)
      let! _ := read_str ip in
      let! _ := read_str id in
      let! _ := read_str types in
      let! _ := read_str normal in
      let! _ := read_str path in
      let! (types, tdata) := split_list types (type_data r) in
      let! (path, pdata) := split_list path (image_path_list_data r) in
      let! (normal, ndata) := if has_normal then split_list normal (image_normal_path_data r)
                              else Ok (normal, image_normal_path_data r) in
      let! _ := print_rows tdata 0 (Z.to_nat (count tdata)) in
      let! _ := print_rows pdata 0 (Z.to_nat (count pdata)) in
      let! _ := print_rows ndata 0 (Z.to_nat (count ndata)) in
      Ok (0, RequestA ip port id object types tdata normal ndata path pdata)
  end.

(** ** The packets *)

Definition CRLF : list Z := [13; 10].

(** The points of one area, objects with members x and y separated by commas. *)
Fixpoint area_points (a : Area) (j : nat) (n : nat) : list (list Z) :=
  match n with
  | O => []
  | S n =>
      ([123] ++ jkey "x" ++ [34] ++ print_lf (nth j (a_x a) dzero) ++ [34; 44]
         ++ jkey "y" ++ [34] ++ print_lf (nth j (a_y a) dzero) ++ [34; 125])
      :: (if Z.of_nat j + 1 <? a_count a then [[44]] else []) ++ area_points a (S j) n
  end.

Fixpoint areas_text (r : result_json_t) (i : nat) (n : nat) : list (list Z) :=
  match n with
  | O => []
  | S n =>
      let a := nth i (r_area r) empty_area in
      ([123] ++ jkey "areas" ++ [91]) :: area_points a 0 (Z.to_nat (a_count a)) ++ [[93; 125]]
      ++ (if Z.of_nat i + 1 <? r_count r then [[44]] else []) ++ areas_text r (S i) n
  end.

(** The pieces build_A_callback_content prints, one per sprintf. *)
Definition callback_pieces (q : request_content_A_t) (r : result_json_t) : res (list (list Z)) :=
  let! id := read_str (request_id q) in
  let! type := read_str (r_type r) in
  let! value := read_str (r_value r) in
  let! path := read_str (res_image_path r) in
  let! desc := read_str (r_desc r) in
  Ok ([[123]; jkey "requestId" ++ [34] ++ id ++ [34; 44]; jkey "resultsList" ++ [91; 123];
       jkey "objectId" ++ [34] ++ print_int (object_id q) ++ [34; 44]; jkey "results" ++ [91; 123];
       jkey "type" ++ [34] ++ type ++ [34; 44]; jkey "value" ++ [34] ++ value ++ [34; 44];
       jkey "code" ++ [34] ++ print_int (r_code r) ++ [34; 44];
       jkey "resImagePath" ++ [34] ++ path ++ [34; 44]; jkey "pos" ++ [91]]
      ++ areas_text r 0 (Z.to_nat (r_count r))
      ++ [[93]; [125; 93; 44]; jkey "conf" ++ [34] ++ print_lf (r_conf r) ++ [34; 44];
          jkey "desc" ++ [34] ++ desc ++ [34]; [125; 93]; [125]]).

Definition build_A_callback_content (buf : list Z) (q : request_content_A_t) (r : result_json_t)
    : res (list Z * Z) :=
  let! pieces := callback_pieces q r in sprintfs buf 0 pieces.

Definition build_callback_packet (buf content : list Z) (content_len : Z) (file_name : list Z)
    : res (list Z * Z) :=
  let! name := read_str file_name in
  let! text := read_str content in
  sprintfs buf 0
    [str "POST " ++ name ++ str " HTTP/1.1" ++ CRLF;
     str "HOST: 10.106.249.210:8080" ++ CRLF;
     str "Content-Type: application/json" ++ CRLF;
     str "Content-Length: " ++ print_int content_len ++ CRLF;
     CRLF;
     text].

(** The reason phrase; other codes take the EXIT branch. *)
Definition error_text (error_type : Z) : option (list Z) :=
  if error_type =? 200 then Some (str "OK" ++ CRLF)
  else if error_type =? 400 then
    Some (str "The client request has a syntax error, cannot be understood by the server." ++ CRLF)
  else if error_type =? 500 then Some (str "The service side is abnormal." ++ CRLF)
  else None.

Definition error_body (error_type : Z) : list Z :=
  [123] ++ jkey "code" ++ [34] ++ print_int error_type ++ [34; 125].

Definition build_error_callback (buf : list Z) (error_type : Z) : res (list Z * Z) :=
  let! (buf, pos) := sprintf buf 0 (str "HTTP/1.1 " ++ print_int error_type ++ [32]) in
  match error_text error_type with
  | None => let! buf := write_at buf 0 (replicate (Z.to_nat pos) 0) in Ok (buf, -1)
  | Some text =>
      let! (buf, pos) := sprintfs buf pos
        [text; str "Content-type: application/json" ++ CRLF;
         str "Content-length: 14" ++ CRLF ++ [10]; error_body error_type] in
      let! _ := read_str buf in
      Ok (buf, pos)
  end.

(** sscanf(data, "HTTP/1.1 %d %s", &errcode, errstr) with errstr NULL. *)
Definition fmt_status : list directive :=
  map DLit (str "HTTP/1.1") ++ [DSpace; DInt; DSpace; DStr].

Definition parse_callback_packet (data : list Z) : res Z :=
  match sscanf data fmt_status with
  | [SInt _; SStr _] => Ub NullDeref
  | _ => Ok 0
  end.

(** ** The result file of the algorithm *)

(** The file system as the server sees it: a missing file, a file that cannot
    be opened, or its bytes. *)
Definition files : Type := list Z -> option (option (list Z)).

Definition exists_file (fs : files) (path : list Z) : bool := bool_decide (is_Some (fs path)).

(** memset(buf, 0, 1024); fread(buf, 1, 1024, f); the array has 10240 bytes. *)
Definition read_open (f : option (list Z)) (buf : list Z) : res (Z * list Z) :=
  match f with
  | None => Ok (-1, buf)
  | Some bytes =>
      let! buf := write_at buf 0 (zeros 1024) in
      let! buf := write_at buf 0 (take 1024 bytes) in
      let! _ := read_str buf in
      Ok (0, buf)
  end.

Definition read_result_json (fs : files) (buf : list Z) : res (Z * list Z) :=
  match fs (str "/result.json") with
  | Some f => read_open f buf
  | None =>
      match fs (str "/root/result.json") with
      | Some f => read_open f buf
      | None => Ok (-1, buf)
      end
  end.

(** A field that is copied when its key is there. *)
Definition copy_optional (dst text key : list Z) : res (list Z) :=
  match strstr text key with None => Ok dst | Some _ => copy_value dst text key end.

(** The text two characters after the colon that follows the key. *)
Definition colon_value (text key : list Z) : res (option (list Z)) :=
  match strstr text key with
  | None => Ok None
  | Some start =>
      let after := drop (start + length key) text in
      match strchr after 58 with
      | None => Ub NullDeref
      | Some c =>
          (* the second character must be inside the string or its NUL *)
          if (c + 2 <=? length after)%nat then Ok (Some (drop (c + 2) after)) else Ub OobRead
      end
  end.

(** The loop over the coordinates called [name] in [text]. *)
Fixpoint coord_loop (fuel : nat) (name text : list Z) (vals : list double) (j : nat)
    : res (list double * Z) :=
  match strstr text name with
  | None => Ok (vals, Z.of_nat j)
  | Some start =>
      match fuel with
      | O => Ub NoReturn
      | S fuel =>
          let after := drop (start + 3) text in
          match strstr after [58; 9] with
          | None => Ub NullDeref
          | Some v =>
              let value := drop v after in
              match scan_lf (drop 2 value) with
              | None => coord_loop fuel name value vals (S j)
              | Some (d, _) =>
                  if (j <? 4)%nat then coord_loop fuel name value (<[j:=d]> vals) (S j)
                  else Ub OobWrite
              end
          end
      end
  end.

(** The loop over the areas in [text]; [temp] keeps what earlier areas left. *)
Fixpoint area_loop (fuel : nat) (text temp : list Z) (areas : list Area) (i : nat)
    : res (list Area * Z) :=
  match strstr text (jkey "areas") with
  | None => Ok (areas, Z.of_nat i)
  | Some start =>
      match fuel with
      | O => Ub NoReturn
      | S fuel =>
          let after := drop (start + length (jkey "areas")) text in
          match strchr after 91 with
          | None => Ub NullDeref
          | Some b =>
              let from := drop b after in
              match strchr from 93 with
              | None => Ub NullDeref
              | Some e =>
                  let! temp := strncpy temp (drop 1 from) (Z.of_nat e - 1) in
                  let! points := read_str temp in
                  if (i <? 32)%nat then
                    let a := nth i areas empty_area in
                    let! (xs, _) := coord_loop (length points) (jname "x") points (a_x a) 0 in
                    let! (ys, j) := coord_loop (length points) (jname "y") points (a_y a) 0 in
                    area_loop fuel (drop e from) temp (<[i := MkArea j xs ys]> areas) (S i)
                  else Ub OobWrite
              end
          end
      end
  end.

Definition parse_result_json (text : list Z) (q : request_content_A_t) (r : result_json_t)
    : res (Z * result_json_t) :=
  let! type := copy_optional (r_type r) text (jkey "type") in
  let! image := read_str (image_path_list q) in
  let! (path, _) := sprintf (res_image_path r) 0 (str "/root/image/" ++ image ++ str ".rgb") in
  let! desc := copy_optional (r_desc r) text (jkey "desc") in
  let! value := copy_optional (r_value r) text (jkey "value") in
  let! code_text := colon_value text (jname "code") in
  let code := match code_text with Some t => scan_int t (r_code r) | None => r_code r end in
  let! conf_text := colon_value text (jname "conf") in
  let conf := match conf_text with
              | Some t => match scan_lf t with Some (d, _) => d | None => r_conf r end
              | None => r_conf r
              end in
  let! (areas, n) := match strstr text (jkey "pos") with
                     | None => Ok (r_area r, r_count r)
                     | Some p => area_loop (length text) (drop p text) (zeros 512) (r_area r) 0
                     end in
  let! _ := read_str type in
  let! _ := read_str value in
  let! _ := read_str desc in
  if forallb (fun a => a_count a <=? 4) (take (Z.to_nat n) areas)
  then Ok (0, ResultJson n type value code path desc areas conf)
  else Ub OobRead.

(** ** One request *)

(** The runs of a command: the lines each popen gives, or a failed popen.  The
    command is run again while a line holds "failed". *)
Fixpoint popen_exe (runs : list (option (list (list Z)))) : res nat :=
  match runs with
  | [] => Ub NoReturn
  | None :: _ => Ub NullDeref
  | Some log :: runs =>
      if existsb (fun line => bool_decide (is_Some (strstr line (str "failed")))) log
      then let! n := popen_exe runs in Ok (S n)
      else Ok 1%nat
  end.

Definition model_path : list Z := str "/root/demo/data/npu_model/detection/yolov8_onnx.npubin".
Definition username : list Z := str "ftpUser".
Definition password : list Z := str "Password@1".

Inductive action : Type :=
  | ASend (fd : Z) (bytes : list Z)
  | APopen (cmd : list Z)
  | ASystem (cmd : list Z)
  | ARemove (path : list Z)
  | AConnect (ip : list Z) (port : Z)
  | AClose (fd : Z).

(** What the environment answers while one request is handled. *)
Record world : Type := World {
  w_more : Z * list Z;                       (* the second recv *)
  w_send_error : bool;                       (* send of the 400 answer fails *)
  w_send_ok : bool;                          (* send of the 200 answer succeeds *)
  w_get : list (option (list (list Z)));     (* runs of ftps_client get *)
  w_before : files;                          (* when old results are removed *)
  w_after : files;                           (* after the algorithm has run *)
  w_put : list (option (list (list Z)));
  w_connect : Z;
  w_sent : bool                              (* send of the result succeeds *)
}.

(** The globals and the locals of main that live across requests. *)
Record server : Type := Server {
  s_request : request_content_A_t;
  s_result : result_json_t;
  s_file_name : list Z;                      (* 128 *)
  s_content : list Z                         (* 512 *)
}.

(** How the handling of a readable socket ends: on to the count of ready
    sockets, past it, out of the client loop, or out of main. *)
Inductive leave : Type := Served | Skipped | LoopBreak | MainReturn.

Definition command (parts : list (list Z)) : res (list Z) :=
  let! (buf, _) := sprintf (zeros 1024) 0 (mjoin parts) in read_str buf.

(** From "response" to the end of the branch: answer 200, fetch the image, run
    the algorithm, upload the picture and post the result. *)
Definition run_job (w : world) (fd : Z) (sv : server) : res (leave * list action * server) :=
  let q := s_request sv in
  let! (ok, len) := build_error_callback (zeros 1024) 200 in
  let answer := [ASend fd (take (Z.to_nat len) ok)] in
  if negb (w_send_ok w) then Ok (LoopBreak, answer, sv)
  else
    let! image := read_str (image_path_list q) in
    let! ip := read_str (request_host_ip q) in
    let! types := read_str (type_list q) in
    let! get := command [str "/root/ftps_client get /root/image/"; image; [32]; image; [32]; ip;
                         str " 30021 "; username; [32]; password] in
    let! gets := popen_exe (w_get w) in
    let! convert := command [str "/root/jpg2rgb /root/image/"; image; str " /root/image/"; image; str ".rgb"] in
    let removed := filter (fun p => exists_file (w_before w) p) [str "/result.json"; str "/root/result.json"] in
    let! detect := command [str "/root/demo/lenovo_alg /root/image/"; image; str ".rgb "; model_path; [32]; types] in
    let! (_, json) := read_result_json (w_after w) (zeros 10240) in
    let! text := read_str json in
    let! (_, result) := parse_result_json text q (s_result sv) in
    let! put := command [str "/root/ftps_client put "; image; str ".rgb /root/image/"; image; str ".rgb "; ip;
                         str " 30021 "; username; [32]; password] in
    let! puts := popen_exe (w_put w) in
    let! (content, content_len) := build_A_callback_content (s_content sv) q result in
    let! (packet, packet_len) := build_callback_packet (zeros 1024) content content_len
      (str "/platform/api/v1/task/results/pic-result-notify" ++ [0]) in
    let acts := answer ++ replicate gets (APopen get) ++ [ASystem convert] ++ map ARemove removed
      ++ [ASystem detect] ++ replicate puts (APopen put)
      ++ [AConnect ip (request_host_port q); ASend (w_connect w) (take (Z.to_nat packet_len) packet);
          AClose (w_connect w)] in
    if negb (w_sent w) then Ok (LoopBreak, acts, Server q result (s_file_name sv) content)
    else Ok (Served, acts, Server empty_request empty_result (s_file_name sv) (zeros 512)).

(** The branch for a socket on which recv gave [bytes], more than none and at
    most 1024. *)
Definition handle_request (w : world) (fd : Z) (bytes : list Z) (sv : server)
    : res (leave * list action * server) :=
  let! buf := write_at (zeros 1024) 0 bytes in
  let! text := read_str buf in
  let! next := match strchr text 123 with
               | Some _ => Ok (Some buf)
               | None =>
                   let (ret, more) := w_more w in
                   if ret <? 0 then Ok None
                   else let! buf := write_at buf (zlen text) (take (1024 - length text) more) in Ok (Some buf)
               end in
  match next with
  | None => Ok (MainReturn, [], sv)
  | Some buf =>
      let! data := read_str buf in
      let! (ret, file_name, content) := check_if_post data (s_file_name sv) (s_content sv) in
      if ret =? -1 then
        let! (answer, len) := build_error_callback (zeros 1024) 400 in
        Ok (Skipped, [ASend fd (take (Z.to_nat len) answer)],
            Server (s_request sv) (s_result sv) file_name content)
      else
        let! request := if ret =? 0
                        then (let! text := read_str content in
                              let! (_, q) := parse_post_A_content text (s_request sv) in Ok q)
                        else (let! _ := parse_callback_packet data in Ok (s_request sv)) in
        run_job w fd (Server request (s_result sv) file_name (zeros 512))
  end.

Definition initial_server : server := Server empty_request empty_result (zeros 128) (zeros 512).

(** * Lemmas *)

Section Arrays.
Implicit Types (buf s t : list Z).

Lemma write_at_ok buf off s : 0 <= off -> off + zlen s <= zlen buf ->
  write_at buf off s = Ok (take (Z.to_nat off) buf ++ s ++ drop (Z.to_nat off + length s) buf).
Proof.
  intros H1 H2. unfold write_at. rewrite (proj2 (Z.leb_le 0 off)), (proj2 (Z.leb_le _ (zlen buf))) by lia. done.
Qed.

Lemma write_at_length buf off s buf' : write_at buf off s = Ok buf' -> length buf' = length buf.
Proof.
  unfold write_at. destruct (_ && _) eqn:E; [|done]. intros [= <-].
  apply andb_true_iff in E as [H1%Z.leb_le H2%Z.leb_le]. unfold zlen in *.
  rewrite !length_app, length_take, length_drop. lia.
Qed.

Lemma strncpy_length dst src n dst' : strncpy dst src n = Ok dst' -> length dst' = length dst.
Proof.
  unfold strncpy. destruct (Z.ltb_spec n 0); [done|]. destruct (Z.ltb_spec (zlen dst) n); [done|].
  intros [= <-]. unfold zlen in *. rewrite length_app, length_take, length_drop, length_app, length_replicate. lia.
Qed.

Lemma sprintf_length buf pos s buf' pos' : sprintf buf pos s = Ok (buf', pos') -> length buf' = length buf.
Proof.
  unfold sprintf. intros (b & E & [= <- _])%res_bind_Ok. by eapply write_at_length.
Qed.

Lemma sprintfs_length l : forall buf pos buf' pos',
  sprintfs buf pos l = Ok (buf', pos') -> length buf' = length buf.
Proof.
  induction l as [|s l IH]; intros buf pos buf' pos'; cbn [sprintfs]; [by intros [= <- _]|].
  intros ([b p] & E & H)%res_bind_Ok. apply IH in H. by rewrite H; eapply sprintf_length.
Qed.

(** Consecutive sprintf calls concatenate their texts. *)
Lemma sprintf_zeros n t s : (length t + length s < n)%nat ->
  sprintf (t ++ zeros (n - length t)) (zlen t) s
  = Ok ((t ++ s) ++ zeros (n - length (t ++ s)), zlen (t ++ s)).
Proof.
  intros Hl. unfold sprintf, zeros. rewrite write_at_ok by
    (unfold zlen; rewrite ?length_app, ?length_replicate; cbn; lia).
  cbn [res_bind]. rewrite zlen_app. do 2 f_equal. unfold zlen. rewrite Nat2Z.id, take_app_length.
  rewrite drop_app_ge by lia. rewrite drop_replicate, !length_app. cbn [length].
  replace (n - (length t + length s))%nat with (S (n - length t - (length t + (length s + 1) - length t))) by lia.
  cbn [replicate]. by rewrite <- !app_assoc.
Qed.

Lemma sprintfs_zeros n l : forall t, (length t + length (mjoin l) < n)%nat ->
  sprintfs (t ++ zeros (n - length t)) (zlen t) l
  = Ok ((t ++ mjoin l) ++ zeros (n - length (t ++ mjoin l)), zlen (t ++ mjoin l)).
Proof.
  induction l as [|s l IH]; intros t Hl; cbn [sprintfs];
    [change (mjoin (@nil (list Z))) with (@nil Z); by rewrite !app_nil_r|].
  change (mjoin (s :: l)) with (s ++ mjoin l) in *. rewrite length_app in Hl. rewrite sprintf_zeros by lia. cbn [res_bind].
  rewrite IH by (rewrite length_app; lia). by rewrite <- (app_assoc t s).
Qed.

Lemma c_string_zeros t n : 0 ∉ t -> c_string (t ++ zeros n) = t.
Proof.
  intros Ht. unfold c_string, zeros. rewrite span_all; [done| |].
  - apply Forall_forall. intros x Hx. destruct (Z.eqb_spec x 0) as [->|]; done.
  - intros c r' E. destruct n; [done|]. by injection E as <- <-.
Qed.

Lemma c_string_nul t r : 0 ∉ t -> c_string (t ++ 0 :: r) = t.
Proof.
  intros Ht. unfold c_string. rewrite span_all; [done| |by intros ? ? [= <- <-]].
  apply Forall_forall. intros x Hx. destruct (Z.eqb_spec x 0) as [->|]; done.
Qed.

Lemma read_str_nul t r : 0 ∉ t -> read_str (t ++ 0 :: r) = Ok t.
Proof.
  intros Ht. unfold read_str. rewrite bool_decide_eq_true_2 by set_solver. by rewrite c_string_nul.
Qed.

Lemma read_str_zeros t n : 0 ∉ t -> (0 < n)%nat -> read_str (t ++ zeros n) = Ok t.
Proof. intros Ht Hn. destruct n; [lia|]. by apply read_str_nul. Qed.

(** strncpy of a shorter text over a cleared array. *)
Lemma strncpy_zeros n s r : (length s < n)%nat ->
  strncpy (zeros n) (s ++ r) (zlen s) = Ok (s ++ zeros (n - length s)).
Proof.
  intros Hl. unfold strncpy, zeros. assert (zlen (replicate n 0) = Z.of_nat n) as En
    by (unfold zlen; by rewrite length_replicate).
  rewrite En. unfold zlen. destruct (Z.ltb_spec (Z.of_nat (length s)) 0); [lia|].
  destruct (Z.ltb_spec (Z.of_nat n) (Z.of_nat (length s))); [lia|].
  rewrite Nat2Z.id, <- app_assoc, take_app_length, drop_replicate. done.
Qed.
End Arrays.

Section Searches.
Implicit Types (s p a b k v : list Z).

Lemma is_prefix_head x p s : is_prefix (x :: p) s = true -> hd_error s = Some x.
Proof. destruct s as [|y s]; [done|]. cbn. destruct (Z.eqb_spec x y) as [->|]; done. Qed.

(** A character that does not begin the pattern is skipped. *)
Lemma strstr_skip x p y s : x <> y -> strstr (y :: s) (x :: p) = S <$> strstr s (x :: p).
Proof. intros H. cbn [strstr is_prefix]. destruct (Z.eqb_spec x y); done. Qed.

Lemma strstr_skips x p a s : x ∉ a -> strstr (a ++ s) (x :: p) = (fun n => length a + n)%nat <$> strstr s (x :: p).
Proof.
  induction a as [|y a IH]; intros Ha; [cbn [app length]; by destruct (strstr s (x :: p))|].
  apply not_elem_of_cons in Ha as [Hx Ha]. change ((y :: a) ++ s) with (y :: (a ++ s)).
  rewrite strstr_skip, IH by done. by destruct (strstr s (x :: p)).
Qed.

Lemma strstr_here p s : strstr (p ++ s) p = Some 0%nat.
Proof.
  assert (is_prefix p (p ++ s) = true) as E by (apply is_prefix_app; eauto).
  destruct (p ++ s); cbn [strstr]; by rewrite E.
Qed.

(** Without a match at the first character the search goes on behind it. *)
Lemma strstr_miss p y s : is_prefix p (y :: s) = false -> strstr (y :: s) p = S <$> strstr s p.
Proof. intros H. cbn [strstr]. by rewrite H. Qed.

(** A quote-free name before a quote is found only as itself. *)
Lemma is_prefix_name k v c d r : 34 ∉ k -> 34 ∉ v ->
  is_prefix (k ++ [34; c]) (v ++ 34 :: d :: r) = true -> k = v /\ c = d.
Proof.
  revert v. induction k as [|x k IH]; intros [|y v] Hk Hv; cbn [app is_prefix].
  - rewrite andb_true_r, Z.eqb_refl. cbn. intros ->%Z.eqb_eq. done.
  - apply not_elem_of_cons in Hv as [Hy _]. destruct (Z.eqb_spec 34 y); [done|]. done.
  - apply not_elem_of_cons in Hk as [Hx _]. destruct (Z.eqb_spec x 34); [done|]. done.
  - apply not_elem_of_cons in Hk as [_ Hk], Hv as [_ Hv].
    destruct (Z.eqb_spec x y) as [->|]; [|done]. cbn [andb]. intros [-> ->]%IH; done.
Qed.

Lemma strrchr_from_app a s c i f :
  strrchr_from (a ++ s) c i f = strrchr_from s c (i + length a) (strrchr_from a c i f).
Proof.
  revert i f. induction a as [|x a IH]; intros i f; cbn; [by rewrite Nat.add_0_r|].
  rewrite IH. f_equal. lia.
Qed.

Lemma strrchr_from_miss s c i f : c ∉ s -> strrchr_from s c i f = f.
Proof.
  revert i f. induction s as [|x s IH]; intros i f; cbn; [done|]. rewrite not_elem_of_cons. intros [Hx Hs].
  rewrite IH by done. destruct (Z.eqb_spec x c); [congruence|done].
Qed.

Lemma strrchr_app a c t : c ∉ t -> strrchr (a ++ [c] ++ t) c = Some (length a).
Proof.
  intros Ht. unfold strrchr. rewrite !strrchr_from_app, strrchr_from_miss by done. cbn. by rewrite Z.eqb_refl.
Qed.
End Searches.

(** ** Members of a flat JSON object with string values *)

Definition member (kv : list Z * list Z) : list Z := [34] ++ kv.1 ++ [34; 58; 34] ++ kv.2 ++ [34].

Fixpoint members (l : list (list Z * list Z)) : list Z :=
  match l with
  | [] => [125]
  | [kv] => member kv ++ [125]
  | kv :: l => member kv ++ [44] ++ members l
  end.

Definition object_text (l : list (list Z * list Z)) : list Z := [123] ++ members l.

Definition plain_member (kv : list Z * list Z) : Prop :=
  34 ∉ kv.1 /\ 34 ∉ kv.2.

Section Members.
Implicit Types (k v : list Z) (l : list (list Z * list Z)).

Lemma quote_miss k v d r : 34 ∉ k -> 34 ∉ v -> k <> v \/ d <> 58 ->
  strstr (34 :: v ++ 34 :: d :: r) ([34] ++ k ++ [34; 58])
  = (fun n => S (length v) + n)%nat <$> strstr (34 :: d :: r) ([34] ++ k ++ [34; 58]).
Proof.
  intros Hk Hv Hne. rewrite strstr_miss.
  - cbn [app]. rewrite strstr_skips by done. by destruct (strstr _ _).
  - cbn [app is_prefix]. rewrite Z.eqb_refl. cbn [andb].
    destruct (is_prefix _ _) eqn:E; [|done]. apply is_prefix_name in E as [-> <-]; naive_solver.
Qed.

Lemma skip_member k kv r : plain_member kv -> 34 ∉ k -> k <> kv.1 -> k <> [58] -> k <> [44] ->
  strstr (member kv ++ [44; 34] ++ r) ([34] ++ k ++ [34; 58])
  = (fun n => length (member kv) + 1 + n)%nat <$> strstr (34 :: r) ([34] ++ k ++ [34; 58]).
Proof.
  destruct kv as [k' v']. intros [Hk' Hv'] Hk Hne H58 H44. unfold member. cbn [fst snd] in *.
  assert (([34] ++ k' ++ [34; 58; 34] ++ v' ++ [34]) ++ [44; 34] ++ r
    = 34 :: k' ++ 34 :: 58 :: 34 :: v' ++ 34 :: 44 :: 34 :: r) as ->.
  { cbn. rewrite <- ?app_assoc. cbn. by rewrite <- ?app_assoc. }
  rewrite quote_miss by auto.
  change (34 :: 58 :: 34 :: v' ++ 34 :: 44 :: 34 :: r)
    with (34 :: [58] ++ 34 :: (v' ++ 34 :: 44 :: 34 :: r)).
  assert (strstr (34 :: [58] ++ 34 :: v' ++ 34 :: 44 :: 34 :: r) ([34] ++ k ++ [34; 58])
    = (fun n => 2 + n)%nat <$> strstr (34 :: v' ++ 34 :: 44 :: 34 :: r) ([34] ++ k ++ [34; 58])) as ->.
  { destruct v' as [|x v'']; [apply (quote_miss k [58] 34); auto; set_solver|].
    apply (quote_miss k [58] x); auto; set_solver. }
  rewrite quote_miss by auto.
  assert (strstr (34 :: 44 :: 34 :: r) ([34] ++ k ++ [34; 58])
    = (fun n => 2 + n)%nat <$> strstr (34 :: r) ([34] ++ k ++ [34; 58])) as ->.
  { destruct r as [|x r]; [|apply (quote_miss k [44] x); auto; set_solver].
    cbn [app]. rewrite strstr_miss.
    - rewrite strstr_skip by done. by destruct (strstr _ _).
    - cbn [is_prefix]. rewrite Z.eqb_refl. cbn [andb]. destruct (is_prefix _ [44; 34]) eqn:E; [|done].
      apply is_prefix_app in E as [q E]. destruct k as [|y [|z k]]; cbn in E; try done.
      by apply (f_equal length) in E; cbn in E; rewrite !length_app in E; cbn in E; lia. }
  rewrite <- !option_fmap_compose. unfold compose.
  replace (length ([34%Z] ++ k' ++ [34%Z; 58%Z; 34%Z] ++ v' ++ [34%Z]))
    with (length k' + length v' + 5)%nat by (rewrite !length_app; cbn; lia).
  destruct (strstr _ _); cbn; [f_equal; lia|done].
Qed.

Lemma members_head l : l <> [] -> exists r, members l = 34 :: r.
Proof. destruct l as [|kv [|kv' l]]; [done|by eexists..]. Qed.

Definition key_ok (k : list Z) : Prop := 34 ∉ k /\ k <> [58] /\ k <> [44].

Lemma members_find l1 k v l2 : Forall plain_member l1 -> key_ok k -> 34 ∉ v -> k ∉ l1.*1 ->
  exists pre rest, members (l1 ++ (k, v) :: l2) = pre ++ ([34] ++ k ++ [34; 58]) ++ 34 :: v ++ 34 :: rest /\
    strstr (members (l1 ++ (k, v) :: l2)) ([34] ++ k ++ [34; 58]) = Some (length pre).
Proof.
  intros Hl (Hk & H58 & H44) Hv. induction Hl as [|kv l1 Hkv Hl IH]; intros Hn.
  - assert (exists rest, members ((k, v) :: l2) = ([34] ++ k ++ [34; 58]) ++ 34 :: v ++ 34 :: rest) as [rest E].
    { destruct l2 as [|kv l2]; cbn [members member fst snd];
        [exists [125]|exists ([44] ++ members (kv :: l2))]; by list_simplifier. }
    exists [], rest. change ([] ++ (k, v) :: l2) with ((k, v) :: l2). split; [done|].
    rewrite E. apply (strstr_here ([34] ++ k ++ [34; 58])).
  - rewrite fmap_cons, not_elem_of_cons in Hn. destruct Hn as [Hne Hn].
    destruct (IH Hn) as (pre & rest & E & Es).
    assert (members ((kv :: l1) ++ (k, v) :: l2) = member kv ++ [44] ++ members (l1 ++ (k, v) :: l2)) as Em.
    { cbn [app members]. by destruct l1. }
    destruct (members_head (l1 ++ (k, v) :: l2)) as [r Er]; [by destruct l1|].
    exists (member kv ++ [44] ++ pre), rest. rewrite Em. split.
    + rewrite E. by rewrite <- !app_assoc.
    + rewrite Er. change (member kv ++ [44] ++ 34 :: r) with (member kv ++ [44; 34] ++ r).
      rewrite skip_member by done. rewrite Er in Es. rewrite Es. cbn. f_equal.
      rewrite !length_app. cbn. lia.
Qed.

Lemma jkey_eq name : jkey name = [34] ++ str name ++ [34; 58].
Proof. unfold jkey, jname. by rewrite <- !app_assoc. Qed.

Lemma strchr_here s c r : c ∉ s -> strchr (s ++ c :: r) c = Some (length s).
Proof. apply strchr_app_r. Qed.

(** What the parser finds for a member of the object. *)
Lemma find_value l1 name v l2 : Forall plain_member l1 -> key_ok (str name) -> 34 ∉ v ->
  str name ∉ l1.*1 ->
  let text := object_text (l1 ++ (str name, v) :: l2) in
  is_Some (strstr text (jkey name)) /\ exists rest, value_start text (jkey name) = Ok (v ++ 34 :: rest).
Proof.
  intros Hl Hk Hv Hn text. destruct (members_find l1 (str name) v l2 Hl Hk Hv Hn) as (pre & rest & E & Es).
  rewrite <- jkey_eq in *. set (key := jkey name) in *.
  assert (strstr text key = Some (S (length pre))) as Ht.
  { unfold text, object_text, key. rewrite jkey_eq. change ([123] ++ members ?l) with (123 :: members l).
    cbn [app]. rewrite strstr_skip by done. change (34 :: str name ++ [34; 58]) with ([34] ++ str name ++ [34; 58]).
    rewrite <- jkey_eq. fold key. by rewrite Es. }
  split; [by rewrite Ht|]. exists rest. unfold value_start. rewrite Ht.
  assert (drop (S (length pre) + length key) text = 34 :: v ++ 34 :: rest) as ->.
  { unfold text, object_text. rewrite E. cbn [app Nat.add drop].
    rewrite drop_app_ge by lia. rewrite drop_app_ge by lia.
    by replace (length pre + length key - length pre - length key)%nat with 0%nat by lia. }
  cbn [strchr]. rewrite Z.eqb_refl. done.
Qed.

Lemma copy_value_member l1 name v l2 n : Forall plain_member l1 -> key_ok (str name) -> 34 ∉ v ->
  str name ∉ l1.*1 -> (length v < n)%nat ->
  copy_value (zeros n) (object_text (l1 ++ (str name, v) :: l2)) (jkey name) = Ok (v ++ zeros (n - length v)).
Proof.
  intros Hl Hk Hv Hn Hlen. destruct (find_value l1 name v l2 Hl Hk Hv Hn) as [_ [rest E]].
  unfold copy_value. rewrite E. cbn [res_bind]. rewrite strchr_here by done. by apply strncpy_zeros.
Qed.

Lemma scan_int_member l1 name n l2 old : Forall plain_member l1 -> key_ok (str name) ->
  str name ∉ l1.*1 -> INT_MIN <= n <= INT_MAX ->
  exists t, value_start (object_text (l1 ++ (str name, print_int n) :: l2)) (jkey name) = Ok t /\ scan_int t old = n.
Proof.
  intros Hl Hk Hn Hr.
  assert (34 ∉ print_int n) as Hq.
  { unfold print_int. destruct (Z.ltb_spec n 0);
      [apply not_elem_of_cons; split; [done|]|]; intros Hin; apply print_nat_spec in Hin; lia. }
  destruct (find_value l1 name (print_int n) l2 Hl Hk Hq Hn) as [_ [rest E]]. eexists. split; [exact E|].
  unfold scan_int. cbn [sscanf]. rewrite scan_print_int by done. unfold clamp, LONG_MIN, LONG_MAX, INT_MIN, INT_MAX in *.
  rewrite Z.min_r, Z.max_r by lia. apply sext_small; lia.
Qed.
End Members.

Section Post.
Implicit Types (name text : list Z).

(** A target that survives the search for the protocol word. *)
Record target_ok (name : list Z) : Prop := {
  target_space : 32 ∉ name;
  target_brace : 123 ∉ name;
  target_string : 0 ∉ name;
  target_path : hd_error name = Some 47
}.

(** Header fields and a body between braces. *)
Definition post_head (name : list Z) (len : Z) : list Z :=
  str "POST " ++ name ++ str " HTTP/1.1" ++ CRLF ++ str "HOST: 10.106.249.210:8080" ++ CRLF
  ++ str "Content-Type: application/json" ++ CRLF ++ str "Content-Length: " ++ print_int len ++ CRLF ++ CRLF.

Lemma find_protocol name r : target_ok name ->
  strstr (str "POST " ++ name ++ str " HTTP" ++ r) (str " HTTP") = Some (5 + length name)%nat.
Proof.
  intros [Hs _ _ Hh]. change (str "POST ") with ([80; 79; 83; 84] ++ [32]).
  change (str " HTTP") with (32 :: str "HTTP"). rewrite <- app_assoc.
  rewrite strstr_skips by (by apply not_elem_of_cons; split; [done|]; set_solver).
  cbn [app]. rewrite strstr_miss.
  - rewrite strstr_skips by done. change (32 :: str "HTTP" ++ r) with ((32 :: str "HTTP") ++ r).
    rewrite strstr_here. cbn. f_equal. lia.
  - cbn [is_prefix]. rewrite Z.eqb_refl. cbn [andb].
    destruct name as [|x name]; [done|]. by injection Hh as ->.
Qed.

Lemma print_int_chars n c : c ∈ print_int n -> c = 45 \/ 48 <= c < 58.
Proof.
  assert (forall m, 0 <= m -> c ∈ print_nat 10 m -> 48 <= c < 58) as Hd.
  { intros m Hm Hc. destruct (print_nat_spec 10 m ltac:(lia) Hm) as (_ & F & S & _).
    apply (proj1 (Forall_forall _ _) F) in Hc as Hv. destruct (S c Hc) as [Hr _].
    cbn in Hv. unfold digit_value, isdigit, isupper in Hv.
    destruct (Z.leb_spec 48 c), (Z.leb_spec c 57), (Z.leb_spec 97 c), (Z.leb_spec c 122), (Z.leb_spec 65 c), (Z.leb_spec c 90);
      cbn in Hv; lia. }
  unfold print_int. destruct (Z.ltb_spec n 0).
  - intros [->|Hc]%elem_of_cons; [by left|]. right. eapply Hd; [|done]. lia.
  - intros Hc. right. eapply Hd; [|done]. lia.
Qed.

Lemma post_head_chars name len c : target_ok name -> c ∈ post_head name len -> c <> 0 /\ c <> 123.
Proof.
  intros [_ Hb H0 _]. unfold post_head, CRLF.
  rewrite !elem_of_app. intros Hc.
  repeat match type of Hc with _ \/ _ => destruct Hc as [Hc|Hc] end;
    try (by apply print_int_chars in Hc; lia);
    try (split; intros ->; by (apply list_elem_of_In in Hc; vm_compute in Hc; tauto || lia || intuition discriminate)).
  split; intros ->; done.
Qed.

Lemma build_packet_text name text : target_ok name -> 0 ∉ text ->
  (length (post_head name (zlen text)) + length text < 1024)%nat ->
  build_callback_packet (zeros 1024) (text ++ [0]) (zlen text) (name ++ [0])
  = Ok ((post_head name (zlen text) ++ text) ++ zeros (1024 - length (post_head name (zlen text) ++ text)),
        zlen (post_head name (zlen text) ++ text)).
Proof.
  intros Hn H0 Hl. unfold build_callback_packet.
  rewrite !read_str_nul by (done || by destruct Hn). cbn [res_bind].
  set (l := [str "POST " ++ _; _; _; _; _; _]).
  assert (mjoin l = post_head name (zlen text) ++ text) as El.
  { unfold l, post_head. cbn [mjoin list_join]. rewrite <- !app_assoc. by rewrite app_nil_r. }
  pose proof (sprintfs_zeros 1024 l []) as Hs. rewrite El in Hs. apply Hs.
  rewrite length_app. cbn [length]. lia.
Qed.
End Post.

Section Requests.
Implicit Types (name body : list Z).

Lemma strchr_body h body : 123 ∉ h -> strchr (h ++ [123] ++ body) 123 = Some (length h).
Proof. intros H. by apply strchr_app_r. Qed.

Lemma strrchr_body h body t :
  125 ∉ t -> strrchr (h ++ [123] ++ body ++ [125] ++ t) 125 = Some (length h + length body + 1)%nat.
Proof.
  intros Ht. rewrite (app_assoc [123]), (app_assoc h), strrchr_app by done.
  rewrite !length_app. f_equal. cbn. lia.
Qed.

(** The test and the two copies, up to the copy of the body; [t] is what follows the last brace. *)
Lemma check_post_tail name r body t f c : target_ok name -> 123 ∉ r -> 125 ∉ t -> (length name <= length f)%nat ->
  let h := str "POST " ++ name ++ str " HTTP" ++ r in
  check_if_post (h ++ [123] ++ body ++ [125] ++ t) f c =
  let! f := strncpy f (name ++ str " HTTP" ++ r ++ [123] ++ body ++ [125] ++ t) (zlen name) in
  let! c := strncpy c ([123] ++ body ++ [125] ++ t) (zlen ([123] ++ body ++ [125])) in
  Ok (0, f, c).
Proof.
  intros Hn Hr Ht Hl h. unfold check_if_post. set (text := h ++ _).
  assert (is_prefix (str "POST ") text = true) as ->.
  { unfold text, h. rewrite <- app_assoc. apply is_prefix_app. by eexists. }
  assert (strstr text (str " HTTP") = Some (5 + length name)%nat) as ->.
  { unfold text, h. rewrite <- !app_assoc. by apply find_protocol. }
  assert (drop 5 text = name ++ str " HTTP" ++ r ++ [123] ++ body ++ [125] ++ t) as ->.
  { unfold text, h. rewrite <- !app_assoc. done. }
  replace (Z.of_nat (5 + length name) - 5) with (zlen name) by (unfold zlen; lia).
  destruct (strncpy f _ (zlen name)) as [f'|e]; [|done]. cbn [res_bind]. unfold text.
  rewrite strchr_body; [|unfold h; rewrite !not_elem_of_app; destruct Hn; split_and!; try done;
    intros Hin%list_elem_of_In; vm_compute in Hin; intuition discriminate].
  rewrite strrchr_body, drop_app_length by done. do 2 f_equal. unfold zlen. rewrite !length_app. cbn [length]. lia.
Qed.

Lemma check_post name r body f c : target_ok name -> 123 ∉ r -> (length name <= length f)%nat ->
  let h := str "POST " ++ name ++ str " HTTP" ++ r in
  check_if_post (h ++ [123] ++ body ++ [125]) f c =
  let! f := strncpy f (name ++ str " HTTP" ++ r ++ [123] ++ body ++ [125]) (zlen name) in
  let! c := strncpy c ([123] ++ body ++ [125]) (zlen ([123] ++ body ++ [125])) in
  Ok (0, f, c).
Proof. intros. apply (check_post_tail name r body []); [done..|apply not_elem_of_nil|done]. Qed.

Lemma strncpy_within f s r : (length s <= length f)%nat -> strncpy f (s ++ r) (zlen s) = Ok (s ++ drop (length s) f).
Proof.
  intros Hl. unfold strncpy, zlen. destruct (Z.ltb_spec (Z.of_nat (length s)) 0); [lia|].
  destruct (Z.ltb_spec (Z.of_nat (length f)) (Z.of_nat (length s))); [lia|].
  by rewrite Nat2Z.id, <- app_assoc, take_app_length.
Qed.

(** recv filling part of the cleared buffer. *)
Lemma received bytes : (length bytes < 1024)%nat -> 0 ∉ bytes ->
  write_at (zeros 1024) 0 bytes = Ok (bytes ++ zeros (1024 - length bytes)) /\
  read_str (bytes ++ zeros (1024 - length bytes)) = Ok bytes.
Proof.
  intros Hl H0. split; [|apply read_str_zeros; [done|lia]].
  rewrite write_at_ok by (unfold zlen, zeros; rewrite ?length_replicate; lia).
  change (Z.to_nat 0) with 0%nat. rewrite take_0. unfold zeros. by rewrite drop_replicate.
Qed.
End Requests.

(** A request as the analysis platform sends it: one value per name. *)
Record job : Type := Job {
  j_ip : list Z; j_port : Z; j_id : list Z; j_object : Z; j_types : list Z;
  j_normal : option (list Z); j_path : list Z
}.

Definition job_members (j : job) : list (list Z * list Z) :=
  [(str "requestHostIp", j_ip j); (str "requestHostPort", print_int (j_port j));
   (str "requestId", j_id j); (str "objectId", print_int (j_object j)); (str "typeList", j_types j);
   (str "imageList", j_path j)]
  ++ match j_normal j with Some n => [(str "imageNormalPath", n)] | None => [] end.

(** A single name in a list: no separator, no NUL, and room for it. *)
Definition name_in (n : nat) (s : list Z) : Prop :=
  s <> [] /\ Forall (fun c => is_sep c = false /\ c <> 0) s /\ (length s < n)%nat.

Record job_ok (j : job) : Prop := {
  job_ip : 34 ∉ j_ip j /\ 0 ∉ j_ip j /\ (length (j_ip j) < 16)%nat;
  job_port : INT_MIN <= j_port j <= INT_MAX;
  job_id : 34 ∉ j_id j /\ 0 ∉ j_id j /\ (length (j_id j) < 64)%nat;
  job_object : INT_MIN <= j_object j <= INT_MAX;
  job_types : name_in 32 (j_types j);
  job_normal : forall n, j_normal j = Some n -> name_in 64 n;
  job_path : name_in 64 (j_path j)
}.

Section Jobs.

Lemma name_in_quote n s : name_in n s -> 34 ∉ s /\ 0 ∉ s.
Proof.
  intros (_ & F & _). split; intros H; apply (proj1 (Forall_forall _ _) F) in H as [H1 H2]; done.
Qed.

Lemma strtok_plain s cur : Forall (fun c => is_sep c = false /\ c <> 0) s -> cur ++ s <> [] ->
  strtok_all cur s = ([cur ++ s], s).
Proof.
  intros F. revert cur. induction F as [|c s [Hc _] F IH]; intros cur Hne; cbn [strtok_all].
  - rewrite app_nil_r in *. by destruct cur.
  - rewrite Hc, IH, <- app_assoc; [done|]. by destruct cur.
Qed.

(** A list of one name is a row, and the array keeps the name. *)
Lemma split_one n s m : name_in 64 s -> (length s < n)%nat -> length (data m) = 64%nat ->
  split_list (s ++ zeros (n - length s)) m =
  Ok (s ++ zeros (n - length s), MultiStr 1 (s ++ [0] ++ drop (length s + 1) (data m))).
Proof.
  intros Hs Hn Hm. pose proof (name_in_quote _ s Hs) as [_ H0]. destruct Hs as (Hne & F & Hl).
  unfold split_list. rewrite read_str_zeros by (done || lia). cbn [res_bind].
  rewrite strtok_plain by done. cbn [app fill_rows]. rewrite write_at_ok by
    (unfold zlen; rewrite ?length_app; cbn; lia).
  cbn [res_bind fill_rows]. change (Z.to_nat (8 * 0)) with 0%nat. rewrite take_0, drop_app_length.
  rewrite length_app. cbn [app length Nat.add]. by rewrite <- app_assoc.
Qed.

Lemma rows_one s r : 0 ∉ s -> print_rows (MultiStr 1 (s ++ [0] ++ r)) 0 1 = Ok tt.
Proof.
  intros H0. unfold print_rows. change (drop (8 * 0) (data (MultiStr 1 (s ++ [0] ++ r)))) with (s ++ 0 :: r).
  by rewrite read_str_nul.
Qed.

Lemma plain_print_int n : 34 ∉ print_int n.
Proof. intros H%print_int_chars. lia. Qed.

Lemma job_plain j : job_ok j -> Forall plain_member (job_members j).
Proof.
  intros []. pose proof plain_print_int.
  unfold job_members. apply Forall_app. split.
  - repeat (apply Forall_cons; split); [..|by apply Forall_nil]; split; cbn;
      try (intros Hin%list_elem_of_In; vm_compute in Hin; intuition discriminate); try tauto; try done.
    + by destruct (name_in_quote _ _ job_types0).
    + by destruct (name_in_quote _ _ job_path0).
  - destruct (j_normal j) as [n|] eqn:E; [|by apply Forall_nil].
    apply Forall_cons; split; [|by apply Forall_nil]. split; cbn.
    + intros Hin%list_elem_of_In; vm_compute in Hin; intuition discriminate.
    + by destruct (name_in_quote _ _ (job_normal0 n eq_refl)).
Qed.
End Jobs.


Section Parsed.

Lemma copy_at j i name v n : job_ok j -> job_members j !! i = Some (str name, v) -> key_ok (str name) ->
  34 ∉ v -> str name ∉ (take i (job_members j)).*1 -> (length v < n)%nat ->
  copy_value (zeros n) (object_text (job_members j)) (jkey name) = Ok (v ++ zeros (n - length v)).
Proof.
  intros Hj Hi Hk Hv Hn Hl. rewrite <- (take_drop_middle _ _ _ Hi). apply copy_value_member; try done.
  by apply Forall_take, job_plain.
Qed.

Lemma scan_at j i name n old : job_ok j -> job_members j !! i = Some (str name, print_int n) -> key_ok (str name) ->
  str name ∉ (take i (job_members j)).*1 -> INT_MIN <= n <= INT_MAX ->
  exists t, value_start (object_text (job_members j)) (jkey name) = Ok t /\ scan_int t old = n.
Proof.
  intros Hj Hi Hk Hn Hr. rewrite <- (take_drop_middle _ _ _ Hi). apply scan_int_member; try done.
  by apply Forall_take, job_plain.
Qed.

Lemma found_at j i name v : job_ok j -> job_members j !! i = Some (str name, v) -> key_ok (str name) ->
  34 ∉ v -> str name ∉ (take i (job_members j)).*1 -> is_Some (strstr (object_text (job_members j)) (jkey name)).
Proof.
  intros Hj Hi Hk Hv Hn. rewrite <- (take_drop_middle _ _ _ Hi). apply find_value; try done.
  by apply Forall_take, job_plain.
Qed.
End Parsed.

Section Absent.
Implicit Types (k : list Z) (l : list (list Z * list Z)).

Lemma skip_last k kv : plain_member kv -> 34 ∉ k -> k <> kv.1 -> k <> [58] ->
  strstr (member kv ++ [125]) ([34] ++ k ++ [34; 58]) = None.
Proof.
  destruct kv as [k' v']. intros [Hk' Hv'] Hk Hne H58. unfold member. cbn [fst snd] in *.
  assert (([34] ++ k' ++ [34; 58; 34] ++ v' ++ [34]) ++ [125]
    = 34 :: k' ++ 34 :: 58 :: 34 :: v' ++ 34 :: 125 :: []) as -> by by list_simplifier.
  rewrite quote_miss by auto.
  change (34 :: 58 :: 34 :: v' ++ [34; 125]) with (34 :: [58] ++ 34 :: v' ++ [34; 125]).
  assert (strstr (34 :: [58] ++ 34 :: v' ++ [34; 125]) ([34] ++ k ++ [34; 58])
    = (fun n => 2 + n)%nat <$> strstr (34 :: v' ++ [34; 125]) ([34] ++ k ++ [34; 58])) as ->.
  { destruct v' as [|x v'']; [apply (quote_miss k [58] 34); auto; set_solver|].
    apply (quote_miss k [58] x); auto; set_solver. }
  rewrite (quote_miss k v' 125 []) by auto. cbn [app]. rewrite strstr_miss.
  - by rewrite strstr_skip by done.
  - cbn [is_prefix]. rewrite Z.eqb_refl. cbn [andb]. destruct (is_prefix _ [125]) eqn:E; [|done].
    apply is_prefix_app in E as [q E]. destruct k as [|y k]; [done|].
    by apply (f_equal length) in E; cbn in E; rewrite !length_app in E; cbn in E; lia.
Qed.

Lemma absent_key k l : Forall plain_member l -> key_ok k -> k ∉ l.*1 ->
  strstr (object_text l) ([34] ++ k ++ [34; 58]) = None.
Proof.
  intros Hl (Hk & H58 & H44) Hn. unfold object_text. cbn [app]. rewrite strstr_skip by done.
  assert (strstr (members l) ([34] ++ k ++ [34; 58]) = None) as E; [|cbn [app] in E; by rewrite E].
  induction Hl as [|kv l Hkv Hl IH]; [by cbn; destruct k|].
  rewrite fmap_cons, not_elem_of_cons in Hn. destruct Hn as [Hne Hn]. specialize (IH Hn).
  destruct l as [|kv' l]; [by apply skip_last|].
  destruct (members_head (kv' :: l)) as [r Er]; [done|].
  change (members (kv :: kv' :: l)) with (member kv ++ [44] ++ members (kv' :: l)). rewrite Er in *.
  change (member kv ++ [44] ++ 34 :: r) with (member kv ++ [44; 34] ++ r).
  by rewrite skip_member, IH.
Qed.
End Absent.

(** The facts about a literal name: it is a proper key and no earlier member has it. *)
Ltac key_facts :=
  first [ split_and!; [intros Hin%list_elem_of_In; vm_compute in Hin; intuition discriminate|done|done]
        | intros Hin%list_elem_of_In; cbn in Hin; intuition discriminate ].

Section NormalPath.

(** The steps that depend on the optional member: its copy, its string, its
    list and the rows printed. *)
Lemma normal_copy j : job_ok j ->
  let has := bool_decide (is_Some (strstr (object_text (job_members j)) (jkey "imageNormalPath"))) in
  let n := default [] (j_normal j) in
  (if has then copy_value (zeros 128) (object_text (job_members j)) (jkey "imageNormalPath") else Ok (zeros 128))
    = Ok (n ++ zeros (128 - length n)) /\
  (0 ∉ n /\ (length n < 64)%nat) /\
  exists ndata, (if has then split_list (n ++ zeros (128 - length n)) empty_multi
                 else Ok (n ++ zeros (128 - length n), empty_multi)) = Ok (n ++ zeros (128 - length n), ndata) /\
    print_rows ndata 0 (Z.to_nat (count ndata)) = Ok tt.
Proof.
  intros Hj has n. subst has n. destruct (j_normal j) as [n|] eqn:E; cbn [default].
  - assert (job_members j !! 6%nat = Some (str "imageNormalPath", n)) as Hi by (unfold job_members; by rewrite E).
    pose proof (job_normal j Hj n E) as Hn. pose proof (name_in_quote _ _ Hn) as [Hq H0].
    destruct Hn as (Hne & F & Hl). change (id n) with n.
    rewrite bool_decide_eq_true_2 by (eapply found_at; try done; key_facts).
    rewrite (copy_at j 6 "imageNormalPath" n) by (done || key_facts || lia). split; [done|]. split; [done|].
    eexists. rewrite split_one by (done || lia). split; [reflexivity|]. by apply rows_one.
  - rewrite bool_decide_eq_false_2.
    + cbn. split; [done|]. split; [split; [apply not_elem_of_nil|lia]|]. by exists empty_multi.
    + rewrite jkey_eq, absent_key; [by intros [? ?]|by apply job_plain|key_facts|].
      unfold job_members. rewrite E. key_facts.
Qed.
End NormalPath.

(** * Properties *)

(** C20. The packet the server builds is one its own parser accepts: for a target
    path and a JSON body of at most 512 bytes, check_if_post finds, in what
    build_callback_packet printed, a POST with exactly that path and that body. *)
Theorem http_post_roundtrip name body :
  target_ok name -> 0 ∉ body -> (length name < 128)%nat -> (length body < 510)%nat ->
  let text := [123] ++ body ++ [125] in
  (length (post_head name (zlen text)) + length text < 1024)%nat ->
  exists buf n f c,
    build_callback_packet (zeros 1024) (text ++ [0]) (zlen text) (name ++ [0]) = Ok (buf, n) /\
    zlen (c_string buf) = n /\
    check_if_post (c_string buf) (zeros 128) (zeros 512) = Ok (0, f, c) /\
    c_string f = name /\ c_string c = text.
Proof.
  intros Hn H0 Hln Hlb text Hl.
  assert (0 ∉ text) as Ht by (unfold text; rewrite !not_elem_of_app; split_and!; [set_solver|done|set_solver]).
  assert (length text = length body + 2)%nat as Elt by (unfold text; rewrite !length_app; cbn; lia).
  rewrite (build_packet_text name text) by done.
  set (h := post_head name (zlen text)) in *. eexists _, _, _, _. split; [reflexivity|].
  assert (0 ∉ h ++ text) as Hh.
  { rewrite not_elem_of_app. split; [|done]. intros Hin. by apply post_head_chars in Hin as [? _]. }
  rewrite c_string_zeros by done. split; [done|].
  set (r := str "/1.1" ++ CRLF ++ str "HOST: 10.106.249.210:8080" ++ CRLF
     ++ str "Content-Type: application/json" ++ CRLF ++ str "Content-Length: " ++ print_int (zlen text) ++ CRLF ++ CRLF).
  assert (h = str "POST " ++ name ++ str " HTTP" ++ r) as Eh.
  { unfold h, post_head, r. change (str " HTTP/1.1") with (str " HTTP" ++ str "/1.1"). by rewrite <- !app_assoc. }
  rewrite Eh. unfold text. rewrite check_post; [|done| |unfold zeros; rewrite length_replicate; lia].
  2:{ intros Hin. destruct (post_head_chars name (zlen text) 123 Hn); [|done].
      fold h. rewrite Eh, !elem_of_app. auto. }
  rewrite strncpy_zeros by done. cbn [res_bind]. fold text.
  rewrite <- (app_nil_r text) at 1. rewrite strncpy_zeros by lia. cbn [res_bind].
  split; [reflexivity|]. rewrite !c_string_zeros by (done || by destruct Hn). done.
Qed.

Lemma http_post_roundtrip_witness :
  exists buf n f c,
    build_callback_packet (zeros 1024) ([123] ++ str "a" ++ [125] ++ [0]) 3 (str "/x" ++ [0]) = Ok (buf, n) /\
    check_if_post (c_string buf) (zeros 128) (zeros 512) = Ok (0, f, c) /\
    c_string f = str "/x" /\ c_string c = [123] ++ str "a" ++ [125].
Proof.
  assert (target_ok (str "/x")) as Hn.
  { split; try reflexivity; intros Hin%list_elem_of_In; vm_compute in Hin; intuition discriminate. }
  assert (0 ∉ str "a") as H0 by (intros Hin%list_elem_of_In; vm_compute in Hin; intuition discriminate).
  destruct (http_post_roundtrip (str "/x") (str "a") Hn H0) as (buf & n & f & c & E1 & _ & E2 & E3 & E4);
    try (vm_compute; lia).
  exists buf, n, f, c. done.
Defined.

(** A received POST whose body, from its first to its last brace, has more
    than 512 bytes makes the server overrun the array that holds the content,
    whatever its state and the rest of its environment. *)
Lemma http_long_body_overrun w fd sv name r body :
  length (s_file_name sv) = 128%nat -> length (s_content sv) = 512%nat ->
  target_ok name -> (length name <= 128)%nat -> 123 ∉ r -> 0 ∉ r -> 0 ∉ body ->
  (510 < length body)%nat ->
  let packet := (str "POST " ++ name ++ str " HTTP" ++ r) ++ [123] ++ body ++ [125] in
  (length packet < 1024)%nat ->
  handle_request w fd packet sv = Ub OobWrite.
Proof.
  intros Hname Hcontent Hn Hln Hr Hr0 H0 Hb packet Hl. unfold handle_request.
  assert (0 ∉ packet) as Hp.
  { unfold packet. rewrite !not_elem_of_app. destruct Hn.
    split_and!; try done; intros Hin%list_elem_of_In; vm_compute in Hin; intuition discriminate. }
  destruct (received packet Hl Hp) as [Ew Er]. rewrite Ew. cbn [res_bind]. rewrite Er. cbn [res_bind].
  assert (is_Some (strchr packet 123)) as [p ->].
  { apply not_eq_None_Some. rewrite strchr_None. unfold packet. set_solver. }
  cbn [res_bind]. rewrite Er. cbn [res_bind]. unfold packet.
  rewrite check_post by (done || (rewrite Hname; lia)). rewrite strncpy_within by (rewrite Hname; lia). cbn [res_bind].
  unfold strncpy. unfold zlen at 1 2 3. rewrite !length_app, Hcontent. cbn [length].
  destruct (Z.ltb_spec (Z.of_nat (1 + (length body + 1))) 0); [lia|].
  destruct (Z.ltb_spec (Z.of_nat 512) (Z.of_nat (1 + (length body + 1)))); [done|lia].
Qed.

Definition quiet_world : world := World (0, []) true true [Some []] (fun _ => None) (fun _ => None) [Some []] 7 true.

Lemma http_long_body_overrun_witness :
  handle_request quiet_world 5 ((str "POST " ++ str "/t" ++ str " HTTP" ++ CRLF) ++ [123] ++ replicate 600 65 ++ [125])
    initial_server = Ub OobWrite.
Proof.
  apply http_long_body_overrun.
  - reflexivity.
  - reflexivity.
  - split; try reflexivity; intros Hin%list_elem_of_In; vm_compute in Hin; intuition discriminate.
  - vm_compute. lia.
  - intros Hin%list_elem_of_In; vm_compute in Hin; intuition discriminate.
  - intros Hin%list_elem_of_In; vm_compute in Hin; intuition discriminate.
  - intros [? _]%elem_of_replicate. done.
  - rewrite length_replicate. lia.
  - vm_compute. lia.
Defined.

(** The fields of a parsed request are those of the job. *)
Record fields_of (j : job) (q : request_content_A_t) : Prop := {
  field_ip : read_str (request_host_ip q) = Ok (j_ip j);
  field_port : request_host_port q = j_port j;
  field_id : read_str (request_id q) = Ok (j_id j);
  field_object : object_id q = j_object j;
  field_types : read_str (type_list q) = Ok (j_types j);
  field_type : count (type_data q) = 1 /\ read_str (data (type_data q)) = Ok (j_types j);
  field_normal : read_str (image_normal_path q) = Ok (default [] (j_normal j));
  field_path : read_str (image_path_list q) = Ok (j_path j);
  field_image : count (image_path_list_data q) = 1 /\ read_str (data (image_path_list_data q)) = Ok (j_path j)
}.

(** parse_post_A_content reads a request back from its JSON text: every
    field of the request is in the global structure afterwards, the numbers as
    integers and the one name of each list as its first row. *)
Lemma parse_post_fields j :
  job_ok j -> exists q, parse_post_A_content (object_text (job_members j)) empty_request = Ok (0, q) /\ fields_of j q.
Proof.
  intros Hj. pose proof Hj as [(I1 & I2 & I3) P (D1 & D2 & D3) O T N G].
  pose proof (name_in_quote _ _ T) as [T1 T2]. pose proof (name_in_quote _ _ G) as [G1 G2].
  pose proof T as (Tn & Tf & T3). pose proof G as (_ & _ & G3).
  assert (name_in 64 (j_types j)) as T' by (split_and!; [done|done|lia]).
  unfold parse_post_A_content. destruct (found_at j 0 "requestHostIp" (j_ip j) Hj eq_refl) as [p0 ->]; try key_facts; try done.
  cbn [request_host_ip request_host_port request_id object_id type_list image_normal_path image_path_list
       type_data image_normal_path_data image_path_list_data empty_request].
  rewrite (copy_at j 0 "requestHostIp" (j_ip j)) by (done || key_facts). cbn [res_bind].
  destruct (scan_at j 1 "requestHostPort" (j_port j) 0 Hj eq_refl) as (t1 & -> & E1); try key_facts; try done.
  cbn [res_bind]. rewrite (copy_at j 2 "requestId" (j_id j)) by (done || key_facts). cbn [res_bind].
  destruct (scan_at j 3 "objectId" (j_object j) 0 Hj eq_refl) as (t3 & -> & E3); try key_facts; try done.
  cbn [res_bind]. rewrite (copy_at j 4 "typeList" (j_types j)) by (done || key_facts). cbn [res_bind].
  destruct (normal_copy j Hj) as (E5 & E6 & Ndata & E7 & E8). cbn zeta. rewrite E5. cbn [res_bind].
  rewrite (copy_at j 5 "imageList" (j_path j)) by (done || key_facts || lia). cbn [res_bind].
  rewrite !read_str_zeros by (done || lia || apply E6). cbn [res_bind].
  rewrite !split_one by (done || lia). cbn [res_bind]. rewrite E7. cbn [res_bind count].
  rewrite !rows_one by done. cbn [res_bind]. rewrite E8. cbn [res_bind].
  eexists. split; [reflexivity|]. split; cbn.
  1, 3, 5, 7, 8: apply read_str_zeros; [by apply E6 || done|lia].
  1, 2: done.
  1, 2: split; [done|by apply read_str_nul].
Qed.

(** ** A job *)

(** The commands that main prints for a job. *)
Definition get_command (j : job) : list Z :=
  str "/root/ftps_client get /root/image/" ++ j_path j ++ [32] ++ j_path j ++ [32] ++ j_ip j ++
  str " 30021 ftpUser Password@1".
Definition convert_command (j : job) : list Z :=
  str "/root/jpg2rgb /root/image/" ++ j_path j ++ str " /root/image/" ++ j_path j ++ str ".rgb".
Definition detect_command (j : job) : list Z :=
  str "/root/demo/lenovo_alg /root/image/" ++ j_path j ++ str ".rgb " ++ model_path ++ [32] ++ j_types j.
Definition put_command (j : job) : list Z :=
  str "/root/ftps_client put " ++ j_path j ++ str ".rgb /root/image/" ++ j_path j ++ str ".rgb " ++ j_ip j ++
  str " 30021 ftpUser Password@1".

(** The answer 200, and the packet with the result that is read back from the file. *)
Definition answer_200 : list Z :=
  str "HTTP/1.1 200 OK" ++ CRLF ++ str "Content-type: application/json" ++ CRLF ++
  str "Content-length: 14" ++ CRLF ++ [10] ++ error_body 200.

Definition report (w : world) (q : request_content_A_t) : res (list Z) :=
  let! (_, json) := read_result_json (w_after w) (zeros 10240) in
  let! text := read_str json in
  let! (_, result) := parse_result_json text q empty_result in
  let! (content, n) := build_A_callback_content (zeros 512) q result in
  let! (packet, len) := build_callback_packet (zeros 1024) content n
    (str "/platform/api/v1/task/results/pic-result-notify" ++ [0]) in
  Ok (take (Z.to_nat len) packet).

Lemma command_ok parts : 0 ∉ mjoin parts -> (length (mjoin parts) < 1024)%nat -> command parts = Ok (mjoin parts).
Proof.
  intros H0 Hl. unfold command. pose proof (sprintf_zeros 1024 [] (mjoin parts)) as Hp. cbn [app length] in Hp.
  change (zeros (1024 - 0)) with (zeros 1024) in Hp. change (zlen []) with 0 in Hp. rewrite Hp by lia. cbn [res_bind].
  apply read_str_zeros; [done|lia].
Qed.

(** What the job [j] makes the server do, when it is answered: the commands, with the job's fields,
    and the report to the job's host. *)
Definition job_actions (w : world) (fd : Z) (j : job) (gets puts : nat) (text : list Z) : list action :=
  [ASend fd answer_200] ++ replicate gets (APopen (get_command j)) ++ [ASystem (convert_command j)]
  ++ map ARemove (filter (fun p => exists_file (w_before w) p) [str "/result.json"; str "/root/result.json"])
  ++ [ASystem (detect_command j)] ++ replicate puts (APopen (put_command j))
  ++ [AConnect (j_ip j) (j_port j); ASend (w_connect w) text; AClose (w_connect w)].

Ltac no_nul :=
  repeat (apply not_elem_of_app; split);
  first [assumption | apply not_elem_of_nil | by (intros Hin%list_elem_of_In; vm_compute in Hin; intuition discriminate)].

Section JobCommands.
Context (j : job) (Hj : job_ok j).

Lemma job_no_nul : 0 ∉ j_ip j /\ 0 ∉ j_types j /\ 0 ∉ j_path j /\
  (length (j_ip j) < 16)%nat /\ (length (j_types j) < 32)%nat /\ (length (j_path j) < 64)%nat.
Proof using All.
  destruct Hj as [(_ & I2 & I3) _ _ _ T _ G].
  destruct (name_in_quote _ _ T) as [_ ?], (name_in_quote _ _ G) as [_ ?], T as (_ & _ & ?), G as (_ & _ & ?). done.
Qed.

Ltac print_command :=
  destruct job_no_nul as (? & ? & ? & ? & ? & ?);
  rewrite command_ok; cbn [mjoin list_join]; rewrite ?app_nil_r;
  [rewrite <- ?app_assoc; reflexivity|no_nul|rewrite !length_app; cbn; lia].

Lemma get_printed :
  command [str "/root/ftps_client get /root/image/"; j_path j; [32]; j_path j; [32]; j_ip j;
           str " 30021 "; username; [32]; password] = Ok (get_command j).
Proof using All. print_command. Qed.

Lemma convert_printed :
  command [str "/root/jpg2rgb /root/image/"; j_path j; str " /root/image/"; j_path j; str ".rgb"] = Ok (convert_command j).
Proof using All. print_command. Qed.

Lemma detect_printed :
  command [str "/root/demo/lenovo_alg /root/image/"; j_path j; str ".rgb "; model_path; [32]; j_types j] = Ok (detect_command j).
Proof using All. print_command. Qed.

Lemma put_printed :
  command [str "/root/ftps_client put "; j_path j; str ".rgb /root/image/"; j_path j; str ".rgb "; j_ip j;
           str " 30021 "; username; [32]; password] = Ok (put_command j).
Proof using All. print_command. Qed.
End JobCommands.

(** The job once its request has been parsed. *)
Definition job_runs (w : world) (fd : Z) (j : job) (q : request_content_A_t) (r : res (leave * list action * server)) : Prop :=
  match r with
  | Ok (l, acts, _) =>
      if w_send_ok w then
        exists gets puts text, popen_exe (w_get w) = Ok gets /\ popen_exe (w_put w) = Ok puts /\ report w q = Ok text /\
          acts = job_actions w fd j gets puts text /\ l = (if w_sent w then Served else LoopBreak)
      else acts = [ASend fd answer_200] /\ l = LoopBreak
  | Ub e => w_send_ok w = true /\ (popen_exe (w_get w) = Ub e \/ popen_exe (w_put w) = Ub e \/ report w q = Ub e)
  end.

Lemma run_job_runs w fd j q f :
  job_ok j -> fields_of j q -> job_runs w fd j q (run_job w fd (Server q empty_result f (zeros 512))).
Proof.
  intros Hj [F1 F2 _ _ F5 _ _ F8 _]. unfold run_job, job_runs. cbn [s_request s_result s_content s_file_name].
  destruct (build_error_callback (zeros 1024) 200) as [[ok len]|] eqn:E; [|by vm_compute in E].
  assert (take (Z.to_nat len) ok = answer_200) as Ea by (vm_compute in E; injection E as <- <-; vm_compute; reflexivity).
  cbn [res_bind]. rewrite Ea. clear E Ea. destruct (w_send_ok w); cbn [negb]; [|done].
  rewrite F8, F1, F5. cbn [res_bind]. rewrite get_printed by done. cbn [res_bind].
  destruct (popen_exe (w_get w)) as [gets|e]; cbn [res_bind]; [|by auto].
  rewrite convert_printed, detect_printed by done. cbn [res_bind]. unfold report.
  destruct (read_result_json _ _) as [[z json]|e]; cbn [res_bind]; [|by auto].
  destruct (read_str json) as [text|e]; cbn [res_bind]; [|by auto].
  destruct (parse_result_json text q empty_result) as [[z' result]|e]; cbn [res_bind]; [|by auto].
  rewrite put_printed by done. cbn [res_bind].
  destruct (popen_exe (w_put w)) as [puts|e]; cbn [res_bind]; [|by auto].
  destruct (build_A_callback_content (zeros 512) q result) as [[content n]|e]; cbn [res_bind]; [|by auto].
  destruct (build_callback_packet _ _ _ _) as [[packet n']|e]; cbn [res_bind]; [|by auto].
  rewrite F2. destruct (w_sent w); cbn [negb]; exists gets, puts, (take (Z.to_nat n') packet); split_and!; done.
Qed.

Lemma members_end l : l <> [] -> exists b, members l = b ++ [125].
Proof.
  induction l as [|kv l IH]; [done|]. intros _. destruct l as [|kv' l]; [by exists (member kv)|].
  destruct IH as [b Eb]; [done|]. exists (member kv ++ [44] ++ b). cbn [members] in *. rewrite Eb. by rewrite <- !app_assoc.
Qed.

Lemma members_no_nul l : Forall (fun kv => 0 ∉ kv.1 /\ 0 ∉ kv.2) l -> 0 ∉ members l.
Proof.
  induction 1 as [|kv l [H1 H2] _ IH]; [no_nul|].
  assert (0 ∉ member kv) as Hm by (unfold member; no_nul). cbn [members]. destruct l; [no_nul|].
  apply not_elem_of_app. split; [done|]. apply not_elem_of_app. split; [no_nul|done].
Qed.

Lemma job_text_no_nul j : job_ok j -> 0 ∉ object_text (job_members j).
Proof.
  intros Hj. destruct (job_no_nul j Hj) as (I & T & P & _). apply not_elem_of_app. split; [no_nul|]. apply members_no_nul.
  assert (forall n, 0 ∉ print_int n) as Hp by (intros n Hin%print_int_chars; lia).
  destruct Hj as [_ _ (_ & D & _) _ _ N _]. unfold job_members. apply Forall_app. split.
  - repeat (apply Forall_cons; split); try done; cbn [fst snd]; split; try no_nul; try apply Hp.
  - destruct (j_normal j) as [n|]; [|done]. apply Forall_singleton. split; [no_nul|]. by destruct (name_in_quote _ _ (N n eq_refl)).
Qed.


Definition sample_job : job :=
  Job (str "10.0.0.1") 8080 (str "77-a") 3 (str "wcaqm") None (str "a.jpg").


(** build_error_callback prints, for the three codes it knows, a status line
    and a body whose length is the 14 it announces, and returns the length of
    the packet; for every other code it clears what it wrote and returns -1. *)
Lemma error_callback_packets e :
  INT_MIN <= e <= INT_MAX ->
  exists buf n, build_error_callback (zeros 1024) e = Ok (buf, n) /\
    match error_text e with
    | Some text => n = zlen (c_string buf) /\ zlen (error_body e) = 14 /\
        c_string buf = str "HTTP/1.1 " ++ print_int e ++ [32] ++ text ++ str "Content-type: application/json" ++ CRLF
                       ++ str "Content-length: 14" ++ CRLF ++ [10] ++ error_body e
    | None => buf = zeros 1024 /\ n = -1
    end.
Proof.
  intros He. destruct (error_text e) as [text|] eqn:Et.
  - assert (e = 200 \/ e = 400 \/ e = 500) as [-> |[-> | ->]].
    { unfold error_text in Et. destruct (Z.eqb_spec e 200), (Z.eqb_spec e 400), (Z.eqb_spec e 500); auto; done. }
    all: injection Et as <-; eexists _, _; split; [vm_compute; reflexivity|]; vm_compute; done.
  - unfold build_error_callback. rewrite Et. set (s := str "HTTP/1.1 " ++ print_int e ++ [32]).
    assert (length s <= 21)%nat as Hs.
    { assert (length (print_int e) <= 11)%nat as Hp; [|unfold s; rewrite !length_app; cbn; lia].
      apply print_int_length; unfold INT_MIN, INT_MAX in *; lia. }
    pose proof (sprintf_zeros 1024 [] s) as Hp. cbn [app length] in Hp. change (zeros (1024 - 0)) with (zeros 1024) in Hp.
    change (zlen []) with 0 in Hp. rewrite Hp by lia. cbn [res_bind].
    rewrite write_at_ok by (unfold zlen, zeros; rewrite ?length_app, ?length_replicate; lia). cbn [res_bind].
    eexists _, _. split; [reflexivity|]. split; [|done]. change (Z.to_nat 0) with 0%nat. rewrite take_0.
    unfold zlen, zeros. rewrite length_replicate, Nat2Z.id. cbn [app Nat.add].
    rewrite drop_app_ge, drop_replicate by lia. rewrite <- replicate_add. f_equal. lia.
Qed.

Lemma error_callback_packets_witness :
  exists buf n, build_error_callback (zeros 1024) 404 = Ok (buf, n) /\ buf = zeros 1024 /\ n = -1.
Proof. apply (error_callback_packets 404). unfold INT_MIN, INT_MAX. lia. Defined.

(** A packet that is an HTTP response with a reason phrase stops the server:
    sscanf stores the word through a NULL pointer. *)
Lemma http_response_crash w fd sv code word rest :
  INT_MIN <= code <= INT_MAX -> word <> [] -> Forall (fun c => isspace c = false) word ->
  (forall c r, rest = c :: r -> isspace c = true) -> 0 ∉ word ++ rest -> 123 ∈ word ++ rest ->
  let packet := str "HTTP/1.1 " ++ print_int code ++ [32] ++ word ++ rest in
  (length packet < 1024)%nat ->
  handle_request w fd packet sv = Ub NullDeref.
Proof.
  intros Hc Hne Hw Hrest H0 Hb packet Hl.
  assert (0 ∉ packet) as Hp.
  { unfold packet. rewrite !not_elem_of_app in *. split_and!; try (by apply H0).
    - intros Hin%list_elem_of_In; vm_compute in Hin; intuition discriminate.
    - intros Hin%print_int_chars. lia.
    - intros Hin%list_elem_of_In; vm_compute in Hin; intuition discriminate. }
  unfold handle_request. destruct (received packet Hl Hp) as [Ew Er]. rewrite Ew. cbn [res_bind].
  rewrite Er. cbn [res_bind].
  assert (is_Some (strchr packet 123)) as [p ->].
  { apply not_eq_None_Some. rewrite strchr_None. unfold packet. rewrite !elem_of_app in *. tauto. }
  cbn [res_bind]. rewrite Er. cbn [res_bind]. unfold check_if_post, packet.
  cbn [res_bind Z.eqb]. unfold parse_callback_packet.
  assert (sscanf (str "HTTP/1.1 " ++ print_int code ++ [32] ++ word ++ rest) fmt_status
    = [SInt (s32 (clamp LONG_MIN LONG_MAX code)); SStr word]) as ->; [|done].
  change fmt_status with (map DLit (str "HTTP/1.1") ++ [DSpace; DInt; DSpace; DStr]).
  change (str "HTTP/1.1 " ++ print_int code ++ [32] ++ word ++ rest)
    with (str "HTTP/1.1" ++ [32] ++ print_int code ++ [32] ++ word ++ rest).
  rewrite sscanf_literal. cbn [sscanf].
  destruct (print_int_head code) as (c & t & E & Hs).
  assert (skip_space ([32] ++ print_int code ++ [32] ++ word ++ rest) = print_int code ++ [32] ++ word ++ rest) as ->.
  { rewrite E. cbn [app]. apply (skip_space_spaces 1). done. }
  rewrite scan_print_int by done. f_equal.
  destruct word as [|x word]; [done|]. apply Forall_cons in Hw as [Hx Hw].
  change ([32] ++ (x :: word) ++ rest) with (replicate 1 32 ++ x :: word ++ rest). rewrite skip_space_spaces by done.
  rewrite skip_space_nonspace by done.
  rewrite (span_all _ (x :: word) rest); [done| |intros c' r' E'; by rewrite (Hrest c' r' E')].
  apply Forall_cons. split; [by rewrite Hx|]. eapply Forall_impl; [exact Hw|]. cbn. by intros ? ->.
Qed.

Lemma http_response_crash_witness :
  handle_request quiet_world 5 (str "HTTP/1.1 " ++ print_int 200 ++ [32] ++ str "OK" ++ CRLF ++ CRLF ++ str "{}")
    initial_server = Ub NullDeref.
Proof.
  apply (http_response_crash quiet_world 5 initial_server 200 (str "OK") (CRLF ++ CRLF ++ str "{}")).
  - unfold INT_MIN, INT_MAX. lia.
  - done.
  - by repeat constructor.
  - by intros c r [= <- _].
  - intros Hin%list_elem_of_In; vm_compute in Hin; intuition discriminate.
  - apply list_elem_of_In. vm_compute. tauto.
  - vm_compute. lia.
Defined.
