(* ===== verification/SelectServer.v ===== *)
(** tcp_select.c, tcp_server.c and the main of http_server/http_anlyse.c: a
    server on one listening socket with a table of ten clients, multiplexed by
    select.  The three programs share the loop and differ in how the listening
    socket is made and in what is done with the bytes received, which is the
    parameter [handler] of the loop.

    A pass of the inner loop is a function of what select, accept and recv
    answer; main is a step relation over those answers. *)

From S2P Require Import Prelude CLib CFloat Http.

Open Scope c_scope.
Open Scope Z_scope.

(** ** Making the listening socket *)

(** The results of the system calls. *)
Record sockets : Type := Sockets {
  k_socket : Z; k_getfl : Z; k_setfl : Z; k_setsockopt : Z; k_bind : Z; k_listen : Z
}.

(** The value returned, and the socket left open when it is an error. *)
Module TcpSelect.
Definition socket_bind_listen (k : sockets) : Z * option Z :=
  let sockfd := k_socket k in
  if sockfd =? -1 then (-1, None)
  else if k_bind k <? 0 then (-2, Some sockfd)
  else if k_listen k <? 0 then (-3, Some sockfd)
  else (sockfd, None).
End TcpSelect.

Module TcpServer.
Definition socket_bind_listen (k : sockets) : Z * option Z :=
  let sockfd := k_socket k in
  if sockfd =? -1 then (-1, None)
  else if k_getfl k <? 0 then (-1, Some sockfd)
  else if k_setfl k <? 0 then (-1, Some sockfd)
  else if negb (k_setsockopt k =? 0) then (-4, Some sockfd)
  else if k_bind k <? 0 then (-2, Some sockfd)
  else if k_listen k <? 0 then (-3, Some sockfd)
  else (sockfd, None).
End TcpServer.

Module HttpServer.
Definition socket_bind_listen (k : sockets) : Z * option Z := TcpServer.socket_bind_listen k.

(** The arguments are what socket and connect return. *)
Definition tcp_connect (socket connect : Z) : Z * option Z :=
  if socket <? 0 then (-1, None)
  else if connect <? 0 then (-2, Some socket)
  else (socket, None).
End HttpServer.

(** ** The client table and the sets of descriptors *)

Definition MAX_CLIENTS : nat := 10.

(** fd_set holds the descriptors below FD_SETSIZE. *)
Definition FD_SETSIZE : Z := 1024.

Record clients : Type := Clients {
  client : list Z;                 (* 10; a value of at most 0 is a free slot *)
  client_port : list Z;
  client_ip : list (list Z);
  maxi : Z
}.

Definition no_clients : clients :=
  Clients (replicate MAX_CLIENTS 0) (replicate MAX_CLIENTS 0) (replicate MAX_CLIENTS (zeros 16)) (-1).

(** The variables of the inner loop; [H] is the state of the handler. *)
Record loop_state (H : Type) : Type := Loop {
  sockfd : Z;
  allset : gset Z;
  maxfd : Z;
  table : clients;
  hstate : H
}.
Arguments Loop {H} _ _ _ _ _.
Arguments sockfd {H} _.
Arguments allset {H} _.
Arguments maxfd {H} _.
Arguments table {H} _.
Arguments hstate {H} _.

(** One pass: what select, accept and each recv answer. *)
Record round : Type := Round {
  nready : Z;
  rset : gset Z;
  accepted : option (Z * Z * list Z);     (* descriptor, port, address *)
  recvs : Z -> Z * list Z                 (* result and bytes, by descriptor *)
}.

(** How a pass ends: another pass, out of the inner loop, out of main. *)
Inductive pass : Type := Again | LeaveInner | Return.

Definition trace : Type := list action.

Section SelectLoop.
Context {H : Type} (handler : Z -> list Z -> H -> res (leave * trace * H)).
Implicit Types (st : loop_state H) (r : round).

Definition fd_isset (fd : Z) (s : gset Z) : res bool :=
  if (0 <=? fd) && (fd <? FD_SETSIZE) then Ok (bool_decide (fd ∈ s)) else Ub OobRead.

Definition fd_set (fd : Z) (s : gset Z) : res (gset Z) :=
  if (0 <=? fd) && (fd <? FD_SETSIZE) then Ok ({[fd]} ∪ s) else Ub OobWrite.

(** client[i] and its address replaced. *)
Definition set_client (t : clients) (i : nat) (fd port : Z) (ip : list Z) : clients :=
  Clients (<[i:=fd]> (client t)) (<[i:=port]> (client_port t)) (<[i:=ip]> (client_ip t)) (maxi t).

(** The branch for a connection: [None] when the pass is over. *)
Definition accept_client (r : round) (st : loop_state H) : res (pass * loop_state H) :=
  match accepted r with
  | None => Ok (LeaveInner, st)                        (* accept error *)
  | Some (acceptfd, port, ip) =>
      match find_first (fun i => nth i (client (table st)) 0 <=? 0) 0 MAX_CLIENTS with
      | None => Ok (LeaveInner, st)                    (* too many clients *)
      | Some i =>
          let t := set_client (table st) i acceptfd port ip in
          let! all := fd_set acceptfd (allset st) in
          let maxfd := if maxfd st <? acceptfd then acceptfd else maxfd st in
          let maxi := if maxi t <? Z.of_nat i then Z.of_nat i else maxi t in
          Ok (Again, Loop (sockfd st) all maxfd
                (Clients (client t) (client_port t) (client_ip t) maxi) (hstate st))
      end
  end.

(** for (i = 0; i <= maxi; i++): [idx] are the indices to come, [n] is nready. *)
Fixpoint client_loop (r : round) (idx : list nat) (n : Z) (st : loop_state H)
    : res (pass * trace * loop_state H) :=
  match idx with
  | [] => Ok (Again, [], st)
  | i :: idx =>
      let tmpfd := nth i (client (table st)) 0 in
      if tmpfd <? 0 then client_loop r idx n st
      else
        let! ready := fd_isset tmpfd (rset r) in
        if negb ready then client_loop r idx n st
        else
          let (ret, bytes) := recvs r tmpfd in
          if ret <? 0 then Ok (Return, [], st)
          else if ret =? 0 then
            let st := Loop (sockfd st) (allset st ∖ {[tmpfd]}) (maxfd st)
                           (set_client (table st) i (-1) 0 (zeros 16)) (hstate st) in
            if n - 1 =? 0 then Ok (Again, [AClose tmpfd], st)
            else let! (p, t, st) := client_loop r idx (n - 1) st in Ok (p, AClose tmpfd :: t, st)
          else
            let! (l, acts, h) := handler tmpfd bytes (hstate st) in
            let st := Loop (sockfd st) (allset st) (maxfd st) (table st) h in
            match l with
            | MainReturn => Ok (Return, acts, st)
            | LoopBreak => Ok (Again, acts, st)
            | Skipped => let! (p, t, st) := client_loop r idx n st in Ok (p, acts ++ t, st)
            | Served =>
                if n - 1 =? 0 then Ok (Again, acts, st)
                else let! (p, t, st) := client_loop r idx (n - 1) st in Ok (p, acts ++ t, st)
            end
  end.

Definition indices (t : clients) : list nat := seq 0 (Z.to_nat (maxi t + 1)).

Definition select_pass (r : round) (st : loop_state H) : res (pass * trace * loop_state H) :=
  if nready r <? 0 then Ok (LeaveInner, [], st)        (* select error *)
  else
    let! incoming := fd_isset (sockfd st) (rset r) in
    if incoming then
      let! (p, st) := accept_client r st in
      match p with
      | Again => if nready r - 1 =? 0 then Ok (Again, [], st)
                 else client_loop r (indices (table st)) (nready r - 1) st
      | _ => Ok (p, [], st)
      end
    else client_loop r (indices (table st)) (nready r) st.

(** main: before a listening socket, in the inner loop, or over. *)
Inductive main_state : Type :=
  | Outside (t : clients) (h : H)
  | Inside (st : loop_state H)
  | Stopped (ret : Z).

(** FD_ZERO, FD_SET; the client table is kept. *)
Definition start_listening (fd : Z) (t : clients) (h : H) : res (loop_state H) :=
  let! all := fd_set fd ∅ in Ok (Loop fd all fd t h).

Definition main_start (h : H) : main_state := Outside no_clients h.

(** What the system calls promise: select marks descriptors of the set it is
    given and counts them; a new descriptor is none of those still open, and that of a connection
    not 0, since the standard input is open.  It may be beyond what an fd_set holds. *)
Definition fresh (t : clients) (fd : Z) : Prop := 0 <= fd /\ fd ∉ client t.

Definition kernel_ok (r : round) (st : loop_state H) : Prop :=
  rset r ⊆ allset st /\
  (0 <= nready r -> nready r = Z.of_nat (size (rset r))) /\
  match accepted r with
  | Some (fd, _, ip) => fresh (table st) fd /\ 0 < fd /\ fd <> sockfd st /\ length ip = 16%nat
  | None => True
  end.

Inductive main_step : main_state -> trace -> main_state -> Prop :=
  | step_listen fd t h st : fresh t fd -> start_listening fd t h = Ok st ->
      main_step (Outside t h) [] (Inside st)
  | step_no_socket fd t h : fd < 0 -> main_step (Outside t h) [] (Stopped 0)
  | step_again r st tr st' : kernel_ok r st -> select_pass r st = Ok (Again, tr, st') ->
      main_step (Inside st) tr (Inside st')
  | step_leave r st tr st' : kernel_ok r st -> select_pass r st = Ok (LeaveInner, tr, st') ->
      main_step (Inside st) (tr ++ [AClose (sockfd st')]) (Outside (table st') (hstate st'))
  | step_return r st tr st' : kernel_ok r st -> select_pass r st = Ok (Return, tr, st') ->
      main_step (Inside st) tr (Stopped (-1)).

Inductive main_steps : main_state -> trace -> main_state -> Prop :=
  | steps_refl s : main_steps s [] s
  | steps_trans s1 t1 s2 t2 s3 : main_step s1 t1 s2 -> main_steps s2 t2 s3 -> main_steps s1 (t1 ++ t2) s3.
End SelectLoop.

(** ** The three programs *)

Definition recv_buffer (bytes : list Z) : res (list Z) := write_at (zeros 1024) 0 bytes.

(** tcp_select.c sends back the string received; [ok] says whether send succeeds. *)
Definition echo_handler (ok : Z -> bool) (fd : Z) (bytes : list Z) (h : unit) : res (leave * trace * unit) :=
  let! buf := recv_buffer bytes in
  let! text := read_str buf in
  Ok (if ok fd then Served else LoopBreak, [ASend fd text], tt).

(** tcp_server.c hands the bytes to handle_recv, which is not in the tree. *)
Definition server_handler {H} (handle_recv : list Z -> Z -> H -> trace * H) (fd : Z) (bytes : list Z) (h : H)
    : res (leave * trace * H) :=
  let! buf := recv_buffer bytes in
  let! _ := read_str buf in
  let (acts, h) := handle_recv buf (zlen bytes) h in
  Ok (Served, acts, h).

(** http_anlyse.c: the state is the number of requests seen and the structures;
    [w n] is what the environment answers during request n. *)
Definition http_handler (w : nat -> world) (fd : Z) (bytes : list Z) (h : nat * server)
    : res (leave * trace * (nat * server)) :=
  let! (l, acts, sv) := handle_request (w h.1) fd bytes h.2 in
  Ok (l, acts, (S h.1, sv)).

Definition tcp_select_main (ok : Z -> bool) := main_steps (echo_handler ok).
Definition tcp_server_main {H} (handle_recv : list Z -> Z -> H -> trace * H) := main_steps (server_handler handle_recv).
Definition http_server_main (w : nat -> world) := main_steps (http_handler w).

(** * The invariant of the table and of the sets *)

(** A slot above [maxi] is free, and no descriptor is in two slots. *)
Definition table_ok (t : clients) : Prop :=
  length (client t) = MAX_CLIENTS /\ length (client_port t) = MAX_CLIENTS /\
  length (client_ip t) = MAX_CLIENTS /\ Forall (fun ip => length ip = 16%nat) (client_ip t) /\
  -1 <= maxi t < Z.of_nat MAX_CLIENTS /\
  (forall i fd, client t !! i = Some fd -> fd < FD_SETSIZE) /\
  (forall i fd, client t !! i = Some fd -> maxi t < Z.of_nat i -> fd <= 0) /\
  (forall i j fd, client t !! i = Some fd -> client t !! j = Some fd -> 0 < fd -> i = j).

(** select watches the listening socket and descriptors of the table, all of
    them at most [maxfd]. *)
Definition loop_ok {H} (st : loop_state H) : Prop :=
  table_ok (table st) /\ sockfd st ∈ allset st /\ sockfd st ∉ client (table st) /\
  0 <= sockfd st /\ maxfd st < FD_SETSIZE /\
  forall fd, fd ∈ allset st ->
    0 <= fd <= maxfd st /\ (fd = sockfd st \/ (0 < fd /\ fd ∈ client (table st))).

Lemma no_clients_ok : table_ok no_clients.
Proof.
  split_and!; try done; cbn.
  - repeat constructor.
  - intros i fd Hi. apply list_elem_of_lookup_2, list_elem_of_In in Hi. vm_compute in Hi.
    unfold FD_SETSIZE. intuition lia.
  - intros i fd Hi. apply list_elem_of_lookup_2, list_elem_of_In in Hi. vm_compute in Hi. intuition lia.
  - intros i j fd Hi. apply list_elem_of_lookup_2, list_elem_of_In in Hi. vm_compute in Hi. intuition lia.
Qed.

Lemma fd_isset_ok fd s : 0 <= fd < FD_SETSIZE -> fd_isset fd s = Ok (bool_decide (fd ∈ s)).
Proof.
  intros. unfold fd_isset. by rewrite (proj2 (Z.leb_le _ _)), (proj2 (Z.ltb_lt _ _)) by lia.
Qed.

Lemma set_client_ok t i fd port ip :
  table_ok t -> (i < MAX_CLIENTS)%nat -> (0 < fd -> Z.of_nat i <= maxi t) ->
  fd < FD_SETSIZE -> fd ∉ client t \/ fd < 0 -> length ip = 16%nat ->
  table_ok (set_client t i fd port ip).
Proof.
  intros (L1 & L2 & L3 & L4 & Hm & Hr & Hu & Hj) Hi Him Hfd Hn Hip. split_and!; cbn.
  1-3: by rewrite length_insert.
  1: by apply Forall_insert.
  1-2: lia.
  - intros j fd' [(-> & -> & _)|[_ Hl]]%list_lookup_insert_Some; eauto.
  - intros j fd' [(-> & -> & _)|[_ Hl]]%list_lookup_insert_Some ?; [|eauto].
    destruct (decide (0 < fd')); [|lia]. specialize (Him ltac:(done)). lia.
  - intros j k fd' [(E1 & E2 & _)|[E1 Hl]]%list_lookup_insert_Some
      [(E3 & E4 & _)|[E3 Hl']]%list_lookup_insert_Some Hp; [congruence| | |eauto].
    + subst. apply list_elem_of_lookup_2 in Hl'. destruct Hn; [done|lia].
    + subst. apply list_elem_of_lookup_2 in Hl. destruct Hn; [done|lia].
Qed.

Lemma fd_set_cases fd s :
  0 <= fd -> (fd < FD_SETSIZE /\ fd_set fd s = Ok ({[fd]} ∪ s)) \/ (FD_SETSIZE <= fd /\ fd_set fd s = Ub OobWrite).
Proof.
  intros Hfd. unfold fd_set. rewrite (proj2 (Z.leb_le _ _)) by done. destruct (Z.ltb_spec fd FD_SETSIZE); auto.
Qed.

Lemma start_listening_cases {H} fd t (h : H) :
  0 <= fd -> (fd < FD_SETSIZE /\ start_listening fd t h = Ok (Loop fd {[fd]} fd t h)) \/
             (FD_SETSIZE <= fd /\ start_listening fd t h = Ub OobWrite).
Proof.
  intros Hfd. unfold start_listening. destruct (fd_set_cases fd ∅ Hfd) as [[? ->]|[? ->]]; [left|by right].
  by rewrite (right_id_L ∅ (∪)).
Qed.

Lemma start_listening_ok {H} fd t (h : H) st :
  table_ok t -> fresh t fd -> start_listening fd t h = Ok st ->
  loop_ok st /\ sockfd st = fd /\ allset st = {[fd]} /\ table st = t /\ hstate st = h.
Proof.
  intros Ht [Hfd Hn]. destruct (start_listening_cases fd t h Hfd) as [[Hb ->]|[_ ->]]; [|done]. intros [= <-].
  split; [|done]. split_and!; cbn; try done; [set_solver|].
  intros fd' ->%elem_of_singleton. split; [lia|by left].
Qed.

Lemma accept_client_ok {H} r (st : loop_state H) p st' :
  loop_ok st -> kernel_ok r st -> accept_client r st = Ok (p, st') ->
  loop_ok st' /\ sockfd st' = sockfd st.
Proof.
  intros Hok (_ & _ & Ha) E. unfold accept_client in E.
  destruct (accepted r) as [[[fd port] ip]|]; [|by simplify_eq].
  destruct (find_first _ _ _) as [i|] eqn:F; [|by simplify_eq].
  apply find_first_Some in F as (Hi & Hfree & _).
  destruct Hok as (Ht & Hs & Hsn & Hs0 & Hmf & Hall), Ha as ((Hfd0 & Hnew) & Hpos & Hne & Hip).
  destruct (fd_set_cases fd (allset st) Hfd0) as [[Hfd Es]|[_ Es]]; rewrite Es in E; [|done].
  cbn in E. simplify_eq. cbn. split; [|done].
  destruct Ht as (L1 & L2 & L3 & L4 & Hm & Hr & Hu & Hj).
  set (m := if maxi (table st) <? Z.of_nat i then Z.of_nat i else maxi (table st)).
  assert (maxi (table st) <= m /\ Z.of_nat i <= m /\ m < Z.of_nat MAX_CLIENTS) as (Hm1 & Hm2 & Hm3).
  { subst m. destruct (Z.ltb_spec (maxi (table st)) (Z.of_nat i)); unfold MAX_CLIENTS in *; lia. }
  split_and!; cbn; try done; try lia.
  - apply (set_client_ok (Clients (client (table st)) (client_port (table st)) (client_ip (table st)) m));
      cbn; auto; try lia. split_and!; cbn; auto; try lia. intros ????. eapply Hu; eauto. lia.
  - set_solver.
  - intros [k [(?&?&?)|[? Hl]]%list_lookup_insert_Some]%list_elem_of_lookup; [done|].
    apply Hsn. by apply list_elem_of_lookup_2 in Hl.
  - by destruct (Z.ltb_spec (maxfd st) fd); lia.
  - intros fd' [->%elem_of_singleton|Hin]%elem_of_union.
    + split; [destruct (Z.ltb_spec (maxfd st) fd); lia|]. right. split; [done|].
      apply list_elem_of_lookup. exists i. apply list_lookup_insert_eq. lia.
    + destruct (Hall _ Hin) as [Hb [->|[Hp [k Hk]%list_elem_of_lookup]]].
      * split; [destruct (Z.ltb_spec (maxfd st) fd); lia|by left].
      * split; [destruct (Z.ltb_spec (maxfd st) fd); lia|]. right. split; [done|].
        apply list_elem_of_lookup. exists k. rewrite list_lookup_insert_ne; [done|].
        intros ->. rewrite (nth_lookup_Some _ _ _ _ Hk) in Hfree. lia.
Qed.

Lemma clear_client_ok {H} (st : loop_state H) i fd :
  loop_ok st -> client (table st) !! i = Some fd -> 0 < fd ->
  loop_ok (Loop (sockfd st) (allset st ∖ {[fd]}) (maxfd st)
             (set_client (table st) i (-1) 0 (zeros 16)) (hstate st)).
Proof.
  intros (Ht & Hs & Hsn & Hs0 & Hmf & Hall) Hi Hp.
  assert (Hl : (i < MAX_CLIENTS)%nat).
  { apply lookup_lt_Some in Hi. by destruct Ht as [<- _]. }
  pose proof (list_elem_of_lookup_2 _ _ _ Hi) as Hin.
  split_and!; cbn; try done.
  - apply set_client_ok; unfold FD_SETSIZE; first [done|lia|right; lia].
  - apply elem_of_difference. split; [done|]. intros Hx%elem_of_singleton. apply Hsn. by rewrite Hx.
  - intros [k [(?&?&?)|[? Hk]]%list_lookup_insert_Some]%list_elem_of_lookup; [lia|].
    apply Hsn. by apply list_elem_of_lookup_2 in Hk.
  - intros fd' [Hfd Hne]%elem_of_difference. destruct (Hall _ Hfd) as [? [->|[? [k Hk]%list_elem_of_lookup]]]; [by auto|].
    split; [done|]. right. split; [done|]. apply list_elem_of_lookup. exists k.
    rewrite list_lookup_insert_ne; [done|]. intros ->. rewrite Hk in Hi. simplify_eq. set_solver.
Qed.

Lemma rset_pos {H} r (st : loop_state H) : loop_ok st -> rset r ⊆ allset st -> forall fd, fd ∈ rset r -> fd = sockfd st \/ 0 < fd.
Proof. intros (_ & _ & _ & _ & _ & Hall) Hs fd Hfd. destruct (Hall fd ltac:(set_solver)) as [_ [|[]]]; auto. Qed.

Lemma indices_lt t : table_ok t -> Forall (fun i => (i < MAX_CLIENTS)%nat) (indices t).
Proof. intros Ht. apply Forall_seq. intros j Hj. destruct Ht as (_ & _ & _ & _ & Hm & _). lia. Qed.

Section Invariant.
Context {H : Type} (handler : Z -> list Z -> H -> res (leave * trace * H)).
Implicit Types (st : loop_state H) (r : round).

Lemma client_loop_ok r idx n st p tr st' :
  loop_ok st -> (forall fd, fd ∈ rset r -> fd = sockfd st \/ 0 < fd) ->
  Forall (fun i => (i < MAX_CLIENTS)%nat) idx ->
  client_loop handler r idx n st = Ok (p, tr, st') ->
  loop_ok st' /\ sockfd st' = sockfd st.
Proof.
  revert n st p tr st'. induction idx as [|i idx IH]; intros n st p tr st' Hok Hr Hidx E; cbn [client_loop] in E.
  { by simplify_eq. }
  apply Forall_cons in Hidx as [Hi Hidx].
  destruct (lookup_lt_is_Some_2 (client (table st)) i) as [fd Hfd].
  { destruct Hok as ((L & _) & _). by rewrite L. }
  rewrite (nth_lookup_Some _ _ _ _ Hfd) in E.
  destruct (fd <? 0); [eauto|].
  apply res_bind_Ok in E as (ready & Er & E). destruct ready; cbn [negb] in E; [|eauto].
  assert (0 < fd) as Hp.
  { unfold fd_isset in Er. destruct (_ && _); [|done]. injection Er as Er%bool_decide_eq_true.
    destruct (Hr _ Er) as [->|]; [|done]. apply list_elem_of_lookup_2 in Hfd.
    destruct Hok as (_ & _ & Hn & _). done. }
  destruct (recvs r fd) as [ret bytes]. destruct (ret <? 0); [by simplify_eq|].
  destruct (ret =? 0).
  - pose proof (clear_client_ok _ _ _ Hok Hfd Hp) as Hok'.
    destruct (n - 1 =? 0); [by simplify_eq|].
    apply res_bind_Ok in E as ([[p1 t1] st1] & E1 & E2). simplify_eq/=.
    eapply IH in E1; [done| |..]; done.
  - apply res_bind_Ok in E as ([[l acts] h] & _ & E). cbn beta iota zeta in E.
    assert (loop_ok (Loop (sockfd st) (allset st) (maxfd st) (table st) h)) as Hok' by exact Hok.
    destruct l; [destruct (n - 1 =? 0)| | |]; simplify_eq; try done;
      apply res_bind_Ok in E as ([[p1 t1] st1] & E1 & E2); simplify_eq/=;
      eapply IH in E1; done.
Qed.

Lemma select_pass_ok r st p tr st' :
  loop_ok st -> kernel_ok r st -> select_pass handler r st = Ok (p, tr, st') ->
  loop_ok st' /\ sockfd st' = sockfd st.
Proof.
  intros Hok Hk E. unfold select_pass in E. destruct (nready r <? 0); [by simplify_eq|].
  pose proof (rset_pos r st Hok (proj1 Hk)) as Hr.
  apply res_bind_Ok in E as (incoming & _ & E). destruct incoming.
  - apply res_bind_Ok in E as ([p1 st1] & E1 & E).
    apply accept_client_ok in E1 as (Hok1 & Hs1); [|done..].
    destruct p1; simplify_eq/=; try done. destruct (_ =? 0); [by simplify_eq|].
    apply client_loop_ok in E; [rewrite <- Hs1; exact E|done|by rewrite Hs1|].
    apply indices_lt. by destruct Hok1.
  - apply client_loop_ok in E; [done..|]. apply indices_lt. by destruct Hok.
Qed.

Definition main_ok (s : @main_state H) : Prop :=
  match s with Outside t _ => table_ok t | Inside st => loop_ok st | Stopped _ => True end.

Lemma main_steps_ok s tr s' : main_ok s -> main_steps handler s tr s' -> main_ok s'.
Proof.
  intros Hs Hst. induction Hst as [|s1 t1 s2 t2 s3 Hstep _ IH]; [done|]. apply IH.
  destruct Hstep as [? ? ? ? Hf E| |r st tr st' Hk E|r st tr st' Hk E|]; cbn in *; try done.
  - by eapply start_listening_ok.
  - by apply select_pass_ok in E as [? _].
  - apply select_pass_ok in E as [Hok _]; [|done..]. by destruct Hok.
Qed.

(** Under the invariant no descriptor is outside the sets: what is left that can
    go wrong is the handler. *)
Lemma client_loop_total r idx n st e :
  loop_ok st -> (forall fd, fd ∈ rset r -> fd = sockfd st \/ 0 < fd) ->
  Forall (fun i => (i < MAX_CLIENTS)%nat) idx ->
  client_loop handler r idx n st = Ub e -> exists fd b h, handler fd b h = Ub e.
Proof.
  intros Hok Hr Hidx. revert n st Hok Hr.
  induction idx as [|i idx IH]; intros n st Hok Hr; cbn [client_loop]; [done|].
  apply Forall_cons in Hidx as [Hi Hidx]. specialize (IH Hidx).
  destruct (lookup_lt_is_Some_2 (client (table st)) i) as [fd Hfd].
  { destruct Hok as ((L & _) & _). by rewrite L. }
  rewrite (nth_lookup_Some _ _ _ _ Hfd). destruct (Z.ltb_spec fd 0); [by apply IH|].
  rewrite fd_isset_ok; cbn [res_bind].
  2: { destruct Hok as ((_ & _ & _ & _ & _ & Hm & _) & _). apply Hm in Hfd. lia. }
  case_bool_decide as Hready; cbn [negb]; [|by apply IH].
  destruct (recvs r fd) as [ret bytes]. destruct (ret <? 0); [done|]. destruct (ret =? 0).
  - destruct (n - 1 =? 0); [done|]. intros [E|([[? ?] ?] & _ & [=])]%res_bind_Ub.
    apply IH in E; [done| |done]. apply clear_client_ok; [done..|].
    destruct (Hr _ Hready) as [->|]; [|done]. apply list_elem_of_lookup_2 in Hfd.
    by destruct Hok as (_ & _ & Hn & _).
  - destruct (handler fd bytes (hstate st)) as [[[l acts] h]|e'] eqn:Eh; [|by intros [= ->]; eauto].
    cbn [res_bind].
    destruct l; [destruct (n - 1 =? 0)| | |]; try done;
      intros [E|([[? ?] ?] & _ & [=])]%res_bind_Ub; by apply IH in E.
Qed.

(** The connection whose descriptor does not fit into an fd_set, and a slot for it. *)
Definition big_descriptor r st : Prop :=
  0 <= nready r /\ sockfd st ∈ rset r /\ (exists i, (i < MAX_CLIENTS)%nat /\ nth i (client (table st)) 0 <= 0) /\
  exists fd port ip, accepted r = Some (fd, port, ip) /\ FD_SETSIZE <= fd.

Lemma accept_client_total r st e :
  kernel_ok r st -> 0 <= nready r -> sockfd st ∈ rset r ->
  accept_client r st = Ub e <-> e = OobWrite /\ big_descriptor r st.
Proof.
  intros (_ & _ & Ha) Hn Hs. unfold accept_client, big_descriptor.
  destruct (accepted r) as [[[fd port] ip]|]; [|split; [done|by intros (_ & _ & _ & _ & ? & ? & ? & ? & _)]].
  destruct (find_first _ _ _) as [i|] eqn:F; cycle 1.
  { split; [done|]. intros (_ & _ & _ & (i & Hi & Hf) & _). pose proof (proj1 (find_first_None _ _ _) F i ltac:(lia)) as Hx. cbn beta in Hx. lia. }
  apply find_first_Some in F as (Hi & Hfree & _). destruct Ha as ((Hfd & _) & _).
  destruct (fd_set_cases fd (allset st) Hfd) as [[Hb ->]|[Hb ->]]; cbn [res_bind].
  - split; [done|]. intros (_ & _ & _ & _ & fd' & ? & ? & [= <- _ _] & ?). lia.
  - split; [|by intros [-> _]]. intros [= <-]. split; [done|]. split_and!; [done|done| |by do 3 eexists]. exists i. lia.
Qed.

Lemma select_pass_total r st e :
  loop_ok st -> kernel_ok r st -> select_pass handler r st = Ub e ->
  (e = OobWrite /\ big_descriptor r st) \/ exists fd b h, handler fd b h = Ub e.
Proof.
  intros Hok Hk. unfold select_pass. destruct (Z.ltb_spec (nready r) 0); [done|].
  pose proof (rset_pos r st Hok (proj1 Hk)) as Hr.
  rewrite fd_isset_ok; cbn [res_bind].
  2: { destruct Hok as (_ & Hs & _ & _ & Hm & Hall). destruct (Hall _ Hs) as [? _]. lia. }
  case_bool_decide as Hin; [|intros E; right; eapply client_loop_total; [exact Hok|exact Hr| |exact E]; apply indices_lt; by destruct Hok].
  intros [E1|([p1 st1] & E1 & E)]%res_bind_Ub.
  - left. by apply accept_client_total in E1.
  - right. apply accept_client_ok in E1 as (Hok1 & Hs1); [|done..].
    destruct p1; try done. destruct (_ =? 0); [done|].
    apply client_loop_total in E; [done|done|by rewrite Hs1|apply indices_lt; by destruct Hok1].
Qed.

(** Such a connection is a write outside the fd_set. *)
Lemma big_descriptor_fails r st : loop_ok st -> kernel_ok r st -> big_descriptor r st -> select_pass handler r st = Ub OobWrite.
Proof.
  intros Hok Hk Hb. pose proof Hb as (Hn & Hin & _). unfold select_pass. rewrite (proj2 (Z.ltb_ge _ _) Hn).
  rewrite fd_isset_ok; cbn [res_bind].
  2: { destruct Hok as (_ & Hs & _ & _ & Hm & Hall). destruct (Hall _ Hs) as [? _]. lia. }
  rewrite bool_decide_true by done. by rewrite (proj2 (accept_client_total r st OobWrite Hk Hn Hin)).
Qed.
End Invariant.

(** C9. The select loop keeps its invariant from the start of main on: slots
    above maxi are free, no descriptor is in two slots, and select watches only the
    listening socket and descriptors of the table, all at most maxfd; so no pass
    tests a descriptor outside an fd_set.  Neither socket nor accept promises a descriptor below
    FD_SETSIZE, and the code does not check it: FD_SET writes outside the set exactly when the listening socket is
    beyond it, or a connection is for which there is a slot.  When a pass fails otherwise,
    it is the handler that failed.  This holds for every handler, so for the three servers. *)
Theorem select_loop_safe {H} (handler : Z -> list Z -> H -> res (leave * trace * H)) h tr st r :
  main_steps handler (main_start h) tr (Inside st) -> kernel_ok r st ->
  loop_ok st /\
  (forall e, select_pass handler r st = Ub e ->
     (e = OobWrite /\ big_descriptor r st) \/ exists fd b h, handler fd b h = Ub e) /\
  (big_descriptor r st -> select_pass handler r st = Ub OobWrite) /\
  (forall fd, fresh (table st) fd -> start_listening fd (table st) (hstate st) = Ub OobWrite <-> FD_SETSIZE <= fd).
Proof.
  intros Hst Hk. apply main_steps_ok in Hst; [|exact no_clients_ok].
  split; [done|]. split; [intros e; by apply select_pass_total|]. split; [by apply big_descriptor_fails|].
  intros fd [Hfd _]. destruct (start_listening_cases fd (table st) (hstate st) Hfd) as [[? ->]|[? ->]]; [|done]. split; [done|lia].
Qed.

(** ** The counter nready *)

(** The loop over the clients without the counter. *)
Fixpoint serve_ready {H} (handler : Z -> list Z -> H -> res (leave * trace * H)) (r : round)
    (idx : list nat) (st : loop_state H) : res (pass * trace * loop_state H) :=
  match idx with
  | [] => Ok (Again, [], st)
  | i :: idx =>
      let fd := nth i (client (table st)) 0 in
      if negb (bool_decide (0 <= fd /\ fd ∈ rset r)) then serve_ready handler r idx st
      else
        let (ret, bytes) := recvs r fd in
        if ret <? 0 then Ok (Return, [], st)
        else if ret =? 0 then
          let! (p, t, st) := serve_ready handler r idx
            (Loop (sockfd st) (allset st ∖ {[fd]}) (maxfd st)
               (set_client (table st) i (-1) 0 (zeros 16)) (hstate st)) in
          Ok (p, AClose fd :: t, st)
        else
          let! (l, acts, h) := handler fd bytes (hstate st) in
          let st := Loop (sockfd st) (allset st) (maxfd st) (table st) h in
          match l with
          | MainReturn => Ok (Return, acts, st)
          | LoopBreak => Ok (Again, acts, st)
          | _ => let! (p, t, st) := serve_ready handler r idx st in Ok (p, acts ++ t, st)
          end
  end.

(** The descriptors of the table that select marked. *)
Definition ready_clients (r : round) (idx : list nat) (t : clients) : list Z :=
  filter (fun fd => 0 <= fd /\ fd ∈ rset r) ((fun i => nth i (client t) 0) <$> idx).


Definition small_fds (t : clients) : Prop := Forall (fun fd => fd < FD_SETSIZE) (client t).

Lemma ready_clients_cons r i idx t :
  ready_clients r (i :: idx) t =
  if decide (0 <= nth i (client t) 0 /\ nth i (client t) 0 ∈ rset r)
  then nth i (client t) 0 :: ready_clients r idx t else ready_clients r idx t.
Proof. unfold ready_clients. cbn [fmap list_fmap]. by rewrite filter_cons. Qed.

Lemma ready_clients_clear r i idx t fd port ip :
  i ∉ idx -> ready_clients r idx (set_client t i fd port ip) = ready_clients r idx t.
Proof.
  intros Hi. unfold ready_clients. f_equal. apply list_fmap_ext. intros k j Hk. cbn.
  rewrite !nth_lookup, list_lookup_insert_ne; [done|].
  intros ->. apply Hi. by apply list_elem_of_lookup_2 in Hk.
Qed.

Lemma elem_of_ready r idx t fd :
  fd ∈ ready_clients r idx t <-> (0 <= fd /\ fd ∈ rset r) /\ exists i, i ∈ idx /\ nth i (client t) 0 = fd.
Proof.
  unfold ready_clients. rewrite list_elem_of_filter, list_elem_of_fmap. naive_solver.
Qed.

Lemma nth_client t i : table_ok t -> (i < MAX_CLIENTS)%nat -> client t !! i = Some (nth i (client t) 0).
Proof.
  intros (L & _) Hi. rewrite nth_lookup.
  destruct (lookup_lt_is_Some_2 (client t) i) as [fd ->]; [lia|done].
Qed.

Lemma ready_clients_NoDup r idx t :
  table_ok t -> Forall (fun i => (i < MAX_CLIENTS)%nat) idx -> NoDup idx ->
  (forall fd, fd ∈ rset r -> fd ∈ client t -> 0 < fd) -> NoDup (ready_clients r idx t).
Proof.
  intros Ht Hb Hnd Hp. induction idx as [|i idx IH]; [constructor|].
  apply Forall_cons in Hb as [Hi Hb]. apply NoDup_cons in Hnd as [Hni Hnd].
  rewrite ready_clients_cons. case_decide as E; [|by apply IH].
  apply NoDup_cons. split; [|by apply IH].
  intros (_ & j & Hj & Hji)%elem_of_ready.
  pose proof (nth_client t i Ht Hi) as Li.
  pose proof (nth_client t j Ht (proj1 (Forall_forall _ _) Hb j Hj)) as Lj. rewrite Hji in Lj.
  assert (i = j) as ->; [|done].
  destruct Ht as (_ & _ & _ & _ & _ & _ & _ & Hu). apply (Hu i j _ Li Lj). apply Hp; [tauto|].
  by apply list_elem_of_lookup_2 in Li.
Qed.

Lemma ready_clients_length {H} r (st : loop_state H) :
  loop_ok st -> (forall fd, fd ∈ rset r -> fd = sockfd st \/ 0 < fd) ->
  (length (ready_clients r (indices (table st)) (table st)) <= size (rset r ∖ {[sockfd st]}))%nat.
Proof.
  intros Hok Hr. pose proof Hok as (Ht & _ & Hn & _).
  rewrite <- (size_list_to_set (C:=gset Z)).
  - apply subseteq_size. intros fd ([_ Hfd] & i & Hi & <-)%elem_of_list_to_set%elem_of_ready.
    apply elem_of_difference. split; [done|]. intros Hx%elem_of_singleton. apply Hn. rewrite <- Hx.
    eapply list_elem_of_lookup_2, nth_client; [done|].
    by eapply (proj1 (Forall_forall _ _) (indices_lt _ Ht)).
  - apply ready_clients_NoDup; [done|by apply indices_lt|apply NoDup_seq|].
    intros fd Hfd Hc. destruct (Hr _ Hfd) as [->|]; done.
Qed.

Lemma small_fds_ok t : table_ok t -> small_fds t.
Proof.
  intros (_ & _ & _ & _ & _ & Hm & _). apply Forall_forall. intros fd [i Hi]%list_elem_of_lookup. eauto.
Qed.

Section Counter.
Context {H : Type} (handler : Z -> list Z -> H -> res (leave * trace * H)).
Implicit Types (st : loop_state H) (r : round).

Lemma serve_ready_none r idx st :
  ready_clients r idx (table st) = [] -> serve_ready handler r idx st = Ok (Again, [], st).
Proof.
  induction idx as [|i idx IH]; [done|]. rewrite ready_clients_cons. cbn [serve_ready].
  case_decide as E; [done|]. rewrite bool_decide_false by done. exact IH.
Qed.

Lemma client_loop_serve_ready r idx n st :
  NoDup idx -> small_fds (table st) -> Z.of_nat (length (ready_clients r idx (table st))) <= n ->
  client_loop handler r idx n st = serve_ready handler r idx st.
Proof.
  revert n st. induction idx as [|i idx IH]; intros n st Hnd Hs Hn; [done|].
  apply NoDup_cons in Hnd as [Hi Hnd]. rewrite ready_clients_cons in Hn.
  cbn [client_loop serve_ready]. set (fd := nth i (client (table st)) 0) in *.
  assert (fd < FD_SETSIZE) as Hfd.
  { subst fd. rewrite nth_lookup. destruct (client (table st) !! i) eqn:E; [|done].
    cbn. by eapply Forall_lookup_1 in E; [|exact Hs]. }
  destruct (Z.ltb_spec fd 0).
  { rewrite bool_decide_false by lia. rewrite decide_False in Hn by lia. by apply IH. }
  rewrite fd_isset_ok by lia. cbn [res_bind].
  case_decide as E; [|rewrite !bool_decide_false by naive_solver; cbn; by apply IH].
  rewrite !bool_decide_true by tauto. cbn [negb length] in *.
  destruct (recvs r fd) as [ret bytes]. destruct (ret <? 0); [done|]. destruct (ret =? 0).
  - set (st' := Loop _ _ _ _ (hstate st)).
    assert (Hr : ready_clients r idx (table st') = ready_clients r idx (table st))
      by by apply ready_clients_clear.
    assert (Hs' : small_fds (table st')) by by apply Forall_insert.
    destruct (Z.eqb_spec (n - 1) 0).
    + rewrite serve_ready_none; [done|]. rewrite Hr. apply nil_length_inv. lia.
    + rewrite IH; [done..|]. rewrite Hr. lia.
  - destruct (handler fd bytes (hstate st)) as [[[l acts] h]|]; [|done]. cbn [res_bind].
    set (st' := Loop _ _ _ _ h). destruct l; [|rewrite IH; [done..|cbn; lia]|done..].
    destruct (Z.eqb_spec (n - 1) 0).
    + rewrite serve_ready_none; [cbn [res_bind]; by rewrite app_nil_r|]. apply nil_length_inv. cbn. lia.
    + rewrite IH; [done..|cbn; lia].
Qed.

(** The reference pass: accept, then serve every client select marked. *)
Definition serve_pass r st : res (pass * trace * loop_state H) :=
  if nready r <? 0 then Ok (LeaveInner, [], st)
  else if bool_decide (sockfd st ∈ rset r) then
    let! (p, st) := accept_client r st in
    match p with
    | Again => serve_ready handler r (indices (table st)) st
    | _ => Ok (p, [], st)
    end
  else serve_ready handler r (indices (table st)) st.

Lemma serve_pass_select r st : loop_ok st -> kernel_ok r st -> select_pass handler r st = serve_pass r st.
Proof.
  intros Hok Hk. unfold select_pass, serve_pass. destruct (Z.ltb_spec (nready r) 0); [done|].
  pose proof (rset_pos r st Hok (proj1 Hk)) as Hr.
  pose proof Hk as (_ & Hsz & _). specialize (Hsz ltac:(lia)).
  rewrite fd_isset_ok; cbn [res_bind].
  2: { destruct Hok as (_ & Hs & _ & _ & Hm & Hall). destruct (Hall _ Hs) as [? _]. lia. }
  case_bool_decide as Hin.
  - destruct (accept_client r st) as [[p1 st1]|] eqn:E1; [|done]. cbn [res_bind].
    apply accept_client_ok in E1 as (Hok1 & Hs1); [|done..]. destruct p1; try done.
    assert (Z.of_nat (length (ready_clients r (indices (table st1)) (table st1))) <= nready r - 1) as Hl.
    { pose proof (ready_clients_length r st1 Hok1) as Hl. rewrite Hs1 in Hl. specialize (Hl Hr).
      rewrite size_difference, size_singleton in Hl by set_solver.
      assert (size (rset r) <> 0)%nat; [|lia].
      intros ?%size_empty_inv. set_solver. }
    destruct (Z.eqb_spec (nready r - 1) 0).
    + rewrite serve_ready_none; [done|]. apply nil_length_inv. lia.
    + apply client_loop_serve_ready; [apply NoDup_seq| |done]. apply small_fds_ok. by destruct Hok1.
  - apply client_loop_serve_ready; [apply NoDup_seq|apply small_fds_ok; by destruct Hok|].
    pose proof (ready_clients_length r st Hok Hr) as Hl.
    assert (size (rset r ∖ {[sockfd st]}) <= size (rset r))%nat by (apply subseteq_size; set_solver). lia.
Qed.
End Counter.

(** C23. The counter nready only saves work: in every state the server reaches, a
    pass does what accepting and then serving every client select marked, without
    a counter, does; no ready client is skipped. *)
Theorem select_pass_serves_all {H} (handler : Z -> list Z -> H -> res (leave * trace * H)) h tr st r :
  main_steps handler (main_start h) tr (Inside st) -> kernel_ok r st ->
  select_pass handler r st = serve_pass handler r st.
Proof.
  intros Hst Hk. apply main_steps_ok in Hst; [|exact no_clients_ok]. by apply serve_pass_select.
Qed.

(** ** Executing runs *)

#[export] Instance fresh_dec t fd : Decision (fresh t fd).
Proof. unfold fresh. apply _. Defined.

#[export] Instance kernel_ok_dec {H} r (st : loop_state H) : Decision (kernel_ok r st).
Proof. unfold kernel_ok. destruct (accepted r) as [[[fd port] ip]|]; apply _. Defined.

Section Run.
Context {H : Type} (handler : Z -> list Z -> H -> res (leave * trace * H)).

(** One pass per round; the descriptor of a new listening socket is [fd]. *)
Fixpoint run (fd : Z) (rs : list round) (s : @main_state H) : option (trace * main_state) :=
  match rs with
  | [] => Some ([], s)
  | r :: rs =>
      match s with
      | Stopped _ => None
      | Outside t h =>
          if decide (fresh t fd) then
            match start_listening fd t h with Ok st => run fd rs (Inside st) | Ub _ => None end
          else None
      | Inside st =>
          if decide (kernel_ok r st) then
            match select_pass handler r st with
            | Ub _ => None
            | Ok (Again, tr, st') => '(t, s) ← run fd rs (Inside st'); Some (tr ++ t, s)
            | Ok (LeaveInner, tr, st') =>
                '(t, s) ← run fd rs (Outside (table st') (hstate st')); Some ((tr ++ [AClose (sockfd st')]) ++ t, s)
            | Ok (Return, tr, st') => '(t, s) ← run fd rs (Stopped (-1)); Some (tr ++ t, s)
            end
          else None
      end
  end.

Lemma run_steps fd rs s tr s' : run fd rs s = Some (tr, s') -> main_steps handler s tr s'.
Proof.
  revert s tr. induction rs as [|r rs IH]; intros s tr E; cbn [run] in E.
  { simplify_eq. constructor. }
  destruct s as [t h|st|ret]; [| |done].
  - case_decide; [|done]. destruct (start_listening fd t h) as [st|] eqn:El; [|done].
    rewrite <- (app_nil_l tr). eapply steps_trans; [by econstructor|]. by apply IH.
  - case_decide; [|done]. destruct (select_pass handler r st) as [[[p t1] st1]|] eqn:Ep; [|done].
    destruct p.
    all: destruct (run fd rs _) as [[t2 s2]|] eqn:Er; [|done]; cbn in E; simplify_eq.
    all: eapply steps_trans; [|by apply IH].
    + by eapply step_again.
    + by eapply step_leave.
    + by eapply step_return.
Qed.
End Run.

(** Rounds: a connection, and bytes from a client. *)
Definition connect (listen fd : Z) : round :=
  Round 1 {[listen]} (Some (fd, 40000, zeros 16)) (fun _ => (0, [])).
Definition receive (fd : Z) (bytes : list Z) : round :=
  Round 1 {[fd]} None (fun _ => (zlen bytes, bytes)).
Definition idle : round := Round 0 ∅ None (fun _ => (0, [])).

(** Ten clients, then one more. *)
Definition eleven_connections : list round :=
  idle :: map (connect 3) [4; 5; 6; 7; 8; 9; 10; 11; 12; 13; 14].

Definition answer (c : option (trace * @main_state unit)) : option (trace * list Z) :=
  '(t, s) ← c;
  match s with Outside c _ => Some (t, client c) | Inside st => Some (t, client (table st)) | _ => None end.

(** A client is served after connecting. *)
Example run_echo :
  answer (run (echo_handler (fun _ => true)) 3 [idle; connect 3 4; receive 4 (str "hello")] (main_start tt)) =
  Some ([ASend 4 (str "hello")], [4; 0; 0; 0; 0; 0; 0; 0; 0; 0]).
Proof. vm_compute. reflexivity. Qed.

(** ** A full table *)

Definition full (t : clients) : Prop := table_ok t /\ Forall (fun fd => 0 < fd) (client t).

Section Starvation.
Context {H : Type} (handler : Z -> list Z -> H -> res (leave * trace * H)).

(** Nobody is watched but the listening socket. *)
Definition starved (t : clients) (h : H) (s : @main_state H) : Prop :=
  match s with
  | Outside t' h' => t' = t /\ h' = h
  | Inside st => loop_ok st /\ allset st = {[sockfd st]} /\ table st = t /\ hstate st = h
  | Stopped _ => True
  end.

Lemma starved_pass r st :
  loop_ok st -> full (table st) -> allset st = {[sockfd st]} -> kernel_ok r st ->
  select_pass handler r st = Ok (Again, [], st) \/ select_pass handler r st = Ok (LeaveInner, [], st).
Proof.
  intros Hok [Ht Hf] Hall Hk. rewrite serve_pass_select by done. unfold serve_pass.
  destruct (nready r <? 0); [by right|].
  assert (serve_ready handler r (indices (table st)) st = Ok (Again, [], st)) as Es.
  { apply serve_ready_none. apply elem_of_nil_inv.
    intros fd ([_ Hfd] & i & Hi & <-)%elem_of_ready. destruct Hk as [Hr _].
    destruct Hok as (_ & _ & Hn & _). apply Hn.
    replace (sockfd st) with (nth i (client (table st)) 0) by set_solver.
    eapply list_elem_of_lookup_2, nth_client; [done|].
    by eapply (proj1 (Forall_forall _ _) (indices_lt _ Ht)). }
  case_bool_decide; [|by left].
  unfold accept_client. destruct (accepted r) as [[[fd port] ip]|]; cbn [res_bind]; [|by right].
  match goal with |- context [find_first ?p ?i ?n] => destruct (find_first p i n) as [i0|] eqn:F end;
    [exfalso|by right].
  apply find_first_Some in F as (Hi & Hp & _).
  pose proof (Forall_lookup_1 _ _ _ _ Hf (nth_client _ i0 Ht (proj2 Hi))). cbn beta in *. apply Z.leb_le in Hp. lia.
Qed.

Lemma starved_steps t h s tr s' :
  full t -> starved t h s -> main_steps handler s tr s' ->
  starved t h s' /\ Forall (fun a => exists fd, a = AClose fd) tr.
Proof.
  intros Hf Hs Hst. induction Hst as [|s1 t1 s2 t2 s3 Hstep _ IH]; [by split|].
  assert (starved t h s2 /\ Forall (fun a => exists fd, a = AClose fd) t1) as [Hs2 Ht1].
  { destruct Hstep as [fd t0 h0 st0 Hfr E| |r st tr st' Hk E|r st tr st' Hk E|r st tr st' Hk E]; cbn in Hs.
    - destruct Hs as [-> ->]. split; [|done]. apply start_listening_ok in E as (? & <- & ? & ? & ?); [done|by destruct Hf|done].
    - done.
    - destruct Hs as (? & ? & <- & <-). destruct (starved_pass r st) as [E'|E']; try done; rewrite E' in E; by simplify_eq.
    - destruct Hs as (? & ? & <- & <-). destruct (starved_pass r st) as [E'|E']; try done; rewrite E' in E; simplify_eq.
      split; [done|]. cbn. repeat constructor. by eexists.
    - destruct Hs as (? & ? & <- & <-). destruct (starved_pass r st) as [E'|E']; try done; rewrite E' in E; by simplify_eq. }
  destruct (IH Hs2) as [? ?]. split; [done|]. by apply Forall_app.
Qed.
End Starvation.

(** C38. Once the inner loop is left with a full table, which one connection too many
    does, the server never recovers: however it goes on, no handler runs any more,
    no client is answered or removed, and all that happens is that listening
    sockets are closed. *)
Theorem full_table_starves {H} (handler : Z -> list Z -> H -> res (leave * trace * H)) t h tr s :
  full t -> main_steps handler (Outside t h) tr s ->
  Forall (fun a => exists fd, a = AClose fd) tr /\
  match s with
  | Outside t' h' => t' = t /\ h' = h
  | Inside st => allset st = {[sockfd st]} /\ table st = t /\ hstate st = h
  | Stopped _ => True
  end.
Proof.
  intros Hf Hst. apply (starved_steps handler t h) in Hst as [Hs Ht]; [|done..]. split; [done|].
  destruct s; cbn in Hs; naive_solver.
Qed.

(** The socket is returned exactly when every call succeeds; on a failure after
    socket() the error code tells the call apart (in tcp_server.c the two fcntl
    failures share -1) and the socket is left open. *)
Lemma socket_bind_listen_result k ret leaked :
  0 <= k_socket k \/ k_socket k = -1 ->
  TcpServer.socket_bind_listen k = (ret, leaked) ->
  ((0 <= ret <-> k_socket k <> -1 /\ 0 <= k_getfl k /\ 0 <= k_setfl k /\ k_setsockopt k = 0 /\
                 0 <= k_bind k /\ 0 <= k_listen k) /\
   (0 <= ret -> ret = k_socket k)) /\
  (leaked <> None <-> ret < 0 /\ k_socket k <> -1) /\
  (forall fd, leaked = Some fd -> fd = k_socket k).
Proof.
  intros Hk E. unfold TcpServer.socket_bind_listen in E.
  destruct (Z.eqb_spec (k_socket k) (-1)), (Z.ltb_spec (k_getfl k) 0), (Z.ltb_spec (k_setfl k) 0),
    (Z.eqb_spec (k_setsockopt k) 0), (Z.ltb_spec (k_bind k) 0), (Z.ltb_spec (k_listen k) 0); cbn in E;
    simplify_eq; split_and!; intros; try (split; intros); try congruence; try lia; try naive_solver lia.
Qed.

(** The echo server sends back the bytes before the first NUL; a full buffer of
    1024 bytes without a NUL is printed and measured past its end. *)
Lemma echo_handler_result ok fd bytes :
  byte_list bytes -> 0 < zlen bytes <= 1024 ->
  echo_handler ok fd bytes tt =
  if bool_decide (zlen bytes = 1024 /\ 0 ∉ bytes) then Ub OobRead
  else Ok (if ok fd then Served else LoopBreak, [ASend fd (c_string bytes)], tt).
Proof.
  intros _ Hl. unfold echo_handler, recv_buffer, write_at. unfold zlen in *.
  change (length (zeros 1024)) with 1024%nat.
  rewrite (proj2 (Z.leb_le 0 0)), (proj2 (Z.leb_le _ _)) by lia. cbn [andb res_bind].
  change (take (Z.to_nat 0) (zeros 1024)) with (@nil Z). rewrite app_nil_l.
  change (Z.to_nat 0 + length bytes)%nat with (length bytes).
  unfold zeros. rewrite drop_replicate. fold (zeros (1024 - length bytes)). unfold read_str.
  destruct (decide (0 ∈ bytes)) as [Hin|Hni].
  - rewrite bool_decide_true, bool_decide_false by set_solver. cbn [res_bind].
    apply list_elem_of_split_l in Hin as (b1 & b2 & -> & Hni).
    by rewrite <- app_assoc, <- app_comm_cons, !c_string_nul.
  - destruct (decide (length bytes = 1024%nat)) as [E|E].
    + rewrite E. change (zeros (1024 - 1024)) with (@nil Z). rewrite app_nil_r.
      by rewrite bool_decide_false, bool_decide_true by (split; [lia|done] || done).
    + destruct (1024 - length bytes)%nat as [|n] eqn:En; [lia|].
      rewrite bool_decide_true by (apply elem_of_app; right; left).
      rewrite bool_decide_false by (intros [? _]; lia). cbn [res_bind].
      rewrite c_string_zeros by done. rewrite c_string_id; [done|].
      apply Forall_forall. intros x Hx ->. done.
Qed.

(** ** Witnesses *)

(** The state after connecting one client. *)
Definition one_client : loop_state unit :=
  Loop 3 {[4; 3]} 4 (Clients (4 :: replicate 9 0) (40000 :: replicate 9 0) (replicate 10 (zeros 16)) 0) tt.

Lemma one_client_reached :
  main_steps (echo_handler (fun _ => true)) (main_start tt) [] (Inside one_client).
Proof.
  apply (run_steps (echo_handler (fun _ => true)) 3 [idle; connect 3 4]). vm_compute. reflexivity.
Defined.

Lemma select_loop_safe_witness :
  loop_ok one_client /\
  select_pass (echo_handler (fun _ => true)) (connect 3 1024) one_client = Ub OobWrite /\
  select_pass (echo_handler (fun _ => true)) (receive 4 (replicate 1024 65)) one_client = Ub OobRead /\
  exists fd b h, echo_handler (fun _ => true) fd b h = Ub OobRead.
Proof.
  destruct (select_loop_safe (echo_handler (fun _ => true)) tt [] one_client (receive 4 (replicate 1024 65))
    one_client_reached) as (Hok & He & _ & _).
  - apply (bool_decide_eq_true_1 (kernel_ok _ _)). vm_compute. reflexivity.
  - split; [exact Hok|]. split.
    + destruct (select_loop_safe (echo_handler (fun _ => true)) tt [] one_client (connect 3 1024) one_client_reached) as (_ & _ & Hb & _).
      * apply (bool_decide_eq_true_1 (kernel_ok _ _)). vm_compute. reflexivity.
      * apply Hb. split; [discriminate|]. split; [apply (bool_decide_unpack _); vm_compute; exact I|]. split.
        -- exists 1%nat. split; [unfold MAX_CLIENTS; lia|]. cbn. lia.
        -- exists 1024, 40000, (zeros 16). split; [reflexivity|]. discriminate.
    + split; [vm_compute; reflexivity|]. destruct (He OobRead) as [[[=] _]|H]; [vm_compute; reflexivity|exact H].
Defined.

Lemma select_pass_serves_all_witness :
  select_pass (echo_handler (fun _ => true)) (receive 4 (str "hi")) one_client =
  serve_pass (echo_handler (fun _ => true)) (receive 4 (str "hi")) one_client /\
  select_pass (echo_handler (fun _ => true)) (receive 4 (str "hi")) one_client = Ok (Again, [ASend 4 (str "hi")], one_client).
Proof.
  split; [|vm_compute; reflexivity].
  apply (select_pass_serves_all (echo_handler (fun _ => true)) tt [] _ _ one_client_reached).
  apply (bool_decide_eq_true_1 (kernel_ok _ _)). vm_compute. reflexivity.
Defined.

Definition eleven_clients : clients :=
  Clients [4; 5; 6; 7; 8; 9; 10; 11; 12; 13] (replicate 10 40000) (replicate 10 (zeros 16)) 9.

Lemma eleven_clients_reached :
  main_steps (echo_handler (fun _ => true)) (main_start tt) [AClose 3] (Outside eleven_clients tt).
Proof. apply (run_steps (echo_handler (fun _ => true)) 3 eleven_connections). vm_compute. reflexivity. Qed.

Lemma full_table_starves_witness :
  full eleven_clients /\
  main_steps (echo_handler (fun _ => true)) (main_start tt) [AClose 3] (Outside eleven_clients tt) /\
  Forall (fun a => exists fd, a = AClose fd) [AClose 3].
Proof.
  assert (full eleven_clients) as Hf.
  { split; [|repeat constructor; lia].
    eapply (main_steps_ok _ (main_start tt) _ (Outside eleven_clients tt)); [exact no_clients_ok|exact eleven_clients_reached]. }
  split; [exact Hf|]. split; [exact eleven_clients_reached|].
  apply (full_table_starves (echo_handler (fun _ => true)) eleven_clients tt [AClose 3] (Outside eleven_clients tt) Hf).
  apply (run_steps (echo_handler (fun _ => true)) 3 [idle; connect 3 20]). vm_compute. reflexivity.
Defined.

Lemma socket_bind_listen_result_witness :
  TcpServer.socket_bind_listen (Sockets 3 0 0 0 0 (-1)) = (-3, Some 3) /\ 3 = k_socket (Sockets 3 0 0 0 0 (-1)).
Proof.
  split; [reflexivity|].
  apply (socket_bind_listen_result (Sockets 3 0 0 0 0 (-1)) (-3) (Some 3)); [cbn; lia|reflexivity|reflexivity].
Defined.

Lemma echo_handler_result_witness :
  echo_handler (fun _ => true) 4 (replicate 1024 65) tt = Ub OobRead.
Proof.
  apply (echo_handler_result (fun _ => true) 4 (replicate 1024 65)).
  - apply Forall_replicate. lia.
  - vm_compute. split; [reflexivity|discriminate].
Defined.
