(* ===== verification/Clients.v ===== *)
(** http_client/http.c, tcp_client.c and tcp_socket.c: programs of a few socket calls each.
    What the calls answer are arguments; the result of a program is what it sends, prints
    and closes.  A packet that http_client builds is one that the server of http_server
    (Http.v) reads. *)

From S2P Require Import Prelude CLib Http SelectServer.

Open Scope c_scope.
Open Scope Z_scope.

(** What a program does to its sockets and the console. *)
Inductive io : Type :=
  | Send (fd : Z) (bytes : list Z)
  | Recv (fd : Z)
  | Print (text : list Z)
  | Close (fd : Z).

(** recv: the bytes that arrive, or [None] for an error. *)
Abbreviation received := (option (list Z)) (only parsing).

(** ** http_client/http.c *)

Module HttpClient.

Definition HTTP_IP : list Z := str "192.168.3.131".

(** [%d] of a size_t prints its low 32 bits. *)
Definition build_http_post_packet (buf filename content : list Z) : res (list Z * Z) :=
  let! name := read_str filename in
  let! text := read_str content in
  sprintfs buf 0
    [str "POST " ++ name ++ str " HTTP/1.1" ++ [10];
     str "HOST: " ++ HTTP_IP ++ [10];
     str "Content-Type: application/json" ++ [10];
     str "Content-Length: " ++ print_int (s32 (zlen text)) ++ [10];
     [10];
     text ++ CRLF;
     CRLF].

Definition tcp_connect (socket connect : Z) : Z * option Z := HttpServer.tcp_connect socket connect.

(** The calls of fcntl and setsockopt are commented out. *)
Definition socket_bind_listen (k : sockets) : Z * option Z := TcpSelect.socket_bind_listen k.

(** The value of main and what it did; the descriptor that accept gives is not tested. *)
Definition main (k : sockets) (acceptfd : Z) (r : option (list Z)) : res (Z * list io) :=
  let sockfd := fst (socket_bind_listen k) in
  if sockfd <? 0 then Ok (-1, [])
  else
    match r with
    | Some (c :: bytes) =>
        let! buf := write_at (zeros 1024) 0 (take 1024 (c :: bytes)) in
        let! text := read_str buf in
        Ok (0, [Recv acceptfd; Print text; Close acceptfd; Close sockfd])
    | _ => Ok (-1, [Recv acceptfd])
    end.
End HttpClient.

(** ** tcp_client.c *)

Module TcpClient.

Definition tcp_connect (socket connect : Z) : Z * option Z := HttpServer.tcp_connect socket connect.

(** What main does before its endless loop: the descriptor is used whatever tcp_connect
    returned, and closed never. *)
Definition main (socket connect : Z) (r : option (list Z)) : res (list io) :=
  let sockfd := fst (tcp_connect socket connect) in
  let start := [Send sockfd (str "abcdefg"); Recv sockfd] in
  match r with
  | Some (c :: bytes) =>
      let! buf := write_at (zeros 32) 0 (take 32 (c :: bytes)) in
      let! text := read_str buf in
      Ok (start ++ [Print text])
  | _ => Ok start
  end.
End TcpClient.

(** ** tcp_socket.c *)

Module TcpSocket.

(** while (confd > 0): the answers are those of send and recv; true: the function returned -1.  [msg] are
    the len bytes of buf, len being undeclared. *)
Fixpoint exchange (sockfd : Z) (msg : list Z) (answers : list (Z * Z)) : list io * bool :=
  match answers with
  | [] => ([], false)
  | (sent, got) :: answers =>
      if sent <? 0 then ([Send sockfd msg], true)
      else if got <=? 0 then ([Send sockfd msg; Recv sockfd], true)
      else let (l, r) := exchange sockfd msg answers in (Send sockfd msg :: Recv sockfd :: l, r)
  end.

(** One round of the outer loop of tcp_client. *)
Definition tcp_client (sockfd confd : Z) (msg : list Z) (answers : list (Z * Z)) : list io * bool :=
  if sockfd =? -1 then ([], true)
  else if 0 <? confd then exchange sockfd msg answers
  else ([Close sockfd], false).

(** No call is tested. *)
Definition main (serv_sock clnt_sock : Z) : list io :=
  [Send clnt_sock (str "Hello World!" ++ [0]); Close clnt_sock; Close serv_sock].
End TcpSocket.

(** * Lemmas *)

(** The fields between the protocol and the body. *)
Definition client_fields (len : Z) : list Z :=
  str "/1.1" ++ [10] ++ str "HOST: " ++ HttpClient.HTTP_IP ++ [10] ++ str "Content-Type: application/json" ++ [10]
  ++ str "Content-Length: " ++ print_int (s32 len) ++ [10] ++ [10].

Lemma client_fields_chars len c : c ∈ client_fields len -> c <> 0 /\ c <> 123.
Proof.
  unfold client_fields. rewrite !elem_of_app. intros Hc.
  repeat match type of Hc with _ \/ _ => destruct Hc as [Hc|Hc] end;
    try (by apply print_int_chars in Hc; lia);
    split; intros ->; apply list_elem_of_In in Hc; vm_compute in Hc; intuition discriminate.
Qed.

(** The packet of http_client, as text. *)
Lemma client_packet name text :
  0 ∉ name -> 0 ∉ text ->
  let packet := str "POST " ++ name ++ str " HTTP" ++ client_fields (zlen text) ++ text ++ CRLF ++ CRLF in
  (length packet < 1024)%nat ->
  HttpClient.build_http_post_packet (zeros 1024) (name ++ [0]) (text ++ [0]) =
    Ok (packet ++ zeros (1024 - length packet), zlen packet).
Proof.
  intros Hn Ht packet Hl. unfold HttpClient.build_http_post_packet. rewrite !read_str_nul by done. cbn [res_bind].
  set (l := [str "POST " ++ _; _; _; _; _; _; _]).
  assert (mjoin l = packet) as El.
  { unfold l, packet, client_fields. cbn [mjoin list_join]. change (str " HTTP/1.1") with (str " HTTP" ++ str "/1.1").
    rewrite <- !app_assoc. by rewrite app_nil_r. }
  pose proof (sprintfs_zeros 1024 l []) as Hs. rewrite El in Hs. by apply Hs.
Qed.

(** The two programs together: the server finds the path and the body in a packet of http_client,
    although its lines end with a single newline and blank lines follow the body. *)
Lemma client_packet_accepted name body :
  target_ok name -> 0 ∉ body -> (length name < 128)%nat -> (length body < 510)%nat ->
  let text := [123] ++ body ++ [125] in
  (length name + length (client_fields (zlen text)) + length text + 14 < 1024)%nat ->
  exists buf n f c,
    HttpClient.build_http_post_packet (zeros 1024) (name ++ [0]) (text ++ [0]) = Ok (buf, n) /\
    check_if_post (c_string buf) (zeros 128) (zeros 512) = Ok (0, f, c) /\ c_string f = name /\ c_string c = text.
Proof.
  intros Hn H0 Hln Hlb text Hl.
  assert (0 ∉ text) as Ht by (unfold text; rewrite !not_elem_of_app; split_and!; [set_solver|done|set_solver]).
  pose proof (target_string _ Hn) as Hn0.
  pose proof (client_packet name text Hn0 Ht) as Hp. cbv zeta in Hp.
  set (packet := str "POST " ++ _) in Hp. rewrite Hp by (unfold packet; rewrite !length_app; cbn in *; lia). clear Hp.
  eexists _, _, _, _. split; [reflexivity|].
  assert (0 ∉ packet) as H0p.
  { unfold packet. rewrite !not_elem_of_app. split_and!; try exact Hn0; try exact Ht;
      intros Hin; try (by apply client_fields_chars in Hin as [? _]);
      clear -Hin; apply list_elem_of_In in Hin; vm_compute in Hin; intuition discriminate. }
  rewrite c_string_zeros by done.
  assert (packet = (str "POST " ++ name ++ str " HTTP" ++ client_fields (zlen text)) ++ [123] ++ body ++ [125] ++ CRLF ++ CRLF) as ->.
  { unfold packet, text. by rewrite <- !app_assoc. }
  rewrite check_post_tail; [|done| | |unfold zeros; rewrite length_replicate; lia].
  - rewrite strncpy_zeros by done. cbn [res_bind].
    assert ([123] ++ body ++ [125] ++ CRLF ++ CRLF = text ++ CRLF ++ CRLF) as -> by (unfold text; by rewrite <- !app_assoc).
    fold text. rewrite strncpy_zeros by (unfold text; rewrite !length_app; cbn; lia). cbn [res_bind].
    split; [reflexivity|]. by rewrite !c_string_zeros.
  - intros Hin. by apply client_fields_chars in Hin as [_ ?].
  - intros Hin%list_elem_of_In; vm_compute in Hin; intuition discriminate.
Qed.

(** A message of 1024 bytes without a NUL is printed past the end of buf. *)
Lemma http_client_overread k acceptfd bytes :
  0 <= fst (HttpClient.socket_bind_listen k) -> length bytes = 1024%nat -> 0 ∉ bytes ->
  HttpClient.main k acceptfd (Some bytes) = Ub OobRead.
Proof.
  intros Hk Hl H0. unfold HttpClient.main. rewrite (proj2 (Z.ltb_ge _ _)) by done.
  destruct bytes as [|c bytes]; [done|]. rewrite take_ge by lia.
  rewrite write_at_ok by (unfold zlen, zeros; rewrite ?length_replicate; lia). cbn [res_bind].
  change (Z.to_nat 0) with 0%nat. rewrite take_0, drop_ge by (unfold zeros; rewrite length_replicate; lia).
  unfold read_str. by rewrite bool_decide_eq_false_2 by (by rewrite app_nil_r).
Qed.

(** tcp_client.c sends on the error code when it could not connect. *)
Lemma tcp_client_unconnected socket connect r io l :
  connect < 0 -> TcpClient.main socket connect r = Ok (io :: l) -> exists code, code < 0 /\ io = Send code (str "abcdefg").
Proof.
  intros Hc. unfold TcpClient.main, TcpClient.tcp_connect, HttpServer.tcp_connect.
  assert (exists code, code < 0 /\ fst (if socket <? 0 then (-1, None) else if connect <? 0 then (-2, Some socket) else (socket, None)) = code)
    as (code & Hlt & ->).
  { eexists. split; [|reflexivity]. destruct (socket <? 0); [cbn; lia|]. by rewrite (proj2 (Z.ltb_lt connect 0)). }
  destruct r as [[|c bytes]|]; [intros [= <- _]; eauto| |intros [= <- _]; eauto].
  intros (buf & _ & (text & _ & [= <- _])%res_bind_Ok)%res_bind_Ok. eauto.
Qed.

(** connect gives 0 or -1, never a descriptor: tcp_client connects and closes, and sends nothing. *)
Lemma tcp_client_sends_nothing sockfd confd msg answers :
  0 <= sockfd -> confd = 0 \/ confd = -1 -> TcpSocket.tcp_client sockfd confd msg answers = ([Close sockfd], false).
Proof.
  intros Hs Hc. unfold TcpSocket.tcp_client. rewrite (proj2 (Z.eqb_neq sockfd (-1))) by lia. by destruct Hc as [-> | ->].
Qed.
