(* ===== verification/Json.v ===== *)
(** cJSON.c, the text of a document: parsing into items, printing items into
    freshly allocated strings, and cJSON_Minify (printing into a growing buffer is in
    JsonBuffer.v, copying a document in JsonCopy.v).

    An item is a tree, the list of its children standing for the chain child,
    next, prev; what the functions that edit the chain in place do to the pointers
    is in JsonHeap.v.  Text is memory up to its NUL, given by the bytes that are
    left: reading at the end gives NUL, moving past it is undefined. *)

From Stdlib Require Import Floats.SpecFloat.
From S2P Require Import Prelude CLib CFloat.

Open Scope c_scope.
Open Scope Z_scope.

(** ** Items *)

Definition cJSON_False : Z := 0.
Definition cJSON_True : Z := 1.
Definition cJSON_NULL : Z := 2.
Definition cJSON_Number : Z := 3.
Definition cJSON_String : Z := 4.
Definition cJSON_Array : Z := 5.
Definition cJSON_Object : Z := 6.
Definition cJSON_IsReference : Z := 256.
Definition cJSON_StringIsConst : Z := 512.

(** struct cJSON; [name] is the member string. *)
Inductive item : Type := Item {
  child : list item;
  type : Z;
  valuestring : option (list Z);
  valueint : Z;
  valuedouble : double;
  name : option (list Z)
}.

(** What memset leaves in a new item. *)
Definition blank : item := Item [] 0 None 0 (S754_zero false) None.

Definition set_type (ty : Z) (it : item) : item :=
  Item (child it) ty (valuestring it) (valueint it) (valuedouble it) (name it).
Definition set_child (l : list item) (it : item) : item :=
  Item l (type it) (valuestring it) (valueint it) (valuedouble it) (name it).
Definition set_name (n : option (list Z)) (it : item) : item :=
  Item (child it) (type it) (valuestring it) (valueint it) (valuedouble it) n.
Definition set_number (n : Z) (d : double) (it : item) : item :=
  Item (child it) (type it) (valuestring it) n d (name it).
Definition set_valuestring (s : option (list Z)) (it : item) : item :=
  Item (child it) (type it) s (valueint it) (valuedouble it) (name it).

(** ** The state: the allocator, the blocks not freed yet and the error pointer *)

Record heap : Type := Heap { oracle : list bool; live : Z; ep : option (list Z) }.

Abbreviation M := (ST heap).

Definition cJSON_malloc : M bool := fun h =>
  let (ok, o) := alloc (oracle h) in Ok (ok, Heap o (if ok then live h + 1 else live h) (ep h)).

(** [n] blocks freed. *)
Definition cJSON_free (n : Z) : M unit := fun h => Ok (tt, Heap (oracle h) (live h - n) (ep h)).

Definition set_ep (e : option (list Z)) : M unit := fun h => Ok (tt, Heap (oracle h) (live h) e).

(** A block of [len] bytes that receives [text] and a NUL.  The size is an int; a negative one is
    a size no block has, and malloc fails. *)
Definition new_string (len : Z) (text : list Z) : M (option (list Z)) :=
  ok ← (if len <? 0 then mret false else cJSON_malloc);
  if ok : bool then (if zlen text + 1 <=? len then mret (Some text) else fault OobWrite) else mret None.

Definition cJSON_strdup (s : list Z) : M (option (list Z)) := new_string (zlen s + 1) s.

Definition cJSON_New_Item : M (option item) :=
  ok ← cJSON_malloc; mret (if ok : bool then Some blank else None).

(** ** cJSON_strcasecmp: zero when the strings are equal but for case *)

Fixpoint casecmp (s1 s2 : list Z) : Z :=
  match s1, s2 with
  | [], [] => 0
  | [], c2 :: _ => tolower 0 - tolower c2
  | c1 :: _, [] => tolower c1 - tolower 0
  | c1 :: s1', c2 :: s2' => if tolower c1 =? tolower c2 then casecmp s1' s2' else tolower c1 - tolower c2
  end.

Definition cJSON_strcasecmp (s1 s2 : option (list Z)) : Z :=
  match s1, s2 with
  | None, None => 0
  | None, _ | _, None => 1
  | Some s1, Some s2 => casecmp s1 s2
  end.

(** ** cJSON_Delete: the blocks of an item *)

Definition flag (ty bit : Z) : bool := negb (ty .& bit =? 0).

Definition owned {A} (o : option A) : Z := match o with Some _ => 1 | None => 0 end.

Fixpoint blocks (c : item) : Z :=
  (if flag (type c) cJSON_IsReference then 0 else foldr (fun c n => blocks c + n) 0 (child c))
  + (if flag (type c) cJSON_IsReference then 0 else owned (valuestring c))
  + (if flag (type c) cJSON_StringIsConst then 0 else owned (name c))
  + 1.

Definition blocks_list (l : list item) : Z := foldr (fun c n => blocks c + n) 0 l.

Definition cJSON_Delete (c : item) : M unit := cJSON_free (blocks c).

(** ** Numbers *)

Definition peek (s : list Z) : Z := hd 0 s.

Definition is_digit19 (c : Z) : bool := (49 <=? c) && (c <=? 57).

Definition d10 : double := dofZ 10.

(** n = (n * 10.0) + the digit. *)
Definition add_digit (n : double) (c : Z) : double := dadd (dmul n d10) (dofZ (c - 48)).

(** pow(10.0, k) for an integer k: the double nearest to the power. *)
Definition pow10 (k : Z) : double :=
  if 0 <=? k then dofZ (10 ^ Z.min k 400) else dratio false 1 (Z.to_pos (10 ^ Z.min (- k) 400)).

(** subscale = (subscale * 10) + digit, in an int. *)
Definition add_subscale (n c : Z) : res Z := let! n := as_int (n * 10) in as_int (n + (c - 48)).

Fixpoint read_subscale (n : Z) (ds : list Z) : res Z :=
  match ds with
  | [] => Ok n
  | c :: ds => let! n := add_subscale n c in read_subscale n ds
  end.

(** After the sign. *)
Definition parse_magnitude (it : item) (sg : double) (s : list Z) : res (item * list Z) :=
  let s := if peek s =? 48 then tl s else s in
  let (n, s) :=
    if is_digit19 (peek s) then let (ds, r) := span isdigit s in (fold_left add_digit ds (S754_zero false), r)
    else (S754_zero false, s) in
  let '(n, scale, s) :=
    if (peek s =? 46) && isdigit (peek (tl s)) then
      let (ds, r) := span isdigit (tl s) in (fold_left add_digit ds n, - zlen ds, r)
    else (n, 0, s) in
  let! (e, s) :=
    if (peek s =? 101) || (peek s =? 69) then
      let s := tl s in
      let (sg, s) := if peek s =? 43 then (1, tl s) else if peek s =? 45 then (-1, tl s) else (1, s) in
      let (ds, r) := span isdigit s in
      let! subscale := read_subscale 0 ds in Ok (subscale * sg, r)
    else Ok (0, s) in
  let n := dmul (dmul sg n) (pow10 (scale + e)) in
  Ok (set_type cJSON_Number (set_number (dtoint n) n it), s).

Definition parse_number (it : item) (num : list Z) : res (item * list Z) :=
  if peek num =? 45 then parse_magnitude it (dofZ (-1)) (tl num) else parse_magnitude it (dofZ 1) num.

(** ** Strings *)

Definition hex_digit (c : Z) : option Z :=
  if (48 <=? c) && (c <=? 57) then Some (c - 48)
  else if (65 <=? c) && (c <=? 70) then Some (10 + c - 65)
  else if (97 <=? c) && (c <=? 102) then Some (10 + c - 97)
  else None.

(** Four digits, 0 as soon as one is missing. *)
Definition parse_hex4 (s : list Z) : Z :=
  match hex_digit (nth 0 s 0) with
  | None => 0
  | Some a =>
    match hex_digit (nth 1 s 0) with
    | None => 0
    | Some b =>
      match hex_digit (nth 2 s 0) with
      | None => 0
      | Some c =>
        match hex_digit (nth 3 s 0) with
        | None => 0
        | Some d => (((a << 4) + b << 4) + c << 4) + d
        end
      end
    end
  end.

(** The first loop: how many characters come before the closing quote, an escaped
    one counting for one; len is an int. *)
Fixpoint string_len (s : list Z) (len : Z) : res Z :=
  match s with
  | [] => Ok len
  | c :: s =>
      if c =? 34 then Ok len
      else
        let! len := as_int (len + 1) in
        if c =? 92 then match s with [] => Ub OobRead | _ :: s => string_len s len end
        else string_len s len
  end.

Definition firstByteMark : list Z := [0x00; 0x00; 0xC0; 0xE0; 0xF0; 0xF8; 0xFC].

(** The bytes written for the code [uc], the last one first. *)
Definition continuation (uc : Z) : Z := u8 ((uc .| 0x80) .& 0xBF).

Definition utf8 (uc : Z) : list Z :=
  let len := if uc <? 0x80 then 1%nat else if uc <? 0x800 then 2%nat else if uc <? 0x10000 then 3%nat else 4%nat in
  let lead uc := u8 (uc .| nth len firstByteMark 0) in
  match len with
  | 1%nat => [lead uc]
  | 2%nat => [lead (uc >> 6); continuation uc]
  | 3%nat => [lead (uc >> 6 >> 6); continuation (uc >> 6); continuation uc]
  | _ => [lead (uc >> 6 >> 6 >> 6); continuation (uc >> 6 >> 6); continuation (uc >> 6); continuation uc]
  end.

(** The bytes left after moving [n] further; past the NUL is outside. *)
Definition advance (n : nat) (s : list Z) : res (list Z) :=
  if (n <=? length s)%nat then Ok (drop n s) else Ub OobRead.

(** case 'u', from the character after it: the bytes written and what is left. *)
Definition unescape_u (s : list Z) : res (list Z * list Z) :=
  let uc := parse_hex4 s in
  if ((0xDC00 <=? uc) && (uc <=? 0xDFFF)) || (uc =? 0) then let! r := advance 4 s in Ok ([], r)
  else if (0xD800 <=? uc) && (uc <=? 0xDBFF) then
    if negb ((nth 4 s 0 =? 92) && (nth 5 s 0 =? 117)) then let! r := advance 4 s in Ok ([], r)
    else
      let uc2 := parse_hex4 (drop 6 s) in
      let! r := advance 10 s in
      if (uc2 <? 0xDC00) || (0xDFFF <? uc2) then Ok ([], r)
      else Ok (utf8 (0x10000 + (((uc .& 0x3FF) << 10) .| (uc2 .& 0x3FF))), r)
  else let! r := advance 4 s in Ok (utf8 uc, r).

(** The second loop: the bytes written and what is left. *)
Fixpoint unescape (fuel : nat) (s : list Z) : res (list Z * list Z) :=
  match fuel with
  | O => Ub NoReturn
  | S fuel =>
      match s with
      | [] => Ok ([], [])
      | c :: s' =>
          if c =? 34 then Ok ([], s)
          else if negb (c =? 92) then let! (out, r) := unescape fuel s' in Ok (c :: out, r)
          else
            match s' with
            | [] => Ub OobRead
            | e :: s' =>
                if e =? 117 then
                  let! (w, s') := unescape_u s' in
                  let! (out, r) := unescape fuel s' in Ok (w ++ out, r)
                else
                  let w := if e =? 98 then 8 else if e =? 102 then 12 else if e =? 110 then 10
                           else if e =? 114 then 13 else if e =? 116 then 9 else e in
                  let! (out, r) := unescape fuel s' in Ok (w :: out, r)
            end
      end
  end.


Definition parse_string (it : item) (s : list Z) : M (item * option (list Z)) :=
  if negb (peek s =? 34) then set_ep (Some s);; mret (it, None)
  else
    len ← lift (string_len (tl s) 0);
    lift (as_int (len + 1));;
    ok ← cJSON_malloc;
    if negb ok then mret (it, None)
    else
      '(out, r) ← lift (unescape (S (length s)) (tl s));
      if zlen out <=? len then
        mret (set_type cJSON_String (set_valuestring (Some out) it),
              Some (if peek r =? 34 then tl r else r))
      else fault OobWrite.

(** ** Values *)

(** skip *)
Definition skip (s : list Z) : list Z := (span (fun c => c <=? 32) s).2.

(** Parsing stops with a position or with NULL. *)
Definition skip_opt (s : option (list Z)) : option (list Z) := option_map skip s.

Definition fail_at {A} (a : A) (s : list Z) : M (A * option (list Z)) := set_ep (Some s);; mret (a, None).

(** parse_value, parse_array and parse_object call each other; [fuel] bounds the
    depth of the calls.  [parse_elements] and [parse_members] are the part the
    first entry and the loop have in common: one entry, and the others as long as
    a comma comes. *)
Fixpoint parse_value (fuel : nat) (it : item) (s : list Z) : M (item * option (list Z)) :=
  match fuel with
  | O => fault NoReturn
  | S fuel =>
      if is_prefix (str "null") s then mret (set_type cJSON_NULL it, Some (drop 4 s))
      else if is_prefix (str "false") s then mret (set_type cJSON_False it, Some (drop 5 s))
      else if is_prefix (str "true") s then
        mret (set_type cJSON_True (set_number 1 (valuedouble it) it), Some (drop 4 s))
      else if peek s =? 34 then parse_string it s
      else if (peek s =? 45) || isdigit (peek s) then
        '(it, r) ← lift (parse_number it s); mret (it, Some r)
      else if peek s =? 91 then parse_array fuel it s
      else if peek s =? 123 then parse_object fuel it s
      else fail_at it s
  end
with parse_array (fuel : nat) (it : item) (s : list Z) : M (item * option (list Z)) :=
  match fuel with
  | O => fault NoReturn
  | S fuel =>
      let it := set_type cJSON_Array it in
      let s := skip (tl s) in
      if peek s =? 93 then mret (it, Some (tl s))
      else
        '(l, r) ← parse_elements fuel s;
        let it := set_child l it in
        match r with
        | None => mret (it, None)
        | Some r => if peek r =? 93 then mret (it, Some (tl r)) else fail_at it r
        end
  end
with parse_elements (fuel : nat) (s : list Z) : M (list item * option (list Z)) :=
  match fuel with
  | O => fault NoReturn
  | S fuel =>
      new ← cJSON_New_Item;
      match new with
      | None => mret ([], None)
      | Some new =>
          '(c, r) ← parse_value fuel new (skip s);
          match skip_opt r with
          | None => mret ([c], None)
          | Some r =>
              if peek r =? 44 then
                '(l, r) ← parse_elements fuel (tl r); mret (c :: l, r)
              else mret ([c], Some r)
          end
      end
  end
with parse_object (fuel : nat) (it : item) (s : list Z) : M (item * option (list Z)) :=
  match fuel with
  | O => fault NoReturn
  | S fuel =>
      let it := set_type cJSON_Object it in
      let s := skip (tl s) in
      if peek s =? 125 then mret (it, Some (tl s))
      else
        '(l, r) ← parse_members fuel s;
        let it := set_child l it in
        match r with
        | None => mret (it, None)
        | Some r => if peek r =? 125 then mret (it, Some (tl r)) else fail_at it r
        end
  end
with parse_members (fuel : nat) (s : list Z) : M (list item * option (list Z)) :=
  match fuel with
  | O => fault NoReturn
  | S fuel =>
      new ← cJSON_New_Item;
      match new with
      | None => mret ([], None)
      | Some new =>
          '(c, r) ← parse_string new (skip s);
          match skip_opt r with
          | None => mret ([c], None)
          | Some r =>
              let c := set_valuestring None (set_name (valuestring c) c) in
              if negb (peek r =? 58) then fail_at [c] r
              else
                '(c, r) ← parse_value fuel c (skip (tl r));
                match skip_opt r with
                | None => mret ([c], None)
                | Some r =>
                    if peek r =? 44 then
                      '(l, r) ← parse_members fuel (tl r); mret (c :: l, r)
                    else mret ([c], Some r)
                end
          end
      end
  end.

(** Each nesting level takes three calls and at least one character, each entry
    after the first one call and at least one character. *)
Definition parse_fuel (s : list Z) : nat := 4 * S (length s).

(** The item and the position where it ends, or NULL. *)
Definition cJSON_ParseWithOpts (value : list Z) (require_null_terminated : bool) : M (option (item * list Z)) :=
  c ← cJSON_New_Item;
  set_ep None;;
  match c with
  | None => mret None
  | Some c =>
      '(c, e) ← parse_value (parse_fuel value) c (skip value);
      match e with
      | None => cJSON_Delete c;; mret None
      | Some e =>
          if require_null_terminated then
            let e := skip e in
            match e with
            | [] => mret (Some (c, e))
            | _ => cJSON_Delete c;; set_ep (Some e);; mret None
            end
          else mret (Some (c, e))
      end
  end.

Definition cJSON_Parse (value : list Z) : M (option item) :=
  r ← cJSON_ParseWithOpts value false; mret (option_map fst r).

(** ** Printing *)

Definition DBL_EPSILON : double := dratio false 1 (2 ^ 52).

Definition number_text (it : item) : Z * list Z :=
  let d := valuedouble it in
  if deqb d (dofZ 0) then (2, str "0")
  else if dleb (dabs (dsub (dofZ (valueint it)) d)) DBL_EPSILON && dleb d (dofZ INT_MAX) && dleb (dofZ INT_MIN) d
  then (21, print_int (valueint it))
  else (64, if dleb (dabs (dsub (dfloor d) d)) DBL_EPSILON && dltb (dabs d) (dofZ (10 ^ 60)) then print_f 0 d
            else if dltb (dabs d) (dratio false 1 (10 ^ 6)) || dltb (dofZ (10 ^ 9)) (dabs d) then print_e d
            else print_f 6 d).

Definition print_number (it : item) : M (option (list Z)) :=
  let (len, text) := number_text it in new_string len text.

Definition needs_escape (c : Z) : bool := ((0 <? c) && (c <? 32)) || (c =? 34) || (c =? 92).

(** The characters of strchr in the length loop. *)
Definition short_escape (c : Z) : bool :=
  (c =? 34) || (c =? 92) || (c =? 8) || (c =? 12) || (c =? 10) || (c =? 13) || (c =? 9).

(** ++len, and len++ or len+=5, in an int. *)
Fixpoint escaped_length (s : list Z) (len : Z) : res Z :=
  match s with
  | [] => Ok len
  | c :: s =>
      let! len := as_int (len + 1) in
      let! len := (if short_escape c then as_int (len + 1) else if c <? 32 then as_int (len + 5) else Ok len) in
      escaped_length s len
  end.

Definition hex_char (n : Z) : Z := if n <? 10 then 48 + n else 87 + n.

(** u%04x *)
Definition u04x (c : Z) : list Z :=
  [117; hex_char ((c >> 12) .& 15); hex_char ((c >> 8) .& 15); hex_char ((c >> 4) .& 15); hex_char (c .& 15)].

Definition escape_char (c : Z) : list Z :=
  if (31 <? c) && negb (c =? 34) && negb (c =? 92) then [c]
  else 92 :: (if c =? 92 then [92] else if c =? 34 then [34] else if c =? 8 then [98] else if c =? 12 then [102]
              else if c =? 10 then [110] else if c =? 13 then [114] else if c =? 9 then [116] else u04x c).

(** The size asked for and the text; without an escape len is ptr - str, converted to int. *)
Definition string_text (s : list Z) : res (Z * list Z) :=
  if existsb needs_escape s then
    let! len := escaped_length s 0 in
    let! size := as_int (len + 3) in Ok (size, 34 :: flat_map escape_char s ++ [34])
  else let! size := as_int (s32 (zlen s) + 3) in Ok (size, 34 :: s ++ [34]).

(** print_string_ptr: the string is read before it is compared with NULL. *)
Definition print_string_ptr (s : option (list Z)) : M (option (list Z)) :=
  match s with
  | None => fault NullDeref
  | Some s => '(len, text) ← lift (string_text s); new_string len text
  end.

Definition print_string (it : item) : M (option (list Z)) := print_string_ptr (valuestring it).

Definition tabs (n : Z) : list Z := replicate (Z.to_nat n) 9.
Definition fmtZ (fmt : bool) (n : Z) : Z := if fmt then n else 0.
Definition fmt_text (fmt : bool) (t : list Z) : list Z := if fmt then t else [].

(** The loop of print_array over the children: the strings made and whether one
    could not be; it stops there. *)
Fixpoint print_entries (pv : item -> M (option (list Z))) (l : list item) : M (list (list Z) * bool) :=
  match l with
  | [] => mret ([], false)
  | c :: l =>
      ret ← pv c;
      match ret with
      | None => mret ([], true)
      | Some e => '(es, f) ← print_entries pv l; mret (e :: es, f)
      end
  end.

(** The text between the brackets. *)
Fixpoint array_body (fmt : bool) (es : list (list Z)) : list Z :=
  match es with
  | [] => []
  | [e] => e
  | e :: es => e ++ [44] ++ fmt_text fmt [32] ++ array_body fmt es
  end.

Definition sumZ (l : list Z) : Z := foldr Z.add 0 l.

(** int numentries, counted up to the end of the chain. *)
Definition numentries (l : list item) : M Z := lift (as_int (zlen l)).

(** len += n for each of the sizes n, which are size_t: the sum is converted back to int. *)
Definition add_sizes (len : Z) (sizes : list Z) : Z := fold_left (fun len n => s32 (len + n)) sizes len.

Definition print_array (pv : item -> M (option (list Z))) (fmt : bool) (l : list item) : M (option (list Z)) :=
  match l with
  | [] => new_string 3 (str "[]")
  | _ =>
      numentries l;;
      ok ← cJSON_malloc;
      if negb ok then mret None
      else
        '(es, fail) ← print_entries pv l;
        if fail : bool then cJSON_free (zlen es);; cJSON_free 1;; mret None
        else
          let len := add_sizes 5 (map (fun e => zlen e + 2 + fmtZ fmt 1) es) in
          out ← new_string len ([91] ++ array_body fmt es ++ [93]);
          cJSON_free (zlen es);; cJSON_free 1;; mret out
  end.

(** The loop of print_object: names and values, NULL where one could not be made;
    it does not stop. *)
Fixpoint print_pairs (pv : item -> M (option (list Z))) (l : list item)
    : M (list (option (list Z) * option (list Z))) :=
  match l with
  | [] => mret []
  | c :: l =>
      n ← print_string_ptr (name c);
      v ← pv c;
      ps ← print_pairs pv l;
      mret ((n, v) :: ps)
  end.

Fixpoint all_pairs (ps : list (option (list Z) * option (list Z))) : option (list (list Z * list Z)) :=
  match ps with
  | [] => Some []
  | (Some n, Some v) :: ps => option_map (cons (n, v)) (all_pairs ps)
  | _ :: _ => None
  end.

Fixpoint object_body (fmt : bool) (depth : Z) (ps : list (list Z * list Z)) : list Z :=
  match ps with
  | [] => []
  | (n, v) :: ps =>
      fmt_text fmt (tabs depth) ++ n ++ [58] ++ fmt_text fmt [9] ++ v
      ++ (match ps with [] => [] | _ => [44] end) ++ fmt_text fmt [10] ++ object_body fmt depth ps
  end.

(** [depth] is the depth of the object itself. *)
Definition print_object (pv : item -> M (option (list Z))) (fmt : bool) (depth : Z) (l : list item)
    : M (option (list Z)) :=
  match l with
  | [] =>
      len ← lift (if fmt then as_int (depth + 4) else Ok 3);
      new_string len ([123] ++ fmt_text fmt ([10] ++ tabs (depth - 1)) ++ [125])
  | _ =>
      numentries l;;
      ok ← cJSON_malloc;
      if negb ok then mret None
      else
        ok ← cJSON_malloc;
        if negb ok then cJSON_free 1;; mret None
        else
          depth ← lift (as_int (depth + 1));
          len ← lift (if fmt then as_int (7 + depth) else Ok 7);
          ps ← print_pairs pv l;
          let made := sumZ (map (fun p => owned p.1 + owned p.2) ps) in
          match all_pairs ps with
          | None => cJSON_free made;; cJSON_free 2;; mret None
          | Some ts =>
              let len := add_sizes len (map (fun p => zlen p.2 + zlen p.1 + 2 + fmtZ fmt (2 + depth)) ts) in
              out ← new_string len ([123] ++ fmt_text fmt [10] ++ object_body fmt depth ts
                                    ++ fmt_text fmt (tabs (depth - 1)) ++ [125]);
              cJSON_free made;; cJSON_free 2;; mret out
          end
  end.

Definition kind (it : item) : Z := type it .& 255.

Fixpoint print_value (fmt : bool) (it : item) (depth : Z) : M (option (list Z)) :=
  let pv c := (d ← lift (as_int (depth + 1)); print_value fmt c d) in
  if kind it =? cJSON_NULL then cJSON_strdup (str "null")
  else if kind it =? cJSON_False then cJSON_strdup (str "false")
  else if kind it =? cJSON_True then cJSON_strdup (str "true")
  else if kind it =? cJSON_Number then print_number it
  else if kind it =? cJSON_String then print_string it
  else if kind it =? cJSON_Array then print_array pv fmt (child it)
  else if kind it =? cJSON_Object then print_object pv fmt depth (child it)
  else mret None.

Definition cJSON_Print (it : item) : M (option (list Z)) := print_value true it 0.
Definition cJSON_PrintUnformatted (it : item) : M (option (list Z)) := print_value false it 0.

(** ** cJSON_Minify, in place: the text written never passes the text read.  The four
    functions are the main loop and its three inner loops. *)

Definition is_blank (c : Z) : bool := (c =? 32) || (c =? 9) || (c =? 13) || (c =? 10).

Fixpoint cJSON_Minify (s : list Z) : res (list Z) :=
  match s with
  | [] => Ok []
  | c :: t =>
      if is_blank c then cJSON_Minify t
      else if (c =? 47) && (peek t =? 47) then minify_line t
      else if (c =? 47) && (peek t =? 42) then minify_comment t
      else if c =? 34 then let! r := minify_string t in Ok (c :: r)
      else let! r := cJSON_Minify t in Ok (c :: r)
  end
(** To the end of the line; the line feed is dropped by the main loop. *)
with minify_line (s : list Z) : res (list Z) :=
  match s with
  | [] => Ok []
  | c :: t => if c =? 10 then cJSON_Minify t else minify_line t
  end
(** To the end of the comment; json += 2 moves past the NUL when there is none. *)
with minify_comment (s : list Z) : res (list Z) :=
  match s with
  | [] => Ub OobRead
  | c :: t =>
      match t with
      | d :: t' => if (c =? 42) && (d =? 47) then cJSON_Minify t' else minify_comment t
      | [] => Ub OobRead
      end
  end
(** A string; the character after it is copied whatever it is, the NUL included. *)
with minify_string (s : list Z) : res (list Z) :=
  match s with
  | [] => Ub OobRead
  | c :: t =>
      if c =? 34 then let! r := cJSON_Minify t in Ok (c :: r)
      else if c =? 92 then
        match t with
        | [] => Ub OobRead
        | d :: t => let! r := minify_string t in Ok (c :: d :: r)
        end
      else let! r := minify_string t in Ok (c :: r)
  end.

(** ** Making a document.  A new item belongs to nobody else, so adding it to the end
    of a chain is adding a tree to the list of children. *)

Definition cJSON_CreateType (ty : Z) : M (option item) :=
  i ← cJSON_New_Item; mret (option_map (set_type ty) i).

Definition cJSON_CreateNull : M (option item) := cJSON_CreateType cJSON_NULL.
Definition cJSON_CreateTrue : M (option item) := cJSON_CreateType cJSON_True.
Definition cJSON_CreateFalse : M (option item) := cJSON_CreateType cJSON_False.
Definition cJSON_CreateBool (b : bool) : M (option item) := cJSON_CreateType (if b then cJSON_True else cJSON_False).
Definition cJSON_CreateArray : M (option item) := cJSON_CreateType cJSON_Array.
Definition cJSON_CreateObject : M (option item) := cJSON_CreateType cJSON_Object.

Definition cJSON_CreateNumber (num : double) : M (option item) :=
  i ← cJSON_New_Item; mret (option_map (fun it => set_type cJSON_Number (set_number (dtoint num) num it)) i).

Definition cJSON_CreateString (s : list Z) : M (option item) :=
  i ← cJSON_New_Item;
  match i with
  | None => mret None
  | Some it => v ← cJSON_strdup s; mret (Some (set_type cJSON_String (set_valuestring v it)))
  end.

(** array->child is read before the item is compared with NULL. *)
Definition cJSON_AddItemToArray (array it : option item) : M (option item) :=
  match array with
  | None => fault NullDeref
  | Some a => mret (Some (match it with None => a | Some c => set_child (child a ++ [c]) a end))
  end.

(** The old name is freed whether it is the item's own or a constant. *)
Definition cJSON_AddItemToObject (object : option item) (s : list Z) (it : option item) : M (option item) :=
  match it with
  | None => mret object
  | Some c =>
      (match name c with
       | None => mret tt
       | Some _ => if flag (type c) cJSON_StringIsConst then fault BadFree else cJSON_free 1
       end);;
      n ← cJSON_strdup s; cJSON_AddItemToArray object (Some (set_name n c))
  end.

Definition cJSON_AddStringToObject (object : option item) (n s : list Z) : M (option item) :=
  i ← cJSON_CreateString s; cJSON_AddItemToObject object n i.

(** An int argument is converted to double. *)
Definition cJSON_AddNumberToObject (object : option item) (n : list Z) (z : Z) : M (option item) :=
  i ← cJSON_CreateNumber (dofZ z); cJSON_AddItemToObject object n i.

Lemma blocks_list_cons c l : blocks_list (c :: l) = blocks c + blocks_list l.
Proof. done. Qed.
