(* ===== verification/JsonText.v ===== *)
(** cJSON.c, the theorems on the text of a document: what the printer produces and that it
    neither overruns nor leaks, that parsing reads back what was printed, and what
    cJSON_Minify makes of it.  The parser on any other text is in JsonParse.v. *)

From Stdlib Require Import Floats.SpecFloat.
From S2P Require Import Prelude CLib CFloat Json.

Open Scope c_scope.
Open Scope Z_scope.

(** ** Numbers *)

Lemma fold_add_digit n : 0 <= n -> n < 2 ^ 53 -> fold_left add_digit (print_nat 10 n) (S754_zero false) = dofZ n.
Proof.
  assert (forall a d, 0 <= a -> 0 <= d < 10 -> a * 10 + d < 2 ^ 53 ->
    add_digit (dofZ a) (48 + d) = dofZ (a * 10 + d)) as Hstep.
  { intros a d Ha Hd Hb. unfold add_digit, d10. rewrite dmul_int by lia.
    replace (48 + d - 48) with d by lia. apply dadd_int; lia. }
  intros Hn. pattern n. apply decimal_ind; [..|done]; clear n Hn.
  - intros n Hn Hb. rewrite print_nat_digit by done. cbn [fold_left].
    change (S754_zero false) with (dofZ 0). rewrite Hstep by lia. done.
  - intros n Hn IH Hb. rewrite print_nat_snoc by done. rewrite fold_left_app.
    assert (n / 10 < n) by (apply Z.div_lt; lia). rewrite IH by lia. cbn [fold_left].
    pose proof (Z.mod_pos_bound n 10 ltac:(lia)). pose proof (Z.div_mod n 10 ltac:(lia)).
    rewrite Hstep; [f_equal; lia|apply Z.div_pos; lia|done|lia].
Qed.

(** What may follow a number without being read as a part of it. *)
Definition number_ends (rest : list Z) : Prop :=
  isdigit (peek rest) = false /\ peek rest <> 46 /\ peek rest <> 101 /\ peek rest <> 69.

(** The exponent: nine digits fit an int. *)
Lemma read_subscale_ok n ds :
  Forall (fun c => isdigit c = true) ds -> 0 <= n -> (n + 1) * 10 ^ zlen ds <= 10 ^ 9 -> exists r, read_subscale n ds = Ok r.
Proof.
  intros Hd. revert n. induction Hd as [|c ds Hc Hd IH]; intros n Hn Hb; [by exists n|].
  rewrite zlen_cons, Z.pow_add_r in Hb by (done || lia). change (10 ^ 1) with 10 in Hb.
  apply andb_true_iff in Hc as [?%Z.leb_le ?%Z.leb_le]. pose proof (zlen_nonneg ds).
  assert (0 < 10 ^ zlen ds) as Hp by lia.
  assert ((n * 10 + (c - 48) + 1) * 10 ^ zlen ds <= 10 ^ 9) as Hb' by nia.
  assert (n * 10 + 1 <= 10 ^ 9) by nia.
  cbn [read_subscale]. unfold add_subscale. rewrite as_int_Ok by (unfold INT_MIN, INT_MAX; lia). cbn [res_bind].
  rewrite as_int_Ok by (unfold INT_MIN, INT_MAX; lia). cbn [res_bind]. apply IH; [lia|done].
Qed.

(** The digits of the integer part, and of all. *)
Definition int_digits (n : Z) : double := if n =? 0 then S754_zero false else fold_left add_digit (print_nat 10 n) (S754_zero false).

Definition point (fp : list Z) : list Z := match fp with [] => [] | _ => 46 :: fp end.

Definition number_of (sg : double) (n : Z) (fp : list Z) (e : Z) (it : item) : item :=
  let d := dmul (dmul sg (fold_left add_digit fp (int_digits n))) (pow10 (- zlen fp + e)) in
  set_type cJSON_Number (set_number (dtoint d) d it).

(** An exponent [ex] of value [e]. *)
Definition exponent (ex : list Z) (e : Z) : Prop :=
  ex = [] /\ e = 0 \/
  exists g ds r, ex = 101 :: g :: ds /\ (g = 43 /\ e = r \/ g = 45 /\ e = - r) /\ Forall (fun c => isdigit c = true) ds /\ read_subscale 0 ds = Ok r.

Lemma digit_span ds rest :
  Forall (fun c => isdigit c = true) ds -> isdigit (peek rest) = false -> span isdigit (ds ++ rest) = (ds, rest).
Proof. intros Hd Hr. apply span_all; [done|]. intros c r ->. exact Hr. Qed.

Lemma point_span n fp rest :
  0 <= n -> Forall (fun c => isdigit c = true) fp -> isdigit (peek rest) = false ->
  isdigit (peek (point fp ++ rest)) = false /\
  (let s := if peek (print_nat 10 n ++ point fp ++ rest) =? 48 then tl (print_nat 10 n ++ point fp ++ rest) else print_nat 10 n ++ point fp ++ rest in
   (if is_digit19 (peek s) then let (ds, r) := span isdigit s in (fold_left add_digit ds (S754_zero false), r) else (S754_zero false, s)))
  = (int_digits n, point fp ++ rest).
Proof.
  intros Hn Hf Hr. assert (isdigit (peek (point fp ++ rest)) = false) as Hp by by destruct fp. split; [done|].
  unfold int_digits. destruct (Z.eqb_spec n 0) as [->|].
  - rewrite print_nat_digit by lia. cbn [app peek hd tl]. change (48 + 0 =? 48) with true. cbn iota zeta.
    assert (is_digit19 (peek (point fp ++ rest)) = false) as ->; [|done].
    unfold is_digit19, isdigit in *. destruct (Z.leb_spec 49 (peek (point fp ++ rest))), (Z.leb_spec 48 (peek (point fp ++ rest))); try done; lia.
  - destruct (print_nat_head n) as (c & t & Ec & Hc); [lia|].
    assert (peek (print_nat 10 n ++ point fp ++ rest) = c) as Ep by by rewrite Ec. rewrite Ep.
    rewrite (proj2 (Z.eqb_neq c 48)) by lia. cbn zeta. rewrite Ep.
    assert (is_digit19 c = true) as -> by (unfold is_digit19; by rewrite !(proj2 (Z.leb_le _ _)) by lia).
    rewrite digit_span by (done || by apply print_nat_isdigit). done.
Qed.

(** Reading digits, a point and an exponent takes all of them. *)
Lemma parse_magnitude_decimal it sg n fp ex e rest :
  0 <= n -> Forall (fun c => isdigit c = true) fp -> exponent ex e -> number_ends rest ->
  parse_magnitude it sg (print_nat 10 n ++ point fp ++ ex ++ rest) = Ok (number_of sg n fp e it, rest).
Proof.
  intros Hn Hf He (Hr1 & Hr2 & Hr3 & Hr4).
  assert (isdigit (peek (ex ++ rest)) = false /\ peek (ex ++ rest) <> 46) as [Hx1 Hx2].
  { destruct He as [[-> _]|(g & ds & r & -> & _)]; done. }
  destruct (point_span n fp (ex ++ rest) Hn Hf Hx1) as [Hp Es]. unfold parse_magnitude. cbn zeta in Es. rewrite Es. clear Es.
  assert ((if (peek (point fp ++ ex ++ rest) =? 46) && isdigit (peek (tl (point fp ++ ex ++ rest)))
           then let (ds, r) := span isdigit (tl (point fp ++ ex ++ rest)) in (fold_left add_digit ds (int_digits n), - zlen ds, r)
           else (int_digits n, 0, point fp ++ ex ++ rest))
          = (fold_left add_digit fp (int_digits n), - zlen fp, ex ++ rest)) as ->.
  { destruct fp as [|c fp]; cbn [point app].
    - rewrite (proj2 (Z.eqb_neq _ 46)) by done. done.
    - cbn [peek hd tl]. pose proof Hf as [Hc _]%Forall_cons. rewrite Hc. change (46 =? 46) with true. cbn [andb].
      change (c :: fp ++ ex ++ rest) with ((c :: fp) ++ ex ++ rest). by rewrite digit_span by done. }
  destruct He as [[-> ->]|(g & ds & r & -> & Hg & Hds & Er)].
  - cbn [app]. rewrite (proj2 (Z.eqb_neq (peek rest) 101)), (proj2 (Z.eqb_neq (peek rest) 69)) by done. done.
  - cbn [app peek hd tl]. change (101 =? 101) with true. cbn [orb].
    destruct Hg as [[-> ->]|[-> ->]]; cbn [Z.eqb Pos.eqb]; rewrite digit_span, Er by done; cbn [res_bind];
      [by rewrite Z.mul_1_r|by rewrite <- Z.opp_eq_mul_m1].
Qed.

(** A printed number is read completely, and what is read does not depend on what follows. *)
Lemma parse_decimal t : numeral t -> exists n d, forall it rest, number_ends rest ->
  parse_number it (t ++ rest) = Ok (set_type cJSON_Number (set_number n d it), rest).
Proof.
  intros [s n fp ex Hn Hf He]. assert (exists e, exponent ex e) as [e Hx].
  { destruct He as [->|(g & ds & -> & Hg & Hds & Hl)]; [exists 0; by left|].
    destruct (read_subscale_ok 0 ds Hds) as [r Er]; [lia| |].
    { assert (10 ^ zlen ds <= 10 ^ 4) by (apply Z.pow_le_mono_r; lia). lia. }
    destruct Hg as [-> | ->]; [exists r|exists (- r)]; right; eexists _, ds, r; split_and!; try done; auto. }
  set (d := dmul (dmul (dofZ (if s then -1 else 1)) (fold_left add_digit fp (int_digits n))) (pow10 (- zlen fp + e))).
  exists (dtoint d), d. intros it rest Hr. change (match fp with [] => [] | _ => 46 :: fp end) with (point fp).
  unfold parse_number, with_sign. destruct s.
  - cbn [app peek hd tl]. change (45 =? 45) with true. cbn iota. rewrite <- !app_assoc.
    rewrite (parse_magnitude_decimal it (dofZ (-1)) n fp ex e rest) by done. done.
  - assert (peek ((print_nat 10 n ++ point fp ++ ex) ++ rest) <> 45) as Hp.
    { rewrite <- app_assoc. destruct (decide (n = 0)) as [->|]; [done|].
      destruct (print_nat_head n) as (c & r & -> & Hc); [lia|]. cbn. lia. }
    rewrite (proj2 (Z.eqb_neq _ 45)) by done. rewrite <- !app_assoc.
    rewrite (parse_magnitude_decimal it (dofZ 1) n fp ex e rest) by done. done.
Qed.

Lemma parse_magnitude_int it sg n rest :
  0 <= n <= 2147483648 -> number_ends rest -> sg = 1 \/ sg = -1 /\ n <> 0 -> INT_MIN <= sg * n <= INT_MAX ->
  parse_magnitude it (dofZ sg) (print_nat 10 n ++ rest) =
  Ok (set_type cJSON_Number (set_number (sg * n) (dofZ (sg * n)) it), rest).
Proof.
  intros Hn Hr Hsg Hi. pose proof (parse_magnitude_decimal it (dofZ sg) n [] [] 0 rest) as E. cbn [point app] in E.
  rewrite E; [|lia|done|by left|done]. clear E. unfold number_of. cbn [fold_left].
  assert (dmul (dmul (dofZ sg) (int_digits n)) (pow10 (- zlen (@nil Z) + 0)) = dofZ (sg * n)) as ->; [|by rewrite dtoint_int].
  unfold int_digits. change (pow10 (- zlen (@nil Z) + 0)) with (dofZ 1). destruct (Z.eqb_spec n 0) as [->|].
  - destruct Hsg as [-> |[_ []]]; reflexivity.
  - rewrite fold_add_digit by lia. rewrite (dmul_int sg n), (dmul_int _ 1) by lia. f_equal. lia.
Qed.

Lemma parse_number_int it z rest :
  INT_MIN <= z <= INT_MAX -> number_ends rest ->
  parse_number it (print_int z ++ rest) = Ok (set_type cJSON_Number (set_number z (dofZ z) it), rest).
Proof.
  intros Hz Hr. unfold parse_number, print_int. unfold INT_MIN, INT_MAX in Hz. destruct (Z.ltb_spec z 0).
  - cbn [app peek hd tl]. change (45 =? 45) with true. cbn iota.
    replace z with (-1 * - z) at 2 3 by lia. apply parse_magnitude_int; unfold INT_MIN, INT_MAX; (done || lia).
  - assert (peek (print_nat 10 z ++ rest) <> 45) as Hp.
    { destruct (decide (z = 0)) as [->|]; [done|].
      destruct (print_nat_head z) as (c & t & -> & Hc); [lia|]. cbn. lia. }
    rewrite (proj2 (Z.eqb_neq _ 45)) by done.
    replace z with (1 * z) at 2 3 by lia. apply parse_magnitude_int; unfold INT_MIN, INT_MAX; (done || lia).
Qed.

(** An integer value is printed as one. *)
Definition int_number (it : item) : Prop :=
  INT_MIN <= valueint it <= INT_MAX /\ valuedouble it = dofZ (valueint it).

Lemma exact_self_sub s n : 0 < n < 2 ^ 53 -> dsub (exact s n) (exact s n) = S754_zero false.
Proof.
  intros Hn. destruct (exact_finite s n Hn) as (m & -> & _). unfold dsub, SFsub. by rewrite Z.sub_diag.
Qed.

Lemma dofZ_self_sub z : - 2 ^ 53 < z < 2 ^ 53 -> dsub (dofZ z) (dofZ z) = S754_zero false.
Proof.
  intros Hz. destruct (decide (z = 0)) as [->|]; [done|]. rewrite dofZ_eq by done. apply exact_self_sub. lia.
Qed.

Lemma number_text_int it :
  int_number it -> number_text it = (if valueint it =? 0 then 2 else 21, print_int (valueint it)).
Proof.
  intros [Hz Hd]. unfold INT_MIN, INT_MAX in Hz. unfold number_text. rewrite Hd.
  rewrite deqb_int_zero by lia. destruct (Z.eqb_spec (valueint it) 0) as [->|]; [done|].
  rewrite dofZ_self_sub by lia. change (dleb (dabs (S754_zero false)) DBL_EPSILON) with true.
  rewrite !dleb_int by (unfold INT_MIN, INT_MAX; lia). done.
Qed.

(** A member valueint holds an int, a member valuedouble a double. *)
Definition has_number (it : item) : Prop := INT_MIN <= valueint it <= INT_MAX /\ is_double (valuedouble it).
Definition finite_number (it : item) : Prop := has_number it /\ finite (valuedouble it).

(** The text sprintf makes for a number fits the block asked for; the text of a finite one is a
    numeral. *)
Lemma number_text_spec it :
  has_number it -> zlen (number_text it).2 + 1 <= (number_text it).1 /\ (finite (valuedouble it) -> numeral (number_text it).2).
Proof.
  intros [Hi Hd]. unfold INT_MIN, INT_MAX in Hi. unfold number_text. cbn zeta.
  destruct (deqb _ _); cbn [fst snd].
  { split; [vm_compute; discriminate|]. intros _. apply (Numeral false 0 [] []); auto; lia. }
  destruct (_ && _ && _); cbn [fst snd].
  { split; [pose proof (print_int_length (valueint it)); unfold zlen; lia|]. intros _. unfold print_int.
    destruct (Z.ltb_spec (valueint it) 0).
    - pose proof (Numeral true (- valueint it) [] [] ltac:(lia) ltac:(done) ltac:(by left)) as H1. by rewrite !app_nil_r in H1.
    - pose proof (Numeral false (valueint it) [] [] ltac:(lia) ltac:(done) ltac:(by left)) as H1. by rewrite !app_nil_r in H1. }
  assert (forall t, (length t <= 62)%nat /\ (finite (valuedouble it) -> numeral t) ->
    zlen t + 1 <= 64 /\ (finite (valuedouble it) -> numeral t)) as Hfit.
  { intros t [H1 H2]. split; [|done]. unfold zlen. lia. }
  apply Hfit. clear Hfit. destruct (dleb _ _ && dltb _ _) eqn:E.
  { apply andb_true_iff in E as [_ E]. destruct (print_f0_fits _ Hd E) as [H1 H2]. exact (conj H1 (fun _ => H2)). }
  destruct (dltb _ _ || dltb _ _) eqn:E2; [by apply print_e_fits|].
  apply orb_false_iff in E2 as [_ E2]. by apply print_f6_fits.
Qed.

Lemma is_double_int z : - 2 ^ 53 < z < 2 ^ 53 -> is_double (dofZ z) /\ finite (dofZ z).
Proof.
  intros Hz. destruct (decide (z = 0)) as [->|]; [done|]. rewrite dofZ_eq by done.
  destruct (exact_finite (z <? 0) (Z.abs z)) as (m & -> & Em); [lia|]. split; [|done].
  pose proof (bitlen_bound (Z.abs z) 53 ltac:(lia)). pose proof (bitlen_pos (Z.abs z) ltac:(lia)).
  unfold is_double, valid_binary, bounded, canonical_mantissa. rewrite Zdigits2_bitlen, Em, bitlen_scale by lia.
  replace (bitlen (Z.abs z) + (53 - bitlen (Z.abs z)) + (bitlen (Z.abs z) - 53)) with (bitlen (Z.abs z)) by lia.
  rewrite fexp_eq by lia. apply andb_true_iff. split; [by apply Zeq_is_eq_bool|]. apply Z.leb_le. unfold demax, dprec. lia.
Qed.

Lemma int_number_finite it : int_number it -> finite_number it.
Proof.
  intros [Hi Hd]. unfold finite_number, has_number. rewrite Hd. unfold INT_MIN, INT_MAX in *.
  destruct (is_double_int (valueint it)); [lia|done].
Qed.

(** The characters of a number. *)
Section NumberChars.
Context (P : Z -> Prop) (Pdigit : forall d, 0 <= d < 10 -> P (48 + d)) (Pchars : Forall P (str "+-.einfa")).

Let Pstr t : Forall (fun c => c ∈ str "+-.einfa" \/ 48 <= c < 58) t -> Forall P t.
Proof.
  intros H. eapply Forall_impl; [exact H|]. intros c [Hc|Hc].
  - rewrite Forall_forall in Pchars. by apply Pchars.
  - replace c with (48 + (c - 48)) by lia. apply Pdigit. lia.
Qed.

Lemma digits_chars fuel n acc : Forall P acc -> Forall P (digits 10 fuel n acc).
Proof.
  revert n acc. induction fuel as [|fuel IH]; intros n acc Ha; cbn [digits]; [done|].
  assert (Forall P (digit_char (n mod 10) :: acc)) as H.
  { constructor; [|done]. pose proof (Z.mod_pos_bound n 10 ltac:(lia)). unfold digit_char.
    rewrite (proj2 (Z.ltb_lt _ _)) by lia. apply Pdigit. lia. }
  destruct (n / 10 =? 0); [done|by apply IH].
Qed.

Lemma print_nat_chars n : Forall P (print_nat 10 n).
Proof. by apply digits_chars, Forall_nil. Qed.

(** [in_chars]: a text of these characters. *)
Ltac in_chars :=
  apply Pstr; lazymatch goal with |- Forall _ ?t => let t := eval vm_compute in t in change (Forall (fun c => c ∈ str "+-.einfa" \/ 48 <= c < 58) t) end;
  repeat first [apply Forall_nil_2 | apply Forall_cons_2]; first [left; apply list_elem_of_In; cbn; auto 20; fail | right; lia].

Lemma print_fixed_chars k v : Forall P (print_fixed k v).
Proof.
  unfold print_fixed. destruct k; [apply print_nat_chars|]. rewrite !Forall_app.
  split_and!; [apply print_nat_chars|in_chars|apply Forall_replicate, (Pdigit 0); lia|apply print_nat_chars].
Qed.

Lemma with_sign_chars s l : Forall P l -> Forall P (with_sign s l).
Proof. intros. destruct s; [apply (proj2 (Forall_app P [45] l)); split; [in_chars|done]|done]. Qed.

Lemma print_f_chars k d : Forall P (print_f k d).
Proof. destruct d; cbn [print_f]; try apply with_sign_chars; try apply print_fixed_chars; in_chars. Qed.

Lemma print_e_chars d : Forall P (print_e d).
Proof.
  assert (forall s v x, Forall P (with_sign s (print_fixed 6 v ++ [101] ++ (if x <? 0 then [45] else [43])
      ++ (if Z.abs x <? 10 then [48] else []) ++ print_nat 10 (Z.abs x)))) as H.
  { intros s v x. apply with_sign_chars. rewrite !Forall_app.
    split_and!; [apply print_fixed_chars|in_chars|destruct (x <? 0); in_chars|destruct (Z.abs x <? 10); in_chars|apply print_nat_chars]. }
  destruct d; unfold print_e; cbn zeta; [apply H|apply with_sign_chars; in_chars|in_chars|].
  repeat first [apply H|match goal with |- context [if ?b then _ else _] => destruct b end].
Qed.

Lemma number_text_chars it : Forall P (number_text it).2.
Proof.
  unfold number_text. cbn zeta. destruct (deqb _ _); [in_chars|]. destruct (_ && _); cbn [snd].
  { unfold print_int. destruct (_ <? 0); [apply (proj2 (Forall_app P [45] _)); split; [in_chars|]|]; apply print_nat_chars. }
  destruct (_ && _); [apply print_f_chars|]. destruct (_ || _); [apply print_e_chars|apply print_f_chars].
Qed.
End NumberChars.

(** ** Strings *)

Lemma char_cases (P : Z -> bool) :
  forallb P (map Z.of_nat (seq 1 255)) = true -> forall c, 0 < c < 256 -> P c = true.
Proof.
  intros H c Hc. rewrite forallb_forall in H. apply H, in_map_iff. exists (Z.to_nat c).
  split; [lia|]. apply in_seq. lia.
Qed.

Lemma escape_char_plain c : 0 < c < 256 -> needs_escape c = false -> escape_char c = [c].
Proof.
  intros Hc Hn. unfold needs_escape in Hn. unfold escape_char.
  destruct (Z.ltb_spec 0 c), (Z.ltb_spec c 32), (Z.eqb_spec c 34), (Z.eqb_spec c 92); try done; try lia.
  by rewrite (proj2 (Z.ltb_lt _ _)) by lia.
Qed.

Lemma escape_char_length c :
  0 < c < 256 ->
  zlen (escape_char c) = 1 + (if short_escape c then 1 else if c <? 32 then 5 else 0).
Proof.
  intros Hc. apply Z.eqb_eq.
  apply (char_cases (fun c => zlen (escape_char c) =? 1 + (if short_escape c then 1 else if c <? 32 then 5 else 0)));
    [vm_compute; reflexivity|done].
Qed.

Lemma escaped_length_eq s n :
  cstr_ok s -> 0 <= n -> n + zlen (flat_map escape_char s) <= INT_MAX ->
  escaped_length s n = Ok (n + zlen (flat_map escape_char s)).
Proof.
  intros Hs. revert n. induction Hs as [|c s Hc Hs IH]; intros n Hn Hb; cbn [escaped_length flat_map] in *; [by rewrite zlen_nil, Z.add_0_r|].
  rewrite zlen_app, escape_char_length in Hb |- * by done. pose proof (zlen_nonneg (flat_map escape_char s)).
  assert (INT_MIN <= 0) by done.
  destruct (short_escape c); [|destruct (c <? 32)]; rewrite !as_int_Ok by lia; cbn [res_bind];
    rewrite ?as_int_Ok by lia; cbn [res_bind]; rewrite IH by lia; f_equal; lia.
Qed.

(** Too long or right. *)
Lemma escaped_length_any s n :
  cstr_ok s -> match escaped_length s n with Ok len => len = n + zlen (flat_map escape_char s) | Ub _ => True end.
Proof.
  intros Hs. revert n. induction Hs as [|c s Hc Hs IH]; intros n; cbn [escaped_length flat_map]; [rewrite zlen_nil; lia|].
  rewrite zlen_app, escape_char_length by done.
  destruct (as_int_cases (n + 1)) as [[-> _]|[-> _]]; cbn [res_bind]; [|done].
  destruct (short_escape c); [|destruct (c <? 32)]; rewrite ?Z.add_0_r;
    try (destruct (as_int_cases (n + 1 + 1)) as [[-> _]|[-> _]]); try (destruct (as_int_cases (n + 1 + 5)) as [[-> _]|[-> _]]);
    cbn [res_bind]; try done.
  - specialize (IH (n + 1 + 1)). destruct (escaped_length s _); [lia|done].
  - specialize (IH (n + 1 + 5)). destruct (escaped_length s _); [lia|done].
  - specialize (IH (n + 1)). destruct (escaped_length s _); [lia|done].
Qed.

Lemma existsb_false {A} (f : A -> bool) l : existsb f l = false -> Forall (fun x => f x = false) l.
Proof. induction l; cbn; [done|]. intros [? ?]%orb_false_iff. auto. Qed.

Definition string_out (s : list Z) : list Z := 34 :: flat_map escape_char s ++ [34].

Lemma string_out_length s : zlen (string_out s) = zlen (flat_map escape_char s) + 2.
Proof. unfold string_out. rewrite zlen_cons, zlen_app. change (zlen [34]) with 1. lia. Qed.

Lemma string_out_plain s : cstr_ok s -> existsb needs_escape s = false -> flat_map escape_char s = s.
Proof.
  intros Hs E%existsb_false. induction Hs as [|c s Hc Hs IH]; [done|]. apply Forall_cons in E as [Ec E]. cbn [flat_map].
  rewrite escape_char_plain, IH by done. done.
Qed.

(** The text of a string, escaped or not, and the size asked for, which is one more than its length
    unless that is not an int. *)
Lemma string_text_eq s :
  cstr_ok s -> zlen (string_out s) < INT_MAX -> string_text s = Ok (zlen (string_out s) + 1, string_out s).
Proof.
  intros Hs Hb. rewrite string_out_length in *. pose proof (zlen_nonneg (flat_map escape_char s)).
  assert (INT_MIN <= 0) by done. unfold string_text. destruct (existsb needs_escape s) eqn:E.
  - rewrite escaped_length_eq by (done || lia). cbn [res_bind]. rewrite as_int_Ok by lia. cbn [res_bind]. do 2 f_equal. lia.
  - pose proof (string_out_plain s Hs E) as Ep. unfold string_out. rewrite Ep in *.
    rewrite sext_small by (unfold INT_MAX in *; lia). rewrite as_int_Ok by lia. cbn [res_bind]. do 2 f_equal. lia.
Qed.

Lemma string_text_any s :
  cstr_ok s -> match string_text s with Ok (_, t) => t = string_out s | Ub _ => True end.
Proof.
  intros Hs. unfold string_text. destruct (existsb needs_escape s) eqn:E.
  - destruct (escaped_length s 0) as [len|]; cbn [res_bind]; [|done]. by destruct (as_int_cases (len + 3)) as [[-> _]|[-> _]].
  - unfold string_out. rewrite string_out_plain by done. by destruct (as_int_cases (s32 (zlen s) + 3)) as [[-> _]|[-> _]].
Qed.

(** What one escaped character is read as. *)
Lemma string_len_char c r n :
  0 < c < 256 -> 0 <= n -> n + zlen (escape_char c) <= INT_MAX ->
  exists k, string_len (escape_char c ++ r) n = string_len r (n + k) /\ 1 <= k <= zlen (escape_char c).
Proof.
  intros Hc Hn Hb. assert (INT_MIN <= 0) by done. assert (zlen (@nil Z) = 0) as H0 by done.
  assert (forall x, n + zlen [92; x] <= INT_MAX -> exists k, string_len ([92; x] ++ r) n = string_len r (n + k) /\ 1 <= k <= zlen [92; x]) as Hshort.
  { intros x Hx. rewrite !zlen_cons, H0 in Hx |- *. exists 1. cbn [app string_len]. rewrite as_int_Ok by lia. split; [done|lia]. }
  unfold escape_char in *. destruct ((31 <? c) && negb (c =? 34) && negb (c =? 92)) eqn:E.
  - rewrite zlen_cons, H0 in Hb |- *. exists 1. cbn [app string_len].
    apply andb_true_iff in E as [[_ ->%negb_true_iff]%andb_true_iff ->%negb_true_iff]. rewrite as_int_Ok by lia. split; [done|lia].
  - destruct (c =? 92); [by apply Hshort|]. destruct (c =? 34); [by apply Hshort|]. destruct (c =? 8); [by apply Hshort|].
    destruct (c =? 12); [by apply Hshort|]. destruct (c =? 10); [by apply Hshort|].
    destruct (c =? 13); [by apply Hshort|]. destruct (c =? 9); [by apply Hshort|].
    assert (forall n, hex_char (n .& 15) <> 34 /\ hex_char (n .& 15) <> 92) as Hh.
    { intros x. replace (x .& 15) with (x mod 2 ^ 4) by (symmetry; apply (Z.land_ones x 4); lia).
      pose proof (Z.mod_pos_bound x (2 ^ 4) ltac:(lia)). unfold hex_char. destruct (Z.ltb_spec (x mod 2 ^ 4) 10); lia. }
    unfold u04x in *. rewrite !zlen_cons, H0 in Hb |- *. exists 5. cbn [app string_len].
    rewrite !(proj2 (Z.eqb_neq (hex_char _) _)) by apply Hh. rewrite !as_int_Ok by lia. cbn [res_bind].
    change (92 =? 34) with false. change (92 =? 92) with true. cbn iota.
    rewrite !as_int_Ok by lia. cbn [res_bind]. rewrite !as_int_Ok by lia. cbn [res_bind]. rewrite !as_int_Ok by lia. cbn [res_bind].
    rewrite !as_int_Ok by lia. cbn [res_bind]. split; [f_equal; lia|lia].
Qed.

Lemma string_len_escaped s r n :
  cstr_ok s -> 0 <= n -> n + zlen (flat_map escape_char s) <= INT_MAX ->
  exists k, string_len (flat_map escape_char s ++ 34 :: r) n = Ok (n + k) /\ zlen s <= k <= zlen (flat_map escape_char s).
Proof.
  intros Hs. revert n. induction Hs as [|c s Hc Hs IH]; intros n Hn Hb.
  - exists 0. cbn. rewrite Z.add_0_r. done.
  - cbn [flat_map] in *. rewrite <- app_assoc. rewrite zlen_app in *. pose proof (zlen_nonneg (flat_map escape_char s)).
    destruct (string_len_char c (flat_map escape_char s ++ 34 :: r) n Hc Hn) as (k & -> & Hk); [lia|].
    destruct (IH (n + k)) as (k' & -> & Hk'); [lia..|]. exists (k + k'). rewrite zlen_cons. split; [f_equal; lia|lia].
Qed.

Lemma unescape_char c r fuel :
  0 < c < 256 ->
  unescape (S fuel) (escape_char c ++ r) = (let! (out, r) := unescape fuel r in Ok (c :: out, r)).
Proof.
  intros Hc. unfold escape_char.
  destruct ((31 <? c) && negb (c =? 34) && negb (c =? 92)) eqn:E.
  - cbn [app unescape]. apply andb_true_iff in E as [[_ ->%negb_true_iff]%andb_true_iff ->%negb_true_iff]. done.
  - destruct (Z.eqb_spec c 92) as [->|]; [done|]. destruct (Z.eqb_spec c 34) as [->|]; [done|].
    destruct (Z.eqb_spec c 8) as [->|]; [done|]. destruct (Z.eqb_spec c 12) as [->|]; [done|].
    destruct (Z.eqb_spec c 10) as [->|]; [done|]. destruct (Z.eqb_spec c 13) as [->|]; [done|].
    destruct (Z.eqb_spec c 9) as [->|]; [done|].
    assert (c < 32) as Hl by (destruct (Z.ltb_spec 31 c); [done|lia]).
    cbn [app unescape]. change (92 =? 34) with false. change (92 =? 92) with true. cbn [negb]. cbn iota.
    change (117 =? 117) with true. cbn iota.
    assert (unescape_u (tl (u04x c) ++ r) = Ok ([c], r)) as Hu.
    { assert (advance 4 (tl (u04x c) ++ r) = Ok r) as Ha by (unfold advance; cbn [length app tl u04x drop]; done).
      assert (parse_hex4 (tl (u04x c) ++ r) = c) as Hp.
      { change (parse_hex4 (tl (u04x c) ++ r)) with (parse_hex4 (tl (u04x c))).
        apply Z.eqb_eq.
        pose proof (char_cases (fun c => negb (c <? 32) || (parse_hex4 (tl (u04x c)) =? c))
          ltac:(vm_compute; reflexivity) c Hc) as H. cbn beta in H.
        rewrite (proj2 (Z.ltb_lt c 32)) in H by done. exact H. }
      unfold unescape_u. rewrite Hp, Ha. rewrite (proj2 (Z.leb_gt 0xDC00 c)), (proj2 (Z.eqb_neq c 0)) by lia.
      rewrite (proj2 (Z.leb_gt 0xD800 c)) by lia. cbn [andb orb res_bind]. do 2 f_equal.
      unfold utf8. rewrite (proj2 (Z.ltb_lt c 0x80)) by lia. cbn [firstByteMark nth].
      rewrite Z.lor_0_r, wrap_small by lia. done. }
    cbn [u04x tl app] in Hu |- *. rewrite Hu. done.
Qed.

Lemma unescape_escaped s r fuel :
  cstr_ok s -> (length s < fuel)%nat -> unescape fuel (flat_map escape_char s ++ 34 :: r) = Ok (s, 34 :: r).
Proof.
  intros Hs. revert fuel. induction Hs as [|c s Hc Hs IH]; intros [|fuel] Hf; cbn [length] in Hf; try lia; [done|].
  cbn [flat_map]. rewrite <- app_assoc, unescape_char by done. rewrite IH by lia. done.
Qed.

(** ** What the printer makes *)

Definition array_out (fmt : bool) (es : list (list Z)) : list Z := [91] ++ array_body fmt es ++ [93].

Definition object_out (fmt : bool) (depth : Z) (ps : list (list Z * list Z)) : list Z :=
  match ps with
  | [] => [123] ++ fmt_text fmt ([10] ++ tabs (depth - 1)) ++ [125]
  | _ => [123] ++ fmt_text fmt [10] ++ object_body fmt (depth + 1) ps ++ fmt_text fmt (tabs depth) ++ [125]
  end.

(** The text of an item, without allocation. *)
Fixpoint render (fmt : bool) (it : item) (depth : Z) : list Z :=
  let r c := render fmt c (depth + 1) in
  if kind it =? cJSON_NULL then str "null"
  else if kind it =? cJSON_False then str "false"
  else if kind it =? cJSON_True then str "true"
  else if kind it =? cJSON_Number then (number_text it).2
  else if kind it =? cJSON_String then string_out (default [] (valuestring it))
  else if kind it =? cJSON_Array then array_out fmt (map r (child it))
  else object_out fmt depth (map (fun c => (string_out (default [] (name c)), r c)) (child it)).

(** The equations of the recursive functions, and the case of a kind. *)
Lemma print_value_eq fmt it depth :
  print_value fmt it depth =
  (let pv c := (d ← lift (as_int (depth + 1)); print_value fmt c d) in
   if kind it =? cJSON_NULL then cJSON_strdup (str "null")
   else if kind it =? cJSON_False then cJSON_strdup (str "false")
   else if kind it =? cJSON_True then cJSON_strdup (str "true")
   else if kind it =? cJSON_Number then print_number it
   else if kind it =? cJSON_String then print_string it
   else if kind it =? cJSON_Array then print_array pv fmt (child it)
   else if kind it =? cJSON_Object then print_object pv fmt depth (child it)
   else mret None).
Proof. by destruct it. Qed.

Lemma render_eq fmt it depth :
  render fmt it depth =
  (let r c := render fmt c (depth + 1) in
   if kind it =? cJSON_NULL then str "null"
   else if kind it =? cJSON_False then str "false"
   else if kind it =? cJSON_True then str "true"
   else if kind it =? cJSON_Number then (number_text it).2
   else if kind it =? cJSON_String then string_out (default [] (valuestring it))
   else if kind it =? cJSON_Array then array_out fmt (map r (child it))
   else object_out fmt depth (map (fun c => (string_out (default [] (name c)), r c)) (child it))).
Proof. by destruct it. Qed.

Ltac by_kind Hk :=
  rewrite ?print_value_eq, ?render_eq; cbn zeta; rewrite Hk;
  cbn [cJSON_NULL cJSON_False cJSON_True cJSON_Number cJSON_String cJSON_Array cJSON_Object Z.eqb Pos.eqb].

Definition named (c : item) : Prop := exists n, name c = Some n /\ cstr_ok n.

(** Items as the parser and the constructors make them, with a condition on the numbers. *)
Inductive document (num : item -> Prop) : item -> Prop :=
  | document_literal it : kind it = cJSON_NULL \/ kind it = cJSON_False \/ kind it = cJSON_True -> document num it
  | document_number it : kind it = cJSON_Number -> num it -> document num it
  | document_string it s : kind it = cJSON_String -> valuestring it = Some s -> cstr_ok s -> document num it
  | document_array it : kind it = cJSON_Array -> Forall (document num) (child it) -> document num it
  | document_object it : kind it = cJSON_Object -> Forall (document num) (child it) -> Forall named (child it) ->
      document num it.

(** Any numbers; numbers that are finite; ints. *)
Abbreviation printable := (document has_number).
Abbreviation readable := (document finite_number).
Abbreviation canonical := (document int_number).

(** Induction on the tree. *)
Lemma item_tree_ind (P : item -> Prop) :
  (forall it, Forall P (child it) -> P it) -> forall it, P it.
Proof.
  intros H. fix IH 1. intros [l ty s n d nm]. apply H. cbn.
  induction l as [|c l IHl]; constructor; [apply IH|apply IHl].
Qed.

Lemma document_mono (P Q : item -> Prop) it : (forall c, P c -> Q c) -> document P it -> document Q it.
Proof.
  intros H. induction it as [it IH] using item_tree_ind. rewrite Forall_forall in IH.
  intros Hp. destruct Hp as [it ?|it ? ?|it s ? ? ?|it ? Hc|it ? Hc ?];
    [by apply document_literal|by apply document_number; auto|by eapply document_string| |];
    [apply document_array|apply document_object]; try done;
    rewrite Forall_forall in Hc |- *; intros c Hin; apply IH; auto.
Qed.

Lemma readable_printable it : readable it -> printable it.
Proof. apply document_mono. by intros c []. Qed.

Lemma canonical_readable it : canonical it -> readable it.
Proof. apply document_mono, int_number_finite. Qed.

(** The lengths are ints: texts of a gigabyte and more may overflow them. *)
Definition too_long (t : list Z) : Prop := 2 ^ 30 < zlen t + 64.

(** [m] makes the text [t]: it returns it in one new block, or NULL with no block
    left over when the allocator fails; it may go wrong only if [u]. *)
Definition makes (u : Prop) (m : M (option (list Z))) (t : list Z) : Prop :=
  forall h, wpu u m (fun r h' => ep h' = ep h /\
    (r = Some t /\ live h' = live h + 1 \/ r = None /\ live h' = live h) /\
    (oracle h = [] -> u \/ r = Some t /\ oracle h' = [])) h.

Lemma malloc_cases h :
  exists b h', cJSON_malloc h = Ok (b, h') /\ ep h' = ep h /\ live h' = live h + (if b : bool then 1 else 0) /\
    (oracle h = [] -> b = true /\ oracle h' = []).
Proof.
  unfold cJSON_malloc. destruct h as [[|b o] n e]; cbn.
  - by eexists _, _.
  - eexists _, _. split; [done|]. split; [done|]. split; [destruct b; cbn; lia|done].
Qed.

Section Makes.
Context {u : Prop}.

Lemma malloc_wp Q h :
  (forall b h', ep h' = ep h -> live h' = live h + (if b : bool then 1 else 0) -> (oracle h = [] -> b = true /\ oracle h' = []) -> Q b h') ->
  wpu u cJSON_malloc Q h.
Proof. intros H. unfold wpu. destruct (malloc_cases h) as (b & h' & -> & E & L & O). by apply H. Qed.

Lemma free_wp n Q h : Q tt (Heap (oracle h) (live h - n) (ep h)) -> wpu u (cJSON_free n) Q h.
Proof. done. Qed.

Lemma as_int_wp n (Q : Z -> heap -> Prop) h : (u \/ INT_MIN <= n <= INT_MAX) -> (INT_MIN <= n <= INT_MAX -> Q n h) -> wpu u (lift (as_int n)) Q h.
Proof.
  intros Hu HQ. apply wp_lift. destruct (as_int_cases n) as [[-> H]|[-> H]]; [by apply HQ|]. by destruct Hu.
Qed.

Lemma new_string_makes len t : (u \/ zlen t + 1 <= len) -> makes u (new_string len t) t.
Proof.
  intros Hl h. unfold new_string. apply wp_bind. pose proof (zlen_nonneg t). destruct (Z.ltb_spec len 0).
  { apply wp_ret, wp_ret. split; [done|]. split; [by right|]. intros _. left. destruct Hl; [done|lia]. }
  apply malloc_wp. intros b h' He Hlv Ho. destruct b.
  - destruct (Z.leb_spec (zlen t + 1) len).
    + apply wp_ret. split; [done|]. split; [by left|]. intros Hh. right. split; [done|by apply Ho].
    + unfold wpu, fault. destruct Hl; [done|lia].
  - apply wp_ret. split; [done|]. split; [right; split; [done|lia]|]. intros Hh. by destruct (Ho Hh).
Qed.

Lemma entries_make pv tx l :
  Forall (fun c => makes u (pv c) (tx c)) l -> forall h,
  wpu u (print_entries pv l) (fun '(es, f) h' => ep h' = ep h /\ live h' = live h + zlen es /\
    (f = false -> es = map tx l) /\ (oracle h = [] -> u \/ f = false /\ oracle h' = [])) h.
Proof.
  induction 1 as [|c l Hc Hl IH]; intros h; cbn [print_entries].
  - apply wp_ret. rewrite zlen_nil, Z.add_0_r. split_and!; auto.
  - apply wp_bind. eapply wp_mono; [apply Hc|]. intros r h1 (E1 & L1 & O1). destruct L1 as [[-> L1]|[-> L1]].
    + apply wp_bind. eapply wp_mono; [apply IH|]. intros [es f] h2 (E2 & L2 & F2 & O2). apply wp_ret. rewrite zlen_cons.
      split_and!; [congruence|lia|intros Hf; cbn; f_equal; auto|].
      intros Ho. destruct (O1 Ho) as [|[_ Ho1]]; auto.
    + apply wp_ret. rewrite zlen_nil. split_and!; [done|lia|done|]. intros Ho. destruct (O1 Ho) as [|[[=] _]]. by left.
Qed.

Definition pair_blocks (ps : list (option (list Z) * option (list Z))) : Z :=
  sumZ (map (fun p => owned p.1 + owned p.2) ps).

Lemma string_makes o s :
  o = Some s -> cstr_ok s -> (u \/ zlen (string_out s) < INT_MAX) -> makes u (print_string_ptr o) (string_out s).
Proof.
  intros -> Hs Hu h. unfold print_string_ptr. apply wp_bind, wp_lift. destruct Hu as [Hu|Hu].
  - pose proof (string_text_any s Hs) as Ht. destruct (string_text s) as [[len t]|]; [subst t|done].
    apply new_string_makes. by left.
  - rewrite string_text_eq by done. apply new_string_makes. right. lia.
Qed.

Lemma pairs_make pv tx l :
  Forall (fun c => makes u (pv c) (tx c)) l -> Forall named l ->
  Forall (fun c => u \/ zlen (string_out (default [] (name c))) < INT_MAX) l -> forall h,
  wpu u (print_pairs pv l) (fun ps h' => ep h' = ep h /\ live h' = live h + pair_blocks ps /\
    (forall ts, all_pairs ps = Some ts ->
       ts = map (fun c => (string_out (default [] (name c)), tx c)) l /\ pair_blocks ps = 2 * zlen ps) /\
    (oracle h = [] -> u \/ all_pairs ps <> None /\ oracle h' = [])) h.
Proof.
  induction 1 as [|c l Hc Hl IH]; intros Hn Hu h; cbn [print_pairs].
  - apply wp_ret. unfold pair_blocks. cbn. rewrite Z.add_0_r. split_and!; [done|done|by intros ts [= <-]|]. intros Ho. by right.
  - apply Forall_cons in Hn as [(n & En & Hn) Hnl], Hu as [Hu Hul]. specialize (IH Hnl Hul). rewrite En in *. cbn [default] in *.
    apply wp_bind. eapply wp_mono; [by apply (string_makes _ n)|]. intros r1 h1 (E1 & L1 & O1).
    apply wp_bind. eapply wp_mono; [apply Hc|]. intros r2 h2 (E2 & L2 & O2).
    apply wp_bind. eapply wp_mono; [apply IH|]. intros ps h3 (E3 & L3 & A3 & O3). apply wp_ret.
    unfold pair_blocks in *. cbn [map sumZ foldr fst snd].
    fold (sumZ (map (fun p : option (list Z) * option (list Z) => owned p.1 + owned p.2) ps)).
    split_and!; [congruence| | |].
    + destruct L1 as [[-> ?]|[-> ?]], L2 as [[-> ?]|[-> ?]]; cbn [owned]; lia.
    + intros ts Ha. destruct L1 as [[-> ?]|[-> ?]], L2 as [[-> ?]|[-> ?]]; cbn in Ha; try done.
      destruct (all_pairs ps) as [ts'|]; [|done]. injection Ha as <-.
      destruct (A3 ts' eq_refl) as [-> Hb]. rewrite En. split; [done|]. cbn [owned]. rewrite Hb, zlen_cons. lia.
    + intros Ho. destruct (O1 Ho) as [|[-> Ho1]]; [by left|]. destruct (O2 Ho1) as [|[-> Ho2]]; [by left|].
      destruct (O3 Ho2) as [|[Ha Ho3]]; [by left|]. right. split; [|done]. cbn. by destruct (all_pairs ps).
Qed.

(** *** The sizes *)

Lemma sumZ_nonneg l : Forall (fun n => 0 <= n) l -> 0 <= sumZ l.
Proof. induction 1 as [|n l Hn Hl IH]; [done|]. change (sumZ (n :: l)) with (n + sumZ l). lia. Qed.

Lemma add_sizes_eq len sizes :
  0 <= len -> Forall (fun n => 0 <= n) sizes -> len + sumZ sizes <= INT_MAX -> add_sizes len sizes = len + sumZ sizes.
Proof.
  intros Hl Hs. revert len Hl. induction Hs as [|n sizes Hn Hs IH]; intros len Hl Hb; cbn [add_sizes fold_left sumZ foldr] in *; [lia|].
  fold (sumZ sizes) in *. pose proof (sumZ_nonneg sizes Hs).
  rewrite sext_small by (unfold INT_MAX in *; lia). unfold add_sizes in IH. rewrite IH by lia. lia.
Qed.

Definition entry_sizes (fmt : bool) (es : list (list Z)) : list Z := map (fun e => zlen e + 2 + fmtZ fmt 1) es.

Lemma fmtZ_bool fmt n : 0 <= n -> 0 <= fmtZ fmt n <= n.
Proof. destruct fmt; cbn; lia. Qed.

Lemma array_body_length fmt es :
  zlen (array_body fmt es) <= sumZ (entry_sizes fmt es) <= 2 * zlen (array_body fmt es) + 3 /\ zlen es <= zlen (array_body fmt es) + 1.
Proof.
  assert (0 <= zlen (fmt_text fmt [32]) <= fmtZ fmt 1 /\ fmtZ fmt 1 <= 1 /\ fmtZ fmt 1 <= zlen (fmt_text fmt [32])) as Hf by (unfold zlen; destruct fmt; cbn; lia).
  induction es as [|e es IH]; [done|]. destruct es as [|e' es'].
  - change (array_body fmt [e]) with e. change (sumZ (entry_sizes fmt [e])) with (zlen e + 2 + fmtZ fmt 1 + 0).
    change (zlen [e]) with 1. pose proof (zlen_nonneg e). lia.
  - set (l := e' :: es') in *.
    change (array_body fmt (e :: l)) with (e ++ [44] ++ fmt_text fmt [32] ++ array_body fmt l).
    change (sumZ (entry_sizes fmt (e :: l))) with (zlen e + 2 + fmtZ fmt 1 + sumZ (entry_sizes fmt l)).
    rewrite !zlen_app, (zlen_cons e l). change (zlen [44]) with 1. pose proof (zlen_nonneg e). lia.
Qed.

Lemma entry_sizes_nonneg fmt es : Forall (fun n => 0 <= n) (entry_sizes fmt es).
Proof. apply Forall_map, Forall_forall. intros e _. pose proof (zlen_nonneg e). pose proof (fmtZ_bool fmt 1). lia. Qed.

Lemma array_out_length fmt es : zlen (array_out fmt es) = zlen (array_body fmt es) + 2.
Proof. unfold array_out. rewrite !zlen_app. change (zlen [91]) with 1. change (zlen [93]) with 1. lia. Qed.

Lemma array_makes pv tx fmt l :
  (u \/ ~ too_long (array_out fmt (map tx l))) -> Forall (fun c => makes u (pv c) (tx c)) l ->
  makes u (print_array pv fmt l) (array_out fmt (map tx l)).
Proof.
  intros Hu Hl. destruct l as [|c0 l0]; [by apply new_string_makes; right|].
  cbn [print_array]. remember (c0 :: l0) as l eqn:El. clear El. intros h.
  pose proof (array_body_length fmt (map tx l)) as Hb. unfold too_long in Hu. rewrite array_out_length in Hu.
  assert (zlen (map tx l) = zlen l) as Em by (unfold zlen; by rewrite length_map). pose proof (zlen_nonneg l).
  apply wp_bind, as_int_wp; [unfold INT_MIN, INT_MAX; destruct Hu; [by left|right; lia]|]. intros _.
  apply wp_bind, malloc_wp. intros b h1 E1 L1 O1. destruct b; cbn [negb].
  2: { apply wp_ret. split; [done|]. split; [right; split; [done|lia]|]. intros Ho. by destruct (O1 Ho). }
  apply wp_bind. eapply wp_mono; [by apply (entries_make pv tx l)|]. intros [es f] h2 (E2 & L2 & F2 & O2). destruct f.
  - apply wp_bind, free_wp, wp_bind, free_wp, wp_ret. cbn. split; [congruence|]. split; [right; split; [done|lia]|].
    intros Ho. destruct (O1 Ho) as [_ Ho1]. destruct (O2 Ho1) as [|[[=] _]]. by left.
  - rewrite (F2 eq_refl) in *. apply wp_bind.
    eapply wp_mono; [apply (new_string_makes _ (array_out fmt (map tx l)))|].
    { destruct Hu as [Hu|Hu]; [by left|right]. fold (entry_sizes fmt (map tx l)).
      rewrite add_sizes_eq, array_out_length; [lia|lia|apply entry_sizes_nonneg|unfold INT_MAX; lia]. }
    intros r h3 (E3 & L3 & O3). apply wp_bind, free_wp, wp_bind, free_wp, wp_ret. cbn. split; [congruence|]. split.
    + destruct L3 as [[-> ?]|[-> ?]]; [left|right]; (split; [done|lia]).
    + intros Ho. destruct (O1 Ho) as [_ Ho1]. destruct (O2 Ho1) as [|[_ Ho2]]; auto.
Qed.

Definition pair_sizes (fmt : bool) (depth : Z) (ps : list (list Z * list Z)) : list Z :=
  map (fun p => zlen p.2 + zlen p.1 + 2 + fmtZ fmt (2 + depth)) ps.

Lemma object_body_length fmt depth ps :
  0 <= depth ->
  zlen (object_body fmt depth ps) <= sumZ (pair_sizes fmt depth ps) <= 2 * zlen (object_body fmt depth ps) /\ zlen ps <= zlen (object_body fmt depth ps).
Proof.
  intros Hd. induction ps as [|[n v] ps IH]; [done|]. cbn [object_body pair_sizes map sumZ foldr fst snd] in *.
  fold (pair_sizes fmt depth ps) in *. fold (sumZ (pair_sizes fmt depth ps)) in *. rewrite !zlen_app, (zlen_cons (n, v)). change (zlen [58]) with 1.
  assert (0 <= zlen (match ps with [] => [] | _ :: _ => [44] end) <= 1) by (unfold zlen; destruct ps; cbn; lia).
  assert (zlen (fmt_text fmt (tabs depth)) + zlen (fmt_text fmt [9]) + zlen (fmt_text fmt [10]) = fmtZ fmt (2 + depth)).
  { unfold zlen, tabs. destruct fmt; cbn [fmt_text fmtZ]; [|cbn; lia]. rewrite length_replicate. cbn. lia. }
  pose proof (zlen_nonneg n). pose proof (zlen_nonneg v). pose proof (fmtZ_bool fmt (2 + depth) ltac:(lia)). lia.
Qed.

Lemma pair_sizes_nonneg fmt depth ps : 0 <= depth -> Forall (fun n => 0 <= n) (pair_sizes fmt depth ps).
Proof.
  intros Hd. apply Forall_map, Forall_forall. intros p _. pose proof (zlen_nonneg p.1). pose proof (zlen_nonneg p.2).
  pose proof (fmtZ_bool fmt (2 + depth)). lia.
Qed.

Lemma zlen_tabs n : 0 <= n -> zlen (tabs n) = n.
Proof. intros. unfold tabs, zlen. rewrite length_replicate. lia. Qed.

Lemma object_out_length fmt depth ps :
  0 <= depth -> ps <> [] ->
  zlen (object_out fmt depth ps) = zlen (object_body fmt (depth + 1) ps) + 2 + fmtZ fmt (depth + 1).
Proof.
  intros Hd Hp. unfold object_out. destruct ps as [|p ps]; [done|]. rewrite !zlen_app. change (zlen [123]) with 1. change (zlen [125]) with 1.
  destruct fmt; cbn [fmt_text fmtZ]; rewrite ?zlen_tabs, ?zlen_nil by done; [change (zlen [10]) with 1|]; lia.
Qed.

Definition members_out (tx : item -> list Z) (l : list item) : list (list Z * list Z) :=
  map (fun c => (string_out (default [] (name c)), tx c)) l.

Lemma object_makes pv tx fmt depth l :
  0 <= depth -> (u \/ ~ 2 ^ 30 < depth + zlen (object_out fmt depth (members_out tx l)) + 64) ->
  Forall (fun c => makes u (pv c) (tx c)) l -> Forall named l ->
  Forall (fun c => u \/ zlen (string_out (default [] (name c))) < INT_MAX) l ->
  makes u (print_object pv fmt depth l) (object_out fmt depth (members_out tx l)).
Proof.
  intros Hd Hu Hl Hn Hnl. destruct l as [|c0 l0].
  { intros h. cbn [print_object members_out map object_out]. apply wp_bind.
    eapply (wp_mono _ (fun len h' => h' = h /\ zlen ([123] ++ fmt_text fmt ([10] ++ tabs (depth - 1)) ++ [125]) + 1 <= len)).
    - assert (zlen ([123] ++ fmt_text fmt ([10] ++ tabs (depth - 1)) ++ [125]) + 1 <= if fmt then depth + 4 else 3).
      { unfold zlen, tabs. rewrite !length_app. destruct fmt; cbn [fmt_text]; rewrite ?length_app, ?length_replicate; cbn; lia. }
      destruct fmt; [|by apply wp_ret]. apply as_int_wp; [|done]. unfold INT_MIN, INT_MAX.
      destruct Hu as [Hu|Hu]; [by left|right]. pose proof (zlen_nonneg (object_out true depth (members_out tx []))). lia.
    - intros len h' [-> Hlen]. apply new_string_makes. by right. }
  assert (members_out tx (c0 :: l0) <> []) as Ep by done.
  cbn [print_object]. remember (c0 :: l0) as l eqn:El. clear El. intros h.
  rewrite object_out_length in Hu by done. pose proof (object_body_length fmt (depth + 1) (members_out tx l) ltac:(lia)) as Hb.
  assert (zlen (members_out tx l) = zlen l) as Em by (unfold zlen, members_out; by rewrite length_map). pose proof (zlen_nonneg l).
  pose proof (fmtZ_bool fmt (depth + 1) ltac:(lia)) as Hfd.
  apply wp_bind, as_int_wp; [unfold INT_MIN, INT_MAX; destruct Hu; [by left|right; lia]|]. intros _.
  apply wp_bind, malloc_wp. intros b h1 E1 L1 O1. destruct b; cbn [negb].
  2: { apply wp_ret. split; [done|]. split; [right; split; [done|lia]|]. intros Ho. by destruct (O1 Ho). }
  apply wp_bind, malloc_wp. intros b h2 E2 L2 O2. destruct b; cbn [negb].
  2: { apply wp_bind, free_wp, wp_ret. cbn. split; [congruence|]. split; [right; split; [done|lia]|].
       intros Ho. destruct (O1 Ho) as [_ Ho1]. by destruct (O2 Ho1). }
  apply wp_bind, as_int_wp; [unfold INT_MIN, INT_MAX; destruct Hu; [by left|right; lia]|]. intros _.
  apply wp_bind. eapply (wp_mono _ (fun len h' => h' = h2 /\ len = 7 + fmtZ fmt (depth + 1))).
  { destruct fmt; [|by apply wp_ret]. apply as_int_wp; [|done]. unfold INT_MIN, INT_MAX. destruct Hu; [by left|right; lia]. }
  intros len h2' [-> ->].
  apply wp_bind. eapply wp_mono; [by apply (pairs_make pv tx l)|]. intros ps h3 (E3 & L3 & A3 & O3).
  fold (pair_blocks ps). destruct (all_pairs ps) as [ts|] eqn:Ea.
  - destruct (A3 ts eq_refl) as [Ets _]. fold (members_out tx l) in Ets. rewrite <- Ets in *. apply wp_bind.
    assert (object_out fmt depth ts = [123] ++ fmt_text fmt [10] ++ object_body fmt (depth + 1) ts
             ++ fmt_text fmt (tabs (depth + 1 - 1)) ++ [125]) as Eo by (rewrite Z.add_simpl_r; by destruct ts).
    rewrite <- Eo. eapply wp_mono; [apply (new_string_makes _ (object_out fmt depth ts))|].
    { destruct Hu as [Hu|Hu]; [by left|right]. fold (pair_sizes fmt (depth + 1) ts). rewrite object_out_length by done.
      rewrite add_sizes_eq; [lia|lia|apply pair_sizes_nonneg; lia|unfold INT_MAX; lia]. }
    intros r h4 (E4 & L4 & O4). apply wp_bind, free_wp, wp_bind, free_wp, wp_ret. cbn. split; [congruence|]. split.
    + destruct L4 as [[-> ?]|[-> ?]]; [left|right]; (split; [done|lia]).
    + intros Ho. destruct (O1 Ho) as [_ Ho1], (O2 Ho1) as [_ Ho2]. destruct (O3 Ho2) as [|[_ Ho3]]; auto.
  - apply wp_bind, free_wp, wp_bind, free_wp, wp_ret. cbn. split; [congruence|]. split; [right; split; [done|lia]|].
    intros Ho. destruct (O1 Ho) as [_ Ho1], (O2 Ho1) as [_ Ho2]. destruct (O3 Ho2) as [|[[] _]]; auto.
Qed.
End Makes.

(** *** A part of a text is shorter than the text. *)

Lemma array_part fmt (tx : item -> list Z) l c : c ∈ l -> zlen (tx c) + 2 <= zlen (array_out fmt (map tx l)).
Proof.
  intros Hc. rewrite array_out_length. assert (zlen (tx c) <= zlen (array_body fmt (map tx l))); [|lia].
  induction l as [|d l IH]; [by apply not_elem_of_nil in Hc|]. destruct l as [|d' l].
  - apply list_elem_of_singleton in Hc as ->. done.
  - set (l1 := d' :: l) in *.
    change (array_body fmt (map tx (d :: l1))) with (tx d ++ [44] ++ fmt_text fmt [32] ++ array_body fmt (map tx l1)).
    rewrite !zlen_app. pose proof (zlen_nonneg (tx d)). pose proof (zlen_nonneg [44]). pose proof (zlen_nonneg (fmt_text fmt [32])).
    pose proof (zlen_nonneg (array_body fmt (map tx l1))).
    apply elem_of_cons in Hc as [->|Hc]; [lia|]. specialize (IH Hc). lia.
Qed.

Lemma object_part fmt depth (tx : item -> list Z) l c : 0 <= depth -> c ∈ l ->
  zlen (string_out (default [] (name c))) + zlen (tx c) + 2 <= zlen (object_out fmt depth (members_out tx l)).
Proof.
  intros Hd Hc. rewrite object_out_length by (done || by destruct l; [apply not_elem_of_nil in Hc|]).
  pose proof (fmtZ_bool fmt (depth + 1) ltac:(lia)).
  assert (zlen (string_out (default [] (name c))) + zlen (tx c) <= zlen (object_body fmt (depth + 1) (members_out tx l))); [|lia].
  induction l as [|d l IH]; [by apply not_elem_of_nil in Hc|]. cbn [members_out map object_body]. rewrite !zlen_app.
  repeat match goal with |- context [zlen ?t] => lazymatch goal with _ : 0 <= zlen t |- _ => fail | _ => pose proof (zlen_nonneg t) end end.
  apply elem_of_cons in Hc as [->|Hc]; [lia|]. specialize (IH Hc). unfold members_out in IH. lia.
Qed.

Lemma print_value_makes u fmt it depth :
  0 <= depth -> (u \/ ~ 2 ^ 30 < depth + zlen (render fmt it depth) + 64) -> printable it ->
  makes u (print_value fmt it depth) (render fmt it depth).
Proof.
  revert depth. induction it as [it IH] using item_tree_ind. intros depth Hd Hu Hp. rewrite Forall_forall in IH.
  assert (Forall printable (child it) ->
    (forall c, c ∈ child it -> u \/ zlen (render fmt c (depth + 1)) + 2 <= zlen (render fmt it depth)) ->
    Forall (fun c => makes u (d ← lift (as_int (depth + 1)); print_value fmt c d) (render fmt c (depth + 1))) (child it)) as Hch.
  { intros Hc Hlen. rewrite Forall_forall in Hc |- *. intros c Hin h. specialize (Hlen c Hin). pose proof (zlen_nonneg (render fmt it depth)).
    apply wp_bind, as_int_wp; [unfold INT_MIN, INT_MAX; destruct Hu; [by left|right; lia]|]. intros _.
    apply IH; [done|lia| |by apply Hc]. destruct Hu; [by left|]. destruct Hlen; [by left|right; lia]. }
  destruct Hp as [it Hk|it Hk Hf|it s Hk Hv Hs|it Hk Hc|it Hk Hc Hn].
  - destruct Hk as [Hk|[Hk|Hk]]; by_kind Hk; by apply new_string_makes; right.
  - by_kind Hk. unfold print_number. destruct (number_text_spec it Hf) as [Hfit _]. destruct (number_text it) as [len text].
    apply new_string_makes. by right.
  - revert Hu. by_kind Hk. rewrite Hv. change (default [] (Some s)) with s. intros Hu. apply string_makes; [done..|].
    unfold INT_MAX. destruct Hu; [by left|right; lia].
  - specialize (Hch Hc). revert Hu Hch. by_kind Hk. intros Hu Hch. apply array_makes.
    + unfold too_long. destruct Hu; [by left|right; lia].
    + apply Hch. intros c Hin. right. by apply (array_part fmt (fun c => render fmt c (depth + 1))).
  - specialize (Hch Hc). revert Hu Hch. by_kind Hk. intros Hu Hch.
    pose proof (fun c => object_part fmt depth (fun c => render fmt c (depth + 1)) (child it) c Hd) as Hpart.
    apply (object_makes _ (fun c => render fmt c (depth + 1))); try done.
    + apply Hch. intros c Hin. right. specialize (Hpart c Hin). pose proof (zlen_nonneg (string_out (default [] (name c)))).
      cbn beta in Hpart. unfold members_out in Hpart. lia.
    + apply Forall_forall. intros c Hin. specialize (Hpart c Hin). pose proof (zlen_nonneg (render fmt c (depth + 1))).
      unfold INT_MAX. destruct Hu; [by left|right]. unfold members_out in *. lia.
Qed.


(** ** Reading back what was printed *)

(** The number that the text of a number is read as: %f and %e round, an int comes back as it is. *)
Definition reread (it : item) : item :=
  match parse_number blank (number_text it).2 with Ok (n, _) => n | Ub _ => blank end.

Definition same_int (it : item) : item := set_type cJSON_Number (set_number (valueint it) (dofZ (valueint it)) blank).

(** The item the parser makes: no flag, no member that the type does not use,
    valueint 1 for true, [num] of a number. *)
Section Norm.
Context (num : item -> item).

Fixpoint norm_with (it : item) : item :=
  if kind it =? cJSON_NULL then set_type cJSON_NULL blank
  else if kind it =? cJSON_False then set_type cJSON_False blank
  else if kind it =? cJSON_True then set_type cJSON_True (set_number 1 (S754_zero false) blank)
  else if kind it =? cJSON_Number then num it
  else if kind it =? cJSON_String then set_type cJSON_String (set_valuestring (valuestring it) blank)
  else if kind it =? cJSON_Array then set_type cJSON_Array (set_child (map norm_with (child it)) blank)
  else set_type cJSON_Object (set_child (map (fun c => set_name (name c) (norm_with c)) (child it)) blank).

Lemma norm_with_eq it :
  norm_with it =
  if kind it =? cJSON_NULL then set_type cJSON_NULL blank
  else if kind it =? cJSON_False then set_type cJSON_False blank
  else if kind it =? cJSON_True then set_type cJSON_True (set_number 1 (S754_zero false) blank)
  else if kind it =? cJSON_Number then num it
  else if kind it =? cJSON_String then set_type cJSON_String (set_valuestring (valuestring it) blank)
  else if kind it =? cJSON_Array then set_type cJSON_Array (set_child (map norm_with (child it)) blank)
  else set_type cJSON_Object (set_child (map (fun c => set_name (name c) (norm_with c)) (child it)) blank).
Proof. destruct it. reflexivity. Qed.
End Norm.

Abbreviation norm := (norm_with reread).

Lemma number_ends_nil : number_ends [].
Proof. done. Qed.

Lemma reread_int it : int_number it -> reread it = same_int it.
Proof.
  intros Hi. unfold reread, same_int. rewrite number_text_int by done. cbn [snd]. destruct Hi as [Hi _].
  pose proof (parse_number_int blank (valueint it) [] Hi number_ends_nil) as E. rewrite app_nil_r in E. by rewrite E.
Qed.

(** What a finite number is read as in any item and in front of any text. *)
Lemma parse_number_text it new rest :
  finite_number it -> number_ends rest ->
  parse_number new ((number_text it).2 ++ rest) =
  Ok (set_type cJSON_Number (set_number (valueint (reread it)) (valuedouble (reread it)) new), rest) /\
  reread it = set_type cJSON_Number (set_number (valueint (reread it)) (valuedouble (reread it)) blank).
Proof.
  intros [Hn Hf] Hr. destruct (number_text_spec it Hn) as [_ Ht]. destruct (parse_decimal _ (Ht Hf)) as (n & d & H).
  pose proof (H blank [] number_ends_nil) as E. rewrite app_nil_r in E. unfold reread. rewrite E, (H new rest Hr). done.
Qed.

(** A document of ints is read as it is. *)
Lemma norm_canonical it : canonical it -> norm it = norm_with same_int it.
Proof.
  induction it as [it IH] using item_tree_ind. rewrite Forall_forall in IH. intros H. rewrite !norm_with_eq.
  destruct H as [it Hk|it Hk Hi|it s Hk Hv Hs|it Hk Hc|it Hk Hc Hn].
  - destruct Hk as [Hk|[Hk|Hk]]; rewrite Hk; reflexivity.
  - rewrite Hk. exact (reread_int it Hi).
  - rewrite Hk. reflexivity.
  - rewrite Hk. cbn. do 2 f_equal. apply map_ext_in. intros c Hin%list_elem_of_In. rewrite Forall_forall in Hc. auto.
  - rewrite Hk. cbn. do 2 f_equal. apply map_ext_in. intros c Hin%list_elem_of_In. rewrite Forall_forall in Hc. f_equal. auto.
Qed.

Definition spaces (w : list Z) : Prop := Forall (fun c => c <= 32) w.

Lemma skip_spaces w s : spaces w -> skip (w ++ s) = skip s.
Proof.
  unfold skip. induction 1 as [|c w Hc Hw IH]; [done|]. cbn [app span].
  rewrite (proj2 (Z.leb_le _ _)) by done. destruct (span _ (w ++ s)), (span _ s); done.
Qed.

Lemma skip_head s : 32 < peek s \/ s = [] -> skip s = s.
Proof.
  unfold skip. destruct s as [|c s]; [done|]. cbn. intros [?|?]; [|done].
  by rewrite (proj2 (Z.leb_gt _ _)) by lia.
Qed.

Lemma skip_head_or s : skip s = [] \/ 32 < peek (skip s).
Proof.
  unfold skip. destruct (span _ s) as [m [|c r]] eqn:E; [by left|right]. cbn.
  apply span_rest_head in E. by apply Z.leb_gt in E.
Qed.

Lemma skip_skip s : skip (skip s) = skip s.
Proof. apply skip_head. destruct (skip_head_or s); auto. Qed.

Lemma spaces_tabs n : spaces (tabs n).
Proof. apply Forall_replicate. lia. Qed.

(** A text that starts a value; [c] tells which. *)
Definition starts (t : list Z) (P : Z -> Prop) : Prop := exists c r, t = c :: r /\ P c.

Lemma numeral_starts t : numeral t -> starts t (fun c => c = 45 \/ isdigit c = true).
Proof.
  intros [s n fp ex Hn _ _]. destruct s; [by eexists 45, _; auto|]. cbn [with_sign].
  pose proof (print_nat_isdigit n Hn) as Hd. destruct (print_nat_spec 10 n) as (Hne & _); [lia..|].
  destruct (print_nat 10 n) as [|c r]; [done|]. apply Forall_cons in Hd as [? _]. eexists c, _. auto.
Qed.

Lemma object_out_starts fmt depth ps : starts (object_out fmt depth ps) (eq 123).
Proof. unfold object_out. destruct ps; cbn [app]; by eexists _, _. Qed.

(** The characters that can follow a value in a printed text. *)
Definition follows (rest : list Z) : Prop := peek rest ∈ [0; 44; 93; 10; 125].

(** [follows]: the next character is one of these. *)
Ltac follows := apply list_elem_of_In; cbn; auto 10.

Lemma follows_number rest : follows rest -> number_ends rest.
Proof.
  unfold follows, number_ends. generalize (peek rest). intros c H%list_elem_of_In.
  destruct H as [<-|[<-|[<-|[<-|[<-|[]]]]]]; by split_and!.
Qed.

Lemma parse_string_out it s rest h :
  cstr_ok s -> oracle h = [] -> zlen (string_out s) < INT_MAX ->
  parse_string it (string_out s ++ rest) h =
  Ok ((set_type cJSON_String (set_valuestring (Some s) it), Some rest), Heap [] (live h + 1) (ep h)).
Proof.
  intros Hs Ho Hb. rewrite string_out_length in Hb. assert (INT_MIN <= 0) by done.
  unfold string_out. rewrite <- app_comm_cons, <- app_assoc. unfold parse_string.
  cbn [peek hd tl]. change (34 =? 34) with true. cbn [negb]. cbn iota. cbn [app].
  destruct (string_len_escaped s rest 0 Hs) as (k & Ek & Hk); [lia..|]. pose proof (zlen_nonneg s).
  unfold mbind, ST_bind, mret, ST_ret, lift, cJSON_malloc, alloc. rewrite Ek. cbn [res_bind].
  rewrite as_int_Ok by lia. cbn [res_bind]. rewrite Ho. cbn [res_bind negb].
  rewrite unescape_escaped; [|done|]. cbn [res_bind].
  - rewrite (proj2 (Z.leb_le _ _)) by lia. cbn [peek hd tl]. change (34 =? 34) with true. done.
  - cbn [length]. rewrite length_app. assert (length s <= length (flat_map escape_char s))%nat; [|lia].
    clear -Hs. induction Hs as [|c s Hc Hs IH]; [done|]. cbn [flat_map length]. rewrite length_app.
    pose proof (escape_char_length c Hc). unfold zlen in *.
    destruct (short_escape c), (c <? 32); lia.
Qed.

(** The calls a document takes. *)
Fixpoint need (it : item) : nat :=
  if (kind it =? cJSON_Array) || (kind it =? cJSON_Object)
  then 3 + foldr (fun c n => 1 + need c + n)%nat 1%nat (child it) else 1.
Definition need_list (l : list item) : nat := foldr (fun c n => 1 + need c + n)%nat 1%nat l.

Lemma need_node it : kind it = cJSON_Array \/ kind it = cJSON_Object -> need it = (3 + need_list (child it))%nat.
Proof. destruct it. cbn [need]. by intros [-> | ->]. Qed.

Lemma need_pos it : (0 < need it)%nat.
Proof. destruct it. cbn [need]. destruct (_ || _); lia. Qed.

(** What a document that is read back leaves. *)
Definition reads (it : item) : Prop :=
  forall fmt depth fuel ty nm rest h,
    0 <= depth -> (need it <= fuel)%nat -> follows rest -> oracle h = [] -> zlen (render fmt it depth) < INT_MAX ->
    parse_value fuel (set_type ty (set_name nm blank)) (render fmt it depth ++ rest) h =
    Ok ((set_name nm (norm it), Some rest), Heap [] (live h + blocks (norm it) - 1) (ep h)).

Lemma blocks_named nm c :
  name c = None -> flag (type c) cJSON_StringIsConst = false -> blocks (set_name nm c) = blocks c + owned nm.
Proof. destruct c as [l ty v n d nm0]. cbn [name type set_name blocks child valuestring]. intros -> ->. cbn [owned]. lia. Qed.

Lemma norm_plain it : readable it -> name (norm it) = None /\ flag (type (norm it)) cJSON_StringIsConst = false.
Proof.
  intros H. rewrite norm_with_eq.
  destruct H as [it Hk|it Hk Hi|it s Hk Hv Hs|it Hk Hc|it Hk Hc Hn].
  - destruct Hk as [Hk|[Hk|Hk]]; rewrite Hk; split; reflexivity.
  - rewrite Hk. cbn [cJSON_Number Z.eqb Pos.eqb]. destruct (parse_number_text it blank [] Hi number_ends_nil) as [_ E]. revert E.
    generalize (valueint (reread it)), (valuedouble (reread it)). intros n d ->. done.
  - rewrite Hk. split; reflexivity.
  - rewrite Hk. split; reflexivity.
  - rewrite Hk. split; reflexivity.
Qed.

Lemma set_name_norm it : readable it -> set_name None (norm it) = norm it.
Proof. intros Hr. pose proof (norm_plain it Hr) as [H _]. destruct (norm it). cbn in *. by subst. Qed.

Lemma heap_eta h : oracle h = [] -> Heap [] (live h) (ep h) = h.
Proof. by destruct h; cbn; intros ->. Qed.

Lemma new_item_ok h : oracle h = [] -> cJSON_New_Item h = Ok (Some blank, Heap [] (live h + 1) (ep h)).
Proof. intros Ho. unfold cJSON_New_Item, mbind, ST_bind, mret, ST_ret, cJSON_malloc, alloc. by rewrite Ho. Qed.

Lemma peek_app_head c t rest : peek ((c :: t) ++ rest) = c.
Proof. done. Qed.

Lemma render_starts fmt it depth :
  readable it -> starts (render fmt it depth) (fun c => 32 < c /\ c <> 93 /\ c <> 125 /\ c < 256).
Proof.
  intros H.
  destruct H as [it Hk|it Hk Hf|it s Hk Hv Hs|it Hk Hc|it Hk Hc Hn].
  - destruct Hk as [Hk|[Hk|Hk]]; by_kind Hk; cbn; eexists _, _; (split; [reflexivity|lia]).
  - by_kind Hk. destruct Hf as [Hn Hf]. destruct (number_text_spec it Hn) as [_ Ht].
    destruct (numeral_starts _ (Ht Hf)) as (c & r & -> & Hc). exists c, r. split; [done|].
    unfold isdigit in Hc. destruct Hc as [-> |[?%Z.leb_le ?%Z.leb_le]%andb_true_iff]; lia.
  - by_kind Hk. eexists _, _. split; [reflexivity|lia].
  - by_kind Hk. eexists _, _. split; [reflexivity|lia].
  - by_kind Hk. destruct (object_out_starts fmt depth (map (fun c => (string_out (default [] (name c)),
      render fmt c (depth + 1))) (child it))) as (c & r & -> & <-). eexists _, _. split; [reflexivity|lia].
Qed.

Lemma elements_read fmt depth l :
  0 <= depth -> l <> [] -> Forall readable l -> Forall reads l -> Forall (fun c => zlen (render fmt c depth) < INT_MAX) l -> forall fuel w rest h,
  (need_list l <= fuel)%nat -> spaces w -> oracle h = [] ->
  parse_elements fuel (w ++ array_body fmt (map (fun c => render fmt c depth) l) ++ 93 :: rest) h =
  Ok ((map norm l, Some (93 :: rest)), Heap [] (live h + blocks_list (map norm l)) (ep h)).
Proof.
  intros Hd. induction l as [|c l IH]; [done|]. intros _ Hcan Hreads Hlen fuel w rest h Hf Hw Ho.
  apply Forall_cons in Hcan as [Hc Hcan], Hreads as [Hr Hreads], Hlen as [Hlc Hlen]. cbn [need_list foldr] in Hf.
  change (foldr _ 1%nat l) with (need_list l) in Hf. destruct fuel as [|fuel]; [lia|].
  destruct (render_starts fmt c depth Hc) as (x & t & Et & Hx & _).
  assert (Hsk : forall s, skip (w ++ render fmt c depth ++ s) = render fmt c depth ++ s).
  { intros s. rewrite skip_spaces by done. apply skip_head. left. rewrite Et. done. }
  cbn [parse_elements]. unfold mbind, ST_bind, mret, ST_ret in *. rewrite new_item_ok by done. cbn [res_bind].
  change blank with (set_type 0 (set_name None blank)).
  destruct l as [|c' l'].
  - cbn [map array_body]. rewrite Hsk. rewrite Hr by first [done | lia | follows]. cbn [res_bind].
    cbn [skip_opt option_map]. rewrite skip_head by (left; cbn; lia). cbn [peek hd].
    change (93 =? 44) with false. cbn iota. rewrite set_name_norm by done. do 3 f_equal.
    change (blocks_list [norm c]) with (blocks (norm c) + 0). cbn [live]. lia.
  - set (l := c' :: l') in *.
    assert (array_body fmt (map (fun c => render fmt c depth) (c :: l)) =
      render fmt c depth ++ [44] ++ fmt_text fmt [32] ++ array_body fmt (map (fun c => render fmt c depth) l)) as -> by done.
    rewrite <- !app_assoc, Hsk. rewrite Hr by first [done | lia | follows]. cbn [res_bind].
    cbn [skip_opt option_map]. rewrite skip_head by (left; cbn; lia). cbn [app peek hd tl].
    change (44 =? 44) with true. cbn beta iota.
    rewrite IH; [|done..|lia|by destruct fmt; [repeat constructor|constructor]|done]. cbn [res_bind]. rewrite set_name_norm by done. do 3 f_equal.
    change (blocks_list (map norm (c :: l))) with (blocks (norm c) + blocks_list (map norm l)). cbn [live]. lia.
Qed.

Definition member_text (fmt : bool) (depth : Z) (c : item) : list Z * list Z :=
  (string_out (default [] (name c)), render fmt c depth).

(** An item with its member name, as it is read back. *)
Definition norm_member (c : item) : item := set_name (name c) (norm c).

Lemma members_read fmt depth close l :
  0 <= depth -> l <> [] -> Forall readable l -> Forall reads l -> Forall named l ->
  Forall (fun c => zlen (string_out (default [] (name c))) < INT_MAX /\ zlen (render fmt c depth) < INT_MAX) l -> forall fuel w rest h,
  (need_list l <= fuel)%nat -> spaces w -> oracle h = [] ->
  parse_members fuel (w ++ object_body fmt depth (map (member_text fmt depth) l)
                      ++ fmt_text fmt (tabs close) ++ 125 :: rest) h =
  Ok ((map norm_member l, Some (125 :: rest)), Heap [] (live h + blocks_list (map norm_member l)) (ep h)).
Proof.
  intros Hd. induction l as [|c l IH]; [done|]. intros _ Hcan Hreads Hn Hlen fuel w rest h Hf Hw Ho.
  apply Forall_cons in Hcan as [Hc Hcan], Hreads as [Hr Hreads], Hn as [(n & En & Hn) Hnl], Hlen as [[Hln Hlc] Hlen].
  rewrite En in Hln. cbn [default] in Hln. unfold id in Hln.
  cbn [need_list foldr] in Hf. change (foldr _ 1%nat l) with (need_list l) in Hf. destruct fuel as [|fuel]; [lia|].
  destruct (render_starts fmt c depth Hc) as (x & t & Et & Hx & _).
  assert (Hsp : forall a b : list Z, spaces a -> spaces (fmt_text fmt a)) by (intros a b Ha; by destruct fmt; [|constructor]).
  assert (Hs1 : forall s, skip (w ++ fmt_text fmt (tabs depth) ++ string_out n ++ s) = string_out n ++ s).
  { intros s. rewrite !skip_spaces by (done || apply (Hsp _ []), spaces_tabs). apply skip_head. left. cbn. lia. }
  assert (Hs2 : forall s, skip (fmt_text fmt [9] ++ render fmt c depth ++ s) = render fmt c depth ++ s).
  { intros s. rewrite skip_spaces by (apply (Hsp _ []); repeat constructor; lia). apply skip_head. left. rewrite Et. done. }
  set (tail := fmt_text fmt (tabs close) ++ 125 :: rest).
  set (more := match map (member_text fmt depth) l with [] => [] | _ :: _ => [44] end ++ fmt_text fmt [10] ++
               object_body fmt depth (map (member_text fmt depth) l) ++ tail).
  assert (Hb : object_body fmt depth (map (member_text fmt depth) (c :: l)) ++ tail =
    fmt_text fmt (tabs depth) ++ string_out n ++ 58 :: fmt_text fmt [9] ++ render fmt c depth ++ more).
  { unfold more. cbn [map object_body member_text]. rewrite En. cbn [default]. rewrite <- !app_assoc. done. }
  rewrite Hb. cbn [parse_members]. unfold mbind, ST_bind, mret, ST_ret in *. rewrite new_item_ok by done. cbn [res_bind].
  rewrite Hs1, parse_string_out by done. cbn [res_bind skip_opt option_map].
  rewrite skip_head by (left; cbn; lia). cbn [peek hd tl]. change (58 =? 58) with true. cbn [negb]. cbn beta iota.
  rewrite Hs2. change (set_valuestring None _) with (set_type cJSON_String (set_name (Some n) blank)).
  assert (Hmore : follows more).
  { unfold more. destruct l; cbn [map app]; [|follows]. unfold tail. destruct fmt; cbn; follows. }
  rewrite Hr by first [done | lia]. cbn [res_bind live ep oracle skip_opt option_map].
  assert (Hbl : blocks (norm_member c) = blocks (norm c) + 1).
  { unfold norm_member. rewrite blocks_named, En by by apply norm_plain. done. }
  assert (Hnm : set_name (Some n) (norm c) = norm_member c) by by unfold norm_member; rewrite En.
  destruct l as [|c' l'].
  - unfold more. cbn [map app object_body]. unfold tail. rewrite !skip_spaces
      by first [apply (Hsp _ []), spaces_tabs | apply (Hsp _ []); repeat constructor; lia].
    rewrite skip_head by (left; cbn; lia). cbn [peek hd]. change (125 =? 44) with false. cbn iota.
    rewrite Hnm. do 3 f_equal. change (blocks_list [norm_member c]) with (blocks (norm_member c) + 0). lia.
  - set (l := c' :: l') in *. unfold more. assert (exists p ps, map (member_text fmt depth) l = p :: ps) as (p & ps & Ep) by (cbn; eauto).
    rewrite Ep. cbn [app]. rewrite <- Ep. rewrite skip_head by (left; cbn; lia). cbn [peek hd tl].
    change (44 =? 44) with true. cbn beta iota. unfold tail.
    rewrite IH; [|done..|lia|by apply (Hsp _ []); repeat constructor|done]. cbn [res_bind live ep]. rewrite Hnm. do 3 f_equal.
    change (blocks_list (map norm_member (c :: l))) with (blocks (norm_member c) + blocks_list (map norm_member l)). lia.
Qed.

Lemma not_prefix x p c t : x <> c -> is_prefix (x :: p) (c :: t) = false.
Proof. intros H. cbn. by rewrite (proj2 (Z.eqb_neq x c)) by done. Qed.

Lemma parse_value_head fuel it c t :
  c <> 110 -> c <> 102 -> c <> 116 ->
  parse_value (S fuel) it (c :: t) =
  (if c =? 34 then parse_string it (c :: t)
   else if (c =? 45) || isdigit c then '(it, r) ← lift (parse_number it (c :: t)); mret (it, Some r)
   else if c =? 91 then parse_array fuel it (c :: t)
   else if c =? 123 then parse_object fuel it (c :: t) else fail_at it (c :: t)).
Proof.
  intros H1 H2 H3. cbn [parse_value]. change (str "null") with (110 :: str "ull").
  change (str "false") with (102 :: str "alse"). change (str "true") with (116 :: str "rue").
  rewrite !not_prefix by congruence. done.
Qed.

Definition literal (t : list Z) : option (item -> item) :=
  if bool_decide (t = str "null") then Some (set_type cJSON_NULL)
  else if bool_decide (t = str "false") then Some (set_type cJSON_False)
  else if bool_decide (t = str "true") then Some (fun it => set_type cJSON_True (set_number 1 (valuedouble it) it))
  else None.

Lemma parse_literal fuel it t f rest h :
  literal t = Some f -> parse_value (S fuel) it (t ++ rest) h = Ok ((f it, Some rest), h).
Proof.
  unfold literal. case_bool_decide as E; [|case_bool_decide as E'; [|case_bool_decide as E''; [|done]]];
    intros [= <-]; subst t; reflexivity.
Qed.

Lemma blocks_norm_array l : blocks (set_type cJSON_Array (set_child l blank)) = blocks_list l + 1.
Proof. change (blocks_list l + 0 + 0 + 1 = blocks_list l + 1). lia. Qed.

Lemma blocks_norm_object l : blocks (set_type cJSON_Object (set_child l blank)) = blocks_list l + 1.
Proof. change (blocks_list l + 0 + 0 + 1 = blocks_list l + 1). lia. Qed.

(** A value whose text starts with [c]. *)
Lemma array_reads fmt depth fuel it rest h l :
  0 <= depth -> (2 + need_list l <= fuel)%nat -> Forall readable l -> Forall reads l ->
  Forall (fun c => zlen (render fmt c depth) < INT_MAX) l -> oracle h = [] ->
  parse_array fuel it (array_out fmt (map (fun c => render fmt c depth) l) ++ rest) h =
  Ok ((match l with [] => set_type cJSON_Array it | _ => set_child (map norm l) (set_type cJSON_Array it) end, Some rest),
      Heap [] (live h + blocks_list (map norm l)) (ep h)).
Proof.
  intros Hd Hf Hc Hr Hlen Ho. destruct fuel as [|fuel]; [lia|]. cbn [parse_array]. unfold array_out, mbind, ST_bind, mret, ST_ret.
  rewrite <- !app_assoc. cbn [app tl]. destruct l as [|c0 l0].
  - cbn. rewrite Z.add_0_r. by rewrite heap_eta.
  - set (l := c0 :: l0) in *. set (r := fun c => render fmt c depth).
    assert (starts (array_body fmt (map r l)) (fun c => 32 < c /\ c <> 93)) as (x & t & Ex & Hx & Hx').
    { apply Forall_cons in Hc as [Hc0 _]. destruct (render_starts fmt c0 depth Hc0) as (x & t & Et & ? & ? & _).
      unfold l. destruct l0; cbn; unfold r at 1; rewrite Et; by eexists _, _. }
    rewrite (skip_head (array_body _ _ ++ _)) by (left; rewrite Ex; done).
    assert (peek (array_body fmt (map r l) ++ 93 :: rest) =? 93 = false) as ->
      by (rewrite Ex; cbn; by apply Z.eqb_neq).
    pose proof (elements_read fmt depth l Hd ltac:(done) Hc Hr Hlen fuel [] rest h ltac:(lia) ltac:(constructor) Ho) as E.
    cbn [app] in E. fold r in E. rewrite E.
    cbn [res_bind peek hd tl]. change (93 =? 93) with true. done.
Qed.

(** Reading members skips the space before the first name. *)
Lemma members_skip fuel s : parse_members fuel (skip s) = parse_members fuel s.
Proof. destruct fuel; cbn [parse_members]; by rewrite ?skip_skip. Qed.

Lemma object_reads fmt depth fuel it rest h l :
  0 <= depth -> (2 + need_list l <= fuel)%nat -> Forall readable l -> Forall reads l -> Forall named l ->
  Forall (fun c => zlen (string_out (default [] (name c))) < INT_MAX /\ zlen (render fmt c (depth + 1)) < INT_MAX) l -> oracle h = [] ->
  parse_object fuel it (object_out fmt depth (map (member_text fmt (depth + 1)) l) ++ rest) h =
  Ok ((match l with [] => set_type cJSON_Object it
       | _ => set_child (map norm_member l) (set_type cJSON_Object it) end, Some rest),
      Heap [] (live h + blocks_list (map norm_member l)) (ep h)).
Proof.
  intros Hd Hf Hc Hr Hn Hlen Ho. destruct fuel as [|fuel]; [lia|]. cbn [parse_object]. unfold mbind, ST_bind, mret, ST_ret.
  assert (Hsp : forall a, spaces a -> spaces (fmt_text fmt a)) by (intros a Ha; by destruct fmt; [|constructor]).
  destruct l as [|c0 l0].
  - cbn [map object_out app tl]. rewrite <- !app_assoc. rewrite skip_spaces
      by (apply Hsp; constructor; [lia|apply spaces_tabs]).
    rewrite skip_head by (left; cbn; lia). cbn. rewrite Z.add_0_r. by rewrite heap_eta.
  - set (l := c0 :: l0) in *.
    assert (exists p ps, map (member_text fmt (depth + 1)) l = p :: ps) as (p & ps & Ep) by (cbn; eauto).
    unfold object_out. rewrite Ep. cbn [app tl]. rewrite <- Ep. rewrite <- !app_assoc. cbn [app].
    set (s := fmt_text fmt [10] ++ _).
    assert (peek (skip s) =? 125 = false) as ->.
    { unfold s. rewrite skip_spaces by (apply Hsp; repeat constructor; lia). cbn [l map object_body member_text].
      rewrite <- !app_assoc. rewrite skip_spaces by apply Hsp, spaces_tabs. by rewrite skip_head by (left; cbn; lia). }
    rewrite members_skip. unfold s.
    rewrite (members_read fmt (depth + 1) depth l ltac:(lia) ltac:(done) Hc Hr Hn Hlen fuel _ rest h)
      by (done || lia || apply Hsp; repeat constructor; lia).
    cbn [res_bind peek hd tl]. change (125 =? 125) with true. done.
Qed.

Lemma readable_reads it : readable it -> reads it.
Proof.
  induction it as [it IH] using item_tree_ind. intros H fmt depth fuel ty nm rest h Hd Hf Hrest Ho Hlen.
  assert (Forall readable (child it) -> Forall reads (child it)) as Hch.
  { intros Hc. rewrite Forall_forall in IH, Hc |- *. intros c Hin. apply IH; auto. }
  pose proof (need_pos it). destruct fuel as [|fuel]; [lia|].
  destruct H as [it Hk|it Hk Hi|it s Hk Hv Hs|it Hk Hc|it Hk Hc Hn]; rewrite norm_with_eq.
  - destruct h as [o n e]. cbn in Ho. subst o.
    destruct Hk as [Hk|[Hk|Hk]]; by_kind Hk; erewrite parse_literal by reflexivity; cbn [live ep]; do 3 f_equal;
      change (blocks _) with 1; lia.
  - by_kind Hk. pose proof Hi as [Hn Hf']. destruct (number_text_spec it Hn) as [_ Ht].
    destruct (numeral_starts _ (Ht Hf')) as (c & r & Er & Hc'). rewrite Er. cbn [app].
    assert (48 <= c <= 57 \/ c = 45) as Hcr.
    { unfold isdigit in Hc'. destruct Hc' as [-> |[?%Z.leb_le ?%Z.leb_le]%andb_true_iff]; lia. }
    rewrite parse_value_head by lia. rewrite (proj2 (Z.eqb_neq c 34)) by lia.
    assert ((c =? 45) || isdigit c = true) as -> by (destruct Hc' as [-> | ->]; [done|apply orb_true_r]).
    rewrite app_comm_cons, <- Er. unfold mbind, ST_bind, mret, ST_ret, lift.
    destruct (parse_number_text it (set_type ty (set_name nm blank)) rest Hi) as [-> Ern]; [by apply follows_number|].
    cbn [res_bind]. rewrite Ern. change (blocks (set_type cJSON_Number _)) with 1.
    replace (live h + 1 - 1) with (live h) by lia. by rewrite heap_eta.
  - revert Hlen. by_kind Hk. rewrite Hv. intros Hlen. change (default [] (Some s)) with s in Hlen. cbn [default string_out app]. rewrite parse_value_head by lia.
    change (34 =? 34) with true. cbn iota.
    change (34 :: (flat_map escape_char (id s) ++ [34]) ++ rest) with (string_out s ++ rest).
    rewrite parse_string_out by done. do 3 f_equal. change (blocks (set_type cJSON_String _)) with 2. lia.
  - rewrite need_node in Hf by auto. revert Hlen. by_kind Hk. intros Hlen. rewrite blocks_norm_array.
    assert (array_out fmt (map (fun c => render fmt c (depth + 1)) (child it)) ++ rest =
      91 :: (array_body fmt (map (fun c => render fmt c (depth + 1)) (child it)) ++ [93]) ++ rest) as Ea by done.
    rewrite Ea, parse_value_head, <- Ea by lia.
    change (91 =? 34) with false. change ((91 =? 45) || isdigit 91) with false. change (91 =? 91) with true. cbn iota.
    rewrite array_reads; [|done || lia || auto|lia|done|auto|..|done]; [|apply Forall_forall; intros c Hin;
      pose proof (array_part fmt (fun c => render fmt c (depth + 1)) (child it) c Hin) as Hp; cbn beta in Hp; lia]. destruct (child it); do 3 f_equal; lia.
  - rewrite need_node in Hf by auto. revert Hlen. by_kind Hk. intros Hlen. rewrite blocks_norm_object.
    change (fun c => set_name (name c) (norm c)) with norm_member.
    change (zlen (object_out fmt depth (members_out (fun c => render fmt c (depth + 1)) (child it))) < INT_MAX) in Hlen.
    change (map _ (child it)) with (map (member_text fmt (depth + 1)) (child it)) at 1.
    destruct (object_out_starts fmt depth (map (member_text fmt (depth + 1)) (child it))) as (c & t & Et & <-).
    rewrite Et. cbn [app]. rewrite parse_value_head by lia.
    change (123 =? 34) with false. change ((123 =? 45) || isdigit 123) with false. change (123 =? 91) with false.
    change (123 =? 123) with true. cbn iota. rewrite app_comm_cons, <- Et.
    rewrite object_reads; [|done|lia|done|auto|done|..|done]; [|apply Forall_forall; intros c0 Hin;
      pose proof (object_part fmt depth (fun c => render fmt c (depth + 1)) (child it) c0 Hd Hin) as Hp;
      pose proof (zlen_nonneg (string_out (default [] (name c0)))); pose proof (zlen_nonneg (render fmt c0 (depth + 1)));
      cbn beta in Hp; lia]. destruct (child it); do 3 f_equal; lia.
Qed.

Lemma need_list_cons c l : need_list (c :: l) = (1 + need c + need_list l)%nat.
Proof. done. Qed.

(** The fuel the parser starts with is enough for a printed document. *)
Lemma need_length fmt it depth : readable it -> (need it <= 4 * length (render fmt it depth))%nat.
Proof.
  revert depth. induction it as [it IH] using item_tree_ind. intros depth H.
  assert (kind it <> cJSON_Array -> kind it <> cJSON_Object -> need it = 1%nat) as Hleaf.
  { destruct it. cbn [need]. intros ->%Z.eqb_neq ->%Z.eqb_neq. done. }
  assert (0 < length (render fmt it depth))%nat as Hpos.
  { destruct (render_starts fmt it depth H) as (c & t & -> & _). cbn. lia. }
  assert (forall l, child it = l -> Forall readable l -> Forall (fun c => need c <= 4 * length (render fmt c (depth + 1)))%nat l) as Hch.
  { intros l <- Hc. rewrite Forall_forall in IH, Hc |- *. intros c Hin. by apply IH; [|apply Hc]. }
  destruct H as [it Hk|it Hk Hi|it s Hk Hv Hs|it Hk Hc|it Hk Hc Hn];
    [rewrite Hleaf by (intros E; rewrite E in Hk; unfold cJSON_Array, cJSON_Object, cJSON_NULL, cJSON_False, cJSON_True in Hk; lia); lia
    |rewrite Hleaf by (by rewrite Hk); lia..| |].
  - specialize (Hch _ eq_refl Hc). rewrite need_node by auto. by_kind Hk. unfold array_out. rewrite !length_app. cbn [length].
    assert (need_list (child it) <= 4 * length (array_body fmt (map (fun c => render fmt c (depth + 1)) (child it))) + 5)%nat; [|lia].
    clear -Hch. induction (child it) as [|c l IH]; [cbn; lia|]. apply Forall_cons in Hch as [Hc Hch]. specialize (IH Hch).
    rewrite need_list_cons. destruct l as [|c' l]; [cbn in *; lia|].
    set (l1 := c' :: l) in *.
    assert (array_body fmt (map (fun c => render fmt c (depth + 1)) (c :: l1)) = render fmt c (depth + 1) ++ [44]
      ++ fmt_text fmt [32] ++ array_body fmt (map (fun c => render fmt c (depth + 1)) l1)) as -> by done.
    rewrite !length_app. cbn [length]. lia.
  - specialize (Hch _ eq_refl Hc). rewrite need_node by auto. by_kind Hk. unfold object_out.
    change (map _ (child it)) with (map (member_text fmt (depth + 1)) (child it)).
    destruct (child it) as [|c0 l0] eqn:El; [cbn; destruct fmt; cbn; lia|]. rewrite <- El in *.
    assert (need_list (child it) <= 4 * length (object_body fmt (depth + 1) (map (member_text fmt (depth + 1)) (child it))) + 1)%nat.
    { clear -Hch. induction (child it) as [|c l IH]; [cbn; lia|]. apply Forall_cons in Hch as [Hc Hch]. specialize (IH Hch).
      rewrite need_list_cons. cbn [map object_body member_text]. rewrite !length_app. cbn [length]. lia. }
    rewrite El at 2. cbn [map]. rewrite !length_app. cbn [length]. lia.
Qed.

(** Parsing the text of a document. *)
Lemma parse_render fmt it h :
  readable it -> oracle h = [] -> zlen (render fmt it 0) < INT_MAX ->
  cJSON_Parse (render fmt it 0) h = Ok (Some (norm it), Heap [] (live h + blocks (norm it)) None).
Proof.
  intros Hc Ho Hb.
  unfold cJSON_Parse, cJSON_ParseWithOpts, mbind, ST_bind, mret, ST_ret. rewrite new_item_ok by done. cbn [res_bind].
  unfold set_ep. cbn [res_bind oracle live].
  destruct (render_starts fmt it 0 Hc) as (c & t & Et & Hx & _).
  rewrite skip_head by (left; rewrite Et; done).
  change blank with (set_type 0 (set_name None blank)).
  pose proof (need_length fmt it 0 Hc) as Hn.
  pose proof (readable_reads it Hc fmt 0 (parse_fuel (render fmt it 0)) 0 None [] (Heap [] (live h + 1) None)) as Hr.
  rewrite app_nil_r in Hr. rewrite Hr; [|lia|unfold parse_fuel; lia|follows|done|done].
  cbn [res_bind option_map fst live ep]. rewrite set_name_norm by done. do 3 f_equal. lia.
Qed.

(** C1. When no allocation fails, reading back what was printed, formatted or not, gives the document
    again in normal form, without an error and with exactly its own blocks allocated: the same
    tree, names and strings, and of each number the one that its text is read as, which is the
    number itself when it is an int.  The document has finite numbers (nan and inf are printed as words
    that are no JSON) and a text below 2^30 - 64 bytes. *)
Theorem json_print_parse fmt it h :
  readable it -> oracle h = [] -> ~ too_long (render fmt it 0) ->
  exists text h1 h2,
    print_value fmt it 0 h = Ok (Some text, h1) /\ live h1 = live h + 1 /\
    cJSON_Parse text h1 = Ok (Some (norm it), h2) /\ live h2 = live h1 + blocks (norm it) /\ ep h2 = None /\
    (canonical it -> norm it = norm_with same_int it).
Proof.
  intros Hc Ho Hb.
  destruct (wp_run _ _ _ (print_value_makes False fmt it 0 ltac:(lia) (or_intror Hb) (readable_printable it Hc) h))
    as (r & h1 & E1 & Ep & Hl & Ho1).
  destruct (Ho1 Ho) as [[]|[-> Ho2]]. exists (render fmt it 0), h1.
  destruct Hl as [[_ Hl]|[[=] _]]. eexists. split; [done|]. split; [done|].
  rewrite parse_render by (done || unfold too_long, INT_MAX in *; lia). split_and!; [done..|apply norm_canonical].
Qed.

(** ** Minify *)

(** Minifying [t] in front of any text gives [u] in front of the minified rest. *)
Definition minifies (t u : list Z) : Prop :=
  forall rest, cJSON_Minify (t ++ rest) = let! r := cJSON_Minify rest in Ok (u ++ r).

Lemma minifies_nil : minifies [] [].
Proof. intros rest. cbn. by destruct (cJSON_Minify rest). Qed.

Lemma minifies_app t1 u1 t2 u2 : minifies t1 u1 -> minifies t2 u2 -> minifies (t1 ++ t2) (u1 ++ u2).
Proof.
  intros H1 H2 rest. rewrite <- app_assoc, H1, H2. destruct (cJSON_Minify rest); cbn; [|done].
  by rewrite app_assoc.
Qed.

(** White space goes; the characters of numbers, names and brackets stay. *)
Definition kept (c : Z) : bool := negb (is_blank c || (c =? 47) || (c =? 34)).

Lemma minifies_blank t : Forall (fun c => is_blank c = true) t -> minifies t [].
Proof.
  induction 1 as [|c t Hc Ht IH]; [apply minifies_nil|]. intros rest. cbn [app cJSON_Minify]. rewrite Hc. apply IH.
Qed.

Lemma minifies_kept t : Forall (fun c => kept c = true) t -> minifies t t.
Proof.
  induction 1 as [|c t Hc Ht IH]; [apply minifies_nil|]. intros rest. cbn [app cJSON_Minify].
  unfold kept in Hc. apply negb_true_iff in Hc as [[-> ->]%orb_false_iff ->]%orb_false_iff. cbn [andb].
  rewrite IH. by destruct (cJSON_Minify rest).
Qed.

Lemma minify_escaped c rest :
  0 < c < 256 -> minify_string (escape_char c ++ rest) = let! r := minify_string rest in Ok (escape_char c ++ r).
Proof.
  intros Hc. unfold escape_char.
  destruct ((31 <? c) && negb (c =? 34) && negb (c =? 92)) eqn:E.
  - apply andb_true_iff in E as [[_ E1%negb_true_iff]%andb_true_iff E2%negb_true_iff].
    cbn [app minify_string]. by rewrite E1, E2.
  - repeat match goal with |- context [if c =? ?k then _ else _] => destruct (c =? k); [done|] end.
    assert (forall n, hex_char (n .& 15) =? 34 = false /\ hex_char (n .& 15) =? 92 = false) as Hh.
    { intros x. replace (x .& 15) with (x mod 2 ^ 4) by (symmetry; apply (Z.land_ones x 4); lia).
      pose proof (Z.mod_pos_bound x (2 ^ 4) ltac:(lia)). unfold hex_char.
      split; apply Z.eqb_neq; destruct (Z.ltb_spec (x mod 2 ^ 4) 10); lia. }
    unfold u04x. cbn [app minify_string]. change (92 =? 34) with false. change (92 =? 92) with true. cbn iota.
    rewrite !(proj1 (Hh _)), !(proj2 (Hh _)). by destruct (minify_string rest).
Qed.

Lemma minifies_string s : cstr_ok s -> minifies (string_out s) (string_out s).
Proof.
  intros Hs rest. unfold string_out. cbn [app cJSON_Minify]. change (is_blank 34) with false.
  change ((34 =? 47) && _) with false. change (34 =? 34) with true. cbn [andb]. cbn iota.
  assert (minify_string ((flat_map escape_char s ++ [34]) ++ rest) =
    let! r := cJSON_Minify rest in Ok ((flat_map escape_char s ++ [34]) ++ r)) as ->; [|by destruct (cJSON_Minify rest)].
  induction Hs as [|c s Hc Hs IH].
  - cbn [flat_map app minify_string]. change (34 =? 34) with true. done.
  - cbn [flat_map]. rewrite <- !app_assoc in *. rewrite minify_escaped, IH by done. destruct (cJSON_Minify rest); [|done].
    cbn [res_bind]. by rewrite <- !app_assoc.
Qed.

Lemma number_kept it : Forall (fun c => kept c = true) (number_text it).2.
Proof.
  apply number_text_chars.
  - intros d Hd. unfold kept, is_blank. rewrite !(proj2 (Z.eqb_neq (48 + d) _)) by lia. done.
  - apply Forall_forall. intros c Hc%list_elem_of_In.
    pose proof (proj1 (forallb_forall kept (str "+-.einfa")) ltac:(vm_compute; reflexivity)) as H. by apply H.
Qed.

Ltac minify_plain :=
  first [exact minifies_nil | by apply minifies_kept; repeat constructor | by apply minifies_blank; repeat constructor].

Lemma minifies_tabs n : minifies (tabs n) [].
Proof. apply minifies_blank, Forall_replicate. done. Qed.

Lemma minifies_array ts us : Forall2 minifies ts us -> minifies (array_out true ts) (array_out false us).
Proof.
  intros H. unfold array_out. apply minifies_app; [minify_plain|]. apply minifies_app; [|minify_plain].
  induction H as [|t u ts us Ht H IH]; [apply minifies_nil|]. destruct H as [|t' u' ts us Ht' H]; [done|].
  set (ts1 := t' :: ts) in *. set (us1 := u' :: us) in *.
  change (array_body true (t :: ts1)) with (t ++ [44] ++ [32] ++ array_body true ts1).
  change (array_body false (u :: us1)) with (u ++ [44] ++ [] ++ array_body false us1).
  repeat apply minifies_app; try done; minify_plain.
Qed.

Lemma minifies_object d1 d2 ts us :
  Forall2 (fun p q => minifies p.1 q.1 /\ minifies p.2 q.2) ts us ->
  minifies (object_out true d1 ts) (object_out false d2 us).
Proof.
  intros H. assert (minifies (object_body true (d1 + 1) ts) (object_body false (d2 + 1) us)) as Hb.
  { induction H as [|[n v] [n' v'] ts us [Hn Hv] H IH]; [apply minifies_nil|]. cbn [fst snd] in *.
    cbn [object_body fmt_text]. repeat apply minifies_app; try done; try minify_plain; [apply minifies_tabs|].
    destruct H; minify_plain. }
  destruct H as [|p q ts us Hp H]; cbn [object_out fmt_text].
  - change ([123] ++ [] ++ [125]) with ([123] ++ ([] ++ []) ++ [125]).
    repeat apply minifies_app; first [apply minifies_tabs | minify_plain].
  - change ([123] ++ [] ++ object_body false (d2 + 1) (q :: us) ++ [] ++ [125])
      with ([123] ++ [] ++ object_body false (d2 + 1) (q :: us) ++ [] ++ [125]).
    repeat apply minifies_app; first [done | apply minifies_tabs | minify_plain].
Qed.

Lemma minifies_render it d1 d2 : printable it -> minifies (render true it d1) (render false it d2).
Proof.
  revert d1 d2. induction it as [it IH] using item_tree_ind. intros d1 d2 H.
  assert (Forall printable (child it) ->
    Forall (fun c => minifies (render true c (d1 + 1)) (render false c (d2 + 1))) (child it)) as Hch.
  { intros Hc. rewrite Forall_forall in IH, Hc |- *. intros c Hin. by apply IH; [|apply Hc]. }
  destruct H as [it Hk|it Hk Hi|it s Hk Hv Hs|it Hk Hc|it Hk Hc Hn].
  - destruct Hk as [Hk|[Hk|Hk]]; by_kind Hk; minify_plain.
  - by_kind Hk. apply minifies_kept, number_kept.
  - by_kind Hk. rewrite Hv. by apply minifies_string.
  - by_kind Hk. apply minifies_array. specialize (Hch Hc). clear -Hch.
    induction Hch; cbn [map]; constructor; done.
  - by_kind Hk. apply minifies_object. specialize (Hch Hc). clear -Hch Hn.
    induction Hch as [|c l Hc Hl IHl]; [constructor|]. apply Forall_cons in Hn as [(n & En & Hn) Hnl]. cbn [map].
    constructor; [|by apply IHl]. split; [|done]. cbn [fst]. rewrite En. by apply minifies_string.
Qed.

(** C33. Minifying what cJSON_Print made gives what cJSON_PrintUnformatted makes, for every document
    of which both are made, whatever its numbers and the allocator. *)
Theorem json_minify_print it h h' text short h1 h2 :
  printable it ->
  cJSON_Print it h = Ok (Some text, h1) -> cJSON_PrintUnformatted it h' = Ok (Some short, h2) ->
  cJSON_Minify text = Ok short.
Proof.
  intros Hp E1 E2.
  destruct (wp_Ok _ _ _ _ _ (print_value_makes True true it 0 ltac:(lia) (or_introl I) Hp h) E1) as (_ & [[[= ->] _]|[[=] _]] & _).
  destruct (wp_Ok _ _ _ _ _ (print_value_makes True false it 0 ltac:(lia) (or_introl I) Hp h') E2) as (_ & [[[= ->] _]|[[=] _]] & _).
  pose proof (minifies_render it 0 0 Hp []) as Hm. rewrite app_nil_r in Hm. rewrite Hm. cbn. by rewrite app_nil_r.
Qed.

(** ** Witnesses *)

Definition json_number (z : Z) : item := set_type cJSON_Number (set_number z (dofZ z) blank).
Definition json_string (s : list Z) : item := set_type cJSON_String (set_valuestring (Some s) blank).
Definition json_array (l : list item) : item := set_type cJSON_Array (set_child l blank).
Definition json_object (l : list (list Z * item)) : item :=
  set_type cJSON_Object (set_child (map (fun p => set_name (Some p.1) p.2) l) blank).

(** An object with an array, a string with a line feed and an empty object. *)
Definition sample_doc : item :=
  json_object [(str "list", json_array [json_number 1; json_number (-20); set_type cJSON_True blank]);
               (str "text", json_string [65; 10; 34]); (str "none", json_object [])].

Definition sample_heap : heap := Heap [] 0 None.

Lemma sample_named n it : cstr_ok n -> named (set_name (Some n) it).
Proof. intros Hn. by exists n. Qed.

Lemma sample_canonical : canonical sample_doc.
Proof.
  assert (forall n z, INT_MIN <= z <= INT_MAX -> canonical (set_name n (json_number z))) as Hnum.
  { intros n z Hz. by apply document_number. }
  apply document_object; [reflexivity|..];
    cbn [sample_doc json_object set_type set_child child map fst snd blank type];
    repeat (apply Forall_cons_2 || apply Forall_nil_2); try (apply sample_named; repeat constructor; lia).
  - apply document_array; [reflexivity|]. cbn [json_array set_type set_child set_name child blank].
    repeat (apply Forall_cons_2 || apply Forall_nil_2);
      [apply (Hnum None 1)|apply (Hnum None (-20))|apply document_literal; by right; right]; unfold INT_MIN, INT_MAX; lia.
  - eapply document_string; [reflexivity..|]. repeat constructor; lia.
  - apply document_object; [reflexivity|apply Forall_nil_2..].
Qed.

Lemma sample_short fmt : ~ too_long (render fmt sample_doc 0).
Proof. unfold too_long. destruct fmt; vm_compute; discriminate. Qed.

(** Two numbers that are not ints. *)
Definition number_doc : item :=
  json_array [set_type cJSON_Number (set_number 0 (dratio false 1 (10 ^ 10)) blank); set_type cJSON_Number (set_number 2 (dratio false 5 2) blank)].

Lemma number_doc_readable : readable number_doc.
Proof.
  apply document_array; [reflexivity|]. cbn [number_doc json_array set_type set_child child blank].
  repeat (apply Forall_cons_2 || apply Forall_nil_2); (apply document_number; [reflexivity|]);
    (split; [split; [split; vm_compute; discriminate|vm_compute; reflexivity]|vm_compute; exact I]).
Qed.

Example number_doc_text : render false number_doc 0 = str "[1.000000e-10,2.500000]".
Proof. vm_compute. reflexivity. Qed.


Lemma json_print_parse_witness :
  exists text h1 h2, print_value true sample_doc 0 sample_heap = Ok (Some text, h1) /\ (length text > 40)%nat /\
    cJSON_Parse text h1 = Ok (Some (norm sample_doc), h2).
Proof.
  destruct (json_print_parse true sample_doc sample_heap (canonical_readable _ sample_canonical) eq_refl (sample_short true))
    as (text & h1 & h2 & E & _ & Ep & _).
  exists text, h1, h2. split; [exact E|]. split; [|exact Ep].
  assert (text = render true sample_doc 0) as ->.
  { vm_compute in E. injection E as <- _. vm_compute. reflexivity. }
  vm_compute. lia.
Defined.

Lemma json_minify_print_witness :
  cJSON_Minify (render true number_doc 0) = Ok (render false number_doc 0).
Proof.
  apply (json_minify_print number_doc sample_heap sample_heap _ _ (Heap [] 1 None) (Heap [] 1 None)).
  - exact (readable_printable _ number_doc_readable).
  - vm_compute. reflexivity.
  - vm_compute. reflexivity.
Defined.
