(* ===== verification/JsonParse.v ===== *)
(** cJSON.c, the parser on any text: it ends, it leaves no block behind when it
    fails, the only accesses outside the text or a block are those that an
    escape sequence cut short causes, and the only signed overflows those of an exponent of ten
    digits and more and of a length above INT_MAX. *)

From Stdlib Require Import Floats.SpecFloat.
From S2P Require Import Prelude CLib CFloat Json JsonText.

Open Scope c_scope.
Open Scope Z_scope.

(** ** What is left is a suffix of the text *)

Lemma span_rest p s : (span p s).2 `suffix_of` s.
Proof. destruct (span p s) as [m r] eqn:E. apply span_app in E as [-> _]. by exists m. Qed.

Lemma skip_suffix s : skip s `suffix_of` s.
Proof. apply span_rest. Qed.

Lemma tl_suffix (s : list Z) : tl s `suffix_of` s.
Proof. destruct s; [done|]. by apply suffix_cons_r. Qed.

#[local] Hint Resolve span_rest skip_suffix tl_suffix suffix_drop : core.

Lemma suffix_if (b : bool) (x y s : list Z) : x `suffix_of` s -> y `suffix_of` s -> (if b then x else y) `suffix_of` s.
Proof. by destruct b. Qed.

(** An exponent of ten digits or more somewhere in the text. *)
Definition long_exponent (s : list Z) : Prop :=
  exists a c g ds r, s = a ++ c :: g ++ ds ++ r /\ (c = 101 \/ c = 69) /\ (g = [] \/ g = [43] \/ g = [45]) /\
    Forall (fun c => isdigit c = true) ds /\ 10 <= zlen ds.

Lemma long_exponent_suffix s t : long_exponent s -> s `suffix_of` t -> long_exponent t.
Proof. intros (a & c & g & ds & r & -> & H) [k ->]. exists (k ++ a), c, g, ds, r. by rewrite <- app_assoc. Qed.

(** Nine digits do not overflow an int. *)
Lemma read_subscale_cases ds :
  Forall (fun c => isdigit c = true) ds -> (exists n, read_subscale 0 ds = Ok n) \/ read_subscale 0 ds = Ub IntOverflow /\ 10 <= zlen ds.
Proof.
  intros Hd. destruct (decide (zlen ds <= 9)) as [Hl|Hl].
  - left. apply read_subscale_ok; [done|lia|].
    assert (10 ^ zlen ds <= 10 ^ 9) by (apply Z.pow_le_mono_r; lia). lia.
  - assert (forall n e, read_subscale n ds = Ub e -> e = IntOverflow) as He.
    { clear. induction ds as [|c ds IH]; intros m e; cbn [read_subscale]; [done|]. unfold add_subscale.
      destruct (as_int_cases (m * 10)) as [[-> _]|[-> _]]; cbn [res_bind]; [|by intros [= <-]].
      destruct (as_int_cases (m * 10 + (c - 48))) as [[-> _]|[-> _]]; cbn [res_bind]; [apply IH|by intros [= <-]]. }
    destruct (read_subscale 0 ds) as [n|e] eqn:E; [left; eauto|right]. split; [f_equal; by eapply He|lia].
Qed.

Lemma exponent_cases s (sg : Z) g :
  (g = [] \/ g = [43] \/ g = [45]) -> forall c, c = 101 \/ c = 69 ->
  match (let (ds, r) := span isdigit s in let! n := read_subscale 0 ds in Ok (n * sg, r)) with
  | Ok (_, r) => r `suffix_of` s
  | Ub e => e = IntOverflow /\ long_exponent (c :: g ++ s)
  end.
Proof.
  intros Hg c Hc. pose proof (span_rest isdigit s) as Hr. destruct (span isdigit s) as [ds r] eqn:E.
  apply span_app in E as [-> Hd]. destruct (read_subscale_cases ds Hd) as [[n ->]|[-> Hl]]; cbn [res_bind]; [exact Hr|].
  split; [done|]. exists [], c, g, ds, r. done.
Qed.

Lemma parse_magnitude_rest it sg s :
  match parse_magnitude it sg s with
  | Ok (_, r) => r `suffix_of` s
  | Ub e => e = IntOverflow /\ long_exponent s
  end.
Proof.
  unfold parse_magnitude. set (s1 := if peek s =? 48 then tl s else s).
  assert (s1 `suffix_of` s) as H1 by (apply suffix_if; auto).
  pose proof (span_rest isdigit s1) as H2. destruct (span isdigit s1) as [ds1 r1] eqn:E1. cbn [snd] in H2.
  set (p2 := if is_digit19 _ then (_, r1) else (_, s1)).
  assert (p2.2 `suffix_of` s) as H3 by (unfold p2; destruct (is_digit19 _); cbn; [by etransitivity|done]).
  destruct p2 as [n s2]. cbn [snd] in H3.
  pose proof (span_rest isdigit (tl s2)) as H4. pose proof (tl_suffix s2) as H4'. destruct (span isdigit (tl s2)) as [ds2 r2]. cbn [snd] in H4.
  set (p3 := if _ && _ then (_, _, r2) else (n, 0, s2)).
  assert (p3.2 `suffix_of` s) as H5.
  { unfold p3; destruct (_ && _); cbn; [|done]. etransitivity; [exact H4|]. by etransitivity. }
  destruct p3 as [[n' sc] s3]. cbn [snd] in H5.
  assert (match (if (peek s3 =? 101) || (peek s3 =? 69) then
      (let s := tl s3 in
       let (sg, s) := if peek s =? 43 then (1, tl s) else if peek s =? 45 then (-1, tl s) else (1, s) in
       let (ds, r) := span isdigit s in let! subscale := read_subscale 0 ds in Ok (subscale * sg, r))
    else Ok (0, s3)) with Ok (_, r) => r `suffix_of` s | Ub e => e = IntOverflow /\ long_exponent s end) as H6.
  { destruct ((peek s3 =? 101) || (peek s3 =? 69)) eqn:Ee; [|done].
    destruct s3 as [|c s3]; [done|]. cbn [peek hd tl] in *.
    assert (c = 101 \/ c = 69) as Hc by (apply orb_true_iff in Ee as [?%Z.eqb_eq|?%Z.eqb_eq]; auto).
    assert (forall t g, (g = [] \/ g = [43] \/ g = [45]) -> s3 = g ++ t -> forall k,
      match (let (ds, r) := span isdigit t in let! n := read_subscale 0 ds in Ok (n * k, r)) with
      | Ok (_, r) => r `suffix_of` s | Ub e => e = IntOverflow /\ long_exponent s end) as Ht.
    { intros t g Hg -> k. pose proof (exponent_cases t k g Hg c Hc) as H.
      destruct (let (ds, r) := span isdigit t in let! n := read_subscale 0 ds in Ok (n * k, r)) as [[? r]|]; [|destruct H; split; [done|by eapply long_exponent_suffix]].
      etransitivity; [exact H|]. etransitivity; [|exact H5]. by exists (c :: g). }
    cbn zeta. destruct (Z.eqb_spec (peek s3) 43) as [E|]; [|destruct (Z.eqb_spec (peek s3) 45) as [E|]].
    - apply (Ht (tl s3) [43]); [auto|]. destruct s3; [done|]. cbn in E. by subst.
    - apply (Ht (tl s3) [45]); [auto|]. destruct s3; [done|]. cbn in E. by subst.
    - by apply (Ht s3 []); auto. }
  destruct (if (peek s3 =? 101) || (peek s3 =? 69) then _ else _) as [[e s4]|]; exact H6.
Qed.

Lemma parse_number_rest it s :
  match parse_number it s with
  | Ok (_, r) => r `suffix_of` s
  | Ub e => e = IntOverflow /\ long_exponent s
  end.
Proof.
  unfold parse_number. destruct (_ =? _); [|apply parse_magnitude_rest].
  pose proof (parse_magnitude_rest it (dofZ (-1)) (tl s)) as H. destruct (parse_magnitude _ _ _) as [[? r]|].
  - etransitivity; [exact H|apply tl_suffix].
  - destruct H. split; [done|]. eapply long_exponent_suffix; [done|apply tl_suffix].
Qed.

Lemma advance_Ok n s r : advance n s = Ok r -> r `suffix_of` s.
Proof. unfold advance. destruct (_ <=? _)%nat; [|done]. intros [= <-]. apply suffix_drop. Qed.

(** ** The string loops *)

Lemma advance_Ub n s e : advance n s = Ub e -> e = OobRead.
Proof. unfold advance. destruct (_ <=? _)%nat; congruence. Qed.

Lemma advance_outcome n s (w : list Z) :
  match (let! r := advance n s in Ok (w, r)) with Ok (_, r) => r `suffix_of` s | Ub e => e = OobRead end.
Proof.
  destruct (advance n s) eqn:E; cbn; [by apply advance_Ok in E|by apply advance_Ub in E].
Qed.

Lemma unescape_u_outcome s :
  match unescape_u s with Ok (_, r) => r `suffix_of` s | Ub e => e = OobRead end.
Proof.
  unfold unescape_u.
  repeat match goal with |- context [if ?b then _ else _] => destruct b end; try apply advance_outcome.
  all: destruct (advance 10 s) eqn:E; cbn; [by apply advance_Ok in E|by apply advance_Ub in E].
Qed.

(** A failure needs an escape sequence. *)
Lemma unescape_outcome fuel s :
  (length s < fuel)%nat ->
  match unescape fuel s with Ok (_, r) => r `suffix_of` s | Ub e => e = OobRead /\ 92 ∈ s end.
Proof.
  revert s. induction fuel as [|fuel IH]; intros s Hf; [lia|]. cbn [unescape].
  destruct s as [|c s]; [done|]. cbn [length] in Hf.
  destruct (c =? 34); [done|].
  assert (forall s' (w0 : list Z), s' `suffix_of` s -> (92 ∈ s' -> 92 ∈ c :: s) ->
    match (let! (out, r) := unescape fuel s' in Ok (w0 ++ out, r)) with
    | Ok (_, r) => r `suffix_of` c :: s | Ub e => e = OobRead /\ 92 ∈ c :: s end) as Hrec.
  { intros s' w0 Hs' Hin. pose proof (suffix_length _ _ Hs'). specialize (IH s' ltac:(lia)).
    destruct (unescape fuel s') as [[out r']|]; cbn; [apply suffix_cons_r; by etransitivity|naive_solver]. }
  destruct (Z.eqb_spec c 92) as [->|]; cbn [negb]; [|apply (Hrec s [c]); [done|by right]].
  assert (92 ∈ 92 :: s) as Hin by left.
  destruct s as [|e s]; [done|].
  destruct (e =? 117); [|apply (Hrec s [_]); [by apply suffix_cons_r|done]].
  pose proof (unescape_u_outcome s) as Hu. destruct (unescape_u s) as [[w0 s']|]; cbn [res_bind]; [|done].
  apply Hrec; [by apply suffix_cons_r|done].
Qed.

(** A length that is no int needs a text of more than INT_MAX bytes. *)
Lemma string_len_outcome s n :
  0 <= n ->
  match string_len s n with
  | Ok len => n <= len <= n + zlen s
  | Ub e => e = OobRead /\ 92 ∈ s \/ e = IntOverflow /\ INT_MAX < n + zlen s
  end.
Proof.
  revert n. induction s as [s IH] using (induction_ltof1 _ (@length Z)). unfold ltof in IH. intros n Hn.
  destruct s as [|c s]; [cbn; rewrite zlen_nil; lia|]. cbn [string_len]. rewrite zlen_cons. pose proof (zlen_nonneg s).
  destruct (c =? 34); [lia|]. assert (INT_MIN <= 0) by done.
  destruct (as_int_cases (n + 1)) as [[-> _]|[-> Ho]]; cbn [res_bind]; [|right; split; [done|lia]].
  destruct (Z.eqb_spec c 92) as [->|].
  - destruct s as [|x s]; [left; split; [done|by left]|]. rewrite zlen_cons in *. specialize (IH s ltac:(cbn; lia) (n + 1) ltac:(lia)).
    destruct (string_len s (n + 1)); [lia|]. destruct IH as [[-> _]|[-> ?]]; [left; split; [done|by left]|right; split; [done|lia]].
  - specialize (IH s ltac:(cbn; lia) (n + 1) ltac:(lia)). destruct (string_len s (n + 1)); [lia|].
    destruct IH as [[-> ?]|[-> ?]]; [left; split; [done|by right]|right; split; [done|lia]].
Qed.

(** Without an escape sequence the two loops see the same characters. *)
Lemma plain_string s fuel n len :
  92 ∉ s -> (length s < fuel)%nat -> string_len s n = Ok len ->
  exists out r, unescape fuel s = Ok (out, r) /\ len = n + zlen out.
Proof.
  revert n fuel. induction s as [|c s IH]; intros n [|fuel] Hs Hf; cbn [length] in Hf; try lia.
  { intros [= <-]. exists [], []. rewrite zlen_nil, Z.add_0_r. done. }
  cbn [unescape string_len]. destruct (c =? 34).
  { intros [= <-]. exists [], (c :: s). rewrite zlen_nil, Z.add_0_r. done. }
  apply not_elem_of_cons in Hs as [Hc Hs]. rewrite (proj2 (Z.eqb_neq c 92)) by done. cbn [negb].
  destruct (as_int_cases (n + 1)) as [[-> _]|[-> _]]; cbn [res_bind]; [|done].
  intros El. destruct (IH (n + 1) fuel Hs ltac:(lia) El) as (out & r & -> & ->). exists (c :: out), r. rewrite zlen_cons.
  split; [done|]. lia.
Qed.

(** ** What a call leaves allocated *)

(** No flag is set, as in every item the parser makes. *)
Definition plain (it : item) : Prop :=
  flag (type it) cJSON_IsReference = false /\ flag (type it) cJSON_StringIsConst = false.

Definition fresh (it : item) : Prop := plain it /\ child it = [] /\ valuestring it = None.

Lemma blocks_plain it :
  plain it -> blocks it = blocks_list (child it) + owned (valuestring it) + owned (name it) + 1.
Proof. destruct it as [l ty v n d nm]. intros [H1 H2]. cbn in *. by rewrite H1, H2. Qed.

(** What undefined behaviour needs in the text. *)
Definition explained (e : ub) (s : list Z) : Prop :=
  92 ∈ s /\ (e = OobRead \/ e = OobWrite) \/ e = IntOverflow /\ (long_exponent s \/ INT_MAX <= zlen s).

Lemma explained_suffix e s t : explained e s -> s `suffix_of` t -> explained e t.
Proof.
  intros He Hs. pose proof (suffix_length _ _ Hs) as Hl. destruct He as [[Hin ?]|[-> [H|H]]].
  - left. split; [|done]. destruct Hs as [k ->]. apply elem_of_app. by right.
  - right. split; [done|left]. by eapply long_exponent_suffix.
  - right. split; [done|right]. unfold zlen in *. lia.
Qed.

(** A call on the text [s] from the heap [h]: [made] counts the blocks that what
    it returns owns and that it allocated. *)
Definition outcome {A} (made : A -> Z) (ok : A -> Prop) (s : list Z) (h : heap)
    (m : res (A * option (list Z) * heap)) : Prop :=
  match m with
  | Ok (a, r, h') => live h' = live h + made a /\ ok a /\ forall r', r = Some r' -> r' `suffix_of` s
  | Ub e => explained e s
  end.

Definition made_by (it : item) (it' : item) : Z := blocks it' - blocks it.

Lemma fail_at_outcome {A} (made : A -> Z) ok (a : A) p s h :
  made a = 0 -> ok a -> outcome made ok s h (fail_at a p h).
Proof. intros Hm Ho. unfold fail_at, mbind, ST_bind, mret, ST_ret, set_ep. cbn. split_and!; [lia|done|done]. Qed.

Lemma parse_string_outcome it s h :
  fresh it -> outcome (made_by it) (fun it' => plain it' /\ child it' = [] /\ name it' = name it) s h (parse_string it s h).
Proof.
  intros ([P1 P2] & Hc & Hv). unfold parse_string. destruct (negb (peek s =? 34)).
  { apply fail_at_outcome; [unfold made_by; lia|done]. }
  unfold mbind, ST_bind, mret, ST_ret, lift. destruct s as [|c s]; [cbn [tl]|cbn [tl]].
  { cbn [string_len res_bind]. change (as_int (0 + 1)) with (Ok 1 : res Z). cbn [res_bind]. unfold cJSON_malloc. destruct (alloc (oracle h)) as [[|] o]; cbn [res_bind negb].
    - cbn. unfold made_by. split_and!; [|done|done|done|by intros r [= <-]].
      rewrite !blocks_plain by done. cbn. rewrite Hc, Hv. cbn. lia.
    - cbn. unfold made_by. split_and!; [lia|done..]. }
  pose proof (string_len_outcome s 0 ltac:(lia)) as H1. destruct (string_len s 0) as [len|e] eqn:E1; cbn [res_bind].
  2: { cbn. destruct H1 as [[-> ?]|[-> ?]]; [left; split; [by right|by left]|right; split; [done|right; rewrite zlen_cons; lia]]. }
  destruct (as_int_cases (len + 1)) as [[-> _]|[-> Hover]]; cbn [res_bind].
  2: { right. split; [done|right]. rewrite zlen_cons. assert (INT_MIN <= 0) by done. lia. }
  unfold cJSON_malloc. destruct (alloc (oracle h)) as [[|] o]; cbn [res_bind negb].
  2: { cbn. unfold made_by. split_and!; [lia|done..]. }
  pose proof (unescape_outcome (S (length (c :: s))) s ltac:(cbn; lia)) as H2.
  destruct (unescape (S (length (c :: s))) s) as [[out r]|e] eqn:E2; cbn [res_bind].
  2: { cbn. destruct H2. left. split; [by right|by left]. }
  destruct (Z.leb_spec (zlen out) len).
  - cbn. unfold made_by. split_and!; [|done|done|done|].
    + rewrite !blocks_plain by done. cbn. rewrite Hc, Hv. cbn. lia.
    + intros r' [= <-]. apply suffix_if; [etransitivity; [apply tl_suffix|]|]; by apply suffix_cons_r.
  - cbn. left. split; [|by right]. right. destruct (decide (92 ∈ s)) as [|Hn]; [done|exfalso].
    destruct (plain_string s (S (length (c :: s))) 0 len Hn ltac:(cbn; lia) E1) as (out' & r' & F2 & ->).
    rewrite F2 in E2. simplify_eq. lia.
Qed.

(** [outcome] through a bind: the rest runs from the heap the first call leaves. *)
Lemma outcome_bind {A B} madeA (okA : A -> Prop) (made : B -> Z) ok s1 s h
    (m : res (A * option (list Z) * heap)) (k : A * option (list Z) -> heap -> res (B * option (list Z) * heap)) :
  outcome madeA okA s1 h m -> s1 `suffix_of` s ->
  (forall a r h', live h' = live h + madeA a -> okA a ->
     (forall r', r = Some r' -> r' `suffix_of` s) -> outcome made ok s h (k (a, r) h')) ->
  outcome made ok s h (res_bind m (fun '(a, h') => k a h')).
Proof.
  intros Hm Hs Hk. destruct m as [[[a r] h']|e]; cbn in *.
  - destruct Hm as (H1 & H2 & H3). apply Hk; [done..|]. intros r' Hr. etransitivity; [by apply H3|done].
  - by eapply explained_suffix.
Qed.

(** A tail call on what is left. *)
Lemma outcome_weaken {A} (made made' : A -> Z) (ok ok' : A -> Prop) s1 s h h1 m :
  outcome made ok s1 h1 m -> s1 `suffix_of` s -> (forall a, ok a -> ok' a /\ live h1 + made a = live h + made' a) ->
  outcome made' ok' s h m.
Proof.
  intros Hm Hs Hk. destruct m as [[[a r] h']|e]; cbn in *.
  - destruct Hm as (H1 & H2 & H3). destruct (Hk a H2). split_and!; [lia|done|].
    intros r' Hr. etransitivity; [by apply H3|done].
  - by eapply explained_suffix.
Qed.

Lemma new_item_cases h :
  exists h', live h' = live h + 1 /\ cJSON_New_Item h = Ok (Some blank, h') \/
             live h' = live h /\ cJSON_New_Item h = Ok (None, h').
Proof.
  unfold cJSON_New_Item, mbind, ST_bind, mret, ST_ret, cJSON_malloc.
  destruct (alloc (oracle h)) as [[|] o]; cbn; eexists; [left|right]; (split; [|reflexivity]); done.
Qed.

Lemma blocks_node it l ty :
  fresh it -> flag ty cJSON_IsReference = false -> flag ty cJSON_StringIsConst = false ->
  made_by it (set_child l (set_type ty it)) = blocks_list l /\ plain (set_child l (set_type ty it)).
Proof.
  intros (Hp & Hc & Hv) H1 H2. assert (plain (set_child l (set_type ty it))) as Hp' by done.
  split; [|done]. unfold made_by. rewrite (blocks_plain _ Hp), (blocks_plain _ Hp'). cbn. rewrite Hc, Hv. cbn. fold (blocks_list l). lia.
Qed.

Lemma blocks_leaf it it' :
  fresh it -> plain it' -> child it' = [] -> valuestring it' = None -> name it' = name it -> made_by it it' = 0.
Proof.
  intros (Hp & Hc & Hv) Hp' Hc' Hv' Hn. unfold made_by. rewrite (blocks_plain _ Hp), (blocks_plain _ Hp').
  rewrite Hc, Hv, Hc', Hv', Hn. lia.
Qed.

Lemma made_blank c : made_by blank c = blocks c - 1.
Proof. reflexivity. Qed.

Definition value_ok (it it' : item) : Prop := plain it' /\ name it' = name it.

(** The fuel each function needs on a text. *)
Definition value_outcome (fuel : nat) : Prop := forall it s h,
  fresh it -> (4 * length s + 4 <= fuel)%nat -> outcome (made_by it) (value_ok it) s h (parse_value fuel it s h).
Definition list_outcome (fuel : nat) : Prop := forall s h,
  (4 * length s + 6 <= fuel)%nat ->
  outcome blocks_list (fun _ => True) s h (parse_elements fuel s h) /\
  outcome blocks_list (fun _ => True) s h (parse_members fuel s h).
Definition node_outcome (fuel : nat) : Prop := forall it s h,
  fresh it -> s <> [] -> (4 * length s + 3 <= fuel)%nat ->
  outcome (made_by it) (value_ok it) s h (parse_array fuel it s h) /\
  outcome (made_by it) (value_ok it) s h (parse_object fuel it s h).

Lemma value_step fuel : node_outcome fuel -> value_outcome (S fuel).
Proof.
  intros Hn it s h Hf Hl. pose proof Hf as (Hp & Hc & Hv). cbn [parse_value].
  assert (forall it' n, plain it' -> child it' = [] -> valuestring it' = None -> name it' = name it ->
    outcome (made_by it) (value_ok it) s h (Ok ((it', Some (drop n s)), h))) as Hleaf.
  { intros it' n ? ? ? ?. cbn. rewrite blocks_leaf by done. split_and!; [lia|by split|]. intros r [= <-]. auto. }
  destruct (is_prefix (str "null") s); [by apply Hleaf|].
  destruct (is_prefix (str "false") s); [by apply Hleaf|].
  destruct (is_prefix (str "true") s); [by apply Hleaf|].
  destruct (peek s =? 34).
  { eapply outcome_weaken; [by apply parse_string_outcome|done|]. by intros a (? & ? & ?). }
  destruct ((peek s =? 45) || isdigit (peek s)).
  { pose proof (parse_number_rest it s) as Hr. unfold mbind, ST_bind, mret, ST_ret, lift.
    assert (match parse_number it s with Ok (it', _) => it' = set_type cJSON_Number (set_number (valueint it') (valuedouble it') it) | Ub _ => True end) as E.
    { unfold parse_number. destruct (_ =? _); unfold parse_magnitude;
        repeat match goal with |- context [let '(_, _) := ?x in _] => destruct x end;
        match goal with |- context [res_bind ?m _] => destruct m as [[? ?]|] end; done. }
    destruct (parse_number it s) as [[it' r]|]; cbn [res_bind outcome].
    - rewrite blocks_leaf by (done || by rewrite E). split_and!; [lia|by rewrite E|]. by intros r' [= <-].
    - right. destruct Hr. auto. }
  destruct (Z.eqb_spec (peek s) 91) as [E|]; [apply Hn; [done|by intros ->|lia]|].
  destruct (Z.eqb_spec (peek s) 123) as [E|]; [apply Hn; [done|by intros ->|lia]|].
  apply fail_at_outcome; [unfold made_by; lia|done].
Qed.

(** The end of an array or an object. *)
Lemma node_rest it ty close l r s h h' :
  fresh it -> flag ty cJSON_IsReference = false -> flag ty cJSON_StringIsConst = false ->
  live h' = live h + blocks_list l -> (forall r', r = Some r' -> r' `suffix_of` s) ->
  outcome (made_by it) (value_ok it) s h
    ((let it := set_child l (set_type ty it) in
      match r with
      | None => mret (it, None)
      | Some r => if peek r =? close then mret (it, Some (tl r)) else fail_at it r
      end : M _) h').
Proof.
  intros Hf H1 H2 Hlive Hr. destruct (blocks_node it l ty Hf H1 H2) as [Hb Hp]. cbn zeta.
  destruct r as [r|]; [|cbn; split_and!; [lia|by split|done]]. destruct (_ =? _).
  - cbn. split_and!; [lia|by split|]. intros r' [= <-]. etransitivity; [apply tl_suffix|by apply Hr].
  - eapply outcome_weaken with (h1 := h');
      [by apply (fail_at_outcome (fun _ => 0) (eq (set_child l (set_type ty it))))|done|].
    intros ? <-. split; [by split|lia].
Qed.

Lemma node_step fuel : list_outcome fuel -> node_outcome (S fuel).
Proof.
  intros Hl it s h Hf Hne Hlen.
  assert (skip (tl s) `suffix_of` s) as Hsk by (etransitivity; [apply skip_suffix|apply tl_suffix]).
  assert (length (skip (tl s)) < length s)%nat as Hlt.
  { pose proof (suffix_length _ _ (skip_suffix (tl s))). destruct s; [done|]. cbn in *. lia. }
  destruct (Hl (skip (tl s)) h ltac:(lia)) as [He Hm].
  assert (forall ty, flag ty cJSON_IsReference = false -> flag ty cJSON_StringIsConst = false ->
    outcome (made_by it) (value_ok it) s h (Ok (set_type ty it, Some (tl (skip (tl s))), h))) as Hempty.
  { intros ty H1 H2. pose proof Hf as (? & Hc & Hv). cbn. rewrite blocks_leaf by done. split_and!; [lia|by split|].
    intros r [= <-]. etransitivity; [apply tl_suffix|done]. }
  split; cbn [parse_array parse_object]; unfold mbind, ST_bind, mret, ST_ret; (destruct (_ =? _); [by apply Hempty|]).
  - eapply outcome_bind; [exact He|done|]. intros l r h' Hlive _ Hr. by apply node_rest.
  - eapply outcome_bind; [exact Hm|done|]. intros l r h' Hlive _ Hr. by apply node_rest.
Qed.

(** After one entry [v]: the other entries as long as a comma comes.  The heap had [h] with the
    item of [v] in it, empty. *)
Lemma entries_tail fuel (next : list Z -> M (list item * option (list Z))) s h h' it v r :
  (forall t h, (4 * length t + 6 <= fuel)%nat -> outcome blocks_list (fun _ => True) t h (next t h)) ->
  (4 * length s + 6 <= S fuel)%nat -> live h' = live h + made_by it v -> (forall r', r = Some r' -> r' `suffix_of` s) ->
  outcome (fun l => blocks_list l - blocks it) (fun _ => True) s h
    ((match skip_opt r with
      | None => mret ([v], None)
      | Some r => if peek r =? 44 then '(l, r) ← next (tl r); mret (v :: l, r) else mret ([v], Some r)
      end : M _) h').
Proof.
  intros Hnext Hlen Hlive Hr. unfold made_by in Hlive. destruct r as [r|]; cbn [skip_opt option_map].
  2: { cbn [outcome mret ST_ret]. rewrite blocks_list_cons. change (blocks_list []) with 0. split_and!; [lia|done|done]. }
  assert (skip r `suffix_of` s) as Hsr by (etransitivity; [apply skip_suffix|by apply Hr]).
  destruct (peek (skip r) =? 44) eqn:Ec; unfold mbind, ST_bind, mret, ST_ret.
  2: { cbn [outcome]. rewrite blocks_list_cons. change (blocks_list []) with 0. split_and!; [lia|done|]. by intros r' [= <-]. }
  eapply outcome_weaken with (h1 := h') (made := fun l => blocks_list l - blocks v) (ok := fun _ => True); [|reflexivity|].
  - eapply outcome_bind; [apply Hnext|etransitivity; [apply tl_suffix|done]|].
    + pose proof (suffix_length _ _ Hsr). destruct (skip r); [done|]. cbn in *. lia.
    + intros l r' h2 H2 _ Hr'. cbn [outcome]. rewrite blocks_list_cons. split_and!; [lia|done|done].
  - intros l _. split; [done|]. lia.
Qed.

Lemma elements_step fuel : value_outcome fuel -> list_outcome fuel -> forall s h, (4 * length s + 6 <= S fuel)%nat ->
  outcome blocks_list (fun _ => True) s h (parse_elements (S fuel) s h).
Proof.
  intros Hv Hl s h Hlen. pose proof (suffix_length _ _ (skip_suffix s)) as Hsl.
  cbn [parse_elements]. unfold mbind at 1, ST_bind at 1. destruct (new_item_cases h) as (h1 & [[H1 ->]|[H1 ->]]); cbn [res_bind].
  2: { cbn. split_and!; [lia|done|done]. }
  eapply outcome_weaken with (h1 := h1) (made := fun l => blocks_list l - 1) (ok := fun _ => True); [|reflexivity|intros a _; split; [done|lia]].
  unfold mbind at 1, ST_bind at 1. eapply outcome_bind; [apply Hv; [done|lia]|apply skip_suffix|].
  intros c r h2 H2 _ Hr. apply (entries_tail fuel (parse_elements fuel) s h1 h2 blank c r); [|done..].
  intros t h0 Ht. by apply Hl.
Qed.

(** The name moves from the value of the new item to its name. *)
Lemma named_fresh c :
  plain c -> child c = [] -> name c = None ->
  let c' := set_valuestring None (set_name (valuestring c) c) in fresh c' /\ blocks c' = blocks c.
Proof.
  intros Hp Hc Hn c'. split; [done|]. assert (plain c') as Hp' by done.
  rewrite (blocks_plain c'), (blocks_plain c) by done. change (child c') with (child c).
  change (valuestring c') with (@None (list Z)). change (name c') with (valuestring c). rewrite Hn. cbn [owned]. lia.
Qed.

Lemma members_step fuel : value_outcome fuel -> list_outcome fuel -> forall s h, (4 * length s + 6 <= S fuel)%nat ->
  outcome blocks_list (fun _ => True) s h (parse_members (S fuel) s h).
Proof.
  intros Hv Hl s h Hlen. pose proof (suffix_length _ _ (skip_suffix s)) as Hsl.
  cbn [parse_members]. unfold mbind at 1, ST_bind at 1. destruct (new_item_cases h) as (h1 & [[H1 ->]|[H1 ->]]); cbn [res_bind].
  2: { cbn. split_and!; [lia|done|done]. }
  eapply outcome_weaken with (h1 := h1) (made := fun l => blocks_list l - 1) (ok := fun _ => True); [|reflexivity|intros a _; split; [done|lia]].
  unfold mbind at 1, ST_bind at 1. eapply outcome_bind; [by apply parse_string_outcome|apply skip_suffix|].
  intros c r h2 H2 (Hp & Hc & Hn) Hr. destruct (named_fresh c Hp Hc Hn) as [Hf' Hb']. rewrite made_blank in H2.
  destruct r as [r|]; cbn [skip_opt option_map]; [|cbn; split_and!; [lia|exact I|done]].
  set (c' := set_valuestring None _) in *.
  assert (skip (tl (skip r)) `suffix_of` s) as Hv1.
  { etransitivity; [apply skip_suffix|]. etransitivity; [apply tl_suffix|]. etransitivity; [apply skip_suffix|by apply Hr]. }
  pose proof (suffix_length _ _ Hv1). destruct (negb (peek (skip r) =? 58)).
  { eapply outcome_weaken with (h1 := h2); [by apply (fail_at_outcome (fun _ => 0) (eq [c']))|done|].
    intros ? <-. split; [exact I|]. rewrite blocks_list_cons, Hb'. change (blocks_list []) with 0. lia. }
  eapply outcome_weaken with (h1 := h2) (made := fun l => blocks_list l - blocks c') (ok := fun _ => True);
    [|reflexivity|intros l _; split; [done|lia]].
  unfold mbind at 1, ST_bind at 1. eapply outcome_bind; [apply Hv; [done|lia]|done|].
  intros v r2 h3 H3 _ Hr2. apply (entries_tail fuel (parse_members fuel) s h2 h3 c' v r2); [|done..].
  intros t h0 Ht. by apply Hl.
Qed.

Lemma parse_outcome fuel : value_outcome fuel /\ list_outcome fuel /\ node_outcome fuel.
Proof.
  induction fuel as [|fuel (Hv & Hl & Hn)].
  - split_and!; intros ?; intros; lia.
  - split_and!; [by apply value_step| |by apply node_step].
    intros s h Hs. split; [by apply elements_step|by apply members_step].
Qed.

(** C6. Whatever the text and the allocator, parsing it ends; if it succeeds, what is allocated are the
    blocks of the document, and if it fails nothing is left allocated; an access
    outside the text or a block needs a backslash in the text, a signed overflow an exponent of ten
    digits or more or a text of INT_MAX bytes or more, and nothing else goes wrong. *)
Theorem json_parse_outcome value strict h :
  match cJSON_ParseWithOpts value strict h with
  | Ok (Some (c, rest), h') => live h' = live h + blocks c /\ rest `suffix_of` value /\ (strict = true -> rest = [])
  | Ok (None, h') => live h' = live h
  | Ub e => explained e value
  end.
Proof.
  unfold cJSON_ParseWithOpts, mbind, ST_bind, mret, ST_ret, cJSON_Delete, cJSON_free, set_ep.
  destruct (new_item_cases h) as (h1 & [[H1 ->]|[H1 ->]]); cbn [res_bind]; [|done].
  pose proof (skip_suffix value) as Hs. pose proof (suffix_length _ _ Hs).
  destruct (parse_outcome (parse_fuel value)) as (Hv & _).
  specialize (Hv blank (skip value) (Heap (oracle h1) (live h1) None) ltac:(done) ltac:(unfold parse_fuel; lia)).
  destruct (parse_value _ _ _ _) as [[[c [e|]] h2]|err]; cbn in Hv |- *.
  - destruct Hv as (H2 & _ & Hr). specialize (Hr e eq_refl). rewrite made_blank in H2. cbn in H2.
    assert (e `suffix_of` value) as He by (by etransitivity).
    destruct strict; [|cbn; split_and!; [lia|done|done]].
    destruct (skip e) eqn:Ee; cbn; [|lia]. split_and!; [lia|apply suffix_nil|done].
  - destruct Hv as (H2 & _ & _). rewrite made_blank in H2. cbn in *. lia.
  - by eapply explained_suffix.
Qed.

(** The two ways are there: the exponent is added up in an int. *)
Lemma exponent_overflow h : oracle h = [] -> cJSON_Parse (str "1e99999999999") h = Ub IntOverflow.
Proof. destruct h as [o n e]. cbn [oracle]. intros ->. vm_compute. reflexivity. Qed.

(** C37. A string whose first escape is a unicode escape cut short by the closing quote:
    the four digits are skipped without being there, the quote with them, and the
    bytes after it are written behind a block of two bytes. *)
Theorem json_unicode_overflow it t h :
  34 ∉ t -> 92 ∉ t -> 5 <= zlen t -> oracle h = [] ->
  parse_string it ([34; 92; 117; 34] ++ t) h = Ub OobWrite.
Proof.
  intros Hq Hb Hl Ho. unfold zlen in Hl. destruct t as [|a [|b [|c t]]]; cbn [length] in Hl; try lia.
  rewrite !not_elem_of_cons in Hq, Hb.
  unfold parse_string, mbind, ST_bind, mret, ST_ret, lift, cJSON_malloc, alloc. cbn [app peek hd tl].
  change (negb (34 =? 34)) with false. cbn iota.
  change (string_len [92; 117; 34; a; b; c] 0) with (Ok 1 : res Z).
  assert (string_len (92 :: 117 :: 34 :: a :: b :: c :: t) 0 = Ok 1) as -> by reflexivity.
  cbn [res_bind]. change (as_int (1 + 1)) with (Ok 2 : res Z). cbn [res_bind]. rewrite Ho. cbn [res_bind negb].
  assert (forall fuel, unescape (S fuel) (92 :: 117 :: 34 :: a :: b :: c :: t) =
    let! (out, r) := unescape fuel t in Ok (out, r)) as -> by reflexivity.
  cbn [length].
  assert (forall fuel, (length t < fuel)%nat -> unescape fuel t = Ok (t, [])) as Hu.
  { destruct Hq as (_ & _ & _ & Hq), Hb as (_ & _ & _ & Hb). clear -Hq Hb. induction t as [|x t IH]; intros [|fuel] Hf;
      cbn [length] in Hf; try lia; [done|].
    apply not_elem_of_cons in Hq as [Hx Hq], Hb as [Hy Hb]. cbn [unescape].
    rewrite (proj2 (Z.eqb_neq x 34)), (proj2 (Z.eqb_neq x 92)) by done. cbn [negb]. rewrite IH by (done || lia). done. }
  rewrite Hu by lia. cbn [res_bind]. rewrite (proj2 (Z.leb_gt (zlen t) 1)); [done|]. unfold zlen. lia.
Qed.

Definition demo_heap : heap := Heap [] 0 None.

Lemma json_unicode_overflow_witness :
  parse_string blank ([34; 92; 117; 34] ++ str "AAAAA") demo_heap = Ub OobWrite.
Proof.
  apply (json_unicode_overflow blank (str "AAAAA") demo_heap).
  - intros Hin%list_elem_of_In. vm_compute in Hin. intuition discriminate.
  - intros Hin%list_elem_of_In. vm_compute in Hin. intuition discriminate.
  - vm_compute. discriminate.
  - reflexivity.
Defined.
