(* ===== verification/BuildJson.v ===== *)
(** build_json.c: the messages of the protocol, each made as a document, printed and
    copied to the buffer of the caller.  The arrays of
    build_json_set_constant_value are a list of rows. *)

From Stdlib Require Import Floats.SpecFloat.
From S2P Require Import Prelude CLib CFloat Json JsonText.

Open Scope c_scope.
Open Scope Z_scope.

(** The end of every function: cJSON_Print, then memcpy of strlen bytes.  Neither
    the document nor the text is freed. *)
Definition emit (root : option item) (buf : list Z) : M (list Z) :=
  match root with
  | None => fault NullDeref
  | Some root =>
      text ← cJSON_Print root;
      match text with
      | None => fault NullDeref
      | Some t => if zlen t <=? zlen buf then mret (t ++ drop (length t) buf) else fault OobWrite
      end
  end.

Definition bulid_json_app_nitify_host (buf token timestamp serviceid dir filename filetype compress : list Z) : M (list Z) :=
  root ← cJSON_CreateObject;
  root ← cJSON_AddStringToObject root (str "token") token;
  root ← cJSON_AddStringToObject root (str "timestamp") timestamp;
  body ← cJSON_CreateObject;
  body ← cJSON_AddStringToObject body (str "serviceid") serviceid;
  props ← cJSON_CreateObject;
  props ← cJSON_AddStringToObject props (str "Dir") dir;
  props ← cJSON_AddStringToObject props (str "filename") filename;
  props ← cJSON_AddStringToObject props (str "fileType") filetype;
  props ← cJSON_AddStringToObject props (str "compress") compress;
  body ← cJSON_AddItemToObject body (str "serviceProperties") props;
  root ← cJSON_AddItemToObject root (str "body") body;
  emit root buf.

Definition build_json_IOT_notifi_host (buf deviceid serviceid eventTime : list Z) (expire : Z)
    (name addr : list Z) (size : Z) (md5 fileType compress : list Z) : M (list Z) :=
  root ← cJSON_CreateObject;
  root ← cJSON_AddStringToObject root (str "deviceId") deviceid;
  root ← cJSON_AddStringToObject root (str "serviceId") serviceid;
  root ← cJSON_AddStringToObject root (str "eventTime") eventTime;
  root ← cJSON_AddNumberToObject root (str "expire") expire;
  data ← cJSON_CreateObject;
  data ← cJSON_AddStringToObject data (str "name") name;
  data ← cJSON_AddStringToObject data (str "addr") addr;
  data ← cJSON_AddNumberToObject data (str "size") size;
  data ← cJSON_AddStringToObject data (str "md5") md5;
  data ← cJSON_AddStringToObject data (str "fileType") fileType;
  data ← cJSON_AddStringToObject data (str "compress") compress;
  root ← cJSON_AddItemToObject root (str "data") data;
  emit root buf.

Definition build_json_host_to_IOT (buf msg_type : list Z) (mid : Z) (cmd param serviceid deviceid : list Z) : M (list Z) :=
  root ← cJSON_CreateObject;
  root ← cJSON_AddStringToObject root (str "msgType") msg_type;
  root ← cJSON_AddNumberToObject root (str "mid") mid;
  root ← cJSON_AddStringToObject root (str "cmd") cmd;
  paras ← cJSON_CreateObject;
  paras ← cJSON_AddStringToObject paras (str "A_phsC") param;
  root ← cJSON_AddItemToObject root (str "paras") paras;
  root ← cJSON_AddStringToObject root (str "deviceId") deviceid;
  root ← cJSON_AddStringToObject root (str "serviceId") serviceid;
  emit root buf.

Definition build_json_IOT_to_app (buf requestId serviceId method pic_id token timestamp : list Z) : M (list Z) :=
  root ← cJSON_CreateObject;
  body ← cJSON_CreateObject;
  body ← cJSON_AddStringToObject body (str "requestId") requestId;
  body ← cJSON_AddStringToObject body (str "serviceId") serviceId;
  body ← cJSON_AddStringToObject body (str "method") method;
  cmdContent ← cJSON_CreateObject;
  cmdContent ← cJSON_AddStringToObject cmdContent (str "pic_id") pic_id;
  body ← cJSON_AddItemToObject body (str "cmdContent") cmdContent;
  root ← cJSON_AddItemToObject root (str "body") body;
  root ← cJSON_AddStringToObject root (str "token") token;
  root ← cJSON_AddStringToObject root (str "timestamp") timestamp;
  emit root buf.

Definition build_json_app_to_IOT (buf requestId serviceId pic_id token timestamp : list Z) : M (list Z) :=
  root ← cJSON_CreateObject;
  body ← cJSON_CreateObject;
  body ← cJSON_AddStringToObject body (str "requestId") requestId;
  body ← cJSON_AddStringToObject body (str "serviceId") serviceId;
  props ← cJSON_CreateObject;
  props ← cJSON_AddStringToObject props (str "pic_id") pic_id;
  body ← cJSON_AddItemToObject body (str "serviceProperties") props;
  root ← cJSON_AddItemToObject root (str "body") body;
  root ← cJSON_AddStringToObject root (str "token") token;
  root ← cJSON_AddStringToObject root (str "timestamp") timestamp;
  emit root buf.

Definition cloud_edge_platform_to_terminal (buf msg_type : list Z) (mid : Z) (cmd : list Z) (remote_permit : Z)
    (serviceid deviceid : list Z) : M (list Z) :=
  root ← cJSON_CreateObject;
  root ← cJSON_AddStringToObject root (str "msgType") msg_type;
  root ← cJSON_AddNumberToObject root (str "mid") mid;
  root ← cJSON_AddStringToObject root (str "cmd") cmd;
  paras ← cJSON_CreateObject;
  paras ← cJSON_AddNumberToObject paras (str "remote_permit") remote_permit;
  root ← cJSON_AddItemToObject root (str "paras") paras;
  root ← cJSON_AddStringToObject root (str "deviceId") deviceid;
  root ← cJSON_AddStringToObject root (str "serviceId") serviceid;
  emit root buf.

Definition cloud_edge_terminal_to_platform (buf msg_type : list Z) (mid errcode remote_permit : Z) : M (list Z) :=
  root ← cJSON_CreateObject;
  root ← cJSON_AddStringToObject root (str "msgType") msg_type;
  root ← cJSON_AddNumberToObject root (str "mid") mid;
  root ← cJSON_AddNumberToObject root (str "errcode") errcode;
  body ← cJSON_CreateObject;
  body ← cJSON_AddNumberToObject body (str "remote_permit") remote_permit;
  root ← cJSON_AddItemToObject root (str "body") body;
  emit root buf.

Definition build_json_edge_interaction (buf requestid serviceid method : list Z) (remote_permit : Z)
    (token timestamp : list Z) : M (list Z) :=
  root ← cJSON_CreateObject;
  body ← cJSON_CreateObject;
  body ← cJSON_AddStringToObject body (str "requestId") requestid;
  body ← cJSON_AddStringToObject body (str "serviceId") serviceid;
  body ← cJSON_AddStringToObject body (str "method") method;
  cmdContent ← cJSON_CreateObject;
  cmdContent ← cJSON_AddNumberToObject cmdContent (str "remote_permit") remote_permit;
  body ← cJSON_AddItemToObject body (str "cmdContent") cmdContent;
  root ← cJSON_AddItemToObject root (str "body") body;
  root ← cJSON_AddStringToObject root (str "token") token;
  root ← cJSON_AddStringToObject root (str "timestamp") timestamp;
  emit root buf.

(** A row of the arrays of build_json_set_constant_value, up to its NUL. *)
Record setting : Type := Setting { set_nm : list Z; set_val : list Z; set_ty : list Z }.

Fixpoint add_settings (body_inner : option item) (rows : list setting) : M (option item) :=
  match rows with
  | [] => mret body_inner
  | r :: rows =>
      it ← cJSON_CreateObject;
      it ← cJSON_AddStringToObject it (str "name") (set_nm r);
      it ← cJSON_AddStringToObject it (str "val") (set_val r);
      it ← cJSON_AddStringToObject it (str "dataType") (set_ty r);
      body_inner ← cJSON_AddItemToArray body_inner it;
      add_settings body_inner rows
  end.

Definition build_json_set_constant_value (buf token timestamp device : list Z) (rows : list setting) : M (list Z) :=
  root ← cJSON_CreateObject;
  root ← cJSON_AddStringToObject root (str "token") token;
  root ← cJSON_AddStringToObject root (str "timestamp") timestamp;
  body_outer ← cJSON_CreateArray;
  outer_item ← cJSON_CreateObject;
  outer_item ← cJSON_AddStringToObject outer_item (str "dev") device;
  body_inner ← cJSON_CreateArray;
  body_inner ← add_settings body_inner rows;
  outer_item ← cJSON_AddItemToObject outer_item (str "body") body_inner;
  body_outer ← cJSON_AddItemToArray body_outer outer_item;
  root ← cJSON_AddItemToObject root (str "body") body_outer;
  emit root buf.

(** ** The messages and the documents they should be *)

Inductive message : Type :=
  | AppNotifyHost (token timestamp serviceid dir filename filetype compress : list Z)
  | IotNotifyHost (deviceid serviceid eventTime : list Z) (expire : Z) (name addr : list Z) (size : Z)
      (md5 fileType compress : list Z)
  | HostToIot (msg_type : list Z) (mid : Z) (cmd param serviceid deviceid : list Z)
  | IotToApp (requestId serviceId method pic_id token timestamp : list Z)
  | AppToIot (requestId serviceId pic_id token timestamp : list Z)
  | PlatformToTerminal (msg_type : list Z) (mid : Z) (cmd : list Z) (remote_permit : Z) (serviceid deviceid : list Z)
  | TerminalToPlatform (msg_type : list Z) (mid errcode remote_permit : Z)
  | EdgeInteraction (requestid serviceid method : list Z) (remote_permit : Z) (token timestamp : list Z)
  | SetConstantValue (token timestamp device : list Z) (rows : list setting).

Definition build (m : message) (buf : list Z) : M (list Z) :=
  match m with
  | AppNotifyHost a b c d e f g => bulid_json_app_nitify_host buf a b c d e f g
  | IotNotifyHost a b c d e f g i j k => build_json_IOT_notifi_host buf a b c d e f g i j k
  | HostToIot a b c d e f => build_json_host_to_IOT buf a b c d e f
  | IotToApp a b c d e f => build_json_IOT_to_app buf a b c d e f
  | AppToIot a b c d e => build_json_app_to_IOT buf a b c d e
  | PlatformToTerminal a b c d e f => cloud_edge_platform_to_terminal buf a b c d e f
  | TerminalToPlatform a b c d => cloud_edge_terminal_to_platform buf a b c d
  | EdgeInteraction a b c d e f => build_json_edge_interaction buf a b c d e f
  | SetConstantValue a b c rows => build_json_set_constant_value buf a b c rows
  end.

(** The value of a member. *)
Inductive value : Type :=
  | VStr (s : list Z) | VNum (z : Z) | VObj (l : list (list Z * value)) | VArr (l : list value).

Fixpoint value_item (v : value) : item :=
  match v with
  | VStr s => json_string s
  | VNum z => json_number z
  | VObj l => json_object (map (fun p => (p.1, value_item p.2)) l)
  | VArr l => json_array (map value_item l)
  end.

Definition setting_value (r : setting) : value :=
  VObj [(str "name", VStr (set_nm r)); (str "val", VStr (set_val r)); (str "dataType", VStr (set_ty r))].

Definition document (m : message) : value :=
  match m with
  | AppNotifyHost token timestamp serviceid dir filename filetype compress =>
      VObj [(str "token", VStr token); (str "timestamp", VStr timestamp);
            (str "body", VObj [(str "serviceid", VStr serviceid);
               (str "serviceProperties", VObj [(str "Dir", VStr dir); (str "filename", VStr filename);
                  (str "fileType", VStr filetype); (str "compress", VStr compress)])])]
  | IotNotifyHost deviceid serviceid eventTime expire name addr size md5 fileType compress =>
      VObj [(str "deviceId", VStr deviceid); (str "serviceId", VStr serviceid); (str "eventTime", VStr eventTime);
            (str "expire", VNum expire);
            (str "data", VObj [(str "name", VStr name); (str "addr", VStr addr); (str "size", VNum size);
               (str "md5", VStr md5); (str "fileType", VStr fileType); (str "compress", VStr compress)])]
  | HostToIot msg_type mid cmd param serviceid deviceid =>
      VObj [(str "msgType", VStr msg_type); (str "mid", VNum mid); (str "cmd", VStr cmd);
            (str "paras", VObj [(str "A_phsC", VStr param)]);
            (str "deviceId", VStr deviceid); (str "serviceId", VStr serviceid)]
  | IotToApp requestId serviceId method pic_id token timestamp =>
      VObj [(str "body", VObj [(str "requestId", VStr requestId); (str "serviceId", VStr serviceId);
               (str "method", VStr method); (str "cmdContent", VObj [(str "pic_id", VStr pic_id)])]);
            (str "token", VStr token); (str "timestamp", VStr timestamp)]
  | AppToIot requestId serviceId pic_id token timestamp =>
      VObj [(str "body", VObj [(str "requestId", VStr requestId); (str "serviceId", VStr serviceId);
               (str "serviceProperties", VObj [(str "pic_id", VStr pic_id)])]);
            (str "token", VStr token); (str "timestamp", VStr timestamp)]
  | PlatformToTerminal msg_type mid cmd remote_permit serviceid deviceid =>
      VObj [(str "msgType", VStr msg_type); (str "mid", VNum mid); (str "cmd", VStr cmd);
            (str "paras", VObj [(str "remote_permit", VNum remote_permit)]);
            (str "deviceId", VStr deviceid); (str "serviceId", VStr serviceid)]
  | TerminalToPlatform msg_type mid errcode remote_permit =>
      VObj [(str "msgType", VStr msg_type); (str "mid", VNum mid); (str "errcode", VNum errcode);
            (str "body", VObj [(str "remote_permit", VNum remote_permit)])]
  | EdgeInteraction requestid serviceid method remote_permit token timestamp =>
      VObj [(str "body", VObj [(str "requestId", VStr requestid); (str "serviceId", VStr serviceid);
               (str "method", VStr method); (str "cmdContent", VObj [(str "remote_permit", VNum remote_permit)])]);
            (str "token", VStr token); (str "timestamp", VStr timestamp)]
  | SetConstantValue token timestamp device rows =>
      VObj [(str "token", VStr token); (str "timestamp", VStr timestamp);
            (str "body", VArr [VObj [(str "dev", VStr device); (str "body", VArr (map setting_value rows))]])]
  end.

(** ** Lemmas *)

(** C strings and ints. *)
Inductive value_ok : value -> Prop :=
  | VStr_ok s : cstr_ok s -> value_ok (VStr s)
  | VNum_ok z : INT_MIN <= z <= INT_MAX -> value_ok (VNum z)
  | VObj_ok l : Forall (fun p => cstr_ok p.1) l -> Forall (fun p => value_ok p.2) l -> value_ok (VObj l)
  | VArr_ok l : Forall value_ok l -> value_ok (VArr l).

Lemma value_tree_ind (P : value -> Prop) :
  (forall s, P (VStr s)) -> (forall z, P (VNum z)) ->
  (forall l, Forall (fun p => P p.2) l -> P (VObj l)) -> (forall l, Forall P l -> P (VArr l)) -> forall v, P v.
Proof.
  intros H1 H2 H3 H4. fix IH 1. intros [s|z|l|l]; [apply H1|apply H2|apply H3|apply H4].
  - induction l as [|p l IHl]; constructor; [apply IH|apply IHl].
  - induction l as [|v l IHl]; constructor; [apply IH|apply IHl].
Qed.

Lemma canonical_named n it : canonical it -> canonical (set_name n it).
Proof.
  intros H. destruct H as [it Hk|it Hk Hi|it s Hk Hv Hs|it Hk Hc|it Hk Hc Hn].
  - by apply document_literal.
  - by apply document_number.
  - by eapply document_string.
  - by apply document_array.
  - by apply document_object.
Qed.

Lemma value_canonical v : value_ok v -> canonical (value_item v).
Proof.
  induction v as [s|z|l IH|l IH] using value_tree_ind; intros H; inversion_clear H as [? Hs|? Hz|? Hn Hv|? Hv].
  - by eapply document_string.
  - by apply document_number.
  - apply document_object; [done|..]; cbn [child value_item json_object set_type set_child];
      induction IH as [|p l Hp IH' IHl]; cbn [map]; constructor;
      apply Forall_cons in Hn as [Hn Hnl], Hv as [Hv Hvl]; auto.
    + apply canonical_named. auto.
    + by exists p.1.
  - apply document_array; [done|]. cbn [child value_item json_array set_type set_child].
    induction IH as [|v l Hp IH' IHl]; cbn [map]; constructor; apply Forall_cons in Hv as [Hv Hvl]; auto.
Qed.

(** A document made from values is in normal form. *)
Lemma value_norm v : value_ok v -> norm (value_item v) = value_item v.
Proof.
  intros Hv. rewrite norm_canonical by by apply value_canonical. clear Hv.
  induction v as [s|z|l IH|l IH] using value_tree_ind; [reflexivity|reflexivity|..]; cbn [value_item]; rewrite norm_with_eq.
  - change (kind (json_object _)) with cJSON_Object. cbn [cJSON_Object cJSON_NULL cJSON_False cJSON_True cJSON_Number cJSON_String cJSON_Array Z.eqb Pos.eqb].
    unfold json_object. do 2 f_equal. cbn [child set_type set_child].
    induction IH as [|p l Hp IH IHl]; [done|]. cbn [map fst snd]. f_equal; [|done].
    f_equal. rewrite <- Hp at 2. by destruct (value_item p.2).
  - change (kind (json_array _)) with cJSON_Array. cbn [cJSON_Object cJSON_NULL cJSON_False cJSON_True cJSON_Number cJSON_String cJSON_Array Z.eqb Pos.eqb].
    unfold json_array. do 2 f_equal. cbn [child set_type set_child].
    induction IH as [|v l Hp IH IHl]; [done|]. cbn [map]. by f_equal.
Qed.

(** [yields m it n]: with memory left [m] makes [it] and allocates [n] blocks. *)
Definition yields (m : M (option item)) (it : item) (n : Z) : Prop :=
  forall h, oracle h = [] -> m h = Ok (Some it, Heap [] (live h + n) (ep h)).

Lemma strdup_ok s h : oracle h = [] -> cJSON_strdup s h = Ok (Some s, Heap [] (live h + 1) (ep h)).
Proof.
  intros Ho. pose proof (zlen_nonneg s). unfold cJSON_strdup, new_string, mbind, ST_bind, mret, ST_ret, cJSON_malloc, alloc.
  rewrite (proj2 (Z.ltb_ge _ _)) by lia. rewrite Ho.
  cbn [res_bind]. by rewrite Z.leb_refl.
Qed.

Lemma create_yields ty : yields (cJSON_CreateType ty) (set_type ty blank) 1.
Proof. intros h Ho. unfold cJSON_CreateType, mbind, ST_bind, mret, ST_ret. by rewrite new_item_ok. Qed.

Lemma create_string_ok s h :
  oracle h = [] -> cJSON_CreateString s h = Ok (Some (json_string s), Heap [] (live h + 2) (ep h)).
Proof.
  intros Ho. unfold cJSON_CreateString, mbind, ST_bind, mret, ST_ret. rewrite new_item_ok by done. cbn [res_bind].
  rewrite strdup_ok by done. cbn [res_bind live ep]. unfold json_string. do 3 f_equal. lia.
Qed.

(** A member added. *)
Definition add_member (n : list Z) (c o : item) : item := set_child (child o ++ [set_name (Some n) c]) o.

Lemma add_item_yields o n c : name c = None -> yields (cJSON_AddItemToObject (Some o) n (Some c)) (add_member n c o) 1.
Proof.
  intros Hc h Ho. unfold cJSON_AddItemToObject, mbind, ST_bind, mret, ST_ret. rewrite Hc. cbn [res_bind].
  by rewrite strdup_ok.
Qed.

Lemma add_string_yields o n s : yields (cJSON_AddStringToObject (Some o) n s) (add_member n (json_string s) o) 3.
Proof.
  intros h Ho. unfold cJSON_AddStringToObject, mbind, ST_bind. rewrite create_string_ok by done. cbn [res_bind].
  rewrite add_item_yields by done. cbn [live ep]. do 3 f_equal. lia.
Qed.

Lemma add_number_yields o n z :
  INT_MIN <= z <= INT_MAX -> yields (cJSON_AddNumberToObject (Some o) n z) (add_member n (json_number z) o) 2.
Proof.
  intros Hz h Ho. unfold cJSON_AddNumberToObject, cJSON_CreateNumber, mbind, ST_bind, mret, ST_ret.
  rewrite new_item_ok by done. cbn [res_bind option_map]. rewrite dtoint_int by done.
  rewrite add_item_yields by done. cbn [live ep]. do 3 f_equal. lia.
Qed.

Lemma add_array_yields a c : yields (cJSON_AddItemToArray (Some a) (Some c)) (set_child (child a ++ [c]) a) 0.
Proof.
  intros h Ho. cbn. unfold mret, ST_ret. rewrite Z.add_0_r. by rewrite heap_eta.
Qed.

(** Running the next call of a builder. *)
Lemma yields_bind {A} (m : M (option item)) it n (k : option item -> M A) h :
  yields m it n -> oracle h = [] -> (m ≫= k) h = k (Some it) (Heap [] (live h + n) (ep h)).
Proof. intros Hm Ho. unfold mbind, ST_bind. by rewrite Hm. Qed.

Lemma new_object_yields : yields cJSON_CreateObject (json_object []) 1.
Proof. apply create_yields. Qed.

Lemma new_array_yields : yields cJSON_CreateArray (json_array []) 1.
Proof. apply create_yields. Qed.

(** [run_calls]: run the calls in front of a computation, one after the other. *)
Ltac run_call :=
  erewrite yields_bind;
    [|first [ apply new_object_yields | apply new_array_yields | apply add_string_yields
            | apply add_number_yields; assumption | apply add_item_yields; reflexivity | apply add_array_yields ]
     |first [reflexivity|assumption]]; cbn [live ep].
Ltac run_calls := repeat run_call.

Lemma settings_yields rows a :
  yields (add_settings (Some a) rows) (set_child (child a ++ map value_item (map setting_value rows)) a)
    (10 * zlen rows).
Proof.
  revert a. induction rows as [|r rows IH]; intros a h Ho; cbn [add_settings].
  - rewrite (zlen_nil (A:=setting)), Z.add_0_r, app_nil_r. unfold mret, ST_ret. rewrite heap_eta by done. by destruct a.
  - run_calls. rewrite IH by done. cbn [live ep]. rewrite zlen_cons. do 3 f_equal; [|lia].
    cbn [child set_child map]. rewrite <- app_assoc. done.
Qed.

Lemma settings_blocks rows :
  blocks_list (map value_item (map setting_value rows)) = 10 * zlen rows.
Proof.
  induction rows as [|r rows IH]; [done|]. cbn [map]. rewrite blocks_list_cons, IH, zlen_cons.
  change (blocks (value_item (setting_value r))) with 10. lia.
Qed.

(** What writing the text [t] gives: [r] if it fits the buffer.  A text near INT_MAX, of which the
    lengths may overflow, still cannot be written to a shorter buffer. *)
Definition writes (t : list Z) (buf : list Z) (m r : res (list Z * heap)) : Prop :=
  (~ too_long t -> m = if zlen t <=? zlen buf then r else Ub OobWrite) /\
  (too_long t -> zlen buf < zlen t -> exists e, m = Ub e).

Lemma emit_doc root v buf h n :
  root = value_item v -> value_ok v -> oracle h = [] -> live h = n ->
  let t := render true (value_item v) 0 in
  writes t buf (emit (Some root) buf h) (Ok (t ++ drop (length t) buf, Heap [] (n + 1) (ep h))).
Proof.
  intros -> Hv Ho <- t. apply value_canonical, canonical_readable, readable_printable in Hv.
  unfold writes, emit, cJSON_Print, mbind, ST_bind. fold t. split.
  - intros Hs. destruct (wp_run _ _ _ (print_value_makes False true _ 0 ltac:(lia) (or_intror Hs) Hv h)) as (r & h' & E & He & Hl & Hor).
    destruct (Hor Ho) as [[]|[-> Ho']]. destruct Hl as [[_ Hl]|[[=] _]]. rewrite E. cbn [res_bind]. fold t.
    destruct (_ <=? _); [|done]. unfold mret, ST_ret. rewrite <- (heap_eta h' Ho'). by rewrite Hl, He.
  - intros _ Hb. pose proof (print_value_makes True true _ 0 ltac:(lia) (or_introl I) Hv h) as H. unfold wpu in H.
    destruct (print_value true (value_item v) 0 h) as [[r h']|e]; cbn [res_bind]; [|eauto].
    destruct H as (_ & [[-> _]|[-> _]] & _); [|by eexists]. fold t. rewrite (proj2 (Z.leb_gt _ _)) by done. by eexists.
Qed.

(** The strings are C strings and the numbers ints. *)
Definition message_ok (m : message) : Prop := value_ok (document m).

Definition message_blocks (m : message) : Z := blocks (value_item (document m)).

Lemma VNum_inv z : value_ok (VNum z) -> INT_MIN <= z <= INT_MAX.
Proof. by inversion_clear 1. Qed.

Lemma VObj_inv l : value_ok (VObj l) -> Forall (fun p => value_ok p.2) l.
Proof. by inversion_clear 1. Qed.

(** What a well-formed document says of its numbers. *)
Ltac value_facts H :=
  pose proof H as Hfacts;
  repeat match goal with
  | H : value_ok (VObj _) |- _ => apply VObj_inv in H
  | H : Forall (fun p => value_ok p.2) (_ :: _) |- _ => apply Forall_cons in H as [? H]; cbn [snd] in *
  | H : value_ok (VNum _) |- _ => apply VNum_inv in H
  end.

Lemma build_document m buf h :
  message_ok m -> oracle h = [] ->
  let t := render true (value_item (document m)) 0 in
  writes t buf (build m buf h) (Ok (t ++ drop (length t) buf, Heap [] (live h + message_blocks m + 1) (ep h))).
Proof.
  intros Hm Ho t. assert (Hv : value_ok (document m)) by exact Hm. unfold message_ok in Hm.
  assert (forall r n, r = value_item (document m) -> n = live h + message_blocks m ->
    writes t buf (emit (Some r) buf (Heap [] n (ep h))) (Ok (t ++ drop (length t) buf, Heap [] (live h + message_blocks m + 1) (ep h)))) as Hemit.
  { intros r n Er ->.
    apply (emit_doc r (document m) buf (Heap [] (live h + message_blocks m) (ep h)) (live h + message_blocks m)); done. }
  clearbody t. destruct m; cbn [build document] in *; value_facts Hm.
  1: unfold bulid_json_app_nitify_host.
  2: unfold build_json_IOT_notifi_host.
  3: unfold build_json_host_to_IOT.
  4: unfold build_json_IOT_to_app.
  5: unfold build_json_app_to_IOT.
  6: unfold cloud_edge_platform_to_terminal.
  7: unfold cloud_edge_terminal_to_platform.
  8: unfold build_json_edge_interaction.
  9: unfold build_json_set_constant_value.
  1-8: run_calls; apply Hemit; [reflexivity|rewrite <- !Z.add_assoc; reflexivity].
  run_calls. rewrite (yields_bind _ _ _ _ _ (settings_yields rows _)) by done. cbn [live ep]. run_calls.
  apply Hemit; [reflexivity|].
  rewrite <- Z.add_assoc. set (X := blocks_list (map value_item (map setting_value rows))).
  change (message_blocks _) with
    ((3 + (3 + (((((3 + (X + 0 + 1 + 1 + 0)) + 0 + 0 + 1) + 0) + 0 + 1 + 1) + 0))) + 0 + 0 + 1).
  unfold X. rewrite settings_blocks. lia.
Qed.

(** C22. Each of the nine builders writes to the front of the buffer exactly the text of
    its document, which a receiver reads back as that document; the rest of the
    buffer stays, with no NUL after the text; a text longer than the buffer
    overruns it; and the document and its text stay allocated.  A text of 2^30 - 64 bytes and more,
    whose lengths are ints that may overflow, never goes well for a shorter buffer. *)
Theorem build_json_messages m buf h :
  message_ok m -> oracle h = [] ->
  exists t,
    (~ too_long t ->
      (build m buf h = if zlen t <=? zlen buf
                       then Ok (t ++ drop (length t) buf, Heap [] (live h + message_blocks m + 1) (ep h))
                       else Ub OobWrite) /\
      forall h1, oracle h1 = [] -> exists h2, cJSON_Parse t h1 = Ok (Some (value_item (document m)), h2)) /\
    (too_long t -> zlen buf < zlen t -> exists e, build m buf h = Ub e).
Proof.
  intros Hm Ho. exists (render true (value_item (document m)) 0). destruct (build_document m buf h Hm Ho) as [H1 H2].
  split; [|done]. intros Hs. split; [by apply H1|].
  intros h1 Hh. pose proof (canonical_readable _ (value_canonical _ Hm)) as Hc.
  pose proof (parse_render true _ h1 Hc Hh ltac:(unfold too_long, INT_MAX in *; lia)) as E. rewrite value_norm in E by done. eauto.
Qed.

Definition sample_message : message :=
  SetConstantValue (str "t1") (str "2024-01-01") (str "dev7") [Setting (str "cur") (str "1.5") (str "float")].

Lemma sample_message_ok : message_ok sample_message.
Proof.
  assert (forall s, forallb is_char s = true -> cstr_ok s) as Hs.
  { intros s H. apply Forall_forall. intros c Hc%list_elem_of_In.
    rewrite forallb_forall in H. apply H in Hc. apply andb_true_iff in Hc as [?%Z.ltb_lt ?%Z.ltb_lt]. lia. }
  unfold message_ok, sample_message, document, setting_value. cbn [map].
  repeat first [ apply Hs; vm_compute; reflexivity | apply VObj_ok | apply VArr_ok | apply VStr_ok
               | apply Forall_cons_2 | apply Forall_nil_2 ].
Qed.

Lemma build_json_messages_witness :
  exists t buf', build sample_message (replicate 200 7) sample_heap = Ok (buf', Heap [] 26 None) /\
    buf' = t ++ drop (length t) (replicate 200 7) /\
    exists h2, cJSON_Parse t sample_heap = Ok (Some (value_item (document sample_message)), h2).
Proof.
  assert (forall a : list Z, length a = 200%nat -> is_ok (build sample_message a sample_heap) = true ->
    zlen a = 200 -> exists t, ~ too_long t /\ (build sample_message a sample_heap = if zlen t <=? 200
      then Ok (t ++ drop (length t) a, Heap [] 26 None) else Ub OobWrite) /\
      exists h2, cJSON_Parse t sample_heap = Ok (Some (value_item (document sample_message)), h2)) as Hall.
  { intros a _ Hok Ha. destruct (build_json_messages sample_message a sample_heap sample_message_ok eq_refl) as (t & Hs & Hl).
    assert (~ too_long t) as Ht.
    { intros Ht. destruct Hl as [e E]; [exact Ht|rewrite Ha; unfold too_long in Ht; lia|]. rewrite E in Hok. discriminate Hok. }
    destruct (Hs Ht) as [E Hp]. rewrite Ha in E. exists t. split; [exact Ht|]. split; [exact E|]. apply Hp. reflexivity. }
  destruct (Hall (replicate 200 7)) as (t & _ & E & Hp); [reflexivity|vm_compute; reflexivity|reflexivity|]. change 200 with (zlen (replicate 200 7)) in E.
  destruct (zlen t <=? zlen (replicate 200 7)) eqn:El.
  - exists t, (t ++ drop (length t) (replicate 200 7)). split; [rewrite E; reflexivity|].
    split; [reflexivity|]. exact Hp.
  - exfalso. assert (is_ok (build sample_message (replicate 200 7) sample_heap) = true) as Hok by (vm_compute; reflexivity).
    rewrite E in Hok. discriminate Hok.
Defined.
