(* ===== verification/JsonBuffer.v ===== *)
(** cJSON.c, cJSON_PrintBuffered: printing into one block that grows, the branches with a
    printbuffer of the print functions.  The theorem is that the text is the one the
    functions without a buffer make.

    The block is its bytes, of which malloc leaves the new ones unwritten; a pointer into it
    is a position, used only until the next call that may move the block. *)

From S2P Require Import Prelude CLib CFloat Json JsonText.

Open Scope c_scope.
Open Scope Z_scope.

(** ** The buffer *)

(** [offset_] is the member offset, [length_] the member length. *)
Record printbuffer : Type := Printbuffer { buffer : option (list (option Z)); length_ : Z; offset_ : Z }.

Local Abbreviation B := (ST (heap * printbuffer)).

Definition on_heap {A} (m : M A) : B A := fun '(h, p) => let! (a, h) := m h in Ok (a, (h, p)).
Definition get_p : B printbuffer := fun s => Ok (s.2, s).
Definition put_p (p : printbuffer) : B unit := fun s => Ok (tt, (s.1, p)).

Definition set_offset (n : Z) : B unit := p ← get_p; put_p (Printbuffer (buffer p) (length_ p) n).

(** The next power of two; x + 1 overflows above 2^30. *)
Definition pow2gt (x : Z) : res Z :=
  let x := x - 1 in
  let x := x .| (x >> 1) in
  let x := x .| (x >> 2) in
  let x := x .| (x >> 4) in
  let x := x .| (x >> 8) in
  let x := x .| (x >> 16) in
  if x =? INT_MAX then Ub IntOverflow else Ok (x + 1).

(** memcpy of the first [n] bytes into a new block of [size] bytes. *)
Definition moved (cells : list (option Z)) (n size : Z) : res (list (option Z)) :=
  if zlen cells <? n then Ub OobRead
  else if size <? n then Ub OobWrite
  else Ok (take (Z.to_nat n) cells ++ replicate (Z.to_nat (size - n)) None).

(** The position after the text so far, with room for [needed] bytes, or NULL. *)
Definition ensure (needed : Z) : B (option Z) :=
  p ← get_p;
  match buffer p with
  | None => mret None
  | Some cells =>
      let needed := needed + offset_ p in
      if INT_MAX <? needed then fault IntOverflow
      else if needed <=? length_ p then mret (Some (offset_ p))
      else
        newsize ← lift (pow2gt needed);
        ok ← on_heap cJSON_malloc;
        if negb ok then on_heap (cJSON_free 1);; put_p (Printbuffer None 0 (offset_ p));; mret None
        else
          cells ← lift (moved cells (length_ p) newsize);
          on_heap (cJSON_free 1);; put_p (Printbuffer (Some cells) newsize (offset_ p));; mret (Some (offset_ p))
  end.

Fixpoint strlen (cells : list (option Z)) : res Z :=
  match cells with
  | [] => Ub OobRead
  | None :: _ => Ub Uninit
  | Some c :: cells => if c =? 0 then Ok 0 else let! n := strlen cells in Ok (n + 1)
  end.

(** p->offset+strlen(str) is a size_t, returned as an int. *)
Definition update : B Z :=
  p ← get_p;
  match buffer p with
  | None => mret 0
  | Some cells => n ← lift (strlen (drop (Z.to_nat (offset_ p)) cells)); mret (s32 (offset_ p + n))
  end.

(** The bytes [text] stored from position [pos] on. *)
Definition store (pos : Z) (text : list Z) : B unit :=
  p ← get_p;
  match buffer p with
  | None => fault UseAfterFree
  | Some cells =>
      if zlen cells <? pos + zlen text then fault OobWrite
      else
        let pos := Z.to_nat pos in
        put_p (Printbuffer (Some (take pos cells ++ map Some text ++ drop (pos + length text) cells)) (length_ p) (offset_ p))
  end.

(** ** The print functions *)

(** out=ensure(p,len), and the text with its NUL stored there. *)
Definition emit (len : Z) (text : list Z) : B (option Z) :=
  out ← ensure len;
  match out with
  | None => mret None
  | Some pos => store pos (text ++ [0]);; mret out
  end.

(** ptr=ensure(p,needed); if (!ptr) return 0; the bytes stored, p->offset+=len. *)
Definition append (needed : Z) (bytes : list Z) (len : Z) : B bool :=
  ptr ← ensure needed;
  match ptr with
  | None => mret false
  | Some pos => store pos bytes;; p ← get_p; set_offset (offset_ p + len);; mret true
  end.

(** A nested print, whose result is not looked at, and p->offset=update(p). *)
Definition nested (m : B (option Z)) : B unit := m;; n ← update; set_offset n.

Definition print_number_p (it : item) : B (option Z) := let (len, text) := number_text it in emit len text.

Definition print_string_ptr_p (s : option (list Z)) : B (option Z) :=
  match s with
  | None => fault NullDeref
  | Some s => '(len, text) ← lift (string_text s); emit len text
  end.

Fixpoint array_entries (pv : item -> B (option Z)) (fmt : bool) (l : list item) : B bool :=
  match l with
  | [] => mret true
  | c :: l =>
      nested (pv c);;
      ok ← (match l with
            | [] => mret true
            | _ => let len := if fmt then 2 else 1 in append (len + 1) ([44] ++ fmt_text fmt [32] ++ [0]) len
            end);
      if ok : bool then array_entries pv fmt l else mret false
  end.

(** *ptr++=']'; *ptr=0; the offset stays. *)
Definition print_array_p (pv : item -> B (option Z)) (fmt : bool) (l : list item) : B (option Z) :=
  match l with
  | [] => emit 3 (str "[]")
  | _ =>
      on_heap (numentries l);;
      p ← get_p;
      ok ← append 1 [91] 1;
      if negb ok then mret None
      else
        ok ← array_entries pv fmt l;
        if negb ok then mret None
        else
          ok ← append 2 [93; 0] 0;
          if negb ok then mret None else mret (Some (offset_ p))
  end.

(** [depth] is the depth of the members. *)
Definition object_member (pv : item -> B (option Z)) (fmt : bool) (depth : Z) (c : item) (last : bool) : B bool :=
  ok ← (if fmt then append depth (tabs depth) depth else mret true);
  if negb ok then mret false
  else
    nested (print_string_ptr_p (name c));;
    let len := if fmt then 2 else 1 in
    ok ← append len ([58] ++ fmt_text fmt [9]) len;
    if negb ok then mret false
    else
      nested (pv c);;
      let len := fmtZ fmt 1 + (if last then 0 else 1) in
      append (len + 1) ((if last then [] else [44]) ++ fmt_text fmt [10; 0]) len.

Fixpoint object_members (pv : item -> B (option Z)) (fmt : bool) (depth : Z) (l : list item) : B bool :=
  match l with
  | [] => mret true
  | c :: l =>
      ok ← object_member pv fmt depth c (match l with [] => true | _ => false end);
      if ok : bool then object_members pv fmt depth l else mret false
  end.

Definition print_object_p (pv : item -> B (option Z)) (fmt : bool) (depth : Z) (l : list item) : B (option Z) :=
  match l with
  | [] =>
      len ← lift (if fmt then as_int (depth + 4) else Ok 3);
      emit len ([123] ++ fmt_text fmt ([10] ++ tabs (depth - 1)) ++ [125])
  | _ =>
      on_heap (numentries l);;
      p ← get_p;
      let len := if fmt then 2 else 1 in
      ok ← append (len + 1) ([123] ++ fmt_text fmt [10] ++ [0]) len;
      if negb ok then mret None
      else
        depth ← lift (as_int (depth + 1));
        ok ← object_members pv fmt depth l;
        if negb ok then mret None
        else
          needed ← lift (if fmt then as_int (depth + 1) else Ok 2);
          ok ← append needed (fmt_text fmt (tabs (depth - 1)) ++ [125; 0]) 0;
          if negb ok then mret None else mret (Some (offset_ p))
  end.

Fixpoint print_value_p (fmt : bool) (it : item) (depth : Z) : B (option Z) :=
  let pv c := (d ← lift (as_int (depth + 1)); print_value_p fmt c d) in
  if kind it =? cJSON_NULL then emit 5 (str "null")
  else if kind it =? cJSON_False then emit 6 (str "false")
  else if kind it =? cJSON_True then emit 5 (str "true")
  else if kind it =? cJSON_Number then print_number_p it
  else if kind it =? cJSON_String then print_string_ptr_p (valuestring it)
  else if kind it =? cJSON_Array then print_array_p pv fmt (child it)
  else if kind it =? cJSON_Object then print_object_p pv fmt depth (child it)
  else mret None.

(** The characters before the first NUL. *)
Fixpoint text_at (cells : list (option Z)) : list Z :=
  match cells with
  | Some c :: cells => if c =? 0 then [] else c :: text_at cells
  | _ => []
  end.

(** The text at the pointer returned.  A negative prebuffer is a size no block has, and malloc
    fails. *)
Definition buffered (block : option (list (option Z))) (it : item) (prebuffer : Z) (fmt : bool) : M (option (list Z)) := fun h =>
  let! (out, s) := print_value_p fmt it 0 (h, Printbuffer block prebuffer 0) in
  Ok ((match out, buffer s.2 with
       | Some pos, Some cells => Some (text_at (drop (Z.to_nat pos) cells))
       | _, _ => None
       end), s.1).

Definition cJSON_PrintBuffered (it : item) (prebuffer : Z) (fmt : bool) : M (option (list Z)) :=
  ok ← (if prebuffer <? 0 then mret false else cJSON_malloc);
  buffered (if ok : bool then Some (replicate (Z.to_nat prebuffer) None) else None) it prebuffer fmt.

Definition sample_item : item :=
  Item [Item [] 3 None 12 (dofZ 12) (Some (str "a"));
        Item [Item [] 0 None 0 (dofZ 0) None; Item [] 6 None 0 (dofZ 0) None] 5 None 0 (dofZ 0) (Some (str "bcd"));
        Item [] 4 (Some (str "x")) 0 (dofZ 0) (Some (str "e"))] 6 None 0 (dofZ 0) None.

Example buffered_sample :
  map (fun n => option_map fst (match cJSON_PrintBuffered sample_item n true (Heap [] 0 None) with Ok r => Some r | Ub _ => None end)) [0; 1; 7; 100]
  = replicate 4 (Some (Some (render true sample_item 0))).
Proof. vm_compute. reflexivity. Qed.

(** ** The buffer keeps the text *)

Lemma lor_le a b : 0 <= a -> 0 <= b -> a <= a .| b.
Proof.
  intros Ha Hb. apply Z.ldiff_le; [by apply Z.lor_nonneg|]. apply Z.bits_inj'. intros i _.
  rewrite Z.ldiff_spec, Z.lor_spec, Z.bits_0. by destruct (Z.testbit a i).
Qed.

Lemma lor_lt n a b : 0 <= n -> 0 <= a < 2 ^ n -> 0 <= b < 2 ^ n -> a .| b < 2 ^ n.
Proof.
  intros Hn Ha Hb. assert ((a .| b) >> n = 0) as E.
  { rewrite Z.shiftr_lor, !Z.shiftr_div_pow2, !Z.div_small by lia. done. }
  rewrite Z.shiftr_div_pow2 in E by done. apply Z.div_small_iff in E; [|lia]. destruct E; [lia|].
  assert (0 <= a .| b) by (apply Z.lor_nonneg; lia). lia.
Qed.

(** Sizes up to 2^30 are rounded up without an overflow. *)
Lemma pow2gt_ok x : 0 < x <= 2 ^ 30 -> exists y, pow2gt x = Ok y /\ x <= y.
Proof.
  intros Hx. unfold pow2gt.
  assert (forall k a, 0 <= k -> x - 1 <= a < 2 ^ 30 -> x - 1 <= a .| (a >> k) < 2 ^ 30) as H.
  { intros k a Hk Ha. rewrite Z.shiftr_div_pow2 by done.
    assert (0 <= a / 2 ^ k <= a) by (split; [apply Z.div_pos|apply Z.div_le_upper_bound]; nia).
    split; [|apply lor_lt; lia]. pose proof (lor_le a (a / 2 ^ k)). lia. }
  cbn zeta. remember (x - 1) as a eqn:Ea.
  assert (a <= a < 2 ^ 30) as Ha by lia.
  apply (H 1) in Ha; [|done]. apply (H 2) in Ha; [|done]. apply (H 4) in Ha; [|done].
  apply (H 8) in Ha; [|done]. apply (H 16) in Ha; [|done].
  match goal with |- context [if ?y =? INT_MAX then _ else _] => set (b := y) in * end. clearbody b.
  rewrite (proj2 (Z.eqb_neq b INT_MAX)) by (unfold INT_MAX; lia). exists (b + 1). split; [done|lia].
Qed.

Definition nonzero (t : list Z) : Prop := Forall (fun c => c <> 0) t.

Lemma strlen_text t z junk : nonzero t -> strlen (map Some (t ++ 0 :: z) ++ junk) = Ok (zlen t).
Proof.
  induction 1 as [|c t Hc Ht IH]; [done|]. cbn [app map strlen]. rewrite (proj2 (Z.eqb_neq c 0)) by done.
  rewrite IH. cbn. f_equal. rewrite zlen_cons. lia.
Qed.

Lemma text_at_text t z junk : nonzero t -> text_at (map Some (t ++ 0 :: z) ++ junk) = t.
Proof.
  induction 1 as [|c t Hc Ht IH]; [done|]. cbn [app map text_at]. rewrite (proj2 (Z.eqb_neq c 0)) by done. by rewrite IH.
Qed.

Lemma drop_zlen {A} (l k : list A) : drop (Z.to_nat (zlen l)) (l ++ k) = k.
Proof. unfold zlen. by rewrite Nat2Z.id, drop_app_length. Qed.

Lemma take_zlen {A} (l k : list A) : take (Z.to_nat (zlen l)) (l ++ k) = l.
Proof. unfold zlen. by rewrite Nat2Z.id, take_app_length. Qed.

Lemma zlen_map {A B} (f : A -> B) l : zlen (map f l) = zlen l.
Proof. unfold zlen. by rewrite length_map. Qed.

Lemma zlen_replicate {A} n (a : A) : zlen (replicate n a) = Z.of_nat n.
Proof. unfold zlen. by rewrite length_replicate. Qed.

(** ** A printed text has no NUL in it *)

Lemma nonzero_app l k : nonzero (l ++ k) <-> nonzero l /\ nonzero k.
Proof. apply Forall_app. Qed.

Lemma nonzero_str s : forallb (fun c => negb (c =? 0)) s = true -> nonzero s.
Proof. rewrite forallb_forall. intros H. apply Forall_forall. intros c Hc%list_elem_of_In%H. by apply negb_true_iff, Z.eqb_neq in Hc. Qed.

Lemma number_nonzero it : nonzero (number_text it).2.
Proof. apply number_text_chars; [intros d Hd; lia|]. by apply nonzero_str. Qed.

Lemma string_out_nonzero s : cstr_ok s -> nonzero (string_out s).
Proof.
  intros Hs. constructor; [done|]. apply nonzero_app. split; [|by apply nonzero_str].
  induction Hs as [|c s Hc Hs IH]; [constructor|]. cbn [flat_map]. apply nonzero_app. split; [|done].
  apply nonzero_str. apply (char_cases (fun c => forallb (fun c => negb (c =? 0)) (escape_char c))); [vm_compute; reflexivity|done].
Qed.

Lemma fmt_text_nonzero fmt t : nonzero t -> nonzero (fmt_text fmt t).
Proof. intros. destruct fmt; [done|constructor]. Qed.

Lemma tabs_nonzero n : nonzero (tabs n).
Proof. by apply Forall_replicate. Qed.

Lemma array_out_nonzero fmt es : Forall nonzero es -> nonzero (array_out fmt es).
Proof.
  intros H. unfold array_out. rewrite !nonzero_app. split_and!; [by apply nonzero_str| |by apply nonzero_str].
  induction H as [|e es He Hes IH]; [constructor|]. destruct es as [|e' es']; [done|]. set (l := e' :: es') in *.
  change (array_body fmt (e :: l)) with (e ++ [44] ++ fmt_text fmt [32] ++ array_body fmt l). rewrite !nonzero_app.
  split_and!; [done|by apply nonzero_str|by apply fmt_text_nonzero, nonzero_str|done].
Qed.

Lemma object_out_nonzero fmt depth ps : Forall (fun p => nonzero p.1 /\ nonzero p.2) ps -> nonzero (object_out fmt depth ps).
Proof.
  intros H. assert (forall d, nonzero (object_body fmt d ps)) as Hbody.
  { intros d. induction H as [|[n v] ps [Hn Hv] Hps IH]; [constructor|]. cbn [object_body]. rewrite !nonzero_app.
    split_and!; try done; try (by apply nonzero_str); try (apply fmt_text_nonzero, tabs_nonzero);
      try (by apply fmt_text_nonzero, nonzero_str). destruct ps; by apply nonzero_str. }
  unfold object_out. destruct ps as [|p ps].
  - rewrite !nonzero_app. split_and!; [by apply nonzero_str| |by apply nonzero_str].
    apply fmt_text_nonzero, nonzero_app. split; [by apply nonzero_str|apply tabs_nonzero].
  - rewrite !nonzero_app. split_and!; [by apply nonzero_str|by apply fmt_text_nonzero, nonzero_str|apply Hbody|
      apply fmt_text_nonzero, tabs_nonzero|by apply nonzero_str].
Qed.

Lemma render_nonzero fmt it depth : printable it -> nonzero (render fmt it depth).
Proof.
  revert depth. induction it as [it IH] using item_tree_ind. intros depth Hp. rewrite Forall_forall in IH.
  destruct Hp as [it Hk|it Hk Hf|it s Hk Hv Hs|it Hk Hc|it Hk Hc Hn]; try rewrite Forall_forall in Hc.
  - destruct Hk as [Hk|[Hk|Hk]]; by_kind Hk; by apply nonzero_str.
  - by_kind Hk. apply number_nonzero.
  - by_kind Hk. rewrite Hv. by apply string_out_nonzero.
  - by_kind Hk. apply array_out_nonzero, Forall_map, Forall_forall. intros c Hin. apply IH; auto.
  - by_kind Hk. apply object_out_nonzero, Forall_map, Forall_forall. intros c Hin. cbn [fst snd]. split; [|apply IH; auto].
    rewrite Forall_forall in Hn. destruct (Hn c Hin) as (n & -> & Hok). by apply string_out_nonzero.
Qed.

(** From here [L] blocks are live beside the buffer, [E] is the error pointer, and [O] says that no
    allocation fails. *)
Section Printed.
Context (L : Z) (E : option (list Z)) (O : Prop).

(** The buffer holds [text] and the offset is [off]. *)
Definition block_is (off : Z) (text : list Z) (s : heap * printbuffer) : Prop :=
  live s.1 = L + 1 /\ ep s.1 = E /\ (O -> oracle s.1 = []) /\
  exists junk, s.2 = Printbuffer (Some (map Some text ++ junk)) (zlen text + zlen junk) off.

(** The text so far is [w]. *)
Definition held (w : list Z) : heap * printbuffer -> Prop := block_is (zlen w) w.

(** After it [t] and a NUL are written, some of [t] behind the offset. *)
Definition pending (w t : list Z) (s : heap * printbuffer) : Prop :=
  exists k, 0 <= k <= zlen t /\ block_is (zlen w + k) (w ++ t ++ [0]) s.

(** An allocation failed and the buffer is freed. *)
Definition lost (s : heap * printbuffer) : Prop := live s.1 = L /\ ep s.1 = E /\ ~ O /\ buffer s.2 = None.

Lemma block_is_app off w z s : block_is off (w ++ z) s -> block_is off w s.
Proof.
  intros (Hl & He & Ho & junk & Hs). split_and!; [done..|]. exists (map Some z ++ junk).
  rewrite Hs, map_app, <- app_assoc, !zlen_app, zlen_map. f_equal. lia.
Qed.

Lemma ensure_lost needed s : lost s -> wp (ensure needed) (fun r s' => r = None /\ lost s') s.
Proof.
  intros Hs. apply wp_bind. unfold wpu at 1, get_p. destruct Hs as (Hl & He & Ho & Hb). rewrite Hb.
  apply wp_ret. by split.
Qed.

Lemma on_heap_free s Q : Q tt (Heap (oracle s.1) (live s.1 - 1) (ep s.1), s.2) -> wp (on_heap (cJSON_free 1)) Q s.
Proof. by destruct s. Qed.

(** Room for [needed] more bytes, or a lost buffer. *)
Lemma ensure_held needed w s :
  0 <= needed -> zlen w + needed <= 2 ^ 30 -> held w s ->
  wp (ensure needed) (fun r s' => r = Some (zlen w) /\ held w s' /\ zlen w + needed <= length_ s'.2 \/ r = None /\ lost s') s.
Proof.
  intros Hn Hb (Hl & He & Ho & junk & Hs). unfold ensure. apply wp_bind. unfold wpu at 1, get_p. destruct s as [h p].
  cbn [fst snd] in *. subst p. cbn [buffer offset_ length_].
  rewrite (proj2 (Z.ltb_ge INT_MAX _)) by (unfold INT_MAX; lia).
  destruct (Z.leb_spec (needed + zlen w) (zlen w + zlen junk)) as [Hf|Hf].
  { apply wp_ret. left. split; [done|]. split; [|cbn; lia]. split_and!; [done..|]. by exists junk. }
  destruct (pow2gt_ok (needed + zlen w)) as (y & Ey & Hy); [pose proof (zlen_nonneg w); pose proof (zlen_nonneg junk); lia|].
  apply wp_bind. eapply wp_lift_Ok; [done|]. apply wp_bind.
  destruct (malloc_cases h) as (ok & h1 & Em & E1 & L1 & O1). unfold wpu at 1, on_heap. rewrite Em. cbn [res_bind].
  destruct ok; cbn [negb].
  - apply wp_bind. apply (wp_lift_Ok _ (map Some w ++ junk ++ replicate (Z.to_nat (y - (zlen w + zlen junk))) None)).
    { unfold moved. rewrite zlen_app, zlen_map, Z.ltb_irrefl, (proj2 (Z.ltb_ge _ _)) by lia.
      rewrite <- (zlen_map Some w) at 1. rewrite <- zlen_app, firstn_all2, <- app_assoc; [done|]. unfold zlen. lia. }
    apply wp_bind, on_heap_free. cbn [fst snd]. apply wp_bind. unfold wpu at 1, put_p. apply wp_ret. left.
    split; [done|]. split; [|cbn; lia]. split_and!; cbn [fst snd live ep oracle]; [lia|congruence|by intros ?; apply O1, Ho|].
    exists (junk ++ replicate (Z.to_nat (y - (zlen w + zlen junk))) None). rewrite zlen_app, zlen_replicate. f_equal. lia.
  - apply wp_bind, on_heap_free. cbn [fst snd]. apply wp_bind. unfold wpu at 1, put_p. apply wp_ret. right.
    split; [done|]. split_and!; cbn [fst snd live ep buffer]; [lia|congruence| |done]. intros H. by destruct (O1 (Ho H)).
Qed.

Lemma store_held w bytes s :
  held w s -> zlen w + zlen bytes <= length_ s.2 ->
  wp (store (zlen w) bytes) (fun _ s' => block_is (zlen w) (w ++ bytes) s') s.
Proof.
  intros (Hl & He & Ho & junk & Hs) Hb. unfold store. apply wp_bind. unfold wpu at 1, get_p. destruct s as [h p].
  cbn [fst snd] in *. subst p. cbn [buffer offset_ length_] in *.
  rewrite (proj2 (Z.ltb_ge _ _)) by (rewrite zlen_app, zlen_map; lia).
  unfold wpu, put_p. split_and!; [done..|]. exists (drop (length bytes) junk). cbn [snd]. f_equal.
  - f_equal. rewrite <- (zlen_map Some w) at 1. rewrite take_zlen, map_app, <- app_assoc. do 2 f_equal.
    rewrite drop_app_ge by (unfold zlen; rewrite length_map; lia). f_equal. rewrite length_map. unfold zlen. lia.
  - rewrite zlen_app. unfold zlen in *. rewrite length_drop. lia.
Qed.

Lemma emit_held len text w s :
  zlen text + 1 <= len -> zlen w + len <= 2 ^ 30 -> held w s ->
  wp (emit len text) (fun r s' => r = Some (zlen w) /\ pending w text s' \/ r = None /\ lost s') s.
Proof.
  intros Hf Hb Hs. pose proof (zlen_nonneg text). apply wp_bind. eapply wp_mono; [apply (ensure_held len w); [lia|lia|done]|].
  intros r s' [(-> & Hw & Hr)|[-> Hlost]]; [|apply wp_ret; by right].
  apply wp_bind. eapply wp_mono; [apply store_held; [done|]|].
  { rewrite zlen_app. change (zlen [0]) with 1. lia. }
  intros ? t Ht. apply wp_ret. left. split; [done|]. exists 0. rewrite Z.add_0_r. split; [lia|done].
Qed.

(** [t] is what the offset moves over. *)
Lemma append_held needed t z len w s :
  zlen (t ++ z) <= needed -> len = zlen t -> zlen w + needed <= 2 ^ 30 -> held w s ->
  wp (append needed (t ++ z) len) (fun ok s' => ok = true /\ held (w ++ t) s' /\ block_is (zlen w + zlen t) (w ++ t ++ z) s' \/ ok = false /\ lost s') s.
Proof.
  intros Hf -> Hb Hs. pose proof (zlen_nonneg (t ++ z)). apply wp_bind.
  eapply wp_mono; [apply (ensure_held needed w); [lia|lia|done]|].
  intros r s' [(-> & Hw & Hr)|[-> Hlost]]; [|apply wp_ret; by right].
  apply wp_bind. eapply wp_mono; [apply (store_held w (t ++ z)); [done|lia]|].
  intros ? u (Hl & He & Ho & junk & Hu). destruct u as [h p]. cbn [fst snd] in *. subst p.
  unfold wpu, mbind, ST_bind, mret, ST_ret, get_p, set_offset, put_p. cbn [res_bind snd fst].
  assert (block_is (zlen w + zlen t) (w ++ t ++ z) (h, Printbuffer (Some (map Some (w ++ t ++ z) ++ junk))
    (zlen (w ++ t ++ z) + zlen junk) (zlen w + zlen t))) as Hbl by (split_and!; [done..|by exists junk]).
  left. split; [done|]. split; [|done]. unfold held. rewrite zlen_app. eapply block_is_app. by rewrite <- app_assoc.
Qed.

Lemma append_lost needed bytes len s : lost s -> wp (append needed bytes len) (fun ok s' => ok = false /\ lost s') s.
Proof.
  intros Hs. apply wp_bind. eapply wp_mono; [by apply ensure_lost|]. intros r s' [-> Hl]. by apply wp_ret.
Qed.

Lemma emit_lost len text s : lost s -> wp (emit len text) (fun r s' => r = None /\ lost s') s.
Proof.
  intros Hs. apply wp_bind. eapply wp_mono; [by apply ensure_lost|]. intros r s' [-> Hl]. by apply wp_ret.
Qed.

Definition so_far (w : list Z) (s : heap * printbuffer) : Prop := held w s \/ lost s.

(** What a print function leaves, and what a piece of text leaves. *)
Definition printed (w t : list Z) (r : option Z) (s : heap * printbuffer) : Prop :=
  r = Some (zlen w) /\ pending w t s \/ r = None /\ lost s.

Definition goes (w : list Z) (ok : bool) (s : heap * printbuffer) : Prop := ok = true /\ so_far w s \/ ok = false /\ lost s.

Definition fits (w t : list Z) : Prop := zlen w + zlen t + 64 <= 2 ^ 30.

Definition prints (m : B (option Z)) (t : list Z) : Prop := forall w s, so_far w s -> fits w t -> wp m (printed w t) s.

Lemma emit_prints len t : zlen t + 1 <= len <= zlen t + 64 -> prints (emit len t) t.
Proof.
  intros Hl w s [Hs|Hs] Hf; unfold fits in Hf.
  - apply emit_held; [lia|lia|done].
  - eapply wp_mono; [by apply emit_lost|]. intros r s' H. by right.
Qed.

Lemma nested_goes m t w s : prints m t -> nonzero t -> so_far w s -> fits w t -> wp (nested m) (fun _ => so_far (w ++ t)) s.
Proof.
  intros Hm Ht Hs Hf. apply wp_bind. eapply wp_mono; [by apply Hm|].
  intros r [h p] [(_ & k & Hk & Hl & He & Ho & junk & Hp)|[_ (Hl & He & Ho & Hp)]]; cbn [snd fst] in Hp;
    apply wp_bind, wp_bind; unfold wpu at 1, get_p; cbn [snd].
  - rewrite Hp at 1. cbn [buffer offset_]. apply wp_bind. eapply (wp_lift_Ok _ (zlen t - k)).
    { rewrite Hp. cbn [offset_].
      assert (exists a b, t = a ++ b /\ zlen a = k) as (a & b & -> & <-).
      { exists (take (Z.to_nat k) t), (drop (Z.to_nat k) t). rewrite take_drop. split; [done|]. unfold zlen in *. rewrite length_take. lia. }
      apply Forall_app in Ht as [_ Hb].
      replace (map Some (w ++ (a ++ b) ++ [0]) ++ junk) with (map Some (w ++ a) ++ (map Some (b ++ [0]) ++ junk))
        by (rewrite !map_app, <- !app_assoc; done).
      rewrite <- zlen_app, <- (zlen_map Some (w ++ a)), drop_zlen, strlen_text by done.
      f_equal. rewrite zlen_app. lia. }
    assert (offset_ p = zlen w + k) as Eo by by rewrite Hp.
    rewrite sext_small by first [done | rewrite Eo; unfold fits in Hf; pose proof (zlen_nonneg w); pose proof (zlen_nonneg t); lia].
    apply wp_ret. rewrite Hp. unfold set_offset, wpu, mbind, ST_bind, get_p, put_p. cbn [snd fst res_bind buffer length_ offset_].
    left. apply (block_is_app _ _ [0]). rewrite <- app_assoc. split_and!; [done..|]. exists junk. cbn [snd]. f_equal.
    rewrite zlen_app. lia.
  - rewrite Hp. apply wp_ret. unfold set_offset, wpu, mbind, ST_bind, get_p, put_p. cbn [snd fst res_bind].
    right. by split_and!.
Qed.

Lemma append_goes needed t z len w s :
  zlen (t ++ z) <= needed -> len = zlen t -> zlen w + needed <= 2 ^ 30 -> so_far w s ->
  wp (append needed (t ++ z) len) (goes (w ++ t)) s.
Proof.
  intros Hn Hl Hb [Hs|Hs].
  - eapply wp_mono; [by apply append_held|]. intros ok s' [(-> & H & _)|H]; [left|by right]. split; [done|by left].
  - eapply wp_mono; [by apply append_lost|]. intros ok s' H. by right.
Qed.

Lemma goes_bind {A} w (m : B bool) (k : bool -> B A) Q s :
  wp m (goes w) s -> (forall s', so_far w s' -> wp (k true) Q s') -> (forall s', lost s' -> wp (k false) Q s') ->
  wp (m ≫= k) Q s.
Proof. intros Hm Ht Hf. apply wp_bind. eapply wp_mono; [done|]. intros ok s' [[-> H]|[-> H]]; auto. Qed.

Lemma lost_printed w t s : lost s -> wp (mret None : B (option Z)) (printed w t) s.
Proof. intros. apply wp_ret. by right. Qed.

Lemma lost_goes w s : lost s -> wp (mret false : B bool) (goes w) s.
Proof. intros. apply wp_ret. by right. Qed.

(** The first piece: the offset it starts at, unless the buffer is lost. *)
Lemma open_prints needed t z len w k Q s :
  zlen (t ++ z) <= needed -> len = zlen t -> zlen w + needed <= 2 ^ 30 -> so_far w s ->
  (forall s', so_far (w ++ t) s' -> wp (k (zlen w)) Q s') -> (forall s', lost s' -> Q None s') ->
  wp (p ← get_p; ok ← append needed (t ++ z) len; if negb ok then mret (None : option Z) else k (offset_ p)) Q s.
Proof.
  intros Hn Hl Hb Hs Hk Hnone. apply wp_bind. unfold wpu at 1, get_p. destruct Hs as [Hs|Hs].
  - assert (offset_ s.2 = zlen w) as -> by by destruct Hs as (_ & _ & _ & junk & ->).
    eapply goes_bind; [by apply append_goes; [..|left]|done|]. intros s' Hs'. by apply wp_ret, Hnone.
  - apply wp_bind. eapply wp_mono; [by apply append_lost|]. intros ok s' [-> H]. by apply wp_ret, Hnone.
Qed.

(** The last piece: the offset stays. *)
Lemma close_prints needed w t z s :
  zlen z + 1 <= needed -> zlen (w ++ t) + needed <= 2 ^ 30 -> so_far (w ++ t) s ->
  wp (ok ← append needed (z ++ [0]) 0; if negb ok then mret None else mret (Some (zlen w))) (printed w (t ++ z)) s.
Proof.
  intros Hn Hb [Hs|Hs]; apply wp_bind.
  - eapply wp_mono; [apply (append_held needed [] (z ++ [0]) 0 (w ++ t)); cbn [app]; [|done..]|].
    { rewrite zlen_app. change (zlen [0]) with 1. lia. }
    intros ok s' [(-> & _ & H)|[-> H]]; [|by apply lost_printed]. apply wp_ret. left. split; [done|]. exists (zlen t).
    rewrite zlen_app. split; [pose proof (zlen_nonneg t); pose proof (zlen_nonneg z); lia|].
    rewrite zlen_app, Z.add_0_r in H. by rewrite <- !app_assoc in *.
  - eapply wp_mono; [by apply append_lost|]. intros ok s' [-> H]. by apply lost_printed.
Qed.

(** An int that is small. *)
Lemma as_int_small n (Q : Z -> heap * printbuffer -> Prop) s : 0 <= n <= 2 ^ 30 + 4 -> Q n s -> wp (lift (as_int n)) Q s.
Proof. intros Hn HQ. eapply wp_lift_Ok; [apply as_int_Ok; unfold INT_MIN, INT_MAX; lia|done]. Qed.

Lemma numentries_small (l : list item) (Q : Z -> heap * printbuffer -> Prop) s :
  zlen l <= 2 ^ 30 -> Q (zlen l) s -> wp (on_heap (numentries l)) Q s.
Proof.
  intros Hl HQ. pose proof (zlen_nonneg l). unfold wpu, on_heap, numentries, lift. destruct s as [h p].
  rewrite as_int_Ok by (unfold INT_MIN, INT_MAX; lia). done.
Qed.

(** [fits_by]: a bound on a part of a text from the bound on the text. *)
Ltac fits_by :=
  unfold fits in *; autorewrite with len in *;
  repeat match goal with |- context [zlen ?l] => lazymatch goal with H : 0 <= zlen l |- _ => fail | _ => pose proof (zlen_nonneg l) end
         | H : context [zlen ?l] |- _ => lazymatch goal with H : 0 <= zlen l |- _ => fail | _ => pose proof (zlen_nonneg l) end end; lia.

Lemma entries_goes pv tx fmt l : Forall (fun c => prints (pv c) (tx c) /\ nonzero (tx c)) l ->
  forall w s, so_far w s -> fits w (array_body fmt (map tx l)) ->
  wp (array_entries pv fmt l) (goes (w ++ array_body fmt (map tx l))) s.
Proof.
  induction 1 as [|c l [Hc Hz] Hl IH]; intros w s Hs Hf.
  { apply wp_ret. left. by rewrite app_nil_r. }
  cbn [array_entries]. destruct l as [|c' l'].
  - cbn [map array_body] in *. apply wp_bind. eapply wp_mono; [by apply nested_goes|]. intros ? s' Hs'.
    apply wp_bind, wp_ret, wp_ret. by left.
  - set (l := c' :: l') in *.
    assert (array_body fmt (map tx (c :: l)) = tx c ++ ([44] ++ fmt_text fmt [32]) ++ array_body fmt (map tx l)) as Eb
      by (cbn [map array_body l]; by rewrite <- app_assoc).
    rewrite Eb in Hf |- *. apply wp_bind. eapply wp_mono; [apply nested_goes; [done..|fits_by]|]. intros ? s' Hs'.
    assert (zlen ([44] ++ fmt_text fmt [32]) = if fmt then 2 else 1) as El by by destruct fmt.
    eapply (goes_bind (w ++ tx c ++ [44] ++ fmt_text fmt [32])).
    + subst l. cbn beta iota zeta. rewrite (app_assoc w), (app_assoc [44]).
      apply append_goes; [rewrite zlen_app, El; change (zlen [0]) with 1; lia|done| |done]. rewrite <- El. clear -Hf. fits_by.
    + intros s2 Hs2. rewrite !app_assoc in *. apply IH; [done|]. fits_by.
    + intros s2 Hs2. by apply lost_goes.
Qed.

Lemma array_prints pv tx fmt l : Forall (fun c => prints (pv c) (tx c) /\ nonzero (tx c)) l ->
  prints (print_array_p pv fmt l) (array_out fmt (map tx l)).
Proof.
  intros Hl. destruct l as [|c l0]; [by apply emit_prints|]. cbn [print_array_p]. remember (c :: l0) as l eqn:El. clear El.
  intros w s Hs Hf. apply wp_bind, numentries_small.
  { pose proof (array_body_length fmt (map tx l)) as Hb. unfold fits in Hf. rewrite array_out_length in Hf. rewrite zlen_map in Hb.
    pose proof (zlen_nonneg w). lia. }
  unfold array_out in *. apply (open_prints 1 [91] [] 1 w (fun off => ok ← array_entries pv fmt l;
    if negb ok then mret None else ok ← append 2 ([93] ++ [0]) 0; if negb ok then mret None else mret (Some off)));
    [done|done|fits_by|done| |by intros; right].
  intros s' Hs'. eapply goes_bind; [apply (entries_goes pv tx fmt l Hl (w ++ [91])); [done|fits_by]| |by apply lost_printed].
  intros s2 Hs2. rewrite (app_assoc [91]). apply close_prints; [done|fits_by|]. by rewrite app_assoc.
Qed.

Lemma string_prints o n : o = Some n -> cstr_ok n -> prints (print_string_ptr_p o) (string_out n).
Proof.
  intros -> Hn w s Hs Hf. unfold print_string_ptr_p. apply wp_bind.
  eapply wp_lift_Ok; [apply string_text_eq; [done|unfold fits, INT_MAX in *; pose proof (zlen_nonneg w); lia]|].
  apply emit_prints; [lia|done..].
Qed.

(** The text of one member and its separator. *)
Definition member_out (fmt : bool) (depth : Z) (n v : list Z) (last : bool) : list Z :=
  fmt_text fmt (tabs depth) ++ n ++ ([58] ++ fmt_text fmt [9]) ++ v ++ ((if last then [] else [44]) ++ fmt_text fmt [10]).

Lemma member_goes pv fmt depth c n v last w s :
  0 < depth -> name c = Some n -> cstr_ok n -> nonzero (string_out n) -> prints (pv c) v -> nonzero v ->
  so_far w s -> fits w (member_out fmt depth (string_out n) v last) ->
  wp (object_member pv fmt depth c last) (goes (w ++ member_out fmt depth (string_out n) v last)) s.
Proof.
  intros Hd En Hn Hnz Hv Hvz Hs Hf. unfold object_member, member_out in *.
  eapply (goes_bind (w ++ fmt_text fmt (tabs depth))).
  { destruct fmt; [|apply wp_ret; left; by rewrite app_nil_r]. cbn [fmt_text] in *.
    replace (tabs depth) with (tabs depth ++ []) at 1 by apply app_nil_r.
    apply append_goes; rewrite ?app_nil_r, ?zlen_tabs by lia; [lia|done| |done].
    unfold fits in Hf. rewrite zlen_app, zlen_tabs in Hf by lia. fits_by. }
  2: { intros; by apply lost_goes. }
  intros s1 H1. cbn [negb]. apply wp_bind.
  eapply wp_mono; [apply nested_goes; [by apply string_prints|done..|fits_by]|]. intros ? s2 H2.
  assert (zlen ([58] ++ fmt_text fmt [9]) = if fmt then 2 else 1) as El by by destruct fmt.
  eapply (goes_bind (((w ++ fmt_text fmt (tabs depth)) ++ string_out n) ++ [58] ++ fmt_text fmt [9])).
  { rewrite <- (app_nil_r (fmt_text fmt [9])) at 1. rewrite (app_assoc [58]).
    apply append_goes; [rewrite app_nil_r, El; lia|done| |done]. rewrite <- El. clear -Hf. fits_by. }
  2: { intros; by apply lost_goes. }
  intros s3 H3. cbn [negb]. apply wp_bind. eapply wp_mono; [apply nested_goes; [done..|fits_by]|]. intros ? s4 H4.
  set (tail := (if last then [] else [44]) ++ fmt_text fmt [10]) in *.
  assert (zlen tail = fmtZ fmt 1 + (if last then 0 else 1)) as Et by by destruct fmt, last.
  assert ((if last then [] else [44]) ++ fmt_text fmt [10; 0] = tail ++ fmt_text fmt [0]) as ->
    by (subst tail; by destruct fmt, last).
  rewrite <- Et. rewrite !app_assoc in *. apply append_goes; [|done| |done].
  - rewrite zlen_app. assert (zlen (fmt_text fmt [0]) <= 1) by by destruct fmt. lia.
  - clear -Hf. fits_by.
Qed.

Lemma object_body_cons fmt depth n v ps :
  object_body fmt depth ((n, v) :: ps) =
  member_out fmt depth n v (match ps with [] => true | _ => false end) ++ object_body fmt depth ps.
Proof. unfold member_out. cbn [object_body]. rewrite <- !app_assoc. by destruct ps. Qed.

Definition pair_of (tx : item -> list Z) (c : item) : list Z * list Z := (string_out (default [] (name c)), tx c).

Lemma members_goes pv tx fmt depth l :
  0 < depth -> Forall (fun c => prints (pv c) (tx c) /\ nonzero (tx c)) l ->
  Forall (fun c => named c /\ nonzero (string_out (default [] (name c)))) l ->
  forall w s, so_far w s -> fits w (object_body fmt depth (map (pair_of tx) l)) ->
  wp (object_members pv fmt depth l) (goes (w ++ object_body fmt depth (map (pair_of tx) l))) s.
Proof.
  intros Hd Hl Hn. induction Hl as [|c l [Hc Hz] Hl IH]; intros w s Hs Hf.
  { apply wp_ret. left. by rewrite app_nil_r. }
  apply Forall_cons in Hn as [[(n & En & Hok) Hnz] Hn]. specialize (IH Hn). cbn [map] in *.
  change (pair_of tx c) with (string_out (default [] (name c)), tx c) in *.
  rewrite object_body_cons, En in *. change (default [] (Some n)) with n in *. cbn [object_members].
  assert ((match l with [] => true | _ => false end) = (match map (pair_of tx) l with [] => true | _ => false end)) as ->
    by by destruct l.
  eapply goes_bind; [apply (member_goes pv fmt depth c n (tx c)); [done..|fits_by]| |by apply lost_goes].
  intros s' Hs'. rewrite app_assoc. apply IH; [done|fits_by].
Qed.

Lemma object_prints pv tx fmt depth l :
  0 <= depth <= 2 ^ 30 -> Forall (fun c => prints (pv c) (tx c) /\ nonzero (tx c)) l ->
  Forall (fun c => named c /\ nonzero (string_out (default [] (name c)))) l ->
  prints (print_object_p pv fmt depth l) (object_out fmt depth (map (pair_of tx) l)).
Proof.
  intros Hd Hl Hn. destruct l as [|c l0].
  { intros w s Hs Hf. cbn [print_object_p]. apply wp_bind.
    apply (wp_mono _ (fun len s' => s' = s /\ len = if fmt then depth + 4 else 3)).
    { destruct fmt; [apply as_int_small; [lia|done]|by apply wp_ret]. }
    intros len s' [-> ->]. revert w s Hs Hf.
    apply emit_prints. unfold object_out, tabs. cbn [map]. destruct fmt; cbn [fmt_text]; autorewrite with len; rewrite ?zlen_replicate; lia. }
  assert (exists p ps, map (pair_of tx) (c :: l0) = p :: ps) as (p0 & ps0 & Ep) by (cbn; eauto).
  cbn [print_object_p]. remember (c :: l0) as l eqn:El. clear El. intros w s Hs Hf. apply wp_bind, numentries_small.
  { pose proof (object_body_length fmt (depth + 1) (map (pair_of tx) l) ltac:(lia)) as Hb. unfold fits in Hf.
    rewrite object_out_length in Hf by (lia || by rewrite Ep). rewrite zlen_map in Hb. pose proof (zlen_nonneg w).
    pose proof (fmtZ_bool fmt (depth + 1) ltac:(lia)). lia. }
  assert (object_out fmt depth (map (pair_of tx) l) =
    ([123] ++ fmt_text fmt [10]) ++ object_body fmt (depth + 1) (map (pair_of tx) l) ++ fmt_text fmt (tabs depth) ++ [125]) as Eo
    by (rewrite Ep; unfold object_out; by rewrite <- app_assoc).
  rewrite Eo in Hf |- *. clear Ep Eo. rewrite (app_assoc [123] (fmt_text fmt [10])).
  assert (zlen ([123] ++ fmt_text fmt [10]) = if fmt then 2 else 1) as Eh by by destruct fmt.
  apply (open_prints _ ([123] ++ fmt_text fmt [10]) [0] _ w (fun off =>
    depth ← lift (as_int (depth + 1));
    ok ← object_members pv fmt depth l;
    if negb ok then mret None else
      needed ← lift (if fmt then as_int (depth + 1) else Ok 2);
      ok ← append needed (fmt_text fmt (tabs (depth - 1)) ++ [125; 0]) 0;
      if negb ok then mret None else mret (Some off))); [|done| |done| |by intros; right].
  { rewrite zlen_app, Eh. change (zlen [0]) with 1. lia. }
  { rewrite <- Eh. clear -Hf. fits_by. }
  intros s' Hs'. apply wp_bind, as_int_small; [lia|].
  eapply goes_bind; [apply (members_goes pv tx fmt (depth + 1) l); [lia|done..|fits_by]| |by apply lost_printed].
  intros s2 Hs2. cbn [negb]. apply wp_bind.
  apply (wp_mono _ (fun needed s' => s' = s2 /\ needed = if fmt then depth + 1 + 1 else 2)).
  { destruct fmt; [apply as_int_small; [lia|done]|by apply wp_ret]. }
  intros needed s2' [-> ->]. rewrite Z.add_simpl_r. change [125; 0] with ([125] ++ [0]). rewrite !app_assoc in *.
  rewrite <- (app_assoc _ _ [125]).
  assert (zlen (fmt_text fmt (tabs depth)) = if fmt then depth else 0) as Et by (destruct fmt; [apply zlen_tabs; lia|done]).
  apply close_prints; [rewrite zlen_app, Et; change (zlen [125]) with 1; destruct fmt; lia| |by rewrite !app_assoc].
  unfold fits in Hf. rewrite !app_assoc, !zlen_app, Et in *. clear -Hf. destruct fmt; fits_by.
Qed.

Lemma print_value_p_eq fmt it depth :
  print_value_p fmt it depth =
  (let pv c := (d ← lift (as_int (depth + 1)); print_value_p fmt c d) in
   if kind it =? cJSON_NULL then emit 5 (str "null")
   else if kind it =? cJSON_False then emit 6 (str "false")
   else if kind it =? cJSON_True then emit 5 (str "true")
   else if kind it =? cJSON_Number then print_number_p it
   else if kind it =? cJSON_String then print_string_ptr_p (valuestring it)
   else if kind it =? cJSON_Array then print_array_p pv fmt (child it)
   else if kind it =? cJSON_Object then print_object_p pv fmt depth (child it)
   else mret None).
Proof. by destruct it. Qed.

Lemma number_size it : (number_text it).1 <= 64.
Proof. unfold number_text. cbn zeta. destruct (deqb _ _); [done|]. destruct (_ && _); done. Qed.

Lemma print_value_prints fmt it depth :
  0 <= depth -> depth + zlen (render fmt it depth) + 64 <= 2 ^ 30 -> printable it ->
  prints (print_value_p fmt it depth) (render fmt it depth).
Proof.
  revert depth. induction it as [it IH] using item_tree_ind. intros depth Hd Hb Hp. rewrite Forall_forall in IH.
  assert (Forall printable (child it) ->
    (forall c, c ∈ child it -> zlen (render fmt c (depth + 1)) + 2 <= zlen (render fmt it depth)) ->
    Forall (fun c => prints (d ← lift (as_int (depth + 1)); print_value_p fmt c d) (render fmt c (depth + 1)) /\
    nonzero (render fmt c (depth + 1))) (child it)) as Hch.
  { intros Hc Hlen. rewrite Forall_forall in Hc |- *. intros c Hin. specialize (Hlen c Hin). split; [|by apply render_nonzero, Hc].
    intros w s Hs Hf. apply wp_bind, as_int_small; [pose proof (zlen_nonneg (render fmt it depth)); lia|].
    apply IH; [done|lia|lia|by apply Hc|done..]. }
  destruct Hp as [it Hk|it Hk Hf|it s Hk Hv Hs|it Hk Hc|it Hk Hc Hn]; rewrite print_value_p_eq.
  - destruct Hk as [Hk|[Hk|Hk]]; by_kind Hk; by apply emit_prints.
  - by_kind Hk. unfold print_number_p. destruct (number_text_spec it Hf) as [Hfit _]. pose proof (number_size it) as Hsz.
    destruct (number_text it) as [len text]. cbn [fst snd] in *. apply emit_prints. pose proof (zlen_nonneg text). lia.
  - by_kind Hk. rewrite Hv. by apply string_prints.
  - specialize (Hch Hc). revert Hch. by_kind Hk. intros Hch. apply array_prints, Hch.
    intros c Hin. by apply (array_part fmt (fun c => render fmt c (depth + 1))).
  - specialize (Hch Hc). revert Hb Hch. by_kind Hk. intros Hb Hch.
    pose proof (fun c => object_part fmt depth (fun c => render fmt c (depth + 1)) (child it) c Hd) as Hpart.
    apply (object_prints _ (fun c => render fmt c (depth + 1))).
    + match type of Hb with _ + zlen ?t + _ <= _ => pose proof (zlen_nonneg t) end. lia.
    + apply Hch. intros c Hin. specialize (Hpart c Hin). pose proof (zlen_nonneg (string_out (default [] (name c)))).
      cbn beta in Hpart. unfold members_out in Hpart. lia.
    + eapply Forall_impl; [done|]. intros c (n & En & Hok). split; [by exists n|]. rewrite En. by apply string_out_nonzero.
Qed.
End Printed.

(** C31. cJSON_PrintBuffered makes the same text as cJSON_Print and cJSON_PrintUnformatted, whatever
    the size it starts with, zero or more, and never leaves the block it is growing: the text is in the one
    new block, or the result is NULL, which needs an allocation to fail, and no block is left.
    The text is at most 2^30 - 64 bytes long: pow2gt overflows when the block grows above 2^30, and up to
    64 bytes are asked for beyond the text. *)
Theorem json_buffered_print fmt it prebuffer h :
  printable it -> 0 <= prebuffer -> zlen (render fmt it 0) + 64 <= 2 ^ 30 ->
  exists r h', cJSON_PrintBuffered it prebuffer fmt h = Ok (r, h') /\ ep h' = ep h /\
    (r = Some (render fmt it 0) /\ live h' = live h + 1 \/ r = None /\ live h' = live h) /\
    (oracle h = [] -> exists h2, print_value fmt it 0 h = Ok (r, h2)).
Proof.
  intros Hp Hb Hf. unfold cJSON_PrintBuffered. rewrite (proj2 (Z.ltb_ge _ _)) by done.
  destruct (malloc_cases h) as (ok & h1 & Em & E1 & L1 & O1). unfold mbind, ST_bind. rewrite Em. cbn [res_bind].
  set (O := oracle h = []).
  assert (so_far (live h) (ep h) O [] (h1, Printbuffer (if ok then Some (replicate (Z.to_nat prebuffer) None) else None) prebuffer 0)) as Hs.
  { destruct ok; [left|right]; split_and!; cbn [fst snd]; try done; try lia; try by apply O1.
    - exists (replicate (Z.to_nat prebuffer) None). f_equal. by rewrite zlen_replicate, Z2Nat.id.
    - intros HO. by destruct (O1 HO). }
  destruct (wp_run _ _ _ (print_value_prints _ _ _ fmt it 0 ltac:(lia) Hf Hp [] _ Hs Hf)) as (r & [h2 p] & Er & Hr).
  unfold buffered. rewrite Er. cbn [res_bind fst snd]. eexists _, _. split; [done|].
  destruct Hr as [(-> & k & Hk & Hl & He & Ho & junk & Ep)|[-> (Hl & He & Ho & Ep)]]; cbn [fst snd] in *.
  - rewrite Ep. cbn [buffer]. change (Z.to_nat (zlen [])) with 0%nat. rewrite drop_0. cbn [app].
    rewrite text_at_text by (by apply render_nonzero). split_and!; [done|by left|]. intros HO.
    destruct (wp_run _ _ _ (print_value_makes False fmt it 0 ltac:(lia) ltac:(right; lia) Hp h)) as (r & h3 & E & _ & _ & H3).
    destruct (H3 HO) as [[]|[-> _]]. eauto.
  - split_and!; [done|by right|]. intros HO. by destruct Ho.
Qed.

(** An object, an array and an empty object, into a block of three bytes. *)
Lemma json_buffered_print_witness :
  (exists h', cJSON_PrintBuffered sample_item 3 true (Heap [] 0 None) = Ok (Some (render true sample_item 0), h') /\ live h' = 1) /\
  zlen (render true sample_item 0) = 46.
Proof.
  split; [|vm_compute; reflexivity].
  assert (printable sample_item) as Hp.
  { apply document_object; [done| |].
    - cbn [child sample_item]. repeat apply List.Forall_cons; [| | |apply List.Forall_nil].
      + apply document_number; [done|vm_compute; done].
      + apply document_array; [done|]. cbn [child]. repeat apply List.Forall_cons; [| |apply List.Forall_nil].
        * apply document_literal; auto.
        * by apply document_object; [..|apply List.Forall_nil|apply List.Forall_nil].
      + apply (document_string _ _ (str "x")); [done|done|]. repeat constructor.
    - cbn [child sample_item]. repeat apply List.Forall_cons; [| | |apply List.Forall_nil];
        (eexists; split; [reflexivity|repeat constructor]). }
  destruct (json_buffered_print true sample_item 3 (Heap [] 0 None) Hp) as (r & h' & E & _ & [[-> Hl]|[-> _]] & Ho);
    [discriminate|vm_compute; discriminate|exists h'; split; [exact E|exact Hl]|].
  destruct (Ho eq_refl) as (h2 & Ep). vm_compute in Ep. discriminate Ep.
Defined.

(** An item of a kind that is not known is not printed: at the top the buffer is not freed, in an
    array the length of bytes that were never written is taken. *)
Lemma buffered_unknown_kind :
  cJSON_PrintBuffered (set_type 7 blank) 16 true (Heap [] 0 None) = Ok (None, Heap [] 1 None) /\
  cJSON_PrintBuffered (set_type cJSON_Array (set_child [set_type 7 blank] blank)) 16 true (Heap [] 0 None) = Ub Uninit.
Proof. vm_compute. done. Qed.
