(* ===== verification/JsonCopy.v ===== *)
(** cJSON.c: copying a document (cJSON_Duplicate), the arrays made from C arrays, and the hooks. *)

From Stdlib Require Import Floats.SpecFloat.
From S2P Require Import Prelude CLib CFloat Json JsonText.

Open Scope c_scope.
Open Scope Z_scope.

(** ** cJSON_InitHooks: the two functions used from then on.  In the rest of the model they are
    cJSON_malloc and cJSON_free, whichever they are. *)

Definition cJSON_InitHooks {A F : Type} (malloc : A) (free : F) (hooks : option (option A * option F)) : A * F :=
  match hooks with
  | None => (malloc, free)
  | Some (malloc_fn, free_fn) => (default malloc malloc_fn, default free free_fn)
  end.

(** ** cJSON_Duplicate *)

(** A copy of a member that may be NULL: [None] when strdup failed. *)
Definition copy_string (s : option (list Z)) : M (option (option (list Z))) :=
  match s with
  | None => mret (Some None)
  | Some s => c ← cJSON_strdup s; mret (option_map Some c)
  end.

Definition drop_item (new : item) : M (option item) := cJSON_Delete new;; mret None.

(** The loop over the chain of children: the copies made and whether one could not be. *)
Fixpoint duplicate_children (dup : item -> M (option item)) (l : list item) : M (list item * bool) :=
  match l with
  | [] => mret ([], false)
  | c :: l =>
      newchild ← dup c;
      match newchild with
      | None => mret ([], true)
      | Some n => '(ns, fail) ← duplicate_children dup l; mret (n :: ns, fail)
      end
  end.

(** The children are copied with [recurse] = 1, whatever the argument. *)
Fixpoint cJSON_Duplicate (it : item) (recurse : bool) : M (option item) :=
  new ← cJSON_New_Item;
  match new with
  | None => mret None
  | Some new =>
      let new := set_type (type it .& Z.lnot cJSON_IsReference) (set_number (valueint it) (valuedouble it) new) in
      v ← copy_string (valuestring it);
      match v with
      | None => drop_item new
      | Some v =>
          let new := set_valuestring v new in
          s ← copy_string (name it);
          match s with
          | None => drop_item new
          | Some s =>
              let new := set_name s new in
              if recurse then
                '(ns, fail) ← duplicate_children (fun c => cJSON_Duplicate c true) (child it);
                let new := set_child ns new in
                if fail : bool then drop_item new else mret (Some new)
              else mret (Some new)
          end
      end
  end.

(** ** cJSON_CreateIntArray and the three others *)

(** The loop: an element that could not be made is a NULL that the next one, or the one before it,
    is linked to; only a first and last one is not. *)
Fixpoint create_elements {A} (create : A -> M (option item)) (first : bool) (l : list A) : M (list item) :=
  match l with
  | [] => mret []
  | x :: l =>
      n ← create x;
      match n with
      | Some n => ns ← create_elements create false l; mret (n :: ns)
      | None => match first, l with true, [] => mret [] | _, _ => fault NullDeref end
      end
  end.

Definition create_array {A} (create : A -> M (option item)) (l : list A) : M (option item) :=
  a ← cJSON_CreateArray;
  match a with
  | None => mret None
  | Some a => ns ← create_elements create true l; mret (Some (set_child ns a))
  end.

Definition cJSON_CreateIntArray (numbers : list Z) : M (option item) := create_array (fun n => cJSON_CreateNumber (dofZ n)) numbers.
Definition cJSON_CreateFloatArray (numbers : list double) : M (option item) := create_array cJSON_CreateNumber numbers.
Definition cJSON_CreateDoubleArray (numbers : list double) : M (option item) := create_array cJSON_CreateNumber numbers.
Definition cJSON_CreateStringArray (strings : list (list Z)) : M (option item) := create_array cJSON_CreateString strings.

(** ** The copy *)

(** What is copied: the references become items of their own. *)
Fixpoint copy_of (it : item) : item :=
  Item (map copy_of (child it)) (type it .& Z.lnot cJSON_IsReference) (valuestring it) (valueint it) (valuedouble it) (name it).

Lemma copy_of_eq it :
  copy_of it = Item (map copy_of (child it)) (type it .& Z.lnot cJSON_IsReference) (valuestring it) (valueint it) (valuedouble it) (name it).
Proof. by destruct it. Qed.

(** The names in the tree that are constants of somebody else, which the copy has a copy of and the
    flag of. *)
Fixpoint constant_names (it : item) : Z :=
  (if flag (type it) cJSON_StringIsConst then owned (name it) else 0) + foldr (fun c n => constant_names c + n) 0 (child it).

Definition constant_names_list (l : list item) : Z := foldr (fun c n => constant_names c + n) 0 l.

Lemma owned_nonneg {A} (o : option A) : 0 <= owned o.
Proof. by destruct o. Qed.

Lemma constant_names_nonneg it : 0 <= constant_names it.
Proof.
  induction it as [it IH] using item_tree_ind. destruct it as [l ty v n d nm]. cbn [constant_names child type name] in *.
  pose proof (owned_nonneg nm). assert (0 <= foldr (fun c n => constant_names c + n) 0 l) by (induction IH; cbn; lia).
  destruct (flag _ _); lia.
Qed.

Lemma flag_cleared ty : flag (ty .& Z.lnot cJSON_IsReference) cJSON_IsReference = false.
Proof.
  unfold flag. apply negb_false_iff, Z.eqb_eq. rewrite <- Z.land_assoc. apply Z.land_0_r.
Qed.

Lemma flag_kept ty : flag (ty .& Z.lnot cJSON_IsReference) cJSON_StringIsConst = flag ty cJSON_StringIsConst.
Proof. unfold flag. by rewrite <- Z.land_assoc. Qed.

Lemma kind_kept it : kind (copy_of it) = kind it.
Proof. rewrite copy_of_eq. unfold kind. cbn [type]. by rewrite <- Z.land_assoc. Qed.

(** The copy is printed as the item is. *)
Lemma render_copy fmt it depth : render fmt (copy_of it) depth = render fmt it depth.
Proof.
  revert depth. induction it as [it IH] using item_tree_ind. intros depth. rewrite Forall_forall in IH.
  rewrite (render_eq fmt it), render_eq, kind_kept. cbn zeta. rewrite copy_of_eq. cbn [child valuestring].
  assert (number_text (copy_of it) = number_text it) as En by (rewrite copy_of_eq; by destruct it).
  rewrite copy_of_eq in En. rewrite En. repeat case_match; try done; f_equal; rewrite map_map; apply map_ext_in; intros c Hin%list_elem_of_In.
  - by apply IH.
  - rewrite IH by done. by rewrite copy_of_eq.
Qed.

Lemma constant_names_list_nonneg l : 0 <= constant_names_list l.
Proof.
  induction l as [|c l IH]; [done|]. change (constant_names_list (c :: l)) with (constant_names c + constant_names_list l).
  pose proof (constant_names_nonneg c). lia.
Qed.

(** [m] makes the item [new] in as many blocks as cJSON_Delete frees and [k] more, or nothing but
    some of the [k]. *)
Definition copies (k : Z) (m : M (option item)) (new : item) : Prop :=
  forall h, exists r h', m h = Ok (r, h') /\ ep h' = ep h /\
    (r = Some new /\ live h' = live h + blocks new + k \/ r = None /\ live h <= live h' <= live h + k) /\
    (oracle h = [] -> r = Some new /\ oracle h' = []).

Lemma copy_string_makes s h :
  exists r h', copy_string s h = Ok (r, h') /\ ep h' = ep h /\
    (r = Some s /\ live h' = live h + owned s \/ r = None /\ live h' = live h) /\
    (oracle h = [] -> r = Some s /\ oracle h' = []).
Proof.
  destruct s as [s|]; cbn [copy_string].
  - destruct (wp_run _ _ _ (new_string_makes (u := False) (zlen s + 1) s (or_intror (Z.le_refl _)) h)) as (r & h' & En & He & Hl & Ho).
    unfold mbind, ST_bind, cJSON_strdup. rewrite En. cbn [res_bind]. eexists _, _. split; [done|]. split; [done|]. split.
    + destruct Hl as [[-> ?]|[-> ?]]; [by left|by right].
    + intros H. by destruct (Ho H) as [[]|[-> ?]].
  - eexists _, _. split; [done|]. split; [done|]. split; [left; split; [done|]; cbn [owned]; lia|done].
Qed.

Lemma children_copied dup l : Forall (fun c => copies (constant_names c) (dup c) (copy_of c)) l -> forall h,
  exists ns f h' k, duplicate_children dup l h = Ok ((ns, f), h') /\ ep h' = ep h /\ live h' = live h + blocks_list ns + k /\
    0 <= k <= constant_names_list l /\ (f = false -> ns = map copy_of l /\ k = constant_names_list l) /\
    (oracle h = [] -> f = false /\ oracle h' = []).
Proof.
  induction 1 as [|c l Hc Hl IH]; intros h; cbn [duplicate_children].
  - exists [], false, h, 0. cbn. split_and!; (done || lia).
  - unfold mbind, ST_bind, mret, ST_ret in *. change (constant_names_list (c :: l)) with (constant_names c + constant_names_list l).
    pose proof (constant_names_list_nonneg l). pose proof (constant_names_nonneg c). destruct (Hc h) as (r & h1 & -> & E1 & L1 & O1). cbn [res_bind].
    destruct L1 as [[-> L1]|[-> L1]].
    + destruct (IH h1) as (ns & f & h2 & k & -> & E2 & L2 & K2 & F2 & O2). cbn [res_bind].
      exists (copy_of c :: ns), f, h2, (constant_names c + k). rewrite blocks_list_cons. split_and!; [done|congruence|lia|lia|lia| |].
      * intros Hf. destruct (F2 Hf) as [-> ->]. done.
      * intros Ho. destruct (O1 Ho). auto.
    + exists [], true, h1, (live h1 - live h). split_and!; [done|done|cbn; lia|lia|lia|done|]. intros Ho. by destruct (O1 Ho).
Qed.

(** What cJSON_Delete frees of a copy, and the constant names it leaves. *)
Lemma blocks_item l ty v n d nm : flag ty cJSON_IsReference = false ->
  blocks (Item l ty v n d nm) + (if flag ty cJSON_StringIsConst then owned nm else 0) = blocks_list l + owned v + owned nm + 1.
Proof. intros Hr. cbn [blocks child type valuestring name]. rewrite Hr. unfold blocks_list. destruct (flag ty cJSON_StringIsConst); lia. Qed.

Lemma duplicate_copies it : copies (constant_names it) (cJSON_Duplicate it true) (copy_of it).
Proof.
  induction it as [it Hch] using item_tree_ind. intros h. destruct it as [l ty v n d nm]. cbn [child type] in *.
  cbn [constant_names child type name]. fold (constant_names_list l). rewrite <- flag_kept.
  pose proof (flag_cleared ty) as Hr. rewrite copy_of_eq. cbn [cJSON_Duplicate child type valuestring valueint valuedouble name].
  remember (ty .& Z.lnot cJSON_IsReference) as ty' eqn:Ety. clear Ety.
  unfold drop_item, cJSON_New_Item, cJSON_Delete, cJSON_free, mbind, ST_bind, mret, ST_ret, set_type, set_number, set_valuestring, set_name, set_child.
  cbn [child type valuestring valueint valuedouble name].
  pose proof (fun ns v nm => blocks_item ns ty' v n d nm Hr) as Hb. set (cn := if flag ty' cJSON_StringIsConst then owned nm else 0) in *.
  assert (0 <= cn /\ 0 <= constant_names_list l) as [Hcn Hcl].
  { split; [subst cn; pose proof (owned_nonneg nm); destruct (flag ty' cJSON_StringIsConst); lia|apply constant_names_list_nonneg]. }
  destruct (malloc_cases h) as (b & h1 & -> & E1 & L1 & O1). cbn [res_bind]. destruct b; cbn [res_bind].
  2: { eexists _, _. split; [done|]. split; [done|]. split; [right; split; [done|lia]|]. intros Ho. by destruct (O1 Ho). }
  destruct (copy_string_makes v h1) as (r & h2 & -> & E2 & L2 & O2). cbn [res_bind]. destruct L2 as [[-> L2]|[-> L2]]; cbn [res_bind blank child type valuestring valueint valuedouble name].
  2: { eexists _, _. split; [done|]. specialize (Hb [] None None). cbn [owned blocks_list foldr] in Hb.
       assert ((if flag ty' cJSON_StringIsConst then 0 else 0) = 0) as E0 by by destruct (flag ty' cJSON_StringIsConst). cbn [live ep].
       split; [congruence|]. split; [right; split; [done|lia]|].
       intros Ho. destruct (O1 Ho) as [_ Ho1]. by destruct (O2 Ho1). }
  destruct (copy_string_makes nm h2) as (r & h3 & -> & E3 & L3 & O3). cbn [res_bind]. destruct L3 as [[-> L3]|[-> L3]]; cbn [res_bind].
  2: { eexists _, _. split; [done|]. specialize (Hb [] v None). cbn [owned blocks_list foldr] in Hb.
       assert ((if flag ty' cJSON_StringIsConst then 0 else 0) = 0) as E0 by by destruct (flag ty' cJSON_StringIsConst). cbn [live ep].
       split; [congruence|]. split; [right; split; [done|lia]|].
       intros Ho. destruct (O1 Ho) as [_ Ho1], (O2 Ho1) as [_ Ho2]. by destruct (O3 Ho2). }
  destruct (children_copied _ l Hch h3) as (ns & f & h4 & k & -> & E4 & L4 & K4 & F4 & O4). cbn [res_bind].
  specialize (Hb ns v nm). fold cn in Hb. destruct f; cbn [res_bind].
  - eexists _, _. split; [done|]. cbn [live ep]. split; [congruence|].
    split; [right; split; [done|lia]|]. intros Ho. destruct (O1 Ho) as [_ Ho1], (O2 Ho1) as [_ Ho2], (O3 Ho2) as [_ Ho3]. by destruct (O4 Ho3).
  - destruct (F4 eq_refl) as [-> ->]. eexists _, _. split; [done|]. split; [congruence|].
    split; [left; split; [done|lia]|]. intros Ho. destruct (O1 Ho) as [_ Ho1], (O2 Ho1) as [_ Ho2], (O3 Ho2) as [_ Ho3]. by destruct (O4 Ho3).
Qed.

(** C32. A recursive copy of a document is complete or nothing: it has the same text, printed in any
    way, and it owns all its blocks, the ones of the references among them, so that cJSON_Delete
    gives all of them back, and after a failed allocation no block is left; but for the names that
    are constants (cJSON_StringIsConst): the copy has its own copy of them with the flag of a constant, which
    is never freed, one block for each. *)
Theorem json_duplicate it h :
  exists r h', cJSON_Duplicate it true h = Ok (r, h') /\ ep h' = ep h /\ (oracle h = [] -> r <> None) /\
    match r with
    | None => live h <= live h' <= live h + constant_names it
    | Some new => (forall fmt depth, render fmt new depth = render fmt it depth) /\
        exists h2, cJSON_Delete new h' = Ok (tt, h2) /\ live h2 = live h + constant_names it
    end.
Proof.
  destruct (duplicate_copies it h) as (r & h' & E & He & Hl & Ho). exists r, h'. split_and!; [done..| |].
  - intros H. by destruct (Ho H) as [-> _].
  - destruct Hl as [[-> Hl]|[-> Hl]]; [|done]. split; [intros; apply render_copy|]. eexists. split; [done|]. cbn. lia.
Qed.

(** A name with a reference and an array below it. *)
Definition linked : item :=
  Item [Item [Item [] cJSON_True None 1 (S754_zero false) None] (cJSON_Array + cJSON_IsReference) None 0 (S754_zero false) (Some (str "r"))]
    cJSON_Object None 0 (S754_zero false) None.

Example linked_copy :
  exists new h2, cJSON_Duplicate linked true (Heap [] 5 None) = Ok (Some new, h2) /\ live h2 = 9 /\ constant_names linked = 0.
Proof. eexists _, _. split; [vm_compute; reflexivity|]. done. Qed.

(** The copy of an item with a constant name keeps the flag although the name is its own now: it
    is never freed. *)
Lemma duplicate_leaks_constant_name :
  exists new h, cJSON_Duplicate (Item [] (cJSON_NULL + cJSON_StringIsConst) None 0 (S754_zero false) (Some (str "k"))) true (Heap [] 0 None)
    = Ok (Some new, h) /\ exists h2, cJSON_Delete new h = Ok (tt, h2) /\ live h2 = 1.
Proof. eexists _, _. split; [vm_compute; reflexivity|]. eexists. split; [reflexivity|done]. Qed.

(** ** The arrays *)

Lemma create_elements_ok {A} (create : A -> M (option item)) (mk : A -> item) (n : Z) l :
  (forall x h, oracle h = [] -> create x h = Ok (Some (mk x), Heap [] (live h + n) (ep h))) ->
  forall first h, oracle h = [] -> create_elements create first l h = Ok (map mk l, Heap [] (live h + n * zlen l) (ep h)).
Proof.
  intros Hc. induction l as [|x l IH]; intros first h Ho; cbn [create_elements].
  - rewrite zlen_nil, Z.mul_0_r, Z.add_0_r. unfold mret, ST_ret. by destruct h; cbn in *; subst.
  - unfold mbind, ST_bind, mret, ST_ret in *. rewrite Hc by done. cbn [res_bind]. rewrite IH by done. cbn [res_bind live ep map].
    rewrite zlen_cons. do 3 f_equal. lia.
Qed.

Definition number_item (n : Z) : item := set_type cJSON_Number (set_number n (dofZ n) blank).

(** An array of numbers, each with the int it was made from. *)
Lemma cJSON_CreateIntArray_ok l h :
  oracle h = [] -> Forall (fun n => INT_MIN <= n <= INT_MAX) l ->
  cJSON_CreateIntArray l h = Ok (Some (set_child (map number_item l) (set_type cJSON_Array blank)), Heap [] (live h + 1 + zlen l) (ep h)).
Proof.
  intros Ho Hl. unfold cJSON_CreateIntArray, create_array, cJSON_CreateArray, cJSON_CreateType, cJSON_New_Item, cJSON_malloc, alloc.
  unfold mbind, ST_bind, mret, ST_ret. rewrite Ho. cbn [res_bind option_map live ep].
  rewrite (create_elements_ok _ (fun n => set_type cJSON_Number (set_number (dtoint (dofZ n)) (dofZ n) blank)) 1); [|clear|done].
  - cbn [res_bind live ep]. do 2 f_equal; [|f_equal; lia]. do 2 f_equal. apply map_ext_in. intros n Hn%list_elem_of_In.
    rewrite Forall_forall in Hl. unfold number_item. by rewrite dtoint_int by by apply Hl.
  - intros x h Ho. unfold cJSON_CreateNumber, cJSON_New_Item, cJSON_malloc, alloc, mbind, ST_bind, mret, ST_ret. by rewrite Ho.
Qed.

(** No element is allowed to fail but a first that is the last. *)
Lemma create_array_crash :
  cJSON_CreateIntArray [1; 2] (Heap [true; true; false] 0 None) = Ub NullDeref /\
  cJSON_CreateIntArray [1; 2] (Heap [true; false] 0 None) = Ub NullDeref /\
  cJSON_CreateIntArray [1] (Heap [true; false] 0 None) = Ok (Some (set_type cJSON_Array blank), Heap [] 1 None).
Proof. vm_compute. done. Qed.
