(* ===== verification/JsonHeap.v ===== *)
(** cJSON.c, the functions that edit the chain of children in place: a store of items
    linked by next, prev and child.  The contents of an item are an [item] without
    children (Json.v); allocation of strings succeeds here, allocation of items
    may fail. *)

From Stdlib Require Import Floats.SpecFloat.
From S2P Require Import Prelude CLib CFloat Json.

Open Scope c_scope.
Open Scope Z_scope.

Abbreviation loc := positive (only parsing).

Record node : Type := Node { next : option loc; prev : option loc; down : option loc; info : item }.

(** [down] is the member child of the struct. *)
Definition new_node : node := Node None None None blank.

Abbreviation store := (gmap positive node) (only parsing).

Definition set_next (p : option loc) (n : node) : node := Node p (prev n) (down n) (info n).
Definition set_prev (p : option loc) (n : node) : node := Node (next n) p (down n) (info n).
Definition set_down (p : option loc) (n : node) : node := Node (next n) (prev n) p (info n).
Definition set_info (i : item) (n : node) : node := Node (next n) (prev n) (down n) i.

(** c->... of a pointer that is not NULL. *)
Definition load (s : gmap loc node) (p : loc) : res node :=
  match s !! p with Some n => Ok n | None => Ub UseAfterFree end.

Definition store_at (s : gmap loc node) (p : loc) (f : node -> node) : res (gmap loc node) :=
  let! n := load s p in Ok (<[p:=f n]> s).

(** The same through a pointer that may be NULL and is tested first. *)
Definition store_opt (s : gmap loc node) (p : option loc) (f : node -> node) : res (gmap loc node) :=
  match p with None => Ok s | Some p => store_at s p f end.

(** A chain that is not circular ends within the number of items; [NoReturn] is a
    loop in the chain. *)
Definition fuel_of (s : gmap loc node) : nat := S (size s).

(** ** Walking the chain *)

Fixpoint count_loop (fuel : nat) (s : gmap loc node) (c : option loc) (i : Z) : res Z :=
  match fuel with
  | O => Ub NoReturn
  | S fuel =>
      match c with
      | None => Ok i
      | Some c => let! n := load s c in count_loop fuel s (next n) (i + 1)
      end
  end.

Definition cJSON_GetArraySize (s : gmap loc node) (array : loc) : res Z :=
  let! a := load s array in count_loop (fuel_of s) s (down a) 0.

(** while (c && which > 0) c = c->next, which--; *)
Fixpoint walk (which : nat) (s : gmap loc node) (c : option loc) : res (option loc) :=
  match which, c with
  | S which, Some c => let! n := load s c in walk which s (next n)
  | _, _ => Ok c
  end.

Definition nth_child (s : gmap loc node) (array : loc) (which : Z) : res (option loc) :=
  let! a := load s array in walk (Z.to_nat which) s (down a).

Definition cJSON_GetArrayItem (s : gmap loc node) (array : loc) (which : Z) : res (option loc) :=
  nth_child s array which.

(** while (c && cJSON_strcasecmp(c->string, string)) i++, c = c->next; *)
Fixpoint find_name (fuel : nat) (s : gmap loc node) (c : option loc) (str : option (list Z)) (i : Z)
    : res (option (loc * Z)) :=
  match fuel with
  | O => Ub NoReturn
  | S fuel =>
      match c with
      | None => Ok None
      | Some c =>
          let! n := load s c in
          if cJSON_strcasecmp (name (info n)) str =? 0 then Ok (Some (c, i))
          else find_name fuel s (next n) str (i + 1)
      end
  end.

Definition find_child (s : gmap loc node) (object : loc) (str : list Z) : res (option (loc * Z)) :=
  let! o := load s object in find_name (fuel_of s) s (down o) (Some str) 0.

Definition cJSON_GetObjectItem (s : gmap loc node) (object : loc) (str : list Z) : res (option loc) :=
  let! r := find_child s object str in Ok (option_map fst r).

(** ** Adding *)

Fixpoint last_child (fuel : nat) (s : gmap loc node) (c : loc) : res loc :=
  match fuel with
  | O => Ub NoReturn
  | S fuel =>
      let! n := load s c in
      match next n with None => Ok c | Some c' => last_child fuel s c' end
  end.

Definition suffix_object (s : gmap loc node) (p it : loc) : res (gmap loc node) :=
  let! s := store_at s p (set_next (Some it)) in store_at s it (set_prev (Some p)).

Definition cJSON_AddItemToArray (s : gmap loc node) (array : loc) (it : option loc) : res (gmap loc node) :=
  let! a := load s array in
  match it with
  | None => Ok s
  | Some it =>
      match down a with
      | None => store_at s array (set_down (Some it))
      | Some c => let! c := last_child (fuel_of s) s c in suffix_object s c it
      end
  end.

Definition cJSON_AddItemToObject (s : gmap loc node) (object : loc) (str : list Z) (it : option loc)
    : res (gmap loc node) :=
  match it with
  | None => Ok s
  | Some p =>
      let! n := load s p in
      match name (info n) with
      | Some _ => if flag (type (info n)) cJSON_StringIsConst then Ub BadFree
                  else let! s := store_at s p (set_info (set_name (Some str) (info n))) in
                       cJSON_AddItemToArray s object it
      | None => let! s := store_at s p (set_info (set_name (Some str) (info n))) in cJSON_AddItemToArray s object it
      end
  end.

(** The name is a constant: it is not freed later. *)
Definition cJSON_AddItemToObjectCS (s : gmap loc node) (object : loc) (str : list Z) (it : option loc)
    : res (gmap loc node) :=
  match it with
  | None => Ok s
  | Some p =>
      let! n := load s p in
      let i := set_type (type (info n) .| cJSON_StringIsConst) (set_name (Some str) (info n)) in
      let! s := store_at s p (set_info i) in cJSON_AddItemToArray s object it
  end.

(** A new item that shares the children of the old one; [ok] says whether the
    allocation succeeds, the new location is [fresh]. *)
Definition create_reference (ok : bool) (s : gmap loc node) (it : loc) : res (option loc * gmap loc node) :=
  let! n := load s it in
  if ok then
    let p := fresh (dom s) in
    let i := set_type (type (info n) .| cJSON_IsReference) (set_name None (info n)) in
    Ok (Some p, <[p:=Node None None (down n) i]> s)
  else Ok (None, s).

Definition cJSON_AddItemReferenceToArray (ok : bool) (s : gmap loc node) (array it : loc) : res (gmap loc node) :=
  let! (r, s) := create_reference ok s it in cJSON_AddItemToArray s array r.

Definition cJSON_AddItemReferenceToObject (ok : bool) (s : gmap loc node) (object : loc) (str : list Z) (it : loc)
    : res (gmap loc node) :=
  let! (r, s) := create_reference ok s it in cJSON_AddItemToObject s object str r.

(** ** Deleting: the item, its children unless it is a reference, and every item that
    follows it in its chain *)

Fixpoint cJSON_Delete (fuel : nat) (s : gmap loc node) (c : option loc) : res (gmap loc node) :=
  match fuel with
  | O => Ub NoReturn
  | S fuel =>
      match c with
      | None => Ok s
      | Some p =>
          let! n := load s p in
          let! s := if flag (type (info n)) cJSON_IsReference then Ok s
                    else match down n with None => Ok s | d => cJSON_Delete fuel s d end in
          let! _ := load s p in
          cJSON_Delete fuel (delete p s) (next n)
      end
  end.

Definition delete_item (s : gmap loc node) (c : option loc) : res (gmap loc node) := cJSON_Delete (fuel_of s) s c.

(** ** Detaching *)

(** The links of the detached item are cleared only when it was the first one. *)
Definition cJSON_DetachItemFromArray (s : gmap loc node) (array : loc) (which : Z)
    : res (option loc * gmap loc node) :=
  let! c := nth_child s array which in
  match c with
  | None => Ok (None, s)
  | Some c =>
      let! n := load s c in
      let! s := store_opt s (prev n) (set_next (next n)) in
      let! s := store_opt s (next n) (set_prev (prev n)) in
      let! a := load s array in
      let! s := if bool_decide (down a = Some c) then
                  let! n := load s c in
                  let! s := store_at s array (set_down (next n)) in
                  store_at s c (fun n => set_prev None (set_next None n))
                else Ok s in
      Ok (Some c, s)
  end.

Definition cJSON_DeleteItemFromArray (s : gmap loc node) (array : loc) (which : Z) : res (gmap loc node) :=
  let! (c, s) := cJSON_DetachItemFromArray s array which in delete_item s c.

Definition cJSON_DetachItemFromObject (s : gmap loc node) (object : loc) (str : list Z)
    : res (option loc * gmap loc node) :=
  let! r := find_child s object str in
  match r with
  | Some (_, i) => cJSON_DetachItemFromArray s object i
  | None => Ok (None, s)
  end.

Definition cJSON_DeleteItemFromObject (s : gmap loc node) (object : loc) (str : list Z) : res (gmap loc node) :=
  let! (c, s) := cJSON_DetachItemFromObject s object str in delete_item s c.

(** ** Inserting and replacing *)

(** What both do once the links of the new item are set: the array or the item
    before points to it. *)
Definition link_new (s : gmap loc node) (array c newitem : loc) : res (gmap loc node) :=
  let! a := load s array in
  if bool_decide (down a = Some c) then store_at s array (set_down (Some newitem))
  else
    let! n := load s newitem in
    match prev n with None => Ub NullDeref | Some p => store_at s p (set_next (Some newitem)) end.

Definition cJSON_InsertItemInArray (s : gmap loc node) (array : loc) (which : Z) (newitem : loc)
    : res (gmap loc node) :=
  let! c := nth_child s array which in
  match c with
  | None => cJSON_AddItemToArray s array (Some newitem)
  | Some c =>
      let! s := store_at s newitem (set_next (Some c)) in
      let! n := load s c in
      let! s := store_at s newitem (set_prev (prev n)) in
      let! s := store_at s c (set_prev (Some newitem)) in
      link_new s array c newitem
  end.

Definition cJSON_ReplaceItemInArray (s : gmap loc node) (array : loc) (which : Z) (newitem : loc)
    : res (gmap loc node) :=
  let! c := nth_child s array which in
  match c with
  | None => Ok s
  | Some c =>
      let! n := load s c in
      let! s := store_at s newitem (fun w => set_prev (prev n) (set_next (next n) w)) in
      let! s := store_opt s (next n) (set_prev (Some newitem)) in
      let! s := link_new s array c newitem in
      let! s := store_at s c (fun n => set_prev None (set_next None n)) in
      delete_item s (Some c)
  end.

Definition cJSON_ReplaceItemInObject (s : gmap loc node) (object : loc) (str : list Z) (newitem : loc)
    : res (gmap loc node) :=
  let! r := find_child s object str in
  match r with
  | None => Ok s
  | Some (_, i) =>
      let! n := load s newitem in
      let! s := store_at s newitem (set_info (set_name (Some str) (info n))) in
      cJSON_ReplaceItemInArray s object i newitem
  end.

(** * The chain as a list *)

Definition before (l : list loc) (i : nat) : option loc := match i with O => None | S j => l !! j end.

(** The children of [a] are [l], linked in both directions. *)
Definition linked (s : gmap loc node) (l : list loc) : Prop :=
  forall i x, l !! i = Some x -> exists n, s !! x = Some n /\ next n = l !! S i /\ prev n = before l i.

Definition list_of (s : gmap loc node) (a : loc) (l : list loc) : Prop :=
  NoDup l /\ a ∉ l /\ (exists n, s !! a = Some n /\ down n = l !! 0%nat) /\ linked s l.

Lemma load_Some s p n : s !! p = Some n -> load s p = Ok n.
Proof. unfold load. by intros ->. Qed.

Lemma store_at_Some s p n f : s !! p = Some n -> store_at s p f = Ok (<[p:=f n]> s).
Proof. intros H. unfold store_at. by rewrite (load_Some _ _ _ H). Qed.

Lemma linked_dom s l x : linked s l -> x ∈ l -> x ∈ dom s.
Proof. intros Hl [i Hi]%list_elem_of_lookup. destruct (Hl i x Hi) as (n & Hn & _). by eapply elem_of_dom_2. Qed.

Lemma list_of_fuel s a l : list_of s a l -> (length l < fuel_of s)%nat.
Proof.
  intros (Hnd & Ha & (n & Hn & _) & Hl). unfold fuel_of. rewrite <- size_dom.
  assert (length l = size (list_to_set l : gset loc)) as -> by by rewrite size_list_to_set.
  assert (list_to_set l ⊆ dom s) as Hs; [|by apply subseteq_size in Hs; lia].
  intros x Hx%elem_of_list_to_set. by eapply linked_dom.
Qed.

Lemma walk_linked s l k i : linked s l -> walk k s (l !! i) = Ok (l !! (i + k)%nat).
Proof.
  intros Hl. revert i. induction k as [|k IH]; intros i; cbn [walk]; [by rewrite Nat.add_0_r|].
  destruct (l !! i) as [x|] eqn:E.
  - destruct (Hl i x E) as (n & Hn & Hnext & _). rewrite (load_Some _ _ _ Hn). cbn [res_bind]. rewrite Hnext, IH.
    do 2 f_equal. lia.
  - symmetry. f_equal. apply lookup_ge_None. apply lookup_ge_None in E. lia.
Qed.

Lemma nth_child_spec s a l i : list_of s a l -> nth_child s a i = Ok (l !! Z.to_nat i).
Proof.
  intros (_ & _ & (n & Hn & Hd) & Hl). unfold nth_child. rewrite (load_Some _ _ _ Hn). cbn [res_bind].
  rewrite Hd. by apply walk_linked.
Qed.

Lemma count_linked s l fuel i c :
  linked s l -> (i <= length l)%nat -> (length l - i < fuel)%nat ->
  count_loop fuel s (l !! i) c = Ok (c + Z.of_nat (length l - i)).
Proof.
  intros Hl. revert i c. induction fuel as [|fuel IH]; intros i c Hi Hf; [lia|]. cbn [count_loop].
  destruct (l !! i) as [x|] eqn:E.
  - apply lookup_lt_Some in E as Hlt. destruct (Hl i x E) as (n & Hn & Hnext & _).
    rewrite (load_Some _ _ _ Hn). cbn [res_bind]. rewrite Hnext, IH by lia. f_equal. lia.
  - apply lookup_ge_None in E. f_equal. lia.
Qed.

Lemma last_linked s l fuel i x :
  linked s l -> l !! i = Some x -> (length l - i <= fuel)%nat ->
  exists y, last_child fuel s x = Ok y /\ l !! pred (length l) = Some y.
Proof.
  intros Hl. revert i x. induction fuel as [|fuel IH]; intros i x Hi Hf; apply lookup_lt_Some in Hi as Hlt; [lia|].
  cbn [last_child]. destruct (Hl i x Hi) as (n & Hn & Hnext & _). rewrite (load_Some _ _ _ Hn). cbn [res_bind]. rewrite Hnext.
  destruct (l !! S i) as [y|] eqn:E; [apply (IH (S i)); [done|lia]|].
  apply lookup_ge_None in E. exists x. split; [done|]. replace (pred (length l)) with i by lia. done.
Qed.

(** ** Lists with an element put in *)

Definition insert_at (k : nat) (x : loc) (l : list loc) : list loc := take k l ++ x :: drop k l.

Lemma insert_at_lookup k x l i :
  (k <= length l)%nat ->
  insert_at k x l !! i = if decide (i < k)%nat then l !! i else if decide (i = k) then Some x else l !! pred i.
Proof.
  intros Hk. unfold insert_at. assert (length (take k l) = k) as Ht by (rewrite length_take; lia).
  destruct (decide (i < k)%nat).
  - rewrite lookup_app_l by lia. by apply lookup_take_lt.
  - rewrite lookup_app_r by lia. rewrite Ht. destruct (decide (i = k)) as [->|].
    + by rewrite Nat.sub_diag.
    + destruct (i - k)%nat as [|j] eqn:E; [lia|]. change ((x :: drop k l) !! S j) with (drop k l !! j).
      rewrite lookup_drop. f_equal. lia.
Qed.

Lemma insert_at_elem k x y l : y ∈ insert_at k x l <-> y = x \/ y ∈ l.
Proof.
  unfold insert_at. rewrite elem_of_app, elem_of_cons. rewrite <- (take_drop k l) at 3. rewrite elem_of_app. tauto.
Qed.

Lemma insert_at_NoDup k x l : NoDup l -> x ∉ l -> NoDup (insert_at k x l).
Proof.
  intros Hl Hx. unfold insert_at. apply NoDup_app. rewrite <- (take_drop k l) in Hl, Hx.
  apply NoDup_app in Hl as (H1 & H2 & H3). rewrite not_elem_of_app in Hx.
  split; [done|]. split; [set_solver|]. apply NoDup_cons. tauto.
Qed.

Lemma insert_at_end x l : insert_at (length l) x l = l ++ [x].
Proof. unfold insert_at. by rewrite firstn_all, drop_all. Qed.

Lemma delete_lookup (l : list loc) k i :
  delete k l !! i = if decide (i < k)%nat then l !! i else l !! S i.
Proof. destruct (decide (i < k)%nat); [by apply list_lookup_delete_lt|apply list_lookup_delete_ge; lia]. Qed.

Lemma delete_ge (l : list loc) k : (length l <= k)%nat -> delete k l = l.
Proof. revert k. induction l as [|y l IH]; intros [|k] Hk; cbn in *; [done|done|lia|]. f_equal. apply IH. lia. Qed.

(** Positions in a list without duplicates. *)
Lemma NoDup_index (l : list loc) i j x : NoDup l -> l !! i = Some x -> l !! j = Some x -> i = j.
Proof. intros. by eapply NoDup_lookup. Qed.

(** ** The stores the edits leave *)

Implicit Types (s : gmap loc node) (l : list loc).

(** [x] between positions [k - 1] and [k]. *)
Definition inserted s a l (k : nat) x nx s' : Prop := forall y,
  s' !! y = if decide (y = x) then Some (Node (l !! k) (before l k) (down nx) (info nx))
            else if decide (l !! k = Some y) then set_prev (Some x) <$> s !! y
            else if decide (before l k = Some y) then set_next (Some x) <$> s !! y
            else if decide (y = a /\ k = 0%nat) then set_down (Some x) <$> s !! y
            else s !! y.

(** Without the item at [k]; what happens to that item is left open. *)
Definition removed s a l (k : nat) s' : Prop := forall y, l !! k <> Some y ->
  s' !! y = if decide (l !! S k = Some y) then set_prev (before l k) <$> s !! y
            else if decide (before l k = Some y) then set_next (l !! S k) <$> s !! y
            else if decide (y = a /\ k = 0%nat) then set_down (l !! 1%nat) <$> s !! y
            else s !! y.

Lemma before_Some l k y : before l k = Some y <-> exists j, k = S j /\ l !! j = Some y.
Proof. destruct k; cbn; naive_solver. Qed.

Lemma before_insert_at l k x i : (k <= length l)%nat ->
  before (insert_at k x l) i = if decide (i <= k)%nat then before l i else if decide (i = S k) then Some x else before l (pred i).
Proof.
  intros Hk. destruct i as [|i]; cbn [before]; [done|]. rewrite insert_at_lookup by done.
  destruct (decide (i < k)%nat); [by rewrite decide_True by lia|].
  rewrite (decide_False (P := (S i <= k)%nat)) by lia.
  destruct (decide (i = k)) as [->|]; [by rewrite decide_True by lia|].
  rewrite (decide_False (P := (S i = S k)%nat)) by lia. destruct i; [lia|]. done.
Qed.

Lemma inserted_list_of s a l k x nx s' :
  list_of s a l -> (k <= length l)%nat -> x ∉ l -> x <> a -> inserted s a l k x nx s' ->
  list_of s' a (insert_at k x l).
Proof.
  intros (Hnd & Ha & (na & Hna & Hda) & Hl) Hk Hx Hxa Hs.
  assert (forall i y, l !! i = Some y -> y <> x /\ y <> a) as Hin.
  { intros i y Hy%list_elem_of_lookup_2. split; by intros ->. }
  split_and!.
  - by apply insert_at_NoDup.
  - rewrite insert_at_elem. naive_solver.
  - assert (l !! k <> Some a) by (intros E%list_elem_of_lookup_2; done).
    assert (before l k <> Some a) by (intros (j & -> & E%list_elem_of_lookup_2)%before_Some; done).
    rewrite Hs. rewrite !decide_False by done. rewrite insert_at_lookup by done. rewrite Hna.
    destruct k as [|k].
    + rewrite decide_True by done. by eexists.
    + rewrite decide_False by (intros [_ ?]; done). rewrite decide_True by lia. by eexists.
  - intros i y Hy. rewrite insert_at_lookup in Hy by done. rewrite insert_at_lookup by done. rewrite (Hs y).
    rewrite before_insert_at by done. destruct (decide (i < k)%nat).
    + destruct (Hin i y Hy) as [Hyx Hya]. rewrite decide_False by done.
      rewrite decide_False by (intros E; pose proof (NoDup_index l i k y Hnd Hy E); lia).
      destruct (Hl i y Hy) as (ny & Hn & Hnext & Hprev). rewrite Hn. rewrite (decide_True (P := (i <= k)%nat)) by lia.
      destruct (decide (before l k = Some y)) as [E|E].
      * apply before_Some in E as (j & -> & E). pose proof (NoDup_index l i j y Hnd Hy E) as ->.
        rewrite decide_False by lia. rewrite decide_True by lia. by eexists.
      * rewrite (decide_False (P := y = a /\ _)) by naive_solver. eexists. split; [done|]. split; [|done].
        destruct (decide (S i < k)%nat); [done|]. exfalso. apply E, before_Some. exists i. split; [lia|done].
    + destruct (decide (i = k)) as [->|].
      * injection Hy as <-. rewrite decide_True by done. eexists. split; [done|]. cbn.
        rewrite (decide_False (P := (S k < k)%nat)), (decide_False (P := (S k = k)%nat)) by lia.
        by rewrite decide_True by lia.
      * destruct i as [|i]; [lia|]. cbn [pred] in *. destruct (Hin i y Hy) as [Hyx Hya]. rewrite decide_False by done.
        destruct (Hl i y Hy) as (ny & Hn & Hnext & Hprev). rewrite Hn.
        rewrite (decide_False (P := (S (S i) < k)%nat)), (decide_False (P := (S (S i) = k)%nat)), (decide_False (P := (S i <= k)%nat)) by lia.
        destruct (decide (l !! k = Some y)) as [E|E].
        -- pose proof (NoDup_index l i k y Hnd Hy E) as ->. rewrite decide_True by done. by eexists.
        -- rewrite decide_False by (intros [j [-> Ej]]%before_Some; pose proof (NoDup_index l i j y Hnd Hy Ej); lia).
           rewrite (decide_False (P := y = a /\ _)) by naive_solver.
           rewrite decide_False by (intros [= ->]; done). by eexists.
Qed.

Lemma removed_list_of s a l k s' :
  list_of s a l -> (k < length l)%nat -> removed s a l k s' -> list_of s' a (delete k l).
Proof.
  intros (Hnd & Ha & (na & Hna & Hda) & Hl) Hk Hs.
  assert (forall i y, l !! i = Some y -> y <> a) as Hin by (intros i y Hy%list_elem_of_lookup_2; by intros ->).
  assert (forall i, l !! i <> Some a) as Hna' by (intros i E; by eapply Hin).
  split_and!.
  - eapply sublist_NoDup; [exact Hnd|apply sublist_delete].
  - intros (i & Hi)%list_elem_of_lookup. rewrite delete_lookup in Hi. destruct (decide _); by eapply Hin.
  - assert (before l k <> Some a) by (intros (j & -> & E)%before_Some; by eapply Hin).
    rewrite Hs by done. rewrite !decide_False by done. rewrite delete_lookup, Hna. destruct k as [|k].
    + rewrite decide_True by done. by eexists.
    + rewrite decide_False by (intros [_ ?]; done). rewrite decide_True by lia. by eexists.
  - intros i y Hy. rewrite delete_lookup in Hy. rewrite delete_lookup.
    assert (Hb : before (delete k l) i = if decide (i <= k)%nat then before l i else l !! i).
    { destruct i as [|i]; cbn [before]; [done|]. rewrite delete_lookup.
      destruct (decide (i < k)%nat); [by rewrite decide_True by lia|by rewrite decide_False by lia]. }
    rewrite Hb. clear Hb. destruct (decide (i < k)%nat).
    + rewrite Hs by (intros E; pose proof (NoDup_index l i k y Hnd Hy E); lia).
      destruct (Hl i y Hy) as (ny & Hn & Hnext & Hprev). rewrite Hn.
      rewrite decide_False by (intros E; pose proof (NoDup_index l i (S k) y Hnd Hy E); lia).
      rewrite (decide_True (P := (i <= k)%nat)) by lia.
      destruct (decide (before l k = Some y)) as [E|E].
      * apply before_Some in E as (j & -> & E). pose proof (NoDup_index l i j y Hnd Hy E) as ->.
        rewrite decide_False by lia. by eexists.
      * rewrite (decide_False (P := y = a /\ _)) by (intros [-> _]; by eapply Hin).
        destruct (decide (S i < k)%nat); [by eexists|]. exfalso. apply E, before_Some. exists i. split; [lia|done].
    + rewrite Hs by (intros E; pose proof (NoDup_index l (S i) k y Hnd Hy E); lia).
      destruct (Hl (S i) y Hy) as (ny & Hn & Hnext & Hprev). rewrite Hn. cbn [before] in Hprev.
      rewrite (decide_False (P := (S i < k)%nat)) by lia.
      destruct (decide (l !! S k = Some y)) as [E|E].
      * pose proof (NoDup_index l (S i) (S k) y Hnd Hy E) as [= ->]. rewrite decide_True by lia. by eexists.
      * rewrite decide_False by (intros [j [-> Ej]]%before_Some; pose proof (NoDup_index l (S i) j y Hnd Hy Ej); lia).
        rewrite (decide_False (P := y = a /\ _)) by (intros [-> _]; by eapply Hin).
        rewrite decide_False; [by eexists|]. intros Hik. apply E. replace k with i by lia. done.
Qed.

(** ** What each function leaves *)

Lemma node_eta n : Node (next n) (prev n) (down n) (info n) = n.
Proof. by destruct n. Qed.

(** Reading a store that was updated: case analysis on the location. *)
Ltac at_loc y p :=
  destruct (decide (y = p)) as [->|];
  [rewrite ?lookup_insert_eq, ?lookup_delete_eq|rewrite ?(lookup_insert_ne _ p y), ?(lookup_delete_ne _ p y) by congruence].

Lemma in_list_load s l i y : linked s l -> l !! i = Some y -> exists n, s !! y = Some n.
Proof. intros Hl Hi. destruct (Hl i y Hi) as (n & Hn & _). eauto. Qed.

Lemma append_stores s a l x nx :
  list_of s a l -> x ∉ l -> x <> a -> s !! x = Some nx -> next nx = None -> (l = [] -> prev nx = None) ->
  exists s', cJSON_AddItemToArray s a (Some x) = Ok s' /\ inserted s a l (length l) x nx s'.
Proof.
  intros Hlist Hx Hxa Hnx Hn Hp. pose proof (list_of_fuel _ _ _ Hlist) as Hf.
  destruct Hlist as (Hnd & Ha & (na & Hna & Hda) & Hl).
  unfold cJSON_AddItemToArray. rewrite (load_Some _ _ _ Hna). cbn [res_bind]. rewrite Hda.
  assert (l !! length l = None) as Hlen by (apply lookup_ge_None; lia).
  destruct l as [|y0 l0].
  - change (@nil positive !! 0%nat) with (@None positive). cbn iota. rewrite (store_at_Some _ _ _ _ Hna).
    eexists. split; [done|]. intros y. cbn [length before]. destruct (decide (y = x)) as [->|].
    + rewrite lookup_insert_ne by done. rewrite Hnx. cbn. by rewrite <- (node_eta nx), Hn, Hp.
    + rewrite !(decide_False (P := _ = Some y)) by done. destruct (decide (y = a)) as [->|].
      * by rewrite lookup_insert_eq, decide_True, Hna.
      * rewrite lookup_insert_ne by done. by rewrite decide_False by (intros []; done).
  - set (l := y0 :: l0) in *. change (l !! 0%nat) with (Some y0). cbn iota.
    destruct (last_linked s l (fuel_of s) 0 y0 Hl eq_refl) as (z & Ez & Hz); [lia|]. rewrite Ez. cbn [res_bind].
    destruct (in_list_load _ _ _ _ Hl Hz) as [nz Hnz]. unfold suffix_object. rewrite (store_at_Some _ _ _ _ Hnz). cbn [res_bind].
    assert (z <> x) as Hzx by (intros ->; by apply list_elem_of_lookup_2 in Hz).
    rewrite (store_at_Some _ x nx) by by rewrite lookup_insert_ne.
    assert (before l (length l) = Some z) as Hb by exact Hz.
    eexists. split; [done|]. intros y. rewrite Hlen, Hb. at_loc y x.
    + unfold set_prev. by rewrite Hn.
    + rewrite (decide_False (P := None = _)) by done. at_loc y z.
      * by rewrite decide_True, Hnz.
      * rewrite decide_False by congruence. by rewrite decide_False by (intros [_ ?]; done).
Qed.

Lemma insert_stores s a l which x nx c :
  list_of s a l -> l !! Z.to_nat which = Some c -> x ∉ l -> x <> a -> s !! x = Some nx ->
  exists s', cJSON_InsertItemInArray s a which x = Ok s' /\ inserted s a l (Z.to_nat which) x nx s'.
Proof.
  intros Hlist Hc Hx Hxa Hnx. unfold cJSON_InsertItemInArray. rewrite (nth_child_spec _ _ _ _ Hlist), Hc. cbn [res_bind].
  destruct Hlist as (Hnd & Ha & (na & Hna & Hda) & Hl). set (k := Z.to_nat which) in *.
  assert (c <> x /\ c <> a) as [Hcx Hca] by (apply list_elem_of_lookup_2 in Hc; split; by intros ->).
  destruct (Hl k c Hc) as (nc & Hnc & Hcn & Hcp).
  rewrite (store_at_Some _ _ _ _ Hnx). cbn [res_bind].
  rewrite (load_Some _ c nc) by by rewrite lookup_insert_ne. cbn [res_bind]. rewrite Hcp.
  rewrite (store_at_Some _ x _ _ (lookup_insert_eq _ _ _)). cbn [res_bind]. rewrite insert_insert_eq.
  rewrite (store_at_Some _ c nc) by by rewrite lookup_insert_ne. cbn [res_bind]. unfold link_new.
  rewrite (load_Some _ a na) by by rewrite !lookup_insert_ne. cbn [res_bind]. rewrite Hda.
  destruct (decide (k = 0%nat)) as [Ek|Ek].
  - rewrite Ek in *. rewrite Hc, bool_decide_true by done.
    rewrite (store_at_Some _ a na) by by rewrite !lookup_insert_ne. eexists. split; [done|].
    intros y. cbn [before]. rewrite Hc. destruct (decide (y = x)) as [->|].
    + rewrite !lookup_insert_ne by done. rewrite lookup_insert_eq. done.
    + destruct (decide (Some c = Some y)) as [[= <-]|].
      * rewrite lookup_insert_ne by done. by rewrite lookup_insert_eq, Hnc.
      * rewrite decide_False by done. destruct (decide (y = a)) as [->|].
        -- rewrite lookup_insert_eq, decide_True, Hna by done. done.
        -- rewrite !lookup_insert_ne by congruence. by rewrite decide_False by (intros []; done).
  - rewrite bool_decide_false by (intros E; pose proof (NoDup_index l 0 k c Hnd E Hc); lia).
    rewrite (load_Some _ x (set_prev (before l k) (set_next (Some c) nx))) by by rewrite lookup_insert_ne, lookup_insert_eq.
    cbn [res_bind set_prev prev].
    destruct k as [|k]; [done|]. cbn [before]. destruct (lookup_lt_is_Some_2 l k) as [p Hp]; [apply lookup_lt_Some in Hc; lia|].
    rewrite Hp. assert (p <> c) as Hpc by (intros ->; pose proof (NoDup_index l k (S k) c Hnd Hp Hc); lia).
    assert (p <> x) as Hpx by (intros ->; by apply list_elem_of_lookup_2 in Hp).
    destruct (Hl k p Hp) as (np & Hnp & _).
    rewrite (store_at_Some _ p np) by by rewrite !lookup_insert_ne. eexists. split; [done|].
    intros y. cbn [before]. rewrite Hc, Hp. destruct (decide (y = x)) as [->|].
    + rewrite !lookup_insert_ne by done. by rewrite lookup_insert_eq.
    + destruct (decide (Some c = Some y)) as [[= <-]|].
      * rewrite lookup_insert_ne by done. by rewrite lookup_insert_eq, Hnc.
      * destruct (decide (Some p = Some y)) as [[= <-]|].
        -- by rewrite lookup_insert_eq, Hnp.
        -- rewrite !lookup_insert_ne by congruence. by rewrite decide_False by (intros []; done).
Qed.

(** A store through a pointer that may be NULL. *)
Lemma store_opt_spec s p f :
  (forall q, p = Some q -> is_Some (s !! q)) ->
  exists s', store_opt s p f = Ok s' /\ forall y, s' !! y = if decide (p = Some y) then f <$> s !! y else s !! y.
Proof.
  intros Hp. destruct p as [q|]; cbn [store_opt].
  - destruct (Hp q eq_refl) as [n Hn]. rewrite (store_at_Some _ _ _ _ Hn). eexists. split; [done|]. intros y. at_loc y q.
    + by rewrite decide_True, Hn.
    + by rewrite decide_False by congruence.
  - eexists. split; [done|]. intros y. by rewrite decide_False.
Qed.

Lemma detach_stores s a l which c :
  list_of s a l -> l !! Z.to_nat which = Some c ->
  exists s', cJSON_DetachItemFromArray s a which = Ok (Some c, s') /\ removed s a l (Z.to_nat which) s' /\
    s' !! c = (if decide (Z.to_nat which = 0%nat) then (fun n => set_prev None (set_next None n)) <$> s !! c else s !! c).
Proof.
  intros Hlist Hc. unfold cJSON_DetachItemFromArray. rewrite (nth_child_spec _ _ _ _ Hlist), Hc. cbn [res_bind].
  destruct Hlist as (Hnd & Ha & (na & Hna & Hda) & Hl). set (k := Z.to_nat which) in *.
  assert (forall i y, l !! i = Some y -> y <> a) as Hin by (intros i y Hy%list_elem_of_lookup_2; by intros ->).
  destruct (Hl k c Hc) as (nc & Hnc & Hcn & Hcp). rewrite (load_Some _ _ _ Hnc). cbn [res_bind]. rewrite Hcn, Hcp.
  destruct (store_opt_spec s (before l k) (set_next (l !! S k))) as (s1 & -> & Hs1).
  { intros p (j & _ & Ep)%before_Some. destruct (Hl j p Ep) as (np & Hnp & _). eauto. }
  cbn [res_bind]. destruct (store_opt_spec s1 (l !! S k) (set_prev (before l k))) as (s2 & -> & Hs2'').
  { intros q Eq. destruct (Hl (S k) q Eq) as (nq & Hnq & _). rewrite Hs1. case_decide; rewrite Hnq; eauto. }
  cbn [res_bind]. assert (forall y, s2 !! y = if decide (l !! S k = Some y) then set_prev (before l k) <$> s !! y else s1 !! y) as Hs2.
  { intros y. rewrite Hs2''. case_decide as Ey; [|done]. rewrite Hs1, decide_False; [done|].
    intros (i & Ei & Hi)%before_Some. pose proof (NoDup_index l (S k) i y Hnd Ey Hi). lia. }
  clear Hs2''.
  assert (Hcb : before l k <> Some c) by (intros (i & Ei & Hi)%before_Some; pose proof (NoDup_index l k i c Hnd Hc Hi); lia).
  assert (Hcs : l !! S k <> Some c) by (intros E; pose proof (NoDup_index l k (S k) c Hnd Hc E); lia).
  assert (s2 !! a = Some na) as Ha2.
  { rewrite Hs2, decide_False, Hs1, decide_False; [done|intros (i & _ & Hi)%before_Some; by eapply Hin|intros E; by eapply Hin]. }
  assert (s2 !! c = Some nc) as Hc2 by by rewrite Hs2, decide_False, Hs1, decide_False.
  rewrite (load_Some _ _ _ Ha2). cbn [res_bind]. rewrite Hda.
  assert (c <> a) as Hca by by eapply Hin. case_decide as Ek.
  - rewrite Ek in *. rewrite bool_decide_true by done. rewrite (load_Some _ _ _ Hc2). cbn [res_bind].
    rewrite (store_at_Some _ _ _ _ Ha2). cbn [res_bind]. rewrite Hcn.
    rewrite (store_at_Some _ c nc) by by rewrite lookup_insert_ne. cbn [res_bind]. eexists. split; [done|]. split.
    + intros y Hy. assert (y <> c) as Hyc by congruence. rewrite lookup_insert_ne by done. at_loc y a.
      * rewrite decide_False by (intros E; by eapply Hin). rewrite decide_False by done. by rewrite decide_True, Hna.
      * rewrite Hs2. case_decide; [done|]. rewrite Hs1. case_decide; [done|]. by rewrite decide_False by (intros []; done).
    + by rewrite lookup_insert_eq, Hnc.
  - rewrite bool_decide_false by (intros E; pose proof (NoDup_index l 0 k c Hnd E Hc); lia). cbn [res_bind].
    eexists. split; [done|]. split; [|by rewrite Hc2].
    intros y Hy. rewrite Hs2. case_decide; [done|]. rewrite Hs1. case_decide; [done|]. by rewrite decide_False by (intros []; done).
Qed.

(** ** Sequences of edits *)

Inductive edit : Type := Append (x : loc) | InsertAt (which : Z) (x : loc) | DetachAt (which : Z).

Definition apply_edit s (a : loc) (e : edit) : res (gmap loc node) :=
  match e with
  | Append x => cJSON_AddItemToArray s a (Some x)
  | InsertAt which x => cJSON_InsertItemInArray s a which x
  | DetachAt which => let! (_, s) := cJSON_DetachItemFromArray s a which in Ok s
  end.

Fixpoint apply_edits s (a : loc) (es : list edit) : res (gmap loc node) :=
  match es with [] => Ok s | e :: es => let! s := apply_edit s a e in apply_edits s a es end.

(** cJSON_AddItemToArray counts on next, and in an empty array on prev too, to be NULL. *)
Definition can_append l (f : option loc * option loc) : bool :=
  match f with (None, None) => true | (None, Some _) => negb (bool_decide (l = [])) | (Some _, _) => false end.

(** What an edit does to the list of children and to the items outside it.  A position past the end
    appends or detaches nothing, a negative one counts as the first.  A detached item keeps its
    links unless it was the first one. *)
Definition edit_spec (t : list loc * gmap loc (option loc * option loc)) (e : edit)
    : option (list loc * gmap loc (option loc * option loc)) :=
  let (l, F) := t in
  match e with
  | Append x =>
      match F !! x with
      | Some f => if can_append l f then Some (l ++ [x], delete x F) else None
      | None => None
      end
  | InsertAt which x =>
      match F !! x with
      | Some f => if (Z.to_nat which <? length l)%nat || can_append l f
                  then Some (insert_at (Z.to_nat which `min` length l) x l, delete x F) else None
      | None => None
      end
  | DetachAt which =>
      let k := Z.to_nat which in
      match l !! k with
      | Some c => Some (delete k l, <[c := if (k =? 0)%nat then (None, None) else (l !! S k, before l k)]> F)
      | None => Some (l, F)
      end
  end.

Fixpoint edits_spec (t : list loc * gmap loc (option loc * option loc)) (es : list edit)
    : option (list loc * gmap loc (option loc * option loc)) :=
  match es with
  | [] => Some t
  | e :: es => match edit_spec t e with Some t => edits_spec t es | None => None end
  end.

(** The items of [F] are outside the list and have these links. *)
Definition pool s (a : loc) l (F : gmap loc (option loc * option loc)) : Prop :=
  forall x f, F !! x = Some f -> x ∉ l /\ x <> a /\ exists n, s !! x = Some n /\ (next n, prev n) = f.

Lemma inserted_same s a l k x nx s' y : inserted s a l k x nx s' -> y <> x -> y <> a -> y ∉ l -> s' !! y = s !! y.
Proof.
  intros Hs Hyx Hya Hy. rewrite Hs, decide_False by done.
  rewrite decide_False by (intros E%list_elem_of_lookup_2; done).
  rewrite decide_False by (intros (j & _ & E%list_elem_of_lookup_2)%before_Some; done).
  by rewrite decide_False by (intros []; done).
Qed.

Lemma removed_same s a l k s' y : removed s a l k s' -> y <> a -> y ∉ l -> s' !! y = s !! y.
Proof.
  intros Hs Hya Hy. rewrite Hs by (intros E%list_elem_of_lookup_2; done).
  rewrite decide_False by (intros E%list_elem_of_lookup_2; done).
  rewrite decide_False by (intros (j & _ & E%list_elem_of_lookup_2)%before_Some; done).
  by rewrite decide_False by (intros []; done).
Qed.

(** The item goes from the pool to the list. *)
Lemma inserted_pool s a l F k x nx s' :
  pool s a l F -> inserted s a l k x nx s' -> pool s' a (insert_at k x l) (delete x F).
Proof.
  intros HF Hs y f Hy. apply lookup_delete_Some in Hy as [Hyx Hy]. destruct (HF y f Hy) as (Hyl & Hya & n & Hn & Hf).
  split; [rewrite insert_at_elem; naive_solver|]. split; [done|]. exists n. by rewrite (inserted_same _ _ _ _ _ _ _ y Hs).
Qed.

Lemma can_append_next l n : can_append l (next n, prev n) = true -> next n = None /\ (l = [] -> prev n = None).
Proof.
  unfold can_append. destruct (next n); [done|]. destruct (prev n); [|done]. intros E. split; [done|]. intros ->. by rewrite bool_decide_true in E.
Qed.

Lemma append_outcome s a l F x f :
  list_of s a l -> pool s a l F -> F !! x = Some f -> can_append l f = true ->
  exists s', cJSON_AddItemToArray s a (Some x) = Ok s' /\ list_of s' a (l ++ [x]) /\ pool s' a (l ++ [x]) (delete x F).
Proof.
  intros Hlist HF Hx Hf. destruct (HF x f Hx) as (Hxl & Hxa & nx & Hnx & <-). apply can_append_next in Hf as [Hn Hp].
  destruct (append_stores s a l x nx) as (s' & E & Hs); [done..|]. exists s'. split; [done|]. rewrite <- insert_at_end.
  split; [by eapply inserted_list_of|by eapply inserted_pool].
Qed.

Lemma insert_outcome s a l F which x f :
  list_of s a l -> pool s a l F -> F !! x = Some f -> (Z.to_nat which <? length l)%nat || can_append l f = true ->
  let k := (Z.to_nat which `min` length l)%nat in
  exists s', cJSON_InsertItemInArray s a which x = Ok s' /\ list_of s' a (insert_at k x l) /\ pool s' a (insert_at k x l) (delete x F).
Proof.
  intros Hlist HF Hx Hf k. destruct (l !! Z.to_nat which) as [c|] eqn:E.
  - destruct (HF x f Hx) as (Hxl & Hxa & nx & Hnx & _). apply lookup_lt_Some in E as Hlt. subst k. rewrite Nat.min_l by lia.
    destruct (insert_stores s a l which x nx c) as (s' & Es & Hs); [done..|]. exists s'. split; [done|].
    split; [eapply inserted_list_of; [done|lia|done..]|by eapply inserted_pool].
  - unfold cJSON_InsertItemInArray. rewrite (nth_child_spec _ _ _ _ Hlist), E. cbn [res_bind].
    apply lookup_ge_None in E. subst k. rewrite Nat.min_r by lia. rewrite insert_at_end.
    rewrite (proj2 (Nat.ltb_ge _ _) E) in Hf. by eapply append_outcome.
Qed.

Lemma detach_outcome s a l F which c :
  list_of s a l -> pool s a l F -> l !! Z.to_nat which = Some c ->
  let k := Z.to_nat which in
  let f := if (k =? 0)%nat then (None, None) else (l !! S k, before l k) in
  exists s', cJSON_DetachItemFromArray s a which = Ok (Some c, s') /\ list_of s' a (delete k l) /\ pool s' a (delete k l) (<[c:=f]> F).
Proof.
  intros Hlist HF Hc k f. destruct (detach_stores s a l which c Hlist Hc) as (s' & -> & Hs & Hsc). exists s'. split; [done|].
  apply lookup_lt_Some in Hc as Hlt. split; [by eapply removed_list_of|]. destruct Hlist as (Hnd & Ha & _ & Hl).
  intros y g Hy. apply lookup_insert_Some in Hy as [[<- <-]|[Hyc Hy]].
  - split; [|split; [by intros ->; apply Ha; eapply list_elem_of_lookup_2|]].
    + intros (i & Hi)%list_elem_of_lookup. rewrite delete_lookup in Hi.
      case_decide; [pose proof (NoDup_index l i k c Hnd Hi Hc)|pose proof (NoDup_index l (S i) k c Hnd Hi Hc)]; lia.
    + destruct (Hl k c Hc) as (n & Hn & Hnext & Hprev). rewrite Hsc. fold k. subst f. destruct k as [|k']; cbn [Nat.eqb].
      * rewrite decide_True by done. rewrite Hn. by eexists.
      * rewrite decide_False by done. exists n. split; [done|]. by rewrite Hnext, Hprev.
  - destruct (HF y g Hy) as (Hyl & Hya & n & Hn & Hg). split; [|split; [done|]].
    + intros (i & Hi)%list_elem_of_lookup. rewrite delete_lookup in Hi. apply Hyl. case_decide; by eapply list_elem_of_lookup_2.
    + exists n. by rewrite (removed_same _ _ _ _ _ y Hs).
Qed.

(** One edit. *)
Lemma edit_outcome s a l F e l' F' :
  list_of s a l -> pool s a l F -> edit_spec (l, F) e = Some (l', F') ->
  exists s', apply_edit s a e = Ok s' /\ list_of s' a l' /\ pool s' a l' F'.
Proof.
  intros Hlist HF He. destruct e as [x|which x|which]; cbn [edit_spec apply_edit] in *.
  - destruct (F !! x) as [f|] eqn:Hx; [|done]. destruct (can_append l f) eqn:Hf; [|done]. injection He as <- <-.
    by eapply append_outcome.
  - destruct (F !! x) as [f|] eqn:Hx; [|done]. destruct (_ || _) eqn:Hf; [|done]. injection He as <- <-.
    by eapply insert_outcome.
  - destruct (l !! Z.to_nat which) as [c|] eqn:Hc; injection He as <- <-.
    + destruct (detach_outcome s a l F which c Hlist HF Hc) as (s' & -> & H). by exists s'.
    + unfold cJSON_DetachItemFromArray. rewrite (nth_child_spec _ _ _ _ Hlist), Hc. cbn [res_bind]. by exists s.
Qed.

(** A chain that never leaves a set of items does not end. *)
Lemma count_closed s (l : list loc) fuel x c :
  (forall y, y ∈ l -> exists n z, s !! y = Some n /\ next n = Some z /\ z ∈ l) -> x ∈ l -> count_loop fuel s (Some x) c = Ub NoReturn.
Proof.
  intros Hl. revert x c. induction fuel as [|fuel IH]; intros x c Hx; [done|]. cbn [count_loop].
  destruct (Hl x Hx) as (n & z & Hn & Hz & Hin). rewrite (load_Some _ _ _ Hn). cbn [res_bind]. rewrite Hz. by apply IH.
Qed.

(** An item whose next is in the array closes a loop when it is appended. *)
Lemma append_loops s a l x nx y :
  list_of s a l -> x ∉ l -> x <> a -> s !! x = Some nx -> next nx = Some y -> y ∈ l ->
  exists s', cJSON_AddItemToArray s a (Some x) = Ok s' /\ cJSON_GetArraySize s' a = Ub NoReturn.
Proof.
  intros Hlist Hx Hxa Hnx Hy Hyl. pose proof (list_of_fuel _ _ _ Hlist) as Hf. destruct Hlist as (Hnd & Ha & (na & Hna & Hda) & Hl).
  destruct l as [|y0 l0]; [by apply elem_of_nil in Hyl|]. set (l := y0 :: l0) in *.
  unfold cJSON_AddItemToArray. rewrite (load_Some _ _ _ Hna). cbn [res_bind]. rewrite Hda. change (l !! 0%nat) with (Some y0). cbn iota.
  destruct (last_linked s l (fuel_of s) 0 y0 Hl eq_refl) as (z & -> & Hz); [lia|]. cbn [res_bind].
  destruct (in_list_load _ _ _ _ Hl Hz) as [nz Hnz]. unfold suffix_object. rewrite (store_at_Some _ _ _ _ Hnz). cbn [res_bind].
  assert (z <> x /\ z <> a) as [Hzx Hza] by (apply list_elem_of_lookup_2 in Hz; split; by intros ->).
  rewrite (store_at_Some _ x nx) by by rewrite lookup_insert_ne. eexists. split; [done|].
  unfold cJSON_GetArraySize. rewrite (load_Some _ a na) by by rewrite !lookup_insert_ne. cbn [res_bind]. rewrite Hda.
  change (l !! 0%nat) with (Some y0). apply (count_closed _ (x :: l)); [|set_solver].
  intros w Hw. at_loc w x.
  - exists (set_prev (Some z) nx), y. split; [done|]. split; [done|set_solver].
  - at_loc w z; [eexists _, x; split; [done|]; split; [done|set_solver]|].
    apply elem_of_cons in Hw as [?|Hw]; [done|]. apply list_elem_of_lookup in Hw as [i Hi]. destruct (Hl i w Hi) as (w' & Hw' & Hnext & _).
    destruct (l !! S i) as [z'|] eqn:E; [exists w', z'; split; [done|]; split; [done|]; apply elem_of_cons; right; by eapply list_elem_of_lookup_2|].
    apply lookup_ge_None in E. apply lookup_lt_Some in Hi as ?. replace (pred (length l)) with i in Hz by lia. congruence.
Qed.

Lemma array_size_spec s a l : list_of s a l -> cJSON_GetArraySize s a = Ok (Z.of_nat (length l)).
Proof.
  intros Hlist. pose proof (list_of_fuel _ _ _ Hlist). destruct Hlist as (_ & _ & (n & Hn & Hd) & Hl).
  unfold cJSON_GetArraySize. rewrite (load_Some _ _ _ Hn). cbn [res_bind]. rewrite Hd, (count_linked s l) by (done || lia).
  f_equal. lia.
Qed.

(** C5. A sequence of cJSON_AddItemToArray, cJSON_InsertItemInArray and cJSON_DetachItemFromArray on an array
    whose children form a well-linked list, with the items of a pool [F] outside it, to which
    the detached ones go and from which they may be put back.  As long as every item that is appended
    has no next, and none that is appended to an empty array has a prev ([edits_spec] is then defined), the calls return
    and leave the children a well-linked list (no item twice, next, prev and child consistent), the
    one that the same edits give on a plain list; cJSON_GetArraySize and
    cJSON_GetArrayItem then read its length and its items.  Detaching clears the links of the first
    item only: an item detached from elsewhere whose old successor is in the array makes the array a loop when it
    is appended, and cJSON_GetArraySize does not return. *)
Theorem json_chain_edits s a l F es l' F' :
  list_of s a l -> pool s a l F -> edits_spec (l, F) es = Some (l', F') ->
  exists s', apply_edits s a es = Ok s' /\ list_of s' a l' /\ pool s' a l' F' /\
    cJSON_GetArraySize s' a = Ok (Z.of_nat (length l')) /\
    (forall i, cJSON_GetArrayItem s' a i = Ok (l' !! Z.to_nat i)) /\
    (forall x y p, F' !! x = Some (Some y, p) -> y ∈ l' ->
       exists s'', cJSON_AddItemToArray s' a (Some x) = Ok s'' /\ cJSON_GetArraySize s'' a = Ub NoReturn).
Proof.
  revert s l F. induction es as [|e es IH]; intros s l F Hlist HF He; cbn [edits_spec apply_edits] in *.
  - injection He as <- <-. exists s. split_and!; [done..|by apply array_size_spec|intros i; by apply nth_child_spec|].
    intros x y p Hx Hy. destruct (HF x _ Hx) as (Hxl & Hxa & n & Hn & [= Hnext _]). by eapply append_loops.
  - destruct (edit_spec (l, F) e) as [[l1 F1]|] eqn:E; [|done].
    destruct (edit_outcome s a l F e l1 F1 Hlist HF E) as (s1 & -> & Hlist1 & HF1). cbn [res_bind]. by apply (IH s1 l1 F1).
Qed.

(** ** Deleting items *)

(** The items from [c] on along next are [r], and none has children. *)
Fixpoint leaf_chain s (c : option loc) (r : list loc) : Prop :=
  match r with
  | [] => c = None
  | x :: r => c = Some x /\ exists n, s !! x = Some n /\ down n = None /\ leaf_chain s (next n) r
  end.

Lemma leaf_chain_ext s s' c r : (forall y, y ∈ r -> s' !! y = s !! y) -> leaf_chain s c r -> leaf_chain s' c r.
Proof.
  revert c. induction r as [|x r IH]; intros c Hs; cbn [leaf_chain]; [done|].
  intros (Hc & n & Hn & Hd & Hr). split; [done|]. exists n. rewrite Hs by set_solver. split; [done|]. split; [done|].
  apply IH; [set_solver|done].
Qed.

Lemma cJSON_Delete_chain fuel s c r :
  leaf_chain s c r -> NoDup r -> (length r < fuel)%nat ->
  exists s', cJSON_Delete fuel s c = Ok s' /\ forall y, s' !! y = if decide (y ∈ r) then None else s !! y.
Proof.
  revert s c r. induction fuel as [|fuel IH]; intros s c r Hr Hnd Hf; [lia|]. cbn [cJSON_Delete].
  destruct r as [|x r]; cbn [leaf_chain length] in *.
  - subst c. exists s. split; [done|]. intros y. by rewrite decide_False by set_solver.
  - destruct Hr as (-> & n & Hn & Hd & Hr). apply NoDup_cons in Hnd as [Hx Hnd].
    rewrite (load_Some _ _ _ Hn). cbn [res_bind]. rewrite Hd.
    replace (if flag _ _ then Ok s else Ok s) with (@Ok (gmap loc node) s) by by destruct (flag _ _). cbn [res_bind].
    rewrite (load_Some _ _ _ Hn). cbn [res_bind].
    destruct (IH (delete x s) (next n) r) as (s' & -> & Hs'); [|done|lia|].
    + eapply leaf_chain_ext; [|exact Hr]. intros y Hy. rewrite lookup_delete_ne; [done|]. by intros ->.
    + exists s'. split; [done|]. intros y. rewrite Hs'. at_loc y x.
      * rewrite decide_False by done. by rewrite decide_True by set_solver.
      * destruct (decide (y ∈ r)); [by rewrite decide_True by set_solver|by rewrite decide_False by set_solver].
Qed.

Definition leaves s l : Prop := forall y, y ∈ l -> exists n, s !! y = Some n /\ down n = None.

Lemma leaf_chain_drop s l k :
  leaves s l -> (forall i x, (k <= i)%nat -> l !! i = Some x -> exists n, s !! x = Some n /\ next n = l !! S i) ->
  leaf_chain s (l !! k) (drop k l).
Proof.
  intros Hleaf. remember (length l - k)%nat as m eqn:Em. revert k Em. induction m as [|m IH]; intros k Em Hl.
  - rewrite drop_ge by lia. cbn. apply lookup_ge_None. lia.
  - destruct (lookup_lt_is_Some_2 l k) as [x Hx]; [lia|]. rewrite (drop_S _ _ _ Hx), Hx. cbn [leaf_chain]. split; [done|].
    destruct (Hl k x (le_n _) Hx) as (n & Hn & Hnext). exists n.
    destruct (Hleaf x) as (n' & Hn' & Hd); [by eapply list_elem_of_lookup_2|]. split; [done|]. split; [congruence|].
    rewrite Hnext. apply IH; [lia|]. intros i y Hi. apply Hl. lia.
Qed.

Lemma list_of_ext s s' a l : s' !! a = s !! a -> (forall y, y ∈ l -> s' !! y = s !! y) -> list_of s a l -> list_of s' a l.
Proof.
  intros Ha Hs (Hnd & Hal & Hna & Hl). split; [done|]. split; [done|]. rewrite Ha. split; [done|].
  intros i x Hx. rewrite (Hs x) by by eapply list_elem_of_lookup_2. by apply Hl.
Qed.

(** The loop of cJSON_GetArraySize comes to an item that was freed. *)
Lemma count_dangling s l k fuel i c :
  (forall j x, l !! j = Some x -> (j < k)%nat -> exists n, s !! x = Some n /\ next n = l !! S j) ->
  (i <= k < length l)%nat -> (forall y, l !! k = Some y -> s !! y = None) -> (k - i < fuel)%nat ->
  count_loop fuel s (l !! i) c = Ub UseAfterFree.
Proof.
  intros Hl. revert i c. induction fuel as [|fuel IH]; intros i c Hi Hk Hf; [lia|]. cbn [count_loop].
  destruct (lookup_lt_is_Some_2 l i) as [x Hx]; [lia|]. rewrite Hx. destruct (decide (i = k)) as [->|].
  - unfold load. by rewrite (Hk x Hx).
  - destruct (Hl i x Hx) as (w & Hn & Hnext); [lia|]. rewrite (load_Some _ _ _ Hn). cbn [res_bind].
    rewrite Hnext. apply IH; [lia|done|lia].
Qed.

Lemma detach_chain s a l which c s' :
  list_of s a l -> leaves s l -> l !! Z.to_nat which = Some c -> removed s a l (Z.to_nat which) s' ->
  s' !! c = (if decide (Z.to_nat which = 0%nat) then (fun n => set_prev None (set_next None n)) <$> s !! c else s !! c) ->
  leaf_chain s' (Some c) (if decide (Z.to_nat which = 0%nat) then [c] else drop (Z.to_nat which) l).
Proof.
  intros Hlist Hleaf Hc Hs Hsc. destruct Hlist as (Hnd & Ha & _ & Hl). set (k := Z.to_nat which) in *.
  destruct (Hleaf c) as (nc & Hnc & Hdc); [by eapply list_elem_of_lookup_2|].
  destruct (decide (k = 0%nat)).
  - split; [done|]. rewrite Hsc, Hnc. eexists. split; [done|]. done.
  - rewrite <- Hc.
    assert (Hat : forall i x, (k <= i)%nat -> l !! i = Some x ->
      exists n, s' !! x = Some n /\ next n = l !! S i /\ down n = None).
    { intros i x Hi Hx. destruct (Hl i x Hx) as (m & Hn & Hnext & _). destruct (Hleaf x) as (m' & Hn' & Hd); [by eapply list_elem_of_lookup_2|].
      assert (m' = m) as -> by congruence. destruct (decide (x = c)) as [->|Hxc]; [rewrite Hsc; by exists m|].
      rewrite Hs by congruence. rewrite Hn. case_decide; [by eexists|].
      rewrite decide_False by (intros (j & Ej & Hj)%before_Some; pose proof (NoDup_index l i j x Hnd Hx Hj); lia).
      rewrite decide_False by (intros []; done). by exists m. }
    assert (leaves s' (drop k l)) as Hleaf'.
    { intros y (i & Hi)%list_elem_of_lookup. rewrite lookup_drop in Hi. destruct (Hat (k + i)%nat y) as (w & ? & _ & ?); [lia|done|]. by exists w. }
    pose proof (leaf_chain_drop s' (drop k l) 0) as H. rewrite drop_0, lookup_drop, Nat.add_0_r in H. apply H; [done|].
    intros i x _ Hx. rewrite lookup_drop in Hx. destruct (Hat (k + i)%nat x) as (w & ? & ? & _); [lia|done|].
    exists w. split; [done|]. rewrite lookup_drop. by replace (k + S i)%nat with (S (k + i)) by lia.
Qed.

Lemma list_of_fuel2 s a l : list_of s a l -> (2 <= fuel_of s)%nat.
Proof.
  intros (_ & _ & (n & Hn & _) & _). unfold fuel_of. assert (size s <> 0%nat); [|lia].
  apply map_size_non_empty_iff. by intros ->.
Qed.

(** What cJSON_Delete takes away after a detach: the item, with its followers unless it was
    the first. *)
Definition taken (l : list loc) (k : nat) (c : loc) : list loc := if decide (k = 0%nat) then [c] else drop k l.

Section AfterDelete.
Context (a c : loc) (l : list loc) (k : nat) (s1 s' : gmap loc node).
Context (Hnd : NoDup l) (Ha : a ∉ l) (Hc : l !! k = Some c) (Hlist1 : list_of s1 a (delete k l)).
Context (Hs' : forall y, s' !! y = if decide (y ∈ taken l k c) then None else s1 !! y).

Lemma delete_end : k = 0%nat \/ S k = length l -> list_of s' a (delete k l).
Proof using All.
  pose proof (lookup_lt_Some _ _ _ Hc) as Hk. unfold taken in Hs'. intros Hend.
  eapply list_of_ext; [| |exact Hlist1].
  + rewrite Hs'. apply decide_False. case_decide; [apply not_elem_of_cons; split; [|set_solver]; by intros ->; apply Ha; eapply list_elem_of_lookup_2|].
    intros (i & Hi)%list_elem_of_lookup. rewrite lookup_drop in Hi. by apply Ha; eapply list_elem_of_lookup_2.
  + intros y (i & Hi)%list_elem_of_lookup. rewrite Hs'. apply decide_False. rewrite delete_lookup in Hi.
    assert (exists i', l !! i' = Some y /\ i' <> k /\ (i' < k \/ S k < length l)%nat) as (i' & Hi' & Hik & Hor).
    { case_decide; [by exists i; repeat split; auto; lia|]. exists (S i). apply lookup_lt_Some in Hi as ?.
      repeat split; [done|lia..]. }
    destruct (decide (k = 0%nat)).
    * intros Hy%list_elem_of_singleton. subst y. by pose proof (NoDup_index l i' k c Hnd Hi' Hc).
    * intros (j & Hj)%list_elem_of_lookup. rewrite lookup_drop in Hj. pose proof (NoDup_index l i' (k + j) y Hnd Hi' Hj). lia.
Qed.

Lemma delete_middle : ~ (k = 0%nat \/ S k = length l) -> cJSON_GetArraySize s' a = Ub UseAfterFree.
Proof using All.
  pose proof (lookup_lt_Some _ _ _ Hc) as Hk. unfold taken in Hs'. intros Hend.
  rewrite (decide_False (P := k = 0%nat)) in Hs' by tauto.
  destruct Hlist1 as (_ & _ & (n & Hn & Hd) & Hl1).
  assert (Hkeep : forall y, y ∉ drop k l -> s' !! y = s1 !! y) by (intros y Hy; by rewrite Hs', decide_False).
  unfold cJSON_GetArraySize. rewrite (load_Some _ a n); [|rewrite Hkeep; [done|]].
  2:{ intros (i & Hi)%list_elem_of_lookup. rewrite lookup_drop in Hi. by apply Ha; eapply list_elem_of_lookup_2. }
  cbn [res_bind]. rewrite Hd. apply (count_dangling s' (delete k l) k).
  + intros j x Hx Hj. destruct (Hl1 j x Hx) as (m & Hm & Hnext & _). exists m. split; [|done].
    rewrite Hkeep; [done|]. rewrite delete_lookup, decide_True in Hx by done.
    intros (i & Hi)%list_elem_of_lookup. rewrite lookup_drop in Hi. pose proof (NoDup_index l j (k + i) x Hnd Hx Hi). lia.
  + rewrite length_delete by by exists c. lia.
  + intros y Hy. rewrite delete_lookup, decide_False in Hy by lia. rewrite Hs'. apply decide_True.
    apply list_elem_of_lookup. exists 1%nat. by rewrite lookup_drop, Nat.add_1_r.
  + pose proof (fuel_of s1). assert (size s' >= k)%nat; [|unfold fuel_of; lia].
    rewrite <- size_dom. assert (k = size (list_to_set (take k l) : gset loc)) as Ek.
    { rewrite size_list_to_set; [rewrite length_take; lia|]. eapply sublist_NoDup; [exact Hnd|apply sublist_take]. }
    rewrite Ek at 1. apply subseteq_size. intros y Hy%elem_of_list_to_set.
    apply list_elem_of_lookup in Hy as [j Hj]. apply lookup_take_Some in Hj as [Hj Hjk].
    destruct (Hl1 j y) as (m & Hm & _); [by rewrite delete_lookup, decide_True|].
    apply (elem_of_dom_2 _ _ m). rewrite Hkeep; [done|].
    intros (i & Hi)%list_elem_of_lookup. rewrite lookup_drop in Hi. pose proof (NoDup_index l j (k + i) y Hnd Hj Hi). lia.
Qed.
End AfterDelete.

(** C36. cJSON_DeleteItemFromArray of an item that has no children and whose siblings
    have none: the item is freed, and when it is the first or the last one the
    array keeps exactly the other items.  For any other item the links to its
    following siblings are still set when it is deleted, so they are freed too while
    the array still refers to them: cJSON_GetArraySize, the next time, reads freed
    memory. *)
Theorem json_delete_item s a l which c :
  list_of s a l -> leaves s l -> l !! Z.to_nat which = Some c ->
  exists s', cJSON_DeleteItemFromArray s a which = Ok s' /\ s' !! c = None /\
    if decide (Z.to_nat which = 0%nat \/ S (Z.to_nat which) = length l)
    then list_of s' a (delete (Z.to_nat which) l)
    else cJSON_GetArraySize s' a = Ub UseAfterFree.
Proof.
  intros Hlist Hleaf Hc. destruct (detach_stores s a l which c Hlist Hc) as (s1 & E & Hs & Hsc).
  unfold cJSON_DeleteItemFromArray. rewrite E. cbn [res_bind]. clear E. unfold delete_item.
  pose proof (detach_chain s a l which c s1 Hlist Hleaf Hc Hs Hsc) as Hchain.
  set (k := Z.to_nat which) in *. apply lookup_lt_Some in Hc as Hk.
  assert (list_of s1 a (delete k l)) as Hlist1 by by eapply removed_list_of.
  pose proof (list_of_fuel _ _ _ Hlist1) as Hf. pose proof (list_of_fuel2 _ _ _ Hlist1) as Hf2.
  rewrite length_delete in Hf by by exists c.
  destruct Hlist as (Hnd & Ha & _ & _).
  destruct (cJSON_Delete_chain (fuel_of s1) s1 (Some c) _ Hchain) as (s' & -> & Hs').
  { case_decide; [apply NoDup_singleton|]. eapply sublist_NoDup; [exact Hnd|apply sublist_drop]. }
  { case_decide; cbn [length]; [lia|]. rewrite length_drop. lia. }
  exists s'. split; [done|]. split.
  { rewrite Hs'. apply decide_True. case_decide; [set_solver|]. rewrite (drop_S _ _ _ Hc). set_solver. }
  destruct (decide (k = 0%nat \/ S k = length l)) as [Hend|Hend].
  - by eapply delete_end.
  - by eapply delete_middle.
Qed.

(** ** An array of three items, and two items of their own *)

Definition sample_store : gmap loc node :=
  list_to_map [(1, Node None None (Some 2) blank); (2, Node (Some 3) None None blank);
               (3, Node (Some 4) (Some 2) None blank); (4, Node None (Some 3) None blank);
               (5, new_node); (6, new_node)]%positive.

Lemma sample_list_of : list_of sample_store 1%positive [2; 3; 4]%positive.
Proof.
  split; [by apply (bool_decide_unpack _); vm_compute|]. split; [by apply (bool_decide_unpack _); vm_compute|].
  split; [by eexists|]. intros [|[|[|i]]] x Hx; try (injection Hx as <-; by eexists). by destruct i.
Qed.

Definition sample_pool : gmap loc (option loc * option loc) := {[ 5 := (None, None); 6 := (None, None) ]}%positive.

(** Item 3 is detached from the middle and put back by an insertion; 2 is detached from the middle. *)
Definition sample_edits : list edit := [Append 5; DetachAt 1; InsertAt (-1) 6; InsertAt 0 3; DetachAt 2; DetachAt 0]%positive.

Lemma json_chain_edits_witness : exists s' s'',
  apply_edits sample_store 1%positive sample_edits = Ok s' /\ list_of s' 1%positive [6; 4; 5]%positive /\
  cJSON_GetArraySize s' 1%positive = Ok 3 /\
  cJSON_AddItemToArray s' 1%positive (Some 2%positive) = Ok s'' /\ cJSON_GetArraySize s'' 1%positive = Ub NoReturn.
Proof.
  destruct (json_chain_edits sample_store 1%positive [2; 3; 4]%positive sample_pool sample_edits [6; 4; 5]%positive
    (<[3 := (None, None)]> (<[2 := (Some 4, Some 6)]> ∅))%positive) as (s' & E & Hl & _ & Hsize & _ & Hloop).
  - exact sample_list_of.
  - intros x f Hx. unfold sample_pool in Hx. apply lookup_insert_Some in Hx as [[<- <-]|[_ Hx]]; [|apply lookup_singleton_Some in Hx as [<- <-]].
    + split; [by apply (bool_decide_unpack _); vm_compute|]. split; [done|]. by eexists.
    + split; [by apply (bool_decide_unpack _); vm_compute|]. split; [done|]. by eexists.
  - vm_compute. reflexivity.
  - destruct (Hloop 2 4 (Some 6))%positive as (s'' & E' & H'); [reflexivity|by apply (bool_decide_unpack _); vm_compute|].
    exists s', s''. split; [exact E|]. split; [exact Hl|]. split; [exact Hsize|]. split; [exact E'|exact H'].
Defined.

Lemma json_delete_item_witness : exists s',
  cJSON_DeleteItemFromArray sample_store 1%positive 1 = Ok s' /\ cJSON_GetArraySize s' 1%positive = Ub UseAfterFree.
Proof.
  destruct (json_delete_item sample_store 1%positive [2; 3; 4]%positive 1 3%positive) as (s' & E & _ & H).
  - exact sample_list_of.
  - intros y Hy. repeat (apply elem_of_cons in Hy as [->|Hy]; [by eexists|]). by apply elem_of_nil in Hy.
  - reflexivity.
  - exists s'. split; [exact E|exact H].
Defined.
