(* ===== verification/Sha256.v ===== *)
(** encode_decode/sha256.c: SHA-256, against FIPS 180-4.  The caller's output buffer is a list
    of bytes; the variable-length array that the message is padded in is [buf]. *)

From S2P Require Import Prelude.

Open Scope c_scope.
Open Scope Z_scope.

(** ** The code *)

Definition rightrotate (w n : Z) : Z := (w >> n) .| u32 (w << (32 - n)).

(** copy_uint32 on a little-endian machine: the four bytes, the first the most significant. *)
Definition be32 (val : Z) : list Z := [u8 (val >> 24); u8 (val >> 16); u8 (val >> 8); u8 val].

Definition copy_uint32 (p : list Z) (off : nat) (val : Z) : res (list Z) :=
  if (length p <? off + 4)%nat then Ub OobWrite else Ok (take off p ++ be32 val ++ drop (off + 4) p).

Definition k : list Z :=
  0x428a2f98 :: 0x71374491 :: 0xb5c0fbcf :: 0xe9b5dba5 :: 0x3956c25b :: 0x59f111f1 :: 0x923f82a4 :: 0xab1c5ed5 ::
  0xd807aa98 :: 0x12835b01 :: 0x243185be :: 0x550c7dc3 :: 0x72be5d74 :: 0x80deb1fe :: 0x9bdc06a7 :: 0xc19bf174 ::
  0xe49b69c1 :: 0xefbe4786 :: 0x0fc19dc6 :: 0x240ca1cc :: 0x2de92c6f :: 0x4a7484aa :: 0x5cb0a9dc :: 0x76f988da ::
  0x983e5152 :: 0xa831c66d :: 0xb00327c8 :: 0xbf597fc7 :: 0xc6e00bf3 :: 0xd5a79147 :: 0x06ca6351 :: 0x14292967 ::
  0x27b70a85 :: 0x2e1b2138 :: 0x4d2c6dfc :: 0x53380d13 :: 0x650a7354 :: 0x766a0abb :: 0x81c2c92e :: 0x92722c85 ::
  0xa2bfe8a1 :: 0xa81a664b :: 0xc24b8b70 :: 0xc76c51a3 :: 0xd192e819 :: 0xd6990624 :: 0xf40e3585 :: 0x106aa070 ::
  0x19a4c116 :: 0x1e376c08 :: 0x2748774c :: 0x34b0bcb5 :: 0x391c0cb3 :: 0x4ed8aa4a :: 0x5b9cca4f :: 0x682e6ff3 ::
  0x748f82ee :: 0x78a5636f :: 0x84c87814 :: 0x8cc70208 :: 0x90befffa :: 0xa4506ceb :: 0xbef9a3f7 :: 0xc67178f2 :: nil.

(** A left shift by a count that may be negative is undefined; the x86 instruction takes
    the count modulo 32. *)
Definition shl (x n : Z) : Z := u32 (x << (n mod 32)).

(** for (int i = 0; i < 64; i++) over the bytes of a chunk: every fourth one completes a word. *)
Fixpoint load_words (chunk : list Z) (i val : Z) : list Z :=
  match chunk with
  | [] => []
  | c :: chunk =>
      let val := val .| shl c (8 * (3 - i)) in
      if i mod 4 =? 3 then val :: load_words chunk (i + 1) 0 else load_words chunk (i + 1) val
  end.

(** for (int i = 16; i < 64; i++), [w] the cells below [i]. *)
Fixpoint extend (fuel i : nat) (w : list Z) : list Z :=
  match fuel with
  | O => w
  | S fuel =>
      let w15 := nth (i - 15) w 0 in
      let w2 := nth (i - 2) w 0 in
      let s0 := rightrotate w15 7 .^ rightrotate w15 18 .^ (w15 >> 3) in
      let s1 := rightrotate w2 17 .^ rightrotate w2 19 .^ (w2 >> 10) in
      extend fuel (S i) (w ++ [u32 (nth (i - 16) w 0 + s0 + nth (i - 7) w 0 + s1)])
  end.

Record regs : Type := Regs { ra : Z; rb : Z; rc : Z; rd : Z; re : Z; rf : Z; rg : Z; rh : Z }.

Definition round (w : list Z) (r : regs) (i : nat) : regs :=
  let '(Regs a b c d e f g h) := r in
  let s_1 := rightrotate e 6 .^ rightrotate e 11 .^ rightrotate e 25 in
  let ch := (e .& f) .^ (u32 (Z.lnot e) .& g) in
  let temp1 := u32 (h + s_1 + ch + nth i k 0 + nth i w 0) in
  let s_0 := rightrotate a 2 .^ rightrotate a 13 .^ rightrotate a 22 in
  let maj := (a .& b) .^ (a .& c) .^ (b .& c) in
  let temp2 := u32 (s_0 + maj) in
  Regs (u32 (temp1 + temp2)) a b c (u32 (d + temp1)) e f g.

(** One pass of the loop over the chunks. *)
Definition do_chunk (r : regs) (chunk : list Z) : regs :=
  let w := extend 48 16 (load_words chunk 0 0) in
  let '(Regs a b c d e f g h) := fold_left (round w) (seq 0 64) r in
  Regs (u32 (ra r + a)) (u32 (rb r + b)) (u32 (rc r + c)) (u32 (rd r + d))
       (u32 (re r + e)) (u32 (rf r + f)) (u32 (rg r + g)) (u32 (rh r + h)).

(** for (int idx = 0; idx < chunk_len; idx++), with its body as an argument. *)
Fixpoint chunk_loop (body : regs -> list Z -> regs) (chunk_len : nat) (buf : list Z) (r : regs) : regs :=
  match chunk_len with
  | O => r
  | S n => chunk_loop body n (drop 64 buf) (body r (take 64 buf))
  end.

Definition initial : regs :=
  Regs 0x6a09e667 0xbb67ae85 0x3c6ef372 0xa54ff53a 0x510e527f 0x9b05688c 0x1f83d9ab 0x5be0cd19.

(** The number of bytes between the message and its length. *)
Definition append_len (len : Z) : Z :=
  let r := u64 (len * 8) mod 512 in
  (if r <? 448 then 448 - r else 448 + 512 - r) / 8.

(** The padded message: the zeros, the message, the byte 0x80 over the first zero, the
    length in bits. *)
Definition padded (data : list Z) (len : Z) : list Z :=
  let append := append_len len in
  let bits_len := u64 (len * 8) in
  take (Z.to_nat len) data ++ <[0%nat:=0x80]> (replicate (Z.to_nat append) 0)
    ++ map (fun i => (bits_len >> ((7 - i) * 8)) .& 0xff) [0; 1; 2; 3; 4; 5; 6; 7].

Definition store_digest (out : list Z) (r : regs) : res (list Z) :=
  let! out := copy_uint32 out 0 (ra r) in
  let! out := copy_uint32 out 1 (rb r) in
  let! out := copy_uint32 out 2 (rc r) in
  let! out := copy_uint32 out 3 (rd r) in
  let! out := copy_uint32 out 4 (re r) in
  let! out := copy_uint32 out 5 (rf r) in
  let! out := copy_uint32 out 6 (rg r) in
  copy_uint32 out 7 (rh r).

Definition sha256 (data : list Z) (len : Z) (out : list Z) : res (list Z) :=
  if zlen data <? len then Ub OobRead
  else
    let buf := padded data len in
    store_digest out (chunk_loop do_chunk (length buf / 64) buf initial).

(** The example of the standard: the digest of abc is ba7816bf 8f01cfea 414140de 5dae2223
    b00361a3 96177a9c b410ff61 f20015ad. *)
Example abc_words : chunk_loop do_chunk 1 (padded [97; 98; 99] 3) initial =
  Regs 0xba7816bf 0x8f01cfea 0x414140de 0x5dae2223 0xb00361a3 0x96177a9c 0xb410ff61 0xf20015ad.
Proof. vm_compute. reflexivity. Qed.

(** * FIPS 180-4 *)

Module Fips.
Definition rotr (n x : Z) : Z := x / 2 ^ n + (x mod 2 ^ n) * 2 ^ (32 - n).
Definition add (l : list Z) : Z := foldr Z.add 0 l mod 2 ^ 32.
Definition Ch (x y z : Z) : Z := Z.lxor (Z.land x y) (Z.land (Z.lxor x (2 ^ 32 - 1)) z).
Definition Maj (x y z : Z) : Z := Z.lxor (Z.lxor (Z.land x y) (Z.land x z)) (Z.land y z).
Definition Sigma0 (x : Z) : Z := Z.lxor (Z.lxor (rotr 2 x) (rotr 13 x)) (rotr 22 x).
Definition Sigma1 (x : Z) : Z := Z.lxor (Z.lxor (rotr 6 x) (rotr 11 x)) (rotr 25 x).
Definition sigma0 (x : Z) : Z := Z.lxor (Z.lxor (rotr 7 x) (rotr 18 x)) (x / 2 ^ 3).
Definition sigma1 (x : Z) : Z := Z.lxor (Z.lxor (rotr 17 x) (rotr 19 x)) (x / 2 ^ 10).

(** A big-endian number of [n] bytes. *)
Fixpoint bytes_of (n : nat) (x : Z) : list Z :=
  match n with O => [] | S n => (x / 2 ^ (8 * Z.of_nat n)) mod 2 ^ 8 :: bytes_of n x end.

Definition number (l : list Z) : Z := fold_left (fun x b => x * 2 ^ 8 + b) l 0.

(** The bit 1, the least number of zeros, the length in 64 bits, in bytes. *)
Definition pad (msg : list Z) : list Z :=
  msg ++ [0x80] ++ replicate (Z.to_nat ((55 - zlen msg) mod 64)) 0 ++ bytes_of 8 (8 * zlen msg).

Fixpoint split (size n : nat) (l : list Z) : list (list Z) :=
  match n with O => [] | S n => take size l :: split size n (drop size l) end.

(** The message schedule, by recursion on [t]; [fuel] is above [t]. *)
Fixpoint W (M : list Z) (fuel t : nat) : Z :=
  match fuel with
  | O => 0
  | S fuel =>
      if (t <? 16)%nat then nth t M 0
      else add [sigma1 (W M fuel (t - 2)); W M fuel (t - 7); sigma0 (W M fuel (t - 15)); W M fuel (t - 16)]
  end.

(** The working variables a..h after [t] rounds. *)
Fixpoint rounds (M : list Z) (H : list Z) (t : nat) : list Z :=
  match t with
  | O => H
  | S t =>
      match rounds M H t with
      | [a; b; c; d; e; f; g; h] =>
          let T1 := add [h; Sigma1 e; Ch e f g; nth t k 0; W M 64 t] in
          let T2 := add [Sigma0 a; Maj a b c] in
          [add [T1; T2]; a; b; c; add [d; T1]; e; f; g]
      | H => H
      end
  end.

Definition compress (H block : list Z) : list Z :=
  zip_with (fun x y => add [x; y]) (rounds (map number (split 4 16 block)) H 64) H.

Definition hash (msg : list Z) : list Z :=
  let p := pad msg in fold_left compress (split 64 (length p / 64) p)
    [0x6a09e667; 0xbb67ae85; 0x3c6ef372; 0xa54ff53a; 0x510e527f; 0x9b05688c; 0x1f83d9ab; 0x5be0cd19].
End Fips.

(** * The code computes the hash *)

Definition word (x : Z) : Prop := 0 <= x < 2 ^ 32.

Lemma lor_add a b n : 0 <= n -> 0 <= a < 2 ^ n -> a .| (b << n) = a + b * 2 ^ n.
Proof.
  intros Hn Ha. rewrite Z.shiftl_mul_pow2 by done. rewrite <- Z.lxor_lor.
  - symmetry. apply Z.add_nocarry_lxor. apply Z.bits_inj'. intros i Hi. rewrite Z.land_spec, Z.bits_0.
    destruct (decide (i < n)).
    + by rewrite Z.mul_pow2_bits_low, andb_false_r by done.
    + rewrite <- (Z.mod_small a (2 ^ n)) by done. by rewrite Z.mod_pow2_bits_high by lia.
  - apply Z.bits_inj'. intros i Hi. rewrite Z.land_spec, Z.bits_0. destruct (decide (i < n)).
    + by rewrite Z.mul_pow2_bits_low, andb_false_r by done.
    + rewrite <- (Z.mod_small a (2 ^ n)) by done. by rewrite Z.mod_pow2_bits_high by lia.
Qed.

Lemma rightrotate_rotr x n : word x -> 0 < n < 32 -> rightrotate x n = Fips.rotr n x.
Proof.
  intros Hx Hn. unfold rightrotate, Fips.rotr, wrap. rewrite Z.shiftr_div_pow2, Z.shiftl_mul_pow2 by lia.
  assert (2 ^ 32 = 2 ^ n * 2 ^ (32 - n)) as E by (rewrite <- Z.pow_add_r by lia; f_equal; lia).
  assert (0 < 2 ^ n /\ 0 < 2 ^ (32 - n)) as [H1 H2] by (split; apply Z.pow_pos_nonneg; lia).
  rewrite E at 1. rewrite Z.mul_mod_distr_r by lia. rewrite <- lor_add; [by rewrite Z.shiftl_mul_pow2 by lia|lia|].
  split; [apply Z.div_pos; [apply Hx|done]|]. apply Z.div_lt_upper_bound; [done|]. unfold word in Hx. lia.
Qed.

Lemma lnot_ones e : word e -> u32 (Z.lnot e) = Z.lxor e (2 ^ 32 - 1).
Proof.
  intros He. change (2 ^ 32 - 1) with (Z.ones 32). apply Z.bits_inj'. intros i Hi.
  unfold wrap. rewrite Z.lxor_spec. destruct (decide (i < 32)).
  - rewrite Z.mod_pow2_bits_low, Z.lnot_spec, Z.ones_spec_low by lia. by rewrite xorb_true_r.
  - rewrite Z.mod_pow2_bits_high, Z.ones_spec_high by lia. rewrite xorb_false_r.
    rewrite <- (Z.mod_small e (2 ^ 32)) by exact He. by rewrite Z.mod_pow2_bits_high by lia.
Qed.

Lemma word_wrap x : word (u32 x).
Proof. apply (wrap_bound 32). lia. Qed.

Lemma word_lxor x y : word x -> word y -> word (Z.lxor x y).
Proof.
  unfold word. intros Hx Hy. split; [apply Z.lxor_nonneg; lia|].
  destruct (decide (Z.lxor x y = 0)) as [->|Hn]; [done|].
  assert (0 <= Z.lxor x y) by (apply Z.lxor_nonneg; lia). apply Z.log2_lt_pow2; [lia|].
  eapply Z.le_lt_trans; [apply Z.log2_lxor; lia|]. destruct (decide (x = 0)) as [->|]; destruct (decide (y = 0)) as [->|].
  - done.
  - rewrite Z.max_r by apply Z.log2_nonneg. apply Z.log2_lt_pow2; lia.
  - rewrite Z.max_l by apply Z.log2_nonneg. apply Z.log2_lt_pow2; lia.
  - apply Z.max_lub_lt; apply Z.log2_lt_pow2; lia.
Qed.

#[local] Hint Resolve word_wrap word_lxor : word.

(** ** The words of a block *)

Lemma shl_byte c i : 0 <= c < 256 -> shl c (8 * (3 - i)) = c << (8 * (3 - i mod 4)).
Proof.
  intros Hc. unfold shl. pose proof (Z.mod_pos_bound i 4 eq_refl) as Hi.
  assert ((8 * (3 - i)) mod 32 = 8 * (3 - i mod 4)) as ->.
  { rewrite (Z.div_mod i 4) at 1 by done. replace (8 * (3 - (4 * (i / 4) + i mod 4))) with (8 * (3 - i mod 4) + (- (i / 4)) * 32) by lia.
    rewrite Z.mod_add by done. apply Z.mod_small. lia. }
  apply wrap_small. rewrite Z.shiftl_mul_pow2 by lia. split; [apply Z.mul_nonneg_nonneg; [lia|apply Z.pow_nonneg; lia]|].
  assert (i mod 4 = 0 \/ i mod 4 = 1 \/ i mod 4 = 2 \/ i mod 4 = 3) as [->|[->|[->| ->]]] by lia; cbn; lia.
Qed.

Lemma word4 a b c d :
  0 <= a < 256 -> 0 <= b < 256 -> 0 <= c < 256 -> 0 <= d < 256 ->
  ((0 .| a << 24) .| b << 16) .| c << 8 .| d << 0 = Fips.number [a; b; c; d].
Proof.
  intros Ha Hb Hc Hd. rewrite Z.lor_0_l, Z.shiftl_0_r.
  assert (a << 24 .| b << 16 = (a * 256 + b) << 16) as ->.
  { rewrite Z.lor_comm, (Z.shiftl_mul_pow2 b), lor_add, Z.shiftl_mul_pow2 by lia. lia. }
  assert ((a * 256 + b) << 16 .| c << 8 = ((a * 256 + b) * 256 + c) << 8) as ->.
  { rewrite Z.lor_comm, (Z.shiftl_mul_pow2 c), lor_add, Z.shiftl_mul_pow2 by lia. lia. }
  rewrite Z.lor_comm, lor_add by lia. cbn. lia.
Qed.

Lemma load_word a b c d l i :
  0 <= a < 256 -> 0 <= b < 256 -> 0 <= c < 256 -> 0 <= d < 256 -> i mod 4 = 0 ->
  load_words (a :: b :: c :: d :: l) i 0 = Fips.number [a; b; c; d] :: load_words l (i + 4) 0.
Proof.
  intros Ha Hb Hc Hd Hi. rewrite <- word4 by done. cbn [load_words].
  assert (forall j, 0 <= j < 4 -> (i + j) mod 4 = j) as Hj.
  { intros j Hj. rewrite <- Zplus_mod_idemp_l, Hi. apply Z.mod_small. lia. }
  replace (i + 1 + 1 + 1 + 1) with (i + 4) by lia. replace (i + 1 + 1 + 1) with (i + 3) by lia. replace (i + 1 + 1) with (i + 2) by lia.
  rewrite !shl_byte by done. rewrite !Hi, !Hj by lia. done.
Qed.

Lemma load_words_number n l i :
  byte_list l -> length l = (4 * n)%nat -> i mod 4 = 0 -> load_words l i 0 = map Fips.number (Fips.split 4 n l).
Proof.
  revert l i. induction n as [|n IH]; intros l i Hl Hlen Hi; [by destruct l|].
  destruct l as [|a [|b [|c [|d l]]]]; cbn in Hlen; try lia.
  do 4 (apply Forall_cons in Hl as [? Hl]). rewrite load_word by done. cbn [Fips.split map take drop]. f_equal.
  rewrite drop_0. apply IH; [done|lia|]. by rewrite Z.add_comm, <- Zplus_mod_idemp_r, Hi.
Qed.

Lemma number4_word l : byte_list l -> length l = 4%nat -> word (Fips.number l).
Proof.
  intros Hl Hlen. destruct l as [|a [|b [|c [|d [|]]]]]; try done. do 4 (apply Forall_cons in Hl as [? Hl]).
  unfold word. cbn. lia.
Qed.

Lemma split_words n l : byte_list l -> length l = (4 * n)%nat -> Forall word (map Fips.number (Fips.split 4 n l)).
Proof.
  revert l. induction n as [|n IH]; intros l Hl Hlen; cbn [Fips.split map]; [constructor|].
  constructor; [apply number4_word; [by apply Forall_take|rewrite length_take; lia]|].
  apply IH; [by apply Forall_drop|rewrite length_drop; lia].
Qed.

Lemma split_length size n l : length (Fips.split size n l) = n.
Proof. revert l. induction n as [|n IH]; intros l; cbn; [done|]. by rewrite IH. Qed.

(** ** The message schedule *)

Lemma word_add l : word (Fips.add l).
Proof. apply (wrap_bound 32). lia. Qed.

Lemma word_shiftr x n : word x -> 0 <= n -> word (x >> n).
Proof.
  intros Hx Hn. rewrite Z.shiftr_div_pow2 by done. unfold word in *. assert (0 < 2 ^ n) by (apply Z.pow_pos_nonneg; lia).
  split; [apply Z.div_pos; lia|]. eapply Z.le_lt_trans; [|apply Hx]. apply Z.div_le_upper_bound; [done|]. nia.
Qed.

Section Schedule.
Context (M : list Z) (HM : Forall word M).

Lemma W_S fuel t : Fips.W M (S fuel) t =
  if (t <? 16)%nat then nth t M 0
  else Fips.add [Fips.sigma1 (Fips.W M fuel (t - 2)); Fips.W M fuel (t - 7);
                 Fips.sigma0 (Fips.W M fuel (t - 15)); Fips.W M fuel (t - 16)].
Proof. reflexivity. Qed.

Lemma W_word fuel t : word (Fips.W M fuel t).
Proof.
  destruct fuel; [by split|]. rewrite W_S. destruct (t <? 16)%nat; [|apply word_add].
  rewrite Forall_forall in HM. destruct (nth_in_or_default t M 0) as [Hin| ->]; [by apply HM, list_elem_of_In|by split].
Qed.

Lemma W_fuel f t : (t < f)%nat -> Fips.W M f t = Fips.W M (S t) t.
Proof.
  revert t. induction f as [f IH] using lt_wf_ind. intros t Ht. destruct f as [|f]; [lia|]. rewrite !W_S.
  destruct (Nat.ltb_spec t 16); [done|].
  rewrite !(IH f) by lia. rewrite !(IH t) by lia. done.
Qed.

Lemma W_step t : (16 <= t < 64)%nat ->
  Fips.W M 64 t = Fips.add [Fips.sigma1 (Fips.W M 64 (t - 2)); Fips.W M 64 (t - 7);
                            Fips.sigma0 (Fips.W M 64 (t - 15)); Fips.W M 64 (t - 16)].
Proof.
  intros Ht. rewrite (W_fuel 64 t), W_S by lia. rewrite (proj2 (Nat.ltb_ge _ _)) by lia.
  by rewrite !(W_fuel t _), (W_fuel 64 (t - 2)), (W_fuel 64 (t - 7)), (W_fuel 64 (t - 15)), (W_fuel 64 (t - 16)) by lia.
Qed.

Lemma nth_W i j : (j < i)%nat -> nth j (map (Fips.W M 64) (seq 0 i)) 0 = Fips.W M 64 j.
Proof. intros Hj. rewrite nth_lookup, list_lookup_fmap, lookup_seq_lt by done. done. Qed.

Lemma extend_W fuel i :
  (16 <= i)%nat -> (i + fuel <= 64)%nat ->
  extend fuel i (map (Fips.W M 64) (seq 0 i)) = map (Fips.W M 64) (seq 0 (i + fuel)).
Proof.
  revert i. induction fuel as [|fuel IH]; intros i Hi Hf; cbn [extend]; [by rewrite Nat.add_0_r|].
  replace (i + S fuel)%nat with (S i + fuel)%nat by lia. rewrite <- IH by lia. f_equal.
  rewrite seq_S, map_app. f_equal. cbn [map Nat.add]. f_equal. rewrite !nth_W by lia. rewrite (W_step i) by lia.
  pose proof (W_word 64) as HW. rewrite !rightrotate_rotr by (try lia; apply HW).
  unfold Fips.add, Fips.sigma0, Fips.sigma1, wrap. rewrite !Z.shiftr_div_pow2 by lia. cbn [foldr]. f_equal. lia.
Qed.

Lemma words_W : length M = 16%nat -> M = map (Fips.W M 64) (seq 0 16).
Proof.
  intros Hlen. apply list_eq. intros i. destruct (decide (i < 16)%nat).
  - rewrite list_lookup_fmap, lookup_seq_lt by done. cbn [fmap option_fmap option_map].
    rewrite (W_fuel 64), W_S by lia. cbn [Nat.add]. rewrite (proj2 (Nat.ltb_lt _ _)) by lia.
    destruct (lookup_lt_is_Some_2 M i) as [x Hx]; [lia|]. by rewrite nth_lookup, Hx.
  - rewrite !(proj2 (lookup_ge_None _ _)); [done|rewrite length_map, length_seq; lia|lia].
Qed.
End Schedule.
#[local] Opaque Fips.W.

(** ** Rounds and blocks *)

Definition to_list (r : regs) : list Z := [ra r; rb r; rc r; rd r; re r; rf r; rg r; rh r].

Lemma add_word l x : foldr Z.add 0 l = x -> u32 x = Fips.add l.
Proof. by intros <-. Qed.

Lemma round_fips M r i :
  Forall word M -> Forall word (to_list r) -> (i < 64)%nat ->
  let '(Regs a b c d e f g h) := r in
  let T1 := Fips.add [h; Fips.Sigma1 e; Fips.Ch e f g; nth i k 0; Fips.W M 64 i] in
  let T2 := Fips.add [Fips.Sigma0 a; Fips.Maj a b c] in
  to_list (round (map (Fips.W M 64) (seq 0 64)) r i) = [Fips.add [T1; T2]; a; b; c; Fips.add [d; T1]; e; f; g].
Proof.
  intros HM Hr Hi. destruct r as [a b c d e f g h]. unfold to_list in Hr. cbn [ra rb rc rd re rf rg rh] in Hr. rewrite !Forall_cons in Hr.
  destruct Hr as (Ha & Hb & Hc & Hd & He & Hf & Hg & Hh & _). cbv zeta. unfold round, to_list.
  rewrite (nth_W M 64 i) by lia. rewrite !rightrotate_rotr by (done || lia). rewrite lnot_ones by done.
  cbn [ra rb rc rd re rf rg rh]. fold (Fips.Sigma1 e) (Fips.Sigma0 a) (Fips.Ch e f g) (Fips.Maj a b c).
  set (t1 := u32 (h + _ + _ + _ + _)). set (t2 := u32 (Fips.Sigma0 a + _)).
  assert (t1 = Fips.add [h; Fips.Sigma1 e; Fips.Ch e f g; nth i k 0; Fips.W M 64 i]) as <- by (apply add_word; cbn [foldr]; lia).
  assert (t2 = Fips.add [Fips.Sigma0 a; Fips.Maj a b c]) as <- by (apply add_word; cbn [foldr]; lia).
  f_equal; [apply add_word; cbn [foldr]; lia|]. do 4 f_equal. apply add_word. cbn [foldr]. lia.
Qed.

Lemma rounds_fips M r n :
  Forall word M -> Forall word (to_list r) -> (n <= 64)%nat ->
  let r' := fold_left (round (map (Fips.W M 64) (seq 0 64))) (seq 0 n) r in
  to_list r' = Fips.rounds M (to_list r) n /\ Forall word (to_list r').
Proof.
  intros HM Hr. induction n as [|n IH]; intros Hn; [done|]. cbv zeta in *. rewrite (seq_S n 0), fold_left_app. cbn [fold_left Nat.add].
  destruct IH as [E Hw]; [lia|]. cbn [Fips.rounds]. rewrite <- E. clear E.
  set (r1 := fold_left _ _ r) in *. pose proof (round_fips M r1 n HM Hw ltac:(lia)) as Hround.
  destruct r1 as [a b c d e f g h]. cbv zeta in Hround. rewrite Hround. split; [done|].
  unfold to_list in Hw. cbn [ra rb rc rd re rf rg rh] in Hw. rewrite !Forall_cons in Hw.
  destruct Hw as (? & ? & ? & ? & ? & ? & ? & ? & _). repeat first [apply Forall_nil_2|apply Forall_cons_2]; first [done|apply word_add].
Qed.

Lemma chunk_fips r chunk :
  byte_list chunk -> length chunk = 64%nat -> Forall word (to_list r) ->
  to_list (do_chunk r chunk) = Fips.compress (to_list r) chunk /\ Forall word (to_list (do_chunk r chunk)).
Proof.
  intros Hc Hlen Hr. unfold do_chunk, Fips.compress. rewrite (load_words_number 16) by done.
  set (M := map Fips.number (Fips.split 4 16 chunk)).
  assert (Forall word M) as HM by by apply split_words.
  assert (length M = 16%nat) as HlM by by unfold M; rewrite length_map, split_length.
  clearbody M. assert (extend 48 16 M = map (Fips.W M 64) (seq 0 64)) as ->.
  { etrans; [exact (f_equal (extend 48 16) (words_W M HlM))|exact (extend_W M HM 48 16 (le_n _) (le_n _))]. }
  destruct (rounds_fips M r 64 HM Hr (le_n _)) as [<- Hw].
  destruct (fold_left _ _ r) as [a b c d e f g h]. unfold to_list; cbn [zip_with ra rb rc rd re rf rg rh] in *.
  split; [|by repeat first [apply Forall_nil_2|apply Forall_cons_2]; try apply word_wrap].
  repeat (f_equal; [apply add_word; cbn [foldr]; lia|]). f_equal. apply add_word. cbn [foldr]. lia.
Qed.

(** The loop is a fold over the blocks, whatever the body. *)
Lemma chunks_fold body (g : list Z -> list Z -> list Z) n buf r :
  (forall r chunk, byte_list chunk -> length chunk = 64%nat -> Forall word (to_list r) ->
     to_list (body r chunk) = g (to_list r) chunk /\ Forall word (to_list (body r chunk))) ->
  byte_list buf -> length buf = (64 * n)%nat -> Forall word (to_list r) ->
  to_list (chunk_loop body n buf r) = fold_left g (Fips.split 64 n buf) (to_list r).
Proof.
  intros Hstep. revert buf r. induction n as [|n IH]; intros buf r Hb Hlen Hr; [done|]. cbn [chunk_loop Fips.split fold_left].
  destruct (Hstep r (take 64 buf)) as [E Hw]; [by apply Forall_take|rewrite length_take; lia|done|].
  rewrite <- E. apply IH; [by apply Forall_drop|rewrite length_drop; lia|done].
Qed.

(** ** Padding *)

Lemma append_len_fips len : 0 <= len < 2 ^ 61 -> append_len len = 1 + (55 - len) mod 64.
Proof.
  intros Hlen. unfold append_len. rewrite wrap_small by (change (2 ^ 64) with (2 ^ 61 * 8); lia).
  replace 512 with (64 * 8) by done. rewrite Z.mul_mod_distr_r by done.
  assert ((55 - len) mod 64 = (55 - len mod 64) mod 64) as -> by (by rewrite Zminus_mod_idemp_r).
  pose proof (Z.mod_pos_bound len 64 eq_refl) as Hm. set (m := len mod 64) in *. clearbody m.
  destruct (Z.ltb_spec (m * 8) 448).
  - replace (448 - m * 8) with ((56 - m) * 8) by lia. rewrite Z.div_mul, Z.mod_small by lia. lia.
  - replace (448 + 64 * 8 - m * 8) with ((120 - m) * 8) by lia. rewrite Z.div_mul by lia.
    replace (55 - m) with ((119 - m) + (-1) * 64) by lia. rewrite Z.mod_add, Z.mod_small by lia. lia.
Qed.

Lemma padded_pad data : zlen data < 2 ^ 61 -> padded data (zlen data) = Fips.pad data.
Proof.
  intros Hlen. pose proof (zlen_nonneg data). unfold padded, Fips.pad. rewrite append_len_fips by lia.
  rewrite take_ge by (unfold zlen; lia). f_equal. pose proof (Z.mod_pos_bound (55 - zlen data) 64 eq_refl).
  replace (Z.to_nat (1 + (55 - zlen data) mod 64)) with (S (Z.to_nat ((55 - zlen data) mod 64))) by lia.
  cbn [replicate app]. f_equal. f_equal.
  rewrite wrap_small by (change (2 ^ 64) with (2 ^ 61 * 8); lia). rewrite (Z.mul_comm _ 8).
  assert (forall x i, 0 <= i -> (x >> i) .& 0xff = (x / 2 ^ i) mod 2 ^ 8) as Hb.
  { intros x i Hi. change 0xff with (Z.ones 8). by rewrite Z.land_ones, Z.shiftr_div_pow2. }
  cbn [map]. rewrite !Hb by lia. reflexivity.
Qed.

Lemma pad_length data : exists n, length (Fips.pad data) = (64 * n)%nat.
Proof.
  exists (Z.to_nat ((zlen data + 9 + (55 - zlen data) mod 64) / 64)). unfold Fips.pad. rewrite !length_app, length_replicate.
  cbn [length Fips.bytes_of]. pose proof (Z.mod_pos_bound (55 - zlen data) 64 eq_refl).
  assert ((zlen data + 9 + (55 - zlen data) mod 64) mod 64 = 0) as Hm.
  { rewrite Zplus_mod_idemp_r. replace (zlen data + 9 + (55 - zlen data)) with 64 by lia. done. }
  pose proof (Z.div_mod (zlen data + 9 + (55 - zlen data) mod 64) 64). unfold zlen in *. lia.
Qed.

Lemma bytes_of_bytes n x : byte_list (Fips.bytes_of n x).
Proof. induction n; cbn [Fips.bytes_of]; constructor; [apply Z.mod_pos_bound; lia|done]. Qed.

Lemma pad_bytes data : byte_list data -> byte_list (Fips.pad data).
Proof.
  intros Hd. unfold Fips.pad. repeat apply Forall_app_2; [done|by repeat constructor| |apply bytes_of_bytes].
  apply Forall_replicate. lia.
Qed.

(** ** The digest *)

(** The eight stores are one byte apart instead of four: of each word but the last only the
    first byte stays. *)
Definition stored (H : list Z) : list Z :=
  match H with
  | [a; b; c; d; e; f; g; h] => map (fun x => u8 (x >> 24)) [a; b; c; d; e; f; g] ++ be32 h
  | _ => []
  end.

Lemma store_digest_stored out r :
  (11 <= length out)%nat -> store_digest out r = Ok (stored (to_list r) ++ drop 11 out).
Proof.
  intros Hlen. do 11 (destruct out as [|? out]; [cbn in Hlen; lia|]). reflexivity.
Qed.

(** C12. sha256 pads, schedules and compresses as FIPS 180-4 says: for every message the
    eight words it ends with are the hash.  Of them it stores the first byte of the first seven
    and the four bytes of the last, in the first eleven bytes of [out]; the other
    twenty-one of the digest are not written. *)
Theorem sha256_is_fips data out :
  byte_list data -> zlen data < 2 ^ 36 -> (11 <= length out)%nat ->
  sha256 data (zlen data) out = Ok (stored (Fips.hash data) ++ drop 11 out).
Proof.
  intros Hd Hlen Hout. unfold sha256. rewrite Z.ltb_irrefl.
  assert (zlen data < 2 ^ 61) by (change (2 ^ 61) with (2 ^ 36 * 2 ^ 25); change (2 ^ 25) with 33554432; pose proof (zlen_nonneg data); lia).
  rewrite padded_pad by done. unfold Fips.hash. destruct (pad_length data) as [n Hn].
  assert (length (Fips.pad data) / 64 = n)%nat as E by by rewrite Hn, Nat.mul_comm, Nat.div_mul.
  cbv zeta. rewrite E, store_digest_stored by done. do 3 f_equal.
  apply (chunks_fold do_chunk Fips.compress n (Fips.pad data) initial); [exact chunk_fips|by apply pad_bytes|done|by repeat constructor].
Qed.

Lemma sha256_is_fips_witness :
  sha256 [97; 98; 99] 3 (replicate 32 0) = Ok (stored (Fips.hash [97; 98; 99]) ++ replicate 21 0) /\
  sha256 [97; 98; 99] 3 (replicate 32 0) =
    Ok ([0xba; 0x8f; 0x41; 0x5d; 0xb0; 0x96; 0xb4; 0xf2; 0x00; 0x15; 0xad] ++ replicate 21 0).
Proof.
  split.
  - apply (sha256_is_fips [97; 98; 99] (replicate 32 0)).
    + by repeat constructor.
    + reflexivity.
    + cbn. lia.
  - vm_compute. reflexivity.
Defined.
