(* ===== verification/Pcm.v ===== *)
(** sample/pcm.c (the same file as ffmpeg_sample/pcm.c): the PCM library.  The kernel
    and the device behind the file descriptor are a parameter, [Kernel]; the stream
    ([pcm]), the pages shared with the kernel ([shared]) and the counts of what is
    open, mapped and allocated make the state [sys]. *)

From S2P Require Import Prelude CLib.

Open Scope c_scope.
Open Scope Z_scope.

(** ** Constants of pcm.h and of the kernel's headers *)

Definition PCM_OUT : Z := 0.
Definition PCM_IN : Z := 0x10000000.
Definition PCM_MMAP : Z := 1.
Definition PCM_NOIRQ : Z := 2.
Definition PCM_NORESTART : Z := 4.
Definition PCM_MONOTONIC : Z := 8.

Definition PCM_STATE_RUNNING : Z := 3.
Definition PCM_STATE_XRUN : Z := 4.
Definition PCM_STATE_DRAINING : Z := 5.
Definition PCM_STATE_SUSPENDED : Z := 7.
Definition PCM_STATE_DISCONNECTED : Z := 8.

Definition EIO : Z := 5.
Definition ENOMEM : Z := 12.
Definition ENODEV : Z := 19.
Definition EINVAL : Z := 22.
Definition EPIPE : Z := 32.
Definition ENOSYS : Z := 38.
Definition ESTRPIPE : Z := 86.
Definition EINTR : Z := 4.

Definition POLLIN : Z := 1.
Definition POLLOUT : Z := 4.
Definition POLLERR : Z := 8.
Definition POLLNVAL : Z := 32.

Definition SNDRV_PCM_HW_PARAM_ACCESS : Z := 0.
Definition SNDRV_PCM_HW_PARAM_FORMAT : Z := 1.
Definition SNDRV_PCM_HW_PARAM_SUBFORMAT : Z := 2.
Definition SNDRV_PCM_HW_PARAM_SAMPLE_BITS : Z := 8.
Definition SNDRV_PCM_HW_PARAM_FRAME_BITS : Z := 9.
Definition SNDRV_PCM_HW_PARAM_CHANNELS : Z := 10.
Definition SNDRV_PCM_HW_PARAM_RATE : Z := 11.
Definition SNDRV_PCM_HW_PARAM_PERIOD_TIME : Z := 12.
Definition SNDRV_PCM_HW_PARAM_PERIOD_SIZE : Z := 13.
Definition SNDRV_PCM_HW_PARAM_PERIOD_BYTES : Z := 14.
Definition SNDRV_PCM_HW_PARAM_PERIODS : Z := 15.
Definition SNDRV_PCM_HW_PARAM_BUFFER_TIME : Z := 16.
Definition SNDRV_PCM_HW_PARAM_BUFFER_SIZE : Z := 17.
Definition SNDRV_PCM_HW_PARAM_BUFFER_BYTES : Z := 18.
Definition SNDRV_PCM_HW_PARAM_TICK_TIME : Z := 19.
Definition SNDRV_PCM_HW_PARAMS_NO_PERIOD_WAKEUP : Z := 4.
Definition SNDRV_PCM_SYNC_PTR_HWSYNC : Z := 1.
Definition SNDRV_PCM_SYNC_PTR_APPL : Z := 2.

(** [bits] of [flags] are set / flags & bits. *)
Definition has (flags bits : Z) : bool := negb ((flags .& bits) =? 0).

(** (~flags) & bits, with [flags] unsigned int. *)
Definition lacks (flags bits : Z) : bool := has (u32 (Z.lnot flags)) bits.

Inductive pcm_format : Type := PCM_FORMAT_S16_LE | PCM_FORMAT_S32_LE | PCM_FORMAT_S8 | PCM_FORMAT_S24_LE.

Record pcm_config : Type := Config {
  channels : Z; rate : Z; period_size : Z; period_count : Z; format : pcm_format;
  start_threshold : Z; stop_threshold : Z; silence_threshold : Z; avail_min : Z }.

Definition pcm_format_to_alsa (f : pcm_format) : Z :=
  match f with PCM_FORMAT_S32_LE => 10 | PCM_FORMAT_S8 => 0 | PCM_FORMAT_S24_LE => 6 | PCM_FORMAT_S16_LE => 2 end.

Definition pcm_format_to_bits (f : pcm_format) : Z :=
  match f with PCM_FORMAT_S32_LE | PCM_FORMAT_S24_LE => 32 | PCM_FORMAT_S8 | PCM_FORMAT_S16_LE => 16 end.

(** ** The hardware parameters: struct snd_pcm_hw_params *)

Record interval : Type := Interval { imin : Z; imax : Z; integer : bool }.

(** Three masks of eight words, twelve intervals. *)
Record hw_params : Type := HwParams {
  hw_flags : Z; masks : list (list Z); intervals : list interval; rmask : Z; cmask : Z; info : Z }.

Definition param_is_mask (p : Z) : bool := (0 <=? p) && (p <=? 2).
Definition param_is_interval (p : Z) : bool := (8 <=? p) && (p <=? 19).

Definition param_to_interval (p : hw_params) (n : Z) : interval :=
  nth (Z.to_nat (n - 8)) (intervals p) (Interval 0 0 false).

Definition param_to_mask (p : hw_params) (n : Z) : list Z := nth (Z.to_nat n) (masks p) [].

Definition set_interval (p : hw_params) (n : Z) (i : interval) : hw_params :=
  HwParams (hw_flags p) (masks p) (<[Z.to_nat (n - 8):=i]> (intervals p)) (rmask p) (cmask p) (info p).

Definition param_set_mask (p : hw_params) (n bit : Z) : hw_params :=
  if 256 <=? bit then p
  else if param_is_mask n then
    let m := <[1%nat:=0]> (<[0%nat:=0]> (param_to_mask p n)) in
    let w := Z.to_nat (bit >> 5) in
    let m := <[w:=nth w m 0 .| (1 << (bit .& 31))]> m in
    HwParams (hw_flags p) (<[Z.to_nat n:=m]> (masks p)) (intervals p) (rmask p) (cmask p) (info p)
  else p.

Definition param_set_min (p : hw_params) (n val : Z) : hw_params :=
  if param_is_interval n
  then let i := param_to_interval p n in set_interval p n (Interval val (imax i) (integer i)) else p.

Definition param_get_min (p : hw_params) (n : Z) : Z :=
  if param_is_interval n then imin (param_to_interval p n) else 0.

Definition param_get_max (p : hw_params) (n : Z) : Z :=
  if param_is_interval n then imax (param_to_interval p n) else 0.

Definition param_set_int (p : hw_params) (n val : Z) : hw_params :=
  if param_is_interval n then set_interval p n (Interval val val true) else p.

Definition param_get_int (p : hw_params) (n : Z) : Z :=
  if param_is_interval n then
    let i := param_to_interval p n in if integer i then imax i else 0
  else 0.

Definition param_init : hw_params :=
  let ones := 2 ^ 32 - 1 in
  HwParams 0 (replicate 3 ([ones; ones] ++ replicate 6 0)) (replicate 12 (Interval 0 ones false)) ones 0 ones.

Inductive pcm_param : Type :=
  | PCM_PARAM_SAMPLE_BITS | PCM_PARAM_FRAME_BITS | PCM_PARAM_CHANNELS | PCM_PARAM_RATE | PCM_PARAM_PERIOD_TIME
  | PCM_PARAM_PERIOD_SIZE | PCM_PARAM_PERIOD_BYTES | PCM_PARAM_PERIODS | PCM_PARAM_BUFFER_TIME
  | PCM_PARAM_BUFFER_SIZE | PCM_PARAM_BUFFER_BYTES | PCM_PARAM_TICK_TIME.

(** A parameter that is not of the enum, -1 in the code, is not modelled. *)
Definition pcm_param_to_alsa (param : pcm_param) : Z :=
  match param with
  | PCM_PARAM_SAMPLE_BITS => SNDRV_PCM_HW_PARAM_SAMPLE_BITS
  | PCM_PARAM_FRAME_BITS => SNDRV_PCM_HW_PARAM_FRAME_BITS
  | PCM_PARAM_CHANNELS => SNDRV_PCM_HW_PARAM_CHANNELS
  | PCM_PARAM_RATE => SNDRV_PCM_HW_PARAM_RATE
  | PCM_PARAM_PERIOD_TIME => SNDRV_PCM_HW_PARAM_PERIOD_TIME
  | PCM_PARAM_PERIOD_SIZE => SNDRV_PCM_HW_PARAM_PERIOD_SIZE
  | PCM_PARAM_PERIOD_BYTES => SNDRV_PCM_HW_PARAM_PERIOD_BYTES
  | PCM_PARAM_PERIODS => SNDRV_PCM_HW_PARAM_PERIODS
  | PCM_PARAM_BUFFER_TIME => SNDRV_PCM_HW_PARAM_BUFFER_TIME
  | PCM_PARAM_BUFFER_SIZE => SNDRV_PCM_HW_PARAM_BUFFER_SIZE
  | PCM_PARAM_BUFFER_BYTES => SNDRV_PCM_HW_PARAM_BUFFER_BYTES
  | PCM_PARAM_TICK_TIME => SNDRV_PCM_HW_PARAM_TICK_TIME
  end.

Definition pcm_params_get_min (params : option hw_params) (param : pcm_param) : Z :=
  match params with
  | None => 0
  | Some params =>
      let p := pcm_param_to_alsa param in if p <? 0 then 0 else param_get_min params p
  end.

Definition pcm_params_get_max (params : option hw_params) (param : pcm_param) : Z :=
  match params with
  | None => 0
  | Some params =>
      let p := pcm_param_to_alsa param in if p <? 0 then 0 else param_get_max params p
  end.

(** ** The kernel *)

(** The pages the library and the driver share: the status (hw_ptr, state, tstamp), the
    control (appl_ptr, avail_min) and the ring of samples.  When the pages cannot be
    mapped the library has a copy of them in sync_ptr instead, updated by an ioctl. *)
Record shared : Type := Shared {
  hw_ptr : Z; state : Z; tstamp : Z * Z; appl_ptr : Z; control_avail_min : Z; ring : list Z }.

Record sw_params : Type := SwParams {
  sw_start_threshold : Z; sw_stop_threshold : Z; sw_silence_threshold : Z; sw_avail_min : Z;
  xfer_align : Z; sw_boundary : Z }.

Inductive request : Type :=
  | INFO | SW_PARAMS (p : sw_params) | SYNC_PTR (flags : Z) | TTSTAMP | PREPARE | START | DROP
  | WRITEI_FRAMES (bytes : list Z).

Inductive mapping : Type := MapStatus | MapControl | MapBuffer (size : Z).

(** Each call gives the value it returns, the errno it sets when that is negative, and
    what the kernel leaves.  [device] is what the driver does to the shared pages between two
    accesses of the library. *)
Class Kernel (K : Type) : Type := {
  open_device : list Z -> K -> Z * Z * K;
  ioctl : request -> shared -> K -> Z * Z * shared * K;
  ioctl_hw : bool -> hw_params -> K -> Z * Z * hw_params * K;   (* true: HW_REFINE, false: HW_PARAMS *)
  ioctl_readi : Z -> shared -> K -> Z * Z * list Z * shared * K;
  mmap : mapping -> K -> Z * K;                                  (* 0, or the errno of a failure *)
  calloc : K -> bool * K;
  poll : Z -> shared -> K -> Z * Z * Z * shared * K;            (* the second: revents *)
  device : shared -> K -> shared * K;
  strerror : Z -> list Z
}.

(** struct pcm.  [mmap_buffer]: the ring is mapped; [mmap_status]: the pointers to the
    pages are not NULL; [sync_ptr]: they point into the copy. *)
Record pcm : Type := Pcm {
  fd : Z; flags : Z; running : bool; underruns : Z; buffer_size : Z; boundary : Z; error : list Z;
  config : pcm_config; mmap_status : bool; sync_ptr : bool; mmap_buffer : bool;
  noirq_frames_per_msec : Z; wait_for_avail_min : bool }.

Record sys (K : Type) : Type := Sys {
  this : pcm; pages : shared; kern : K; errno : Z; fds : Z; maps : Z; blocks : Z }.
Arguments Sys {K}. Arguments this {K}. Arguments pages {K}. Arguments kern {K}. Arguments errno {K}.
Arguments fds {K}. Arguments maps {K}. Arguments blocks {K}.

Definition set_fd (x : Z) (p : pcm) : pcm :=
  Pcm x (flags p) (running p) (underruns p) (buffer_size p) (boundary p) (error p) (config p) (mmap_status p)
    (sync_ptr p) (mmap_buffer p) (noirq_frames_per_msec p) (wait_for_avail_min p).
Definition set_running (x : bool) (p : pcm) : pcm :=
  Pcm (fd p) (flags p) x (underruns p) (buffer_size p) (boundary p) (error p) (config p) (mmap_status p)
    (sync_ptr p) (mmap_buffer p) (noirq_frames_per_msec p) (wait_for_avail_min p).
Definition set_underruns (x : Z) (p : pcm) : pcm :=
  Pcm (fd p) (flags p) (running p) x (buffer_size p) (boundary p) (error p) (config p) (mmap_status p)
    (sync_ptr p) (mmap_buffer p) (noirq_frames_per_msec p) (wait_for_avail_min p).
Definition set_sizes (x y : Z) (p : pcm) : pcm :=
  Pcm (fd p) (flags p) (running p) (underruns p) x y (error p) (config p) (mmap_status p)
    (sync_ptr p) (mmap_buffer p) (noirq_frames_per_msec p) (wait_for_avail_min p).
Definition set_error (x : list Z) (p : pcm) : pcm :=
  Pcm (fd p) (flags p) (running p) (underruns p) (buffer_size p) (boundary p) x (config p) (mmap_status p)
    (sync_ptr p) (mmap_buffer p) (noirq_frames_per_msec p) (wait_for_avail_min p).
Definition set_config (x : pcm_config) (p : pcm) : pcm :=
  Pcm (fd p) (flags p) (running p) (underruns p) (buffer_size p) (boundary p) (error p) x (mmap_status p)
    (sync_ptr p) (mmap_buffer p) (noirq_frames_per_msec p) (wait_for_avail_min p).
Definition set_status (x y : bool) (p : pcm) : pcm :=
  Pcm (fd p) (flags p) (running p) (underruns p) (buffer_size p) (boundary p) (error p) (config p) x
    y (mmap_buffer p) (noirq_frames_per_msec p) (wait_for_avail_min p).
Definition set_buffer (x : bool) (p : pcm) : pcm :=
  Pcm (fd p) (flags p) (running p) (underruns p) (buffer_size p) (boundary p) (error p) (config p) (mmap_status p)
    (sync_ptr p) x (noirq_frames_per_msec p) (wait_for_avail_min p).
Definition set_noirq (x : Z) (p : pcm) : pcm :=
  Pcm (fd p) (flags p) (running p) (underruns p) (buffer_size p) (boundary p) (error p) (config p) (mmap_status p)
    (sync_ptr p) (mmap_buffer p) x (wait_for_avail_min p).
Definition set_wait (x : bool) (p : pcm) : pcm :=
  Pcm (fd p) (flags p) (running p) (underruns p) (buffer_size p) (boundary p) (error p) (config p) (mmap_status p)
    (sync_ptr p) (mmap_buffer p) (noirq_frames_per_msec p) x.

Definition set_appl_ptr (x : Z) (s : shared) : shared :=
  Shared (hw_ptr s) (state s) (tstamp s) x (control_avail_min s) (ring s).
Definition set_avail_min (x : Z) (s : shared) : shared :=
  Shared (hw_ptr s) (state s) (tstamp s) (appl_ptr s) x (ring s).
Definition set_ring (x : list Z) (s : shared) : shared :=
  Shared (hw_ptr s) (state s) (tstamp s) (appl_ptr s) (control_avail_min s) x.

Section Library.
Context {K : Type} `{Kernel K}.

Local Abbreviation M := (ST (sys K)).

Definition get : M pcm := fun s => Ok (this s, s).
Definition put (f : pcm -> pcm) : M unit := fun s =>
  Ok (tt, Sys (f (this s)) (pages s) (kern s) (errno s) (fds s) (maps s) (blocks s)).
Definition get_errno : M Z := fun s => Ok (errno s, s).
Definition page : M shared := fun s => Ok (pages s, s).
Definition put_page (f : shared -> shared) : M unit := fun s =>
  Ok (tt, Sys (this s) (f (pages s)) (kern s) (errno s) (fds s) (maps s) (blocks s)).

(** What the calls open, map and allocate. *)
Definition count (df dm db : Z) : M unit := fun s =>
  Ok (tt, Sys (this s) (pages s) (kern s) (errno s) (fds s + df) (maps s + dm) (blocks s + db)).

Definition do_ioctl (r : request) : M Z := fun s =>
  let '(ret, e, pg, k) := ioctl r (pages s) (kern s) in
  Ok (ret, Sys (this s) pg k (if ret <? 0 then e else errno s) (fds s) (maps s) (blocks s)).

Definition do_ioctl_hw (refine : bool) (p : hw_params) : M (Z * hw_params) := fun s =>
  let '(ret, e, p, k) := ioctl_hw refine p (kern s) in
  Ok ((ret, p), Sys (this s) (pages s) k (if ret <? 0 then e else errno s) (fds s) (maps s) (blocks s)).

Definition do_readi (frames : Z) : M (Z * list Z) := fun s =>
  let '(ret, e, bytes, pg, k) := ioctl_readi frames (pages s) (kern s) in
  Ok ((ret, bytes), Sys (this s) pg k (if ret <? 0 then e else errno s) (fds s) (maps s) (blocks s)).

Definition do_open (name : list Z) : M Z := fun s =>
  let '(ret, e, k) := open_device name (kern s) in
  Ok (ret, Sys (this s) (pages s) k (if ret <? 0 then e else errno s) (if ret <? 0 then fds s else fds s + 1)
             (maps s) (blocks s)).

Definition do_mmap (m : mapping) : M bool := fun s =>
  let (e, k) := mmap m (kern s) in
  let ok := e =? 0 in
  Ok (ok, Sys (this s) (pages s) k (if ok then errno s else e) (fds s) (if ok then maps s + 1 else maps s) (blocks s)).

Definition do_calloc : M bool := fun s =>
  let (ok, k) := calloc (kern s) in
  Ok (ok, Sys (this s) (pages s) k (if ok then errno s else ENOMEM) (fds s) (maps s)
            (if ok then blocks s + 1 else blocks s)).

Definition do_poll (timeout : Z) : M (Z * Z) := fun s =>
  let '(ret, revents, e, pg, k) := poll timeout (pages s) (kern s) in
  Ok ((ret, revents), Sys (this s) pg k (if ret <? 0 then e else errno s) (fds s) (maps s) (blocks s)).

(** A read of the status page: the page itself moves on, the copy does not. *)
Definition read_status : M shared := fun s =>
  if negb (mmap_status (this s)) then Ub NullDeref
  else if sync_ptr (this s) then Ok (pages s, s)
  else let (pg, k) := device (pages s) (kern s) in
       Ok (pg, Sys (this s) pg k (errno s) (fds s) (maps s) (blocks s)).

Definition read_control : M shared :=
  p ← get; if mmap_status p then page else fault NullDeref.

Definition write_control (f : shared -> shared) : M unit :=
  p ← get; if mmap_status p then put_page f else fault NullDeref.

(** ** Errors and conversions *)

(** The message is cut to the 128 bytes of the field; the cause is added when errno is set. *)
Definition oops (e : Z) (msg : list Z) : M Z := fun s =>
  let text := take 127 msg in
  let text := if errno s =? 0 then text else text ++ take (127 - length text) (str ": " ++ strerror e) in
  Ok (-1, Sys (set_error text (this s)) (pages s) (kern s) (errno s) (fds s) (maps s) (blocks s)).

Definition pcm_get_buffer_size (p : pcm) : Z := buffer_size p.
Definition pcm_get_error (p : pcm) : list Z := error p.
Definition pcm_is_ready (p : pcm) : bool := 0 <=? fd p.

Definition udiv (a b : Z) : res Z := if b =? 0 then Ub DivZero else Ok (a / b).

Definition pcm_bytes_to_frames (p : pcm) (bytes : Z) : res Z :=
  udiv bytes (u32 (channels (config p) * (pcm_format_to_bits (format (config p)) >> 3))).

Definition pcm_frames_to_bytes (p : pcm) (frames : Z) : Z :=
  u32 (frames * channels (config p) * (pcm_format_to_bits (format (config p)) >> 3)).


Definition pcm_sync_ptr (flags : Z) : M Z :=
  p ← get;
  if sync_ptr p then ret ← do_ioctl (SYNC_PTR flags); mret (if ret <? 0 then -1 else 0)
  else mret 0.

(** ** The status and control pages *)

Definition control_start (p : pcm) : Z := if has (flags p) PCM_MMAP then u64 (avail_min (config p)) else 1.

Definition pcm_hw_mmap_status : M Z :=
  p ← get;
  if sync_ptr p then mret 0
  else
    st ← do_mmap MapStatus;
    ok ← (if st : bool then
            c ← do_mmap MapControl;
            if c : bool then mret true else count 0 (-1) 0;; mret false
          else mret false);
    if ok : bool then
      put (set_status true false);;
      put_page (set_avail_min (control_start p));; mret 0
    else
      c ← do_calloc;
      if c : bool then
        put (set_status true true);;
        put_page (fun pg => Shared 0 0 (0, 0) 0 (control_start p) (ring pg));;
        pcm_sync_ptr 0;; mret 0
      else put (set_status false false);; mret (- ENOMEM).

Definition pcm_hw_munmap_status : M unit :=
  p ← get;
  (if sync_ptr p then count 0 0 (-1) else if mmap_status p then count 0 (-2) 0 else mret tt);;
  put (set_status false false).

(** ** Start and stop *)

Definition pcm_start : M Z :=
  p ← get;
  r ← do_ioctl PREPARE;
  if r <? 0 then e ← get_errno; oops e (str "cannot prepare channel")
  else
    (if has (flags p) PCM_MMAP then pcm_sync_ptr 0 else mret 0);;
    r ← do_ioctl START;
    if r <? 0 then e ← get_errno; oops e (str "cannot start channel")
    else put (set_running true);; mret 0.

Definition pcm_stop : M Z :=
  r ← do_ioctl DROP;
  if r <? 0 then e ← get_errno; oops e (str "cannot stop channel")
  else put (set_running false);; mret 0.

(** ** Read and write *)

(** count / (channels * bits / 8) *)
Definition xfer_frames (p : pcm) (bytes : Z) : res Z :=
  udiv bytes (u32 (channels (config p) * pcm_format_to_bits (format (config p))) / 8).

(** The kernel reads the frames from the caller's buffer. *)
Definition writei (data : list Z) (frames : Z) : M Z :=
  p ← get;
  let n := frames * (channels (config p) * pcm_format_to_bits (format (config p)) / 8) in
  if zlen data <? n then fault OobRead else do_ioctl (WRITEI_FRAMES (take (Z.to_nat n) data)).

(** One pass of the loop: [None] is continue. *)
Definition write_pass (data : list Z) (frames : Z) : M (option Z) :=
  p ← get;
  if negb (running p) then
    r ← do_ioctl PREPARE;
    if negb (r =? 0) then e ← get_errno; Some <$> oops e (str "cannot prepare channel")
    else
      r ← writei data frames;
      if negb (r =? 0) then e ← get_errno; Some <$> oops e (str "cannot write initial data")
      else put (set_running true);; mret (Some 0)
  else
    r ← writei data frames;
    if negb (r =? 0) then
      put (set_running false);;
      e ← get_errno;
      if e =? EPIPE then
        n ← lift (as_int (underruns p + 1));
        put (set_underruns n);;
        mret (if has (flags p) PCM_NORESTART then Some (- EPIPE) else None)
      else Some <$> oops e (str "cannot write stream data")
    else mret (Some 0).

Fixpoint write_loop (fuel : nat) (data : list Z) (frames : Z) : M Z :=
  match fuel with
  | O => fault NoReturn
  | S fuel =>
      r ← write_pass data frames;
      match r with Some r => mret r | None => write_loop fuel data frames end
  end.

(** The second pass returns: the stream is stopped by then. *)
Definition pcm_write (data : list Z) (bytes : Z) : M Z :=
  p ← get;
  if has (flags p) PCM_IN then mret (- EINVAL)
  else frames ← lift (xfer_frames p bytes); write_loop 2 data frames.

(** The result and the bytes read into the caller's buffer. *)
Definition read_pass (frames : Z) : M (option (Z * list Z)) :=
  p ← get;
  started ← (if negb (running p) then pcm_start else mret 0);
  if started <? 0 then e ← get_errno; mret (Some (- e, []))
  else
    '(r, bytes) ← do_readi frames;
    if negb (r =? 0) then
      put (set_running false);;
      e ← get_errno;
      if e =? EPIPE then n ← lift (as_int (underruns p + 1)); put (set_underruns n);; mret None
      else r ← oops e (str "cannot read stream data"); mret (Some (r, []))
    else mret (Some (0, bytes)).

Fixpoint read_loop (fuel : nat) (frames : Z) : M (Z * list Z) :=
  match fuel with
  | O => fault NoReturn
  | S fuel =>
      r ← read_pass frames;
      match r with Some r => mret r | None => read_loop fuel frames end
  end.

Definition pcm_read (fuel : nat) (bytes : Z) : M (Z * list Z) :=
  p ← get;
  if negb (has (flags p) PCM_IN) then mret (- EINVAL, [])
  else frames ← lift (xfer_frames p bytes); read_loop fuel frames.

(** ** The ring *)

Definition pcm_mmap_playback_avail : M Z :=
  st ← read_status;
  c ← read_control;
  p ← get;
  let avail := s32 (hw_ptr st + buffer_size p - appl_ptr c) in
  mret (if avail <? 0 then s32 (avail + boundary p)
        else if s32 (boundary p) <? avail then s32 (avail - boundary p) else avail).

Definition pcm_mmap_capture_avail : M Z :=
  st ← read_status;
  c ← read_control;
  p ← get;
  let avail := s32 (hw_ptr st - appl_ptr c) in
  mret (if avail <? 0 then s32 (avail + boundary p) else avail).

Definition pcm_mmap_avail : M Z :=
  pcm_sync_ptr SNDRV_PCM_SYNC_PTR_HWSYNC;;
  p ← get;
  if has (flags p) PCM_IN then pcm_mmap_capture_avail else pcm_mmap_playback_avail.

Definition pcm_mmap_appl_forward (frames : Z) : M unit :=
  c ← read_control;
  p ← get;
  let appl := u32 (appl_ptr c + frames) in
  let appl := if boundary p <? appl then u32 (appl - boundary p) else appl in
  write_control (set_appl_ptr appl).

(** The offset and the number of frames that can be copied there. *)
Definition pcm_mmap_begin (frames : Z) : M (Z * Z) :=
  c ← read_control;
  p ← get;
  offset ← lift (if buffer_size p =? 0 then Ub DivZero else Ok (u32 (appl_ptr c mod buffer_size p)));
  avail ← pcm_mmap_avail;
  let avail := u32 avail in
  let avail := if buffer_size p <? avail then buffer_size p else avail in
  let continuous := u32 (buffer_size p - offset) in
  let copy_frames := if avail <? frames then avail else frames in
  let copy_frames := if continuous <? copy_frames then continuous else copy_frames in
  mret (offset, copy_frames).

Definition pcm_mmap_commit (frames : Z) : M Z :=
  pcm_mmap_appl_forward (s32 frames);;
  pcm_sync_ptr 0;;
  mret (s32 frames).

(** memcpy (dst + at_dst, src + at_src, n) *)
Definition memcpy (dst : list Z) (at_dst : Z) (src : list Z) (at_src n : Z) : res (list Z) :=
  if (n <? 0) || (at_src <? 0) || (zlen src <? at_src + n) then Ub OobRead
  else if (at_dst <? 0) || (zlen dst <? at_dst + n) then Ub OobWrite
  else Ok (take (Z.to_nat at_dst) dst ++ take (Z.to_nat n) (drop (Z.to_nat at_src) src)
             ++ drop (Z.to_nat (at_dst + n)) dst).

(** The result is the caller's buffer, which a capture stream fills. *)
Definition pcm_areas_copy (pcm_offset : Z) (buf : list Z) (src_offset frames : Z) : M (list Z) :=
  p ← get;
  pg ← page;
  let size_bytes := s32 (pcm_frames_to_bytes p frames) in
  let pcm_offset_bytes := s32 (pcm_frames_to_bytes p pcm_offset) in
  let src_offset_bytes := s32 (pcm_frames_to_bytes p src_offset) in
  if negb (mmap_buffer p) then fault NullDeref
  else if has (flags p) PCM_IN then
    lift (memcpy buf src_offset_bytes (ring pg) pcm_offset_bytes size_bytes)
  else
    r ← lift (memcpy (ring pg) pcm_offset_bytes buf src_offset_bytes size_bytes);
    put_page (set_ring r);; mret buf.

Fixpoint pcm_mmap_transfer_areas (fuel : nat) (buf : list Z) (offset size done : Z) : M (Z * list Z) :=
  if size =? 0 then mret (s32 done, buf)
  else match fuel with
       | O => fault NoReturn
       | S fuel =>
           '(pcm_offset, frames) ← pcm_mmap_begin size;
           buf ← pcm_areas_copy pcm_offset buf offset frames;
           commit ← pcm_mmap_commit frames;
           if commit <? 0 then
             oops commit (str "failed to commit " ++ print_int (s32 frames) ++ str " frames" ++ [10]);;
             mret (commit, buf)
           else pcm_mmap_transfer_areas fuel buf (u32 (offset + commit)) (u32 (size - commit)) (u32 (done + commit))
       end.

Definition pcm_avail_update : M Z := pcm_sync_ptr 0;; pcm_mmap_avail.

Definition pcm_state : M Z :=
  err ← pcm_sync_ptr 0;
  if err <? 0 then mret err else st ← read_status; mret (state st).

Definition pcm_set_avail_min (avail_min : Z) : M Z :=
  p ← get;
  if lacks (flags p) (PCM_MMAP .| PCM_NOIRQ) then mret (- ENOSYS)
  else
    let c := config p in
    put (set_config (Config (channels c) (rate c) (period_size c) (period_count c) (format c)
                       (start_threshold c) (stop_threshold c) (silence_threshold c) avail_min));;
    mret 0.

(** [None]: -1 is returned and nothing is written through the pointers. *)
Definition pcm_get_htimestamp : M (option (Z * (Z * Z))) :=
  p ← get;
  if negb (pcm_is_ready p) then mret None
  else
    rc ← pcm_sync_ptr (SNDRV_PCM_SYNC_PTR_APPL .| SNDRV_PCM_SYNC_PTR_HWSYNC);
    if rc <? 0 then mret None
    else
      st ← read_status;
      active ← (if state st =? PCM_STATE_RUNNING then mret true
                else st ← read_status; mret (state st =? PCM_STATE_DRAINING));
      if negb active then mret None
      else
        st ← read_status;
        let stamp := tstamp st in
        if (fst stamp =? 0) && (snd stamp =? 0) then mret None
        else
          st ← read_status;
          c ← read_control;
          let frames := s32 (if has (flags p) PCM_IN then hw_ptr st - appl_ptr c
                             else hw_ptr st + buffer_size p - appl_ptr c) in
          let frames := if frames <? 0 then s32 (frames + boundary p)
                        else if s32 (boundary p) <? frames then s32 (frames - boundary p) else frames in
          mret (Some (u32 frames, stamp)).

(** ** Waiting *)

(** One pass of the loop: [None] is another poll. *)
Definition wait_pass (timeout : Z) : M (option Z) :=
  '(err, revents) ← do_poll timeout;
  if err <? 0 then e ← get_errno; mret (Some (- e))
  else if err =? 0 then mret (Some 0)
  else
    e ← get_errno;
    let next := if has revents (POLLIN .| POLLOUT) then Some 1 else None in
    if e =? - EINTR then mret next
    else if has revents (POLLERR .| POLLNVAL) then
      st ← pcm_state;
      mret (Some (if st =? PCM_STATE_XRUN then - EPIPE
                  else if st =? PCM_STATE_SUSPENDED then - ESTRPIPE
                  else if st =? PCM_STATE_DISCONNECTED then - ENODEV else - EIO))
    else mret next.

Fixpoint pcm_wait (fuel : nat) (timeout : Z) : M Z :=
  match fuel with
  | O => fault NoReturn
  | S fuel =>
      r ← wait_pass timeout;
      match r with Some r => mret r | None => pcm_wait fuel timeout end
  end.

(** ** Transfers through the ring *)

(** How a pass of the loop of pcm_mmap_transfer ends; [err] is the last result of
    pcm_wait.  Messages to stderr are not modelled. *)
Inductive flow : Type := Returns (r : Z) | Continues (offset count err : Z) | Breaks.

(** The sleep: [None] when there is nothing to wait for, otherwise the result of pcm_wait. *)
Definition wait_for_room (fuel : nat) (count avail : Z) : M (option Z) :=
  p ← get;
  if negb (running p) then mret None
  else
    (if negb (wait_for_avail_min p) && (u32 avail <? count) then put (set_wait true) else mret tt);;
    p ← get;
    if wait_for_avail_min p && (avail <? avail_min (config p)) then
      put (set_wait false);;
      time ← (if has (flags p) PCM_NOIRQ
              then t ← lift (udiv (u32 (avail_min (config p) - avail)) (noirq_frames_per_msec p)); mret (s32 t)
              else mret (-1));
      err ← pcm_wait fuel time;
      if err <? 0 then
        put (set_running false);;
        st ← read_status;
        c ← read_control;
        oops err (str "wait error: hw 0x" ++ print_nat 16 (u32 (hw_ptr st)) ++ str " app 0x"
                  ++ print_nat 16 (u32 (appl_ptr c)) ++ str " avail 0x" ++ print_nat 16 (u32 avail) ++ [10]);;
        write_control (set_appl_ptr 0);;
        mret (Some err)
      else mret (Some err)
    else mret None.

(** The start once the threshold is reached: [Some] is the return on an error. *)
Definition start_at_threshold (avail : Z) : M (option Z) :=
  p ← get;
  if negb (running p) && (start_threshold (config p) <=? u32 (buffer_size p - avail)) then
    r ← pcm_start;
    if r <? 0 then e ← get_errno; mret (Some (- e))
    else put (set_wait false);; mret None
  else mret None.

Definition transfer_pass (fuel : nat) (buf : list Z) (offset count err : Z) : M (flow * list Z) :=
  avail ← pcm_avail_update;
  if avail <? 0 then mret (Returns err, buf)
  else
    r ← start_at_threshold avail;
    match r with
    | Some r => mret (Returns r, buf)
    | None =>
        w ← wait_for_room fuel count avail;
        match w with
        | Some err => mret (if err <? 0 then Returns err else Continues offset count err, buf)
        | None =>
            let frames := s32 count in
            let frames := if avail <? frames then avail else frames in
            if frames =? 0 then mret (Breaks, buf)
            else
              '(frames, buf) ← pcm_mmap_transfer_areas fuel buf offset (u32 frames) 0;
              if frames <? 0 then mret (Returns frames, buf)
              else mret (Continues (u32 (offset + frames)) (u32 (count - frames)) err, buf)
        end
    end.

Fixpoint transfer_loop (fuel : nat) (buf : list Z) (offset count err : Z) : M (Z * list Z) :=
  if count =? 0 then mret (0, buf)
  else match fuel with
       | O => fault NoReturn
       | S fuel' =>
           '(f, buf) ← transfer_pass fuel buf offset count err;
           match f with
           | Returns r => mret (r, buf)
           | Breaks => mret (0, buf)
           | Continues offset count err => transfer_loop fuel' buf offset count err
           end
       end.

Definition pcm_mmap_transfer (fuel : nat) (buffer : list Z) (bytes : Z) : M (Z * list Z) :=
  if bytes =? 0 then mret (0, buffer)
  else
    p ← get;
    count ← lift (pcm_bytes_to_frames p bytes);
    transfer_loop fuel buffer 0 count 0.

(** PCM_OUT is 0: only PCM_MMAP is looked at. *)
Definition pcm_mmap_write (fuel : nat) (data : list Z) (count : Z) : M (Z * list Z) :=
  p ← get;
  if lacks (flags p) (PCM_OUT .| PCM_MMAP) then mret (- ENOSYS, data) else pcm_mmap_transfer fuel data count.

Definition pcm_mmap_read (fuel : nat) (data : list Z) (count : Z) : M (Z * list Z) :=
  p ← get;
  if lacks (flags p) (PCM_IN .| PCM_MMAP) then mret (- ENOSYS, data) else pcm_mmap_transfer fuel data count.
(** ** Opening and closing *)

(** snprintf (fn, 256, ...): the name is never that long. *)
Definition device_name (card device flags : Z) : list Z :=
  str "/dev/snd/pcmC" ++ print_nat 10 card ++ str "D" ++ print_nat 10 device
    ++ str (if has flags PCM_IN then "c" else "p").

Definition close_fd : M unit := count (-1) 0 0.

Definition pcm_params_get (card device flags : Z) : M (option hw_params) :=
  fd ← do_open (device_name card device flags);
  if fd <? 0 then mret None
  else
    ok ← do_calloc;
    if ok : bool then
      '(r, params) ← do_ioctl_hw true param_init;
      if negb (r =? 0) then count 0 0 (-1);; close_fd;; mret None
      else close_fd;; mret (Some params)
    else close_fd;; mret None.

Definition pcm_params_free (params : option hw_params) : M unit :=
  match params with Some _ => count 0 0 (-1) | None => mret tt end.

(** The address &bad_pcm, or the block that calloc returned. *)
Inductive handle : Type := BadPcm | Opened.

Definition hw_request (c : pcm_config) : hw_params :=
  let p := param_set_mask param_init SNDRV_PCM_HW_PARAM_FORMAT (pcm_format_to_alsa (format c)) in
  let p := param_set_mask p SNDRV_PCM_HW_PARAM_SUBFORMAT 0 in
  let p := param_set_min p SNDRV_PCM_HW_PARAM_PERIOD_SIZE (period_size c) in
  let p := param_set_int p SNDRV_PCM_HW_PARAM_SAMPLE_BITS (pcm_format_to_bits (format c)) in
  let p := param_set_int p SNDRV_PCM_HW_PARAM_FRAME_BITS (u32 (pcm_format_to_bits (format c) * channels c)) in
  let p := param_set_int p SNDRV_PCM_HW_PARAM_CHANNELS (channels c) in
  let p := param_set_int p SNDRV_PCM_HW_PARAM_PERIODS (period_count c) in
  param_set_int p SNDRV_PCM_HW_PARAM_RATE (rate c).

Definition add_hw_flags (f : Z) (p : hw_params) : hw_params :=
  HwParams (hw_flags p .| f) (masks p) (intervals p) (rmask p) (cmask p) (info p).

(** The interleaved access: SNDRV_PCM_ACCESS_MMAP_INTERLEAVED and _RW_INTERLEAVED. *)
Definition set_access (flags : Z) (p : hw_params) : hw_params :=
  param_set_mask p SNDRV_PCM_HW_PARAM_ACCESS (if has flags PCM_MMAP then 0 else 3).

(** The thresholds of the stream and of the request, from the configuration of the
    caller ([c], its sizes refined) and the copy in the stream ([own]). *)
Definition thresholds (flags : Z) (c own : pcm_config) (bound : Z) : pcm_config * sw_params :=
  let total := u32 (period_count c * period_size c) in
  let start := if start_threshold c =? 0
               then if has flags PCM_IN then 1 else total / 2
               else start_threshold c in
  let stop := if stop_threshold c =? 0
              then if has flags PCM_IN then u32 (total * 10) else total
              else stop_threshold c in
  let min := if avail_min own =? 0
             then if has flags PCM_MMAP then period_size own else 1
             else u64 (avail_min c) in
  (Config (channels own) (rate own) (period_size own) (period_count own) (format own)
     (if start_threshold c =? 0 then start else start_threshold own)
     (if stop_threshold c =? 0 then stop else stop_threshold own) (silence_threshold own)
     (if avail_min own =? 0 then s32 min else avail_min own),
   SwParams start stop (silence_threshold c) min (period_size c / 2) bound).

(** while (boundary * 2 <= INT_MAX - buffer_size) boundary *= 2;  After 32 doublings
    the boundary is 0 and stays so. *)
Fixpoint double_boundary (fuel : nat) (size bound : Z) : res Z :=
  if u32 (bound * 2) <=? u32 (INT_MAX - size)
  then match fuel with O => Ub NoReturn | S fuel => double_boundary fuel size (u32 (bound * 2)) end
  else Ok bound.

(** munmap (pcm->mmap_buffer, ...).  The source keeps the pointer, so that after a late failure of pcm_open
    pcm_close calls munmap again; [mmap_buffer] is not the pointer but whether the ring is mapped there,
    and munmap of a range without a mapping changes nothing.  What other code may have
    mapped there in between is not modelled. *)
Definition munmap_buffer : M unit :=
  p ← get; if mmap_buffer p then count 0 (-1) 0;; put (set_buffer false) else mret tt.

(** The exits fail_close and fail. *)
Definition fail_close : M unit := close_fd;; put (set_fd (-1)).

Definition fail (flags : Z) : M unit :=
  (if has flags PCM_MMAP then munmap_buffer else mret tt);; fail_close.

(** From the software parameters on; [config] is the caller's. *)
Definition open_software (flags : Z) (c : pcm_config) : M unit :=
  p ← get;
  bound ← lift (double_boundary 32 (buffer_size p) (buffer_size p));
  let (own, sw) := thresholds flags c (config p) (buffer_size p) in
  put (fun p => set_config own (set_sizes (buffer_size p) bound p));;
  r ← do_ioctl (SW_PARAMS sw);
  if negb (r =? 0) then e ← get_errno; oops e (str "cannot set sw params");; fail flags
  else
    rc ← pcm_hw_mmap_status;
    if rc <? 0 then oops rc (str "mmap status failed");; fail flags
    else
      rc ← (if has flags PCM_MONOTONIC then do_ioctl TTSTAMP else mret 0);
      if rc <? 0 then oops rc (str "cannot set timestamp type");; fail flags
      else put (set_underruns 0).

(** From the hardware parameters on; the result is the caller's configuration. *)
Definition open_hardware (flags : Z) (c : pcm_config) (params : hw_params) : M pcm_config :=
  '(r, params) ← do_ioctl_hw false (set_access flags params);
  if negb (r =? 0) then e ← get_errno; oops e (str "cannot set hw params");; fail_close;; mret c
  else
    let size := param_get_int params SNDRV_PCM_HW_PARAM_PERIOD_SIZE in
    let periods := param_get_int params SNDRV_PCM_HW_PARAM_PERIODS in
    let c := Config (channels c) (rate c) size periods (format c) (start_threshold c) (stop_threshold c)
               (silence_threshold c) (avail_min c) in
    put (set_sizes (u32 (periods * size)) 0);;
    p ← get;
    mapped ← (if has flags PCM_MMAP then do_mmap (MapBuffer (pcm_frames_to_bytes p (buffer_size p))) else mret true);
    if mapped : bool then
      put (set_buffer (has flags PCM_MMAP));;
      open_software flags c;; mret c
    else
      e ← get_errno;
      oops (- e) (str "failed to mmap buffer " ++ print_int (s32 (pcm_frames_to_bytes p (buffer_size p)))
                    ++ str " bytes" ++ [10]);;
      fail_close;; mret c.

(** The caller's configuration may be NULL, and is changed. *)
Definition pcm_open (card device flags : Z) (conf : option pcm_config) : M (handle * option pcm_config) :=
  ok ← do_calloc;
  match ok, conf with
  | true, Some c =>
      let name := device_name card device flags in
      put (fun _ => Pcm 0 flags false 0 0 0 [] c false false false 0 false);;
      fd ← do_open name;
      put (set_fd fd);;
      if fd <? 0 then
        e ← get_errno;
        oops e (str "cannot open device '" ++ name ++ str "'");; mret (Opened, conf)
      else
        r ← do_ioctl INFO;
        if negb (r =? 0) then e ← get_errno; oops e (str "cannot get info");; fail_close;; mret (Opened, conf)
        else
          let params := hw_request c in
          if has flags PCM_NOIRQ then
            if negb (has flags PCM_MMAP) then
              oops (- EINVAL) (str "noirq only currently supported with mmap().");;
              fail flags;; mret (Opened, conf)
            else
              put (set_noirq (rate c / 1000));;
              c ← open_hardware flags c (add_hw_flags SNDRV_PCM_HW_PARAMS_NO_PERIOD_WAKEUP params);
              mret (Opened, Some c)
          else c ← open_hardware flags c params; mret (Opened, Some c)
  | _, _ => mret (BadPcm, conf)
  end.

Definition pcm_close (h : handle) : M Z :=
  match h with
  | BadPcm => mret 0
  | Opened =>
      pcm_hw_munmap_status;;
      p ← get;
      (if has (flags p) PCM_MMAP then pcm_stop;; munmap_buffer else mret tt);;
      (if 0 <=? fd p then close_fd else mret tt);;
      put (fun p => set_fd (-1) (set_sizes 0 (boundary p) (set_running false p)));;
      count 0 0 (-1);; mret 0
  end.
End Library.

(** * Opening and closing *)

Section Balance.
Context {K : Type} `{Kernel K}.
Implicit Types (s : sys K) (p : pcm).

Lemma wp_get {u : Prop} Q s : Q (this s) s -> wpu u get Q s.
Proof. done. Qed.

(** The counts are those of [s0] and what the stream holds: its descriptor, the
    mappings of the ring and of the two pages, its block and the copy of the pages. *)
Definition holds (b : bool) (n : Z) : Z := if b then n else 0.

Definition balanced s0 s : Prop :=
  let p := this s in
  fds s = fds s0 + holds (0 <=? fd p) 1 /\
  maps s = maps s0 + holds (mmap_buffer p) 1 + holds (mmap_status p && negb (sync_ptr p)) 2 /\
  blocks s = blocks s0 + 1 + holds (sync_ptr p) 1 /\
  (mmap_buffer p = true -> has (flags p) PCM_MMAP = true).

(** What the calls that neither open nor close leave as it is. *)
Definition same_books s s' : Prop :=
  fds s' = fds s /\ maps s' = maps s /\ blocks s' = blocks s /\
  fd (this s') = fd (this s) /\ flags (this s') = flags (this s) /\ mmap_status (this s') = mmap_status (this s) /\
  sync_ptr (this s') = sync_ptr (this s) /\ mmap_buffer (this s') = mmap_buffer (this s) /\
  buffer_size (this s') = buffer_size (this s) /\ boundary (this s') = boundary (this s).

Lemma same_books_refl s : same_books s s.
Proof. by repeat split. Qed.

Lemma same_books_trans s1 s2 s3 : same_books s1 s2 -> same_books s2 s3 -> same_books s1 s3.
Proof. unfold same_books. intuition congruence. Qed.

Lemma balanced_same s0 s s' : same_books s s' -> balanced s0 s -> balanced s0 s'.
Proof.
  intros (E1 & E2 & E3 & E4 & E5 & E6 & E7 & E8 & _). unfold balanced. cbv zeta. by rewrite E1, E2, E3, E4, E5, E6, E7, E8.
Qed.

Lemma wp_ioctl r (Q : Z -> sys K -> Prop) s :
  (forall ret s', same_books s s' -> this s' = this s -> Q ret s') -> wp (do_ioctl r) Q s.
Proof.
  intros HQ. unfold wpu, do_ioctl. destruct (ioctl _ _ _) as [[[ret e] pg] k]. by apply HQ.
Qed.

Lemma wp_oops e msg (Q : Z -> sys K -> Prop) s :
  (forall s', same_books s s' -> error (this s') <> [] -> errno s' = errno s -> Q (-1) s') -> msg <> [] -> wp (oops e msg) Q s.
Proof.
  intros HQ Hm. unfold wpu, oops. apply HQ; [by repeat split| |done]. destruct msg as [|c msg]; [done|]. cbn.
  by case_match.
Qed.

Lemma wp_put {u : Prop} f (Q : unit -> sys K -> Prop) s :
  Q tt (Sys (f (this s)) (pages s) (kern s) (errno s) (fds s) (maps s) (blocks s)) -> wpu u (put f) Q s.
Proof. done. Qed.

Lemma wp_count df dm db (Q : unit -> sys K -> Prop) s :
  Q tt (Sys (this s) (pages s) (kern s) (errno s) (fds s + df) (maps s + dm) (blocks s + db)) -> wp (count df dm db) Q s.
Proof. done. Qed.

Lemma wp_get_errno {u : Prop} (Q : Z -> sys K -> Prop) s : Q (errno s) s -> wpu u get_errno Q s.
Proof. done. Qed.

Lemma wp_put_page f (Q : unit -> sys K -> Prop) s :
  (forall s', same_books s s' -> this s' = this s -> Q tt s') -> wp (put_page f) Q s.
Proof. intros HQ. by apply HQ. Qed.

(** [moved s t df dm db f]: [t] is [s] up to errno, the pages and the kernel, with the
    counts and the stream changed as said. *)
Definition moved (s t : sys K) (df dm db : Z) (f : pcm -> pcm) : Prop :=
  fds t = fds s + df /\ maps t = maps s + dm /\ blocks t = blocks s + db /\ this t = f (this s).

Lemma wp_open name (Q : Z -> sys K -> Prop) s :
  (forall ret t, moved s t (holds (0 <=? ret) 1) 0 0 id -> Q ret t) -> wp (do_open name) Q s.
Proof.
  intros HQ. unfold wpu, do_open. destruct (open_device _ _) as [[ret e] k]. apply HQ. unfold moved, holds. cbn.
  destruct (Z.ltb_spec ret 0), (Z.leb_spec 0 ret); repeat split; lia.
Qed.

Lemma wp_mmap m (Q : bool -> sys K -> Prop) s :
  (forall (ok : bool) t, moved s t 0 (holds ok 1) 0 id -> Q ok t) -> wp (do_mmap m) Q s.
Proof.
  intros HQ. unfold wpu, do_mmap. destruct (mmap _ _) as [e k]. apply HQ. unfold moved, holds. cbn.
  destruct (e =? 0); repeat split; lia.
Qed.

Lemma wp_calloc (Q : bool -> sys K -> Prop) s :
  (forall (ok : bool) t, moved s t 0 0 (holds ok 1) id -> Q ok t) -> wp do_calloc Q s.
Proof.
  intros HQ. unfold wpu, do_calloc. destruct (calloc _) as [[] k]; apply HQ; unfold moved, holds; cbn; repeat split; lia.
Qed.

Lemma wp_sync flags (Q : Z -> sys K -> Prop) s :
  (forall ret t, same_books s t -> this t = this s -> Q ret t) -> wp (pcm_sync_ptr flags) Q s.
Proof.
  intros HQ. unfold pcm_sync_ptr. apply wp_bind, wp_get. destruct (sync_ptr (this s)).
  - apply wp_bind, wp_ioctl. intros ret t Ht Et. apply wp_ret. by apply HQ.
  - apply wp_ret. by apply HQ.
Qed.

(** The pages are mapped, or copied, or -ENOMEM. *)
Lemma wp_hw_mmap_status s0 (Q : Z -> sys K -> Prop) s :
  balanced s0 s -> mmap_status (this s) = false -> sync_ptr (this s) = false ->
  (forall ret t, balanced s0 t -> (exists a b, this t = set_status a b (this s)) ->
     mmap_status (this t) = (0 <=? ret) -> Q ret t) ->
  wp pcm_hw_mmap_status Q s.
Proof.
  intros (B1 & B2 & B3 & B4) Hm Hs HQ. unfold pcm_hw_mmap_status. apply wp_bind, wp_get. rewrite Hs.
  rewrite Hm, Hs in *. cbn [holds negb andb] in *.
  apply wp_bind, wp_mmap. intros ok t (M1 & M2 & M3 & Et).
  apply wp_bind, (wp_mono _ (fun ok' t' => moved s t' 0 (holds ok' 2) 0 id)).
  { destruct ok; [|apply wp_ret; by repeat split].
    apply wp_bind, wp_mmap. intros [] u (N1 & N2 & N3 & Eu); cbn [holds] in *.
    - apply wp_ret. repeat split; cbn; try lia. by rewrite Eu.
    - apply wp_bind, wp_count, wp_ret. repeat split; cbn; try lia. by rewrite Eu. }
  clear dependent t. intros ok' t (M1 & M2 & M3 & Et). cbn in Et. destruct ok'; cbn [holds] in *.
  - apply wp_bind, wp_put, wp_bind, wp_put_page. intros u (U1 & U2 & U3 & U) Eu. apply wp_ret. cbn in *. apply HQ.
    + unfold balanced. rewrite Eu, Et. cbn. repeat split; cbn; first [lia|exact B4].
    + exists true, false. by rewrite Eu, Et.
    + by rewrite Eu.
  - apply wp_bind, wp_calloc. intros [] u (U1 & U2 & U3 & Eu); cbn in Eu; cbn [holds] in *.
    + apply wp_bind, wp_put, wp_bind, wp_put_page. intros v (V1 & V2 & V3 & V) Ev.
      apply wp_bind, wp_sync. intros r w (W1 & W2 & W3 & W) Ew. apply wp_ret. cbn in *. apply HQ.
      * unfold balanced. rewrite Ew, Ev, Eu, Et. cbn. repeat split; cbn; first [lia|exact B4].
      * exists true, true. by rewrite Ew, Ev, Eu, Et.
      * by rewrite Ew, Ev.
    + apply wp_bind, wp_put, wp_ret. apply HQ.
      * unfold balanced. cbn. rewrite Eu, Et. repeat split; cbn; first [lia|exact B4].
      * exists false, false. cbn. by rewrite Eu, Et.
      * done.
Qed.

Lemma wp_munmap_buffer s0 (Q : unit -> sys K -> Prop) s :
  balanced s0 s ->
  (forall t, balanced s0 t -> this t = set_buffer false (this s) -> Q tt t) -> wp munmap_buffer Q s.
Proof.
  intros (B1 & B2 & B3 & B4) HQ. unfold munmap_buffer. apply wp_bind, wp_get. destruct (mmap_buffer (this s)) eqn:E.
  - apply wp_bind, wp_count, wp_put, HQ; [|done]. repeat split; cbn [holds this set_buffer fd fds maps blocks mmap_buffer mmap_status sync_ptr] in *; [lia..|done].
  - apply wp_ret, HQ; [by repeat split; rewrite ?E|]. destruct (this s). cbn in *. by subst.
Qed.

(** What a failed open leaves: an error, no descriptor. *)
Lemma wp_fail s0 flg (Q : unit -> sys K -> Prop) s :
  balanced s0 s -> flg = flags (this s) -> 0 <= fd (this s) ->
  (forall t, balanced s0 t -> fd (this t) = -1 -> mmap_buffer (this t) = false -> flags (this t) = flg ->
     error (this t) = error (this s) -> Q tt t) ->
  wp (fail flg) Q s.
Proof.
  intros HB -> Hfd HQ. unfold fail. apply wp_bind, (wp_mono _ (fun _ t => balanced s0 t /\ this t = set_buffer false (this s))).
  { destruct (has _ _) eqn:E; [apply (wp_munmap_buffer s0); auto|]. apply wp_ret. split; [done|].
    destruct HB as (_ & _ & _ & HB). destruct (this s). cbn in *. f_equal. destruct mmap_buffer0; [|done].
    rewrite HB in E; done. }
  intros _ t ((B1 & B2 & B3 & B4) & Et). unfold fail_close, close_fd. apply wp_bind, wp_count, wp_put, HQ; rewrite Et in *; cbn; try done.
  cbn in B1. rewrite (proj2 (Z.leb_le _ _) Hfd) in B1. repeat split; cbn in *; try lia.
Qed.

(** The boundary is the largest size * 2^n that leaves room for one more buffer. *)
Definition sized p : Prop :=
  0 < buffer_size p /\ (exists n, 0 <= n /\ boundary p = buffer_size p * 2 ^ n) /\
  boundary p + buffer_size p <= INT_MAX < 2 * boundary p + buffer_size p.

Lemma double_boundary_ok fuel size bound n :
  0 < size -> 0 <= n -> bound = size * 2 ^ n -> bound + size <= INT_MAX -> INT_MAX < bound * 2 ^ Z.of_nat fuel ->
  exists m b, double_boundary fuel size bound = Ok b /\ 0 <= m /\ b = size * 2 ^ m /\
    b + size <= INT_MAX < 2 * b + size.
Proof.
  intros Hs. revert bound n. unfold INT_MAX. induction fuel as [|fuel IH]; intros bound n Hn Hb Hr Hf.
  all: cbn [double_boundary]; assert (0 < bound) by (subst bound; nia).
  all: rewrite !wrap_small by (unfold INT_MAX; lia); fold INT_MAX; unfold INT_MAX.
  all: destruct (Z.leb_spec (bound * 2) (2147483647 - size)).
  - change (2 ^ Z.of_nat 0) with 1 in Hf. lia.
  - exists n, bound. split; [done|]. lia.
  - apply (IH _ (n + 1)); [lia|rewrite Hb, Z.pow_add_r by lia; lia|lia|].
    rewrite Nat2Z.inj_succ, Z.pow_succ_r in Hf by lia. lia.
  - exists n, bound. split; [done|]. lia.
Qed.

(** HW_PARAMS, when it succeeds, fixes the period size and the number of periods, and
    the buffer has less than 2^30 frames. *)
Definition fixes_sizes : Prop := forall hw k ret e hw' k',
  ioctl_hw (K := K) false hw k = (ret, e, hw', k') -> ret = 0 ->
  0 < u32 (param_get_int hw' SNDRV_PCM_HW_PARAM_PERIODS * param_get_int hw' SNDRV_PCM_HW_PARAM_PERIOD_SIZE) < 2 ^ 30.

(** What pcm_open gives back: a stream that is ready, its sizes those of the caller's
    configuration, or one with an error message and nothing open; no descriptor,
    mapping or block besides what the stream holds. *)
Definition opened s0 (conf : option pcm_config) s : Prop :=
  balanced s0 s /\
  if pcm_is_ready (this s)
  then mmap_status (this s) = true /\ sized (this s) /\
       exists c, conf = Some c /\ buffer_size (this s) = u32 (period_count c * period_size c)
  else error (this s) <> [] /\ mmap_buffer (this s) = false.

Lemma opened_fail s0 conf flg e msg s :
  balanced s0 s -> flg = flags (this s) -> 0 <= fd (this s) -> msg <> [] ->
  wp (oops e msg ≫= fun _ => fail flg) (fun _ t => opened s0 conf t) s.
Proof.
  intros HB -> Hfd Hm. apply wp_bind, wp_oops; [|done]. intros t Ht He _. assert (same_books s t) as T by done.
  destruct Ht as (_ & _ & _ & E4 & E5 & _). apply (wp_fail s0); [by eapply balanced_same|by rewrite E5|lia|].
  intros u HU Hu1 Hu2 _ Hu3. split; [done|]. unfold pcm_is_ready. rewrite Hu1. cbn. split; [by rewrite Hu3|done].
Qed.

Lemma wp_open_software s0 flg c s :
  balanced s0 s -> flg = flags (this s) -> 0 <= fd (this s) -> mmap_status (this s) = false -> sync_ptr (this s) = false ->
  0 < buffer_size (this s) < 2 ^ 30 -> buffer_size (this s) = u32 (period_count c * period_size c) ->
  wp (open_software flg c) (fun _ t => opened s0 (Some c) t) s.
Proof.
  intros HB Hflg Hfd Hm Hsy Hsz Hc. unfold open_software. apply wp_bind, wp_get.
  destruct (double_boundary_ok 32 (buffer_size (this s)) (buffer_size (this s)) 0) as (m & b & Eb & Hm0 & Eb' & Hb);
    [lia|lia|lia|unfold INT_MAX; lia|change (2 ^ Z.of_nat 32) with 4294967296; unfold INT_MAX; lia|].
  eapply wp_bind, wp_lift_Ok; [exact Eb|]. cbv beta. destruct (thresholds flg c _ _) as [own sw].
  apply wp_bind, wp_put. set (s1 := Sys _ _ _ _ _ _ _).
  assert (balanced s0 s1) as HB1 by exact HB. assert (flg = flags (this s1)) as Hf1 by exact Hflg.
  assert (sized (this s1)) as Hsized. { split; [cbn; lia|]. split; [by exists m|]. exact Hb. }
  assert (buffer_size (this s1) = buffer_size (this s)) as Hbs1 by done.
  assert (0 <= fd (this s1)) as Hfd1 by done. assert (mmap_status (this s1) = false /\ sync_ptr (this s1) = false) as [Hm1 Hsy1] by done.
  clearbody s1.
  apply wp_bind, wp_ioctl. intros r t HT Et. assert (balanced s0 t) as HBt by by eapply balanced_same.
  destruct (negb (r =? 0)).
  { apply wp_bind, wp_get_errno. apply opened_fail; rewrite ?Et; done. }
  apply wp_bind, (wp_hw_mmap_status s0); [done|by rewrite Et|by rewrite Et|]. intros rc u HBu (a & b' & Eu) Hmu.
  assert (flg = flags (this u) /\ 0 <= fd (this u)) as [Hfu Hfdu] by by rewrite Eu, Et.
  destruct (Z.ltb_spec rc 0) as [|Hrc].
  { by apply opened_fail. }
  apply wp_bind, (wp_mono _ (fun _ v => same_books u v)).
  { destruct (has _ _); [apply wp_ioctl; auto|by apply wp_ret, same_books_refl]. }
  intros rc' v HV. assert (balanced s0 v) as HBv by by eapply balanced_same.
  destruct HV as (_ & _ & _ & V4 & V5 & V6 & V7 & V8 & V9 & V10). destruct (Z.ltb_spec rc' 0).
  { apply opened_fail; [done|by rewrite V5|by rewrite V4|done]. }
  apply wp_put. split; [exact HBv|]. unfold pcm_is_ready. cbn. rewrite V4. rewrite (proj2 (Z.leb_le _ _) Hfdu).
  split; [rewrite V6, Hmu; by apply Z.leb_le|]. split.
  - unfold sized in *. cbn. rewrite V9, V10, Eu, Et. cbn. exact Hsized.
  - exists c. split; [done|]. rewrite V9, Eu, Et. cbn. by rewrite Hbs1.
Qed.

Lemma wp_ioctl_hw refine hw (Q : Z * hw_params -> sys K -> Prop) s :
  (forall ret e hw' k' t, ioctl_hw refine hw (kern s) = (ret, e, hw', k') -> moved s t 0 0 0 id -> Q (ret, hw') t) ->
  wp (do_ioctl_hw refine hw) Q s.
Proof.
  intros HQ. unfold wpu, do_ioctl_hw. specialize (HQ).
  destruct (ioctl_hw refine hw (kern s)) as [[[ret e] hw'] k]. eapply HQ; [done|].
  repeat split; cbn; lia.
Qed.

Lemma balanced_moved s0 s t f :
  moved s t 0 0 0 f -> balanced s0 s -> fd (f (this s)) = fd (this s) -> flags (f (this s)) = flags (this s) ->
  mmap_status (f (this s)) = mmap_status (this s) -> sync_ptr (f (this s)) = sync_ptr (this s) ->
  mmap_buffer (f (this s)) = mmap_buffer (this s) -> balanced s0 t.
Proof.
  intros (E1 & E2 & E3 & E4) (B1 & B2 & B3 & B4) F1 F2 F3 F4 F5. unfold balanced. rewrite E4.
  cbv zeta. rewrite F1, F2, F3, F4, F5, E1, E2, E3. repeat split; [lia..|done].
Qed.

(** A stream whose device was just opened. *)
Definition fresh_stream s0 flg s : Prop :=
  balanced s0 s /\ flags (this s) = flg /\ 0 <= fd (this s) /\ mmap_status (this s) = false /\
  sync_ptr (this s) = false /\ mmap_buffer (this s) = false.

Lemma wp_fail_close {B} s0 flg conf e msg (m : ST (sys K) B) Q s :
  fresh_stream s0 flg s -> msg <> [] -> (forall t, opened s0 conf t -> wp m Q t) ->
  wp (oops e msg ≫= fun _ => fail_close ≫= fun _ => m) Q s.
Proof.
  intros (HB & Hflg & Hfd & Hm & Hsy & Hb) Hmsg HQ. apply wp_bind, wp_oops; [|done]. intros t Ht He _.
  assert (balanced s0 t) as (B1 & B2 & B3 & B4) by by eapply balanced_same.
  destruct Ht as (_ & _ & _ & E4 & E5 & E6 & E7 & E8 & _).
  unfold fail_close, close_fd. apply wp_bind, wp_bind, wp_count, wp_put, HQ. rewrite E4, E6, E7, E8 in *.
  rewrite (proj2 (Z.leb_le _ _) Hfd) in B1. split; [|by unfold pcm_is_ready; cbn; rewrite ?E8].
  rewrite Hm, Hsy, Hb in *. unfold balanced. cbn in *. rewrite ?E6, ?E7, ?E8, ?Hm, ?Hsy, ?Hb. cbn. repeat split; [lia..|done].
Qed.

Lemma fresh_moved s0 flg s t f :
  moved s t 0 0 0 f -> fresh_stream s0 flg s -> fd (f (this s)) = fd (this s) -> flags (f (this s)) = flags (this s) ->
  mmap_status (f (this s)) = mmap_status (this s) -> sync_ptr (f (this s)) = sync_ptr (this s) ->
  mmap_buffer (f (this s)) = mmap_buffer (this s) -> fresh_stream s0 flg t.
Proof.
  intros Ht (HB & H1 & H2 & H3 & H4 & H5) F1 F2 F3 F4 F5. split; [by eapply balanced_moved|].
  destruct Ht as (_ & _ & _ & ->). rewrite F1, F2, F3, F4, F5. done.
Qed.

Lemma wp_open_hardware s0 flg c hw s :
  fixes_sizes -> fresh_stream s0 flg s ->
  wp (open_hardware flg c hw) (fun c' t => opened s0 (Some c') t) s.
Proof.
  intros Hsizes Hs. unfold open_hardware. apply wp_bind, wp_ioctl_hw. intros ret e hw' k' t Ehw Ht.
  assert (fresh_stream s0 flg t) as HT by by eapply (fresh_moved _ _ s). clear Hs Ht.
  destruct (Z.eqb_spec ret 0) as [->|]; cbn [negb].
  2:{ apply wp_bind, wp_get_errno. by eapply (wp_fail_close s0 flg (Some c)). }
  pose proof (Hsizes _ _ _ _ _ _ Ehw eq_refl) as Hsz. clear Ehw. cbv zeta.
  set (size := param_get_int hw' SNDRV_PCM_HW_PARAM_PERIOD_SIZE) in *. set (periods := param_get_int hw' SNDRV_PCM_HW_PARAM_PERIODS) in *.
  apply wp_bind, wp_put. set (t1 := Sys _ _ _ _ _ _ _).
  assert (fresh_stream s0 flg t1) as HT1 by exact HT.
  assert (buffer_size (this t1) = u32 (periods * size)) as Hbs by done. clearbody t1. clear HT t.
  apply wp_bind, wp_get.
  apply wp_bind, (wp_mono _ (fun ok u => moved t1 u 0 (holds (ok && has flg PCM_MMAP) 1) 0 id)).
  { destruct (has flg PCM_MMAP).
    - apply wp_mmap. intros ok u Hu. by rewrite andb_true_r.
    - apply wp_ret. repeat split; cbn; lia. }
  intros [] u Hu; cbn [andb] in Hu.
  - apply wp_bind, wp_put, wp_bind. destruct Hu as (U1 & U2 & U3 & Eu). cbn in Eu.
    destruct HT1 as ((B1 & B2 & B3 & B4) & H1 & H2 & H3 & H4 & H5).
    eapply wp_mono; [apply (wp_open_software s0)|intros [] v Hv; by apply wp_ret].
    all: cbn; rewrite Eu; try done; try lia.
    repeat split; cbn; rewrite ?Eu; cbn; [..|by rewrite H1]; rewrite ?H3, ?H4, ?H5 in *; cbn in *; lia.
  - apply wp_bind, wp_get_errno. eapply (wp_fail_close s0 flg); [by eapply fresh_moved|done|]. intros v Hv. by apply wp_ret.
Qed.

Lemma wp_close s0 s :
  balanced s0 s ->
  wp (pcm_close Opened) (fun z u => z = 0 /\ fds u = fds s0 /\ maps u = maps s0 /\ blocks u = blocks s0) s.
Proof.
  intros (B1 & B2 & B3 & B4). unfold pcm_close.
  apply wp_bind, (wp_mono _ (fun _ t => fds t = fds s /\ this t = set_status false false (this s) /\
    maps t = maps s0 + holds (mmap_buffer (this s)) 1 /\ blocks t = blocks s0 + 1)).
  { unfold pcm_hw_munmap_status. apply wp_bind, wp_get. destruct (sync_ptr (this s)); cbn in *.
    - rewrite andb_false_r in B2. cbn in B2. apply wp_bind, wp_count, wp_put. cbn. repeat split; lia.
    - rewrite andb_true_r in B2. destruct (mmap_status (this s)); cbn in B2.
      + apply wp_bind, wp_count, wp_put. cbn. repeat split; lia.
      + apply wp_bind, wp_ret, wp_put. cbn. repeat split; lia. }
  intros _ t (T1 & Et & T2 & T3). apply wp_bind, wp_get. rewrite Et. cbn [set_status flags fd].
  apply wp_bind, (wp_mono _ (fun _ u => fds u = fds s /\ maps u = maps s0 /\ blocks u = blocks s0 + 1)).
  { destruct (has _ _) eqn:E.
    - apply wp_bind. unfold pcm_stop. apply wp_bind, wp_ioctl. intros r u HU EU.
      assert (forall v, same_books u v -> wp munmap_buffer (fun _ w => fds w = fds s /\ maps w = maps s0 /\ blocks w = blocks s0 + 1) v) as Hend.
      { intros v (V1 & V2 & V3 & _ & _ & _ & _ & V & _). destruct HU as (U1 & U2 & U3 & _).
        unfold munmap_buffer. apply wp_bind, wp_get. rewrite V, EU, Et. cbn [mmap_buffer set_status].
        destruct (mmap_buffer (this s)); cbn in T2.
        - apply wp_bind, wp_count, wp_put. cbn. repeat split; lia.
        - apply wp_ret. repeat split; lia. }
      destruct (r <? 0).
      + apply wp_bind, wp_get_errno, wp_oops; [|done]. intros v Hv _ _. by apply Hend.
      + apply wp_bind, wp_put, wp_ret, Hend. by repeat split.
    - apply wp_ret. destruct (mmap_buffer (this s)) eqn:Eb; [by specialize (B4 eq_refl)|]. cbn in T2. repeat split; lia. }
  intros _ u (U1 & U2 & U3). unfold close_fd. apply wp_bind. unfold holds in B1.
  destruct (0 <=? fd (this s)).
  - apply wp_count, wp_bind, wp_put, wp_bind, wp_count, wp_ret. cbn. repeat split; lia.
  - apply wp_ret, wp_bind, wp_put, wp_bind, wp_count, wp_ret. cbn. repeat split; lia.
Qed.

Lemma pcm_open_post card device flg c s :
  fixes_sizes ->
  wp (pcm_open card device flg (Some c)) (fun r t => match r.1 with
    | BadPcm => fds t = fds s /\ maps t = maps s /\ blocks t = blocks s
    | Opened => opened s r.2 t end) s.
Proof.
  intros Hsizes. unfold pcm_open. apply wp_bind, wp_calloc. intros [] t (T1 & T2 & T3 & Et); cbn [holds] in *.
  2:{ apply wp_ret. cbn. repeat split; lia. }
  apply wp_bind, wp_put, wp_bind, wp_open. intros ret u (U1 & U2 & U3 & Eu). cbn in *. apply wp_bind, wp_put.
  set (v := Sys _ _ _ _ _ _ _).
  assert (balanced s v) as HB.
  { unfold balanced, v. cbn. rewrite Eu. cbn. repeat split; [lia..|done]. }
  destruct (Z.ltb_spec ret 0) as [Hret|Hret].
  { apply wp_bind, wp_get_errno, wp_bind, wp_oops; [|done]. intros w HW He _. apply wp_ret. split; [by eapply balanced_same|].
    destruct HW as (_ & _ & _ & W4 & _ & _ & _ & W8 & _). unfold pcm_is_ready. rewrite W4. cbn.
    rewrite (proj2 (Z.leb_gt _ _) Hret). split; [done|]. rewrite W8. cbn. by rewrite Eu. }
  assert (fresh_stream s flg v) as Hfresh.
  { split; [done|]. unfold v. cbn. rewrite Eu. cbn. done. }
  clearbody v. clear dependent t u.
  apply wp_bind, wp_ioctl. intros r w HW Ew.
  assert (fresh_stream s flg w) as Hw.
  { apply (fresh_moved s flg v w id); try done. destruct HW as (W1 & W2 & W3 & _). repeat split; [lia..|exact Ew]. }
  destruct (negb (r =? 0)).
  { apply wp_bind, wp_get_errno, (wp_fail_close s flg (Some c)); [done|done|]. intros x Hx. by apply wp_ret. }
  destruct (has flg PCM_NOIRQ).
  - destruct (has flg PCM_MMAP) eqn:Em; cbn [negb].
    + apply wp_bind, wp_put, wp_bind. eapply wp_mono; [apply (wp_open_hardware s); [done|]|intros c' x Hx; by apply wp_ret].
      destruct Hw as ((B1 & B2 & B3 & B4) & H'). split; [by repeat split|exact H'].
    + unfold fail. rewrite Em. apply (wp_fail_close s flg (Some c)); [done|done|]. intros x Hx. by apply wp_ret.
  - apply wp_bind. eapply wp_mono; [by apply (wp_open_hardware s)|intros c' x Hx; by apply wp_ret].
Qed.

(** C19. For any answers of the kernel, pcm_open returns.  The stream is ready, with
    the pages mapped (or their copy allocated), the buffer the product of the refined sizes and the
    boundary the largest power-of-two multiple of it that leaves room for one more buffer;
    or it has an error message and its ring is not mapped.  Either way the
    descriptors, mappings and blocks are those from before and what the stream holds,
    so that pcm_close, which returns 0, gives everything back. *)
Theorem pcm_open_close card device flg c s :
  fixes_sizes ->
  exists h conf t, pcm_open card device flg (Some c) s = Ok ((h, conf), t) /\
    (h = Opened -> opened s conf t) /\
    exists u, pcm_close h t = Ok (0, u) /\ fds u = fds s /\ maps u = maps s /\ blocks u = blocks s.
Proof.
  intros Hsizes. enough (wp (pcm_open card device flg (Some c)) (fun r t => (r.1 = Opened -> opened s r.2 t) /\
    wp (pcm_close r.1) (fun z u => z = 0 /\ fds u = fds s /\ maps u = maps s /\ blocks u = blocks s) t) s) as Hw.
  { unfold wpu in Hw. destruct (pcm_open _ _ _ _ _) as [[[h conf] t]|]; [|done]. destruct Hw as (H1 & H2). exists h, conf, t.
    do 2 (split; [done|]). destruct (pcm_close _ t) as [[z u]|]; [|done]. exists u. by destruct H2 as (-> & H2). }
  eapply wp_mono; [by apply pcm_open_post|]. intros [[] conf] t Ht; cbn [fst snd] in *.
  - split; [done|]. by apply wp_ret.
  - split; [done|]. apply wp_close, Ht.
Qed.
End Balance.

(** ** A device that plays at once what it is given *)

Definition play_all (pg : shared) : shared :=
  Shared (appl_ptr pg) PCM_STATE_RUNNING (1, 0) (appl_ptr pg) (control_avail_min pg) (ring pg).

(** The period and the number of periods asked for become fixed. *)
Definition fix_sizes (p : hw_params) : hw_params :=
  let size := param_get_min p SNDRV_PCM_HW_PARAM_PERIOD_SIZE in
  let periods := param_get_int p SNDRV_PCM_HW_PARAM_PERIODS in
  param_set_int (param_set_int param_init SNDRV_PCM_HW_PARAM_PERIOD_SIZE (1 + size mod 64))
    SNDRV_PCM_HW_PARAM_PERIODS (1 + periods mod 64).

#[export] Instance ideal_device : Kernel (list Z) := {
  open_device _ k := (3, 0, k);
  ioctl r pg k := match r with
                  | SYNC_PTR _ => (0, 0, play_all pg, k)
                  | WRITEI_FRAMES bytes => (0, 0, pg, k ++ bytes)
                  | _ => (0, 0, pg, k)
                  end;
  ioctl_hw _ p k := (0, 0, fix_sizes p, k);
  ioctl_readi frames pg k := (0, 0, replicate (Z.to_nat frames) 0, pg, k);
  mmap _ k := (0, k);
  calloc k := (true, k);
  poll _ pg k := (1, POLLOUT, 0, play_all pg, k);
  device pg k := (play_all pg, k);
  strerror _ := str "error"
}.

Definition no_pcm : pcm :=
  Pcm (-1) 0 false 0 0 0 [] (Config 0 0 0 0 PCM_FORMAT_S16_LE 0 0 0 0) false false false 0 false.

Definition idle_sys : sys (list Z) := Sys no_pcm (Shared 0 0 (0, 0) 0 0 []) [] 0 0 0 0.

Definition cd_config : pcm_config := Config 2 44100 32 4 PCM_FORMAT_S16_LE 0 0 0 0.

Lemma ideal_fixes_sizes : fixes_sizes (K := list Z).
Proof.
  intros hw k ret e hw' k' [= <- <- <- <-] _. unfold fix_sizes.
  set (a := param_get_int hw _). set (b := param_get_min hw _).
  change (param_get_int _ SNDRV_PCM_HW_PARAM_PERIODS) with (1 + a mod 64).
  change (param_get_int _ SNDRV_PCM_HW_PARAM_PERIOD_SIZE) with (1 + b mod 64).
  pose proof (Z.mod_pos_bound a 64 eq_refl). pose proof (Z.mod_pos_bound b 64 eq_refl).
  rewrite wrap_small; change (2 ^ 32) with 4294967296; change (2 ^ 30) with 1073741824; nia.
Qed.

Lemma pcm_open_close_witness : exists t,
  pcm_open 0 0 PCM_MMAP (Some cd_config) idle_sys
    = Ok ((Opened, Some (Config 2 44100 33 5 PCM_FORMAT_S16_LE 0 0 0 0)), t) /\
  sized (this t) /\ fds t = 1 /\ maps t = 3.
Proof.
  destruct (pcm_open_close 0 0 PCM_MMAP cd_config idle_sys ideal_fixes_sizes) as (h & conf & t & E & Ho & _).
  assert (h = Opened /\ conf = Some (Config 2 44100 33 5 PCM_FORMAT_S16_LE 0 0 0 0) /\ pcm_is_ready (this t) = true /\
          fds t = 1 /\ maps t = 3) as (-> & -> & Hr' & Hf & Hm).
  { vm_compute in E. injection E as <- <- <-. vm_compute. auto. }
  destruct (Ho eq_refl) as [_ Hr]. rewrite Hr' in Hr. destruct Hr as (_ & Hs & _).
  exists t. split; [exact E|]. split; [exact Hs|]. split; [exact Hf|exact Hm].
Defined.
