(* ===== verification/PcmWrite.v ===== *)
(** sample/pcm.c: the outcomes of pcm_write (model in Pcm.v). *)

From S2P Require Import Prelude CLib Pcm.

Open Scope c_scope.
Open Scope Z_scope.

(** * pcm_write *)

Section Write.
Context {K : Type} `{Kernel K}.
Implicit Types (s t : sys K) (data : list Z).

Lemma wp_ioctl_eq {u : Prop} r (Q : Z -> sys K -> Prop) s :
  (forall ret e pg k, ioctl r (pages s) (kern s) = (ret, e, pg, k) ->
     Q ret (Sys (this s) pg k (if ret <? 0 then e else errno s) (fds s) (maps s) (blocks s))) ->
  wpu u (do_ioctl r) Q s.
Proof.
  intros HQ. unfold wpu, do_ioctl. destruct (ioctl r (pages s) (kern s)) as [[[ret e] pg] k]. by apply HQ.
Qed.

(** The bytes that a write of [frames] frames takes. *)
Definition frame_size (p : pcm) : Z := channels (config p) * pcm_format_to_bits (format (config p)) / 8.
Definition payload (p : pcm) data (frames : Z) : list Z := take (Z.to_nat (frames * frame_size p)) data.

(** The last thing the kernel did was to accept [bytes]. *)
Definition accepted (bytes : list Z) t : Prop :=
  exists pg k e, ioctl (WRITEI_FRAMES bytes) pg k = (0, e, pages t, kern t).

Lemma wp_writei data frames (Q : Z -> sys K -> Prop) s :
  frames * frame_size (this s) <= zlen data ->
  (forall ret t, this t = this s -> (ret = 0 -> accepted (payload (this s) data frames) t) -> Q ret t) ->
  wp (writei data frames) Q s.
Proof.
  intros Hlen HQ. unfold writei. apply wp_bind, wp_get. unfold frame_size in Hlen.
  rewrite (proj2 (Z.ltb_ge _ _) Hlen). apply wp_ioctl_eq. intros ret e pg k E. apply HQ; [done|].
  intros ->. by exists (pages s), (kern s), e.
Qed.

(** What a call leaves besides the running flag, the count of underruns and the error. *)
Definition same_stream s t : Prop := flags (this t) = flags (this s) /\ config (this t) = config (this s).

(** The kernel prepares the stream and accepts [bytes]. *)
Definition start_accepted (bytes : list Z) (pg : shared) (k : K) : bool :=
  let '(r, _, pg, k) := ioctl PREPARE pg k in
  (r =? 0) && (let '(r, _, _, _) := ioctl (WRITEI_FRAMES bytes) pg k in r =? 0).

(** The stream runs and has run dry: the kernel refuses [bytes] with EPIPE. *)
Definition underrun (bytes : list Z) s : bool :=
  let '(r, e, _, _) := ioctl (WRITEI_FRAMES bytes) (pages s) (kern s) in
  running (this s) && negb (r =? 0) && ((if r <? 0 then e else errno s) =? EPIPE).

(** What pcm.h promises: the frames are written, once more after an underrun unless PCM_NORESTART
    is set. *)
Definition write_answer (bytes : list Z) s : Z :=
  if negb (running (this s)) then (if start_accepted bytes (pages s) (kern s) then 0 else -1)
  else
    let '(r, _, pg, k) := ioctl (WRITEI_FRAMES bytes) (pages s) (kern s) in
    if r =? 0 then 0
    else if negb (underrun bytes s) then -1
    else if has (flags (this s)) PCM_NORESTART then - EPIPE
    else if start_accepted bytes pg k then 0 else -1.

(** How a call ends that returns [r], with [n] underruns counted. *)
Definition write_ends (bytes : list Z) (n : Z) s (r : Z) t : Prop :=
  running (this t) = (r =? 0) /\ underruns (this t) = n /\ same_stream s t /\
  (r = 0 -> accepted bytes t) /\ (r = -1 -> error (this t) <> []).

Lemma write_ends_same bytes n s s' r t : same_stream s s' -> write_ends bytes n s' r t -> write_ends bytes n s r t.
Proof. unfold write_ends, same_stream. intros [-> ->]. done. Qed.

Lemma wp_oops_write e msg bytes n s t :
  msg <> [] -> running (this t) = false -> underruns (this t) = n -> same_stream s t ->
  wp (Some <$> oops e msg) (fun o u => o = Some (-1) /\ write_ends bytes n s (-1) u) t.
Proof.
  intros Hm Hr Hu Hs. apply wp_fmap. unfold wpu, oops. split; [done|]. split_and!; [done|done|done|done|].
  intros _. destruct msg; [done|]. cbn. by case_match.
Qed.

(** A pass on a stream that is stopped. *)
Lemma wp_start data frames s :
  frames * frame_size (this s) <= zlen data -> running (this s) = false ->
  let bytes := payload (this s) data frames in
  let a := if start_accepted bytes (pages s) (kern s) then 0 else -1 in
  wp (write_pass data frames) (fun o t => o = Some a /\ write_ends bytes (underruns (this s)) s a t) s.
Proof.
  intros Hlen Hr bytes. cbv zeta. unfold start_accepted, write_pass. apply wp_bind, wp_get. rewrite Hr. cbn [negb].
  apply wp_bind, wp_ioctl_eq. intros r e pg k E. rewrite E.
  destruct (Z.eqb_spec r 0) as [->|]; cbn [negb andb].
  2: { apply wp_bind, wp_get_errno. by apply wp_oops_write. }
  apply wp_bind. unfold writei. apply wp_bind, wp_get. cbn [this]. unfold frame_size in Hlen.
  rewrite (proj2 (Z.ltb_ge _ _) Hlen). apply wp_ioctl_eq. cbn [this pages kern]. intros r' e' pg' k' E'.
  change (take _ data) with bytes in E'. rewrite E'.
  destruct (Z.eqb_spec r' 0) as [->|]; cbn [negb].
  - apply wp_bind, wp_put, wp_ret. split; [done|]. split_and!; [done..| |done]. intros _. by exists pg, k, e'.
  - apply wp_bind, wp_get_errno. by apply wp_oops_write.
Qed.

(** Both passes. *)
Lemma write_loop_ends data frames s :
  frames * frame_size (this s) <= zlen data -> INT_MIN <= underruns (this s) <= INT_MAX ->
  let bytes := payload (this s) data frames in
  wpu (underrun bytes s = true /\ underruns (this s) = INT_MAX) (write_loop 2 data frames) (fun r t =>
    r = write_answer bytes s /\
    write_ends bytes (underruns (this s) + (if underrun bytes s then 1 else 0)) s r t /\
    (underrun bytes s = true -> underruns (this s) < INT_MAX)) s.
Proof.
  intros Hlen Hu bytes. cbn [write_loop]. apply wp_bind. unfold write_answer. destruct (running (this s)) eqn:Er; cbn [negb].
  2: { assert (underrun bytes s = false) as -> by (unfold underrun; rewrite Er; by destruct (ioctl _ _ _) as [[[? ?] ?] ?]).
       rewrite Z.add_0_r. pose proof (wp_start data frames s Hlen Er) as Hw. cbn zeta in Hw. fold bytes in Hw.
       destruct (wp_run _ _ _ Hw) as (o & t & E & -> & He). unfold wpu. rewrite E. done. }
  unfold write_pass at 1. apply wp_bind, wp_get. rewrite Er. cbn [negb]. apply wp_bind.
  unfold writei. apply wp_bind, wp_get. cbn [this]. pose proof Hlen as Hlen'. unfold frame_size in Hlen'.
  rewrite (proj2 (Z.ltb_ge _ _) Hlen'). clear Hlen'. change (take _ data) with bytes.
  unfold wpu at 1, do_ioctl. unfold underrun. rewrite Er. destruct (ioctl (WRITEI_FRAMES bytes) (pages s) (kern s)) as [[[r e] pg] k] eqn:E.
  destruct (Z.eqb_spec r 0) as [->|Hr0]; cbn [negb andb].
  { apply wp_ret. split; [done|]. split; [|done]. split_and!; [done|cbn; lia|done| |done]. intros _. by exists (pages s), (kern s), e. }
  apply wp_bind, wp_put, wp_bind, wp_get_errno. cbn [errno].
  destruct ((if r <? 0 then e else errno s) =? EPIPE) eqn:Ee; cbn [negb].
  2: { eapply (wp_mono _ (fun o u => o = Some (-1) /\ write_ends bytes (underruns (this s)) s (-1) u)).
       - pose proof (wp_oops_write (if r <? 0 then e else errno s) (str "cannot write stream data") bytes (underruns (this s)) s
           (Sys (set_running false (this s)) pg k (if r <? 0 then e else errno s) (fds s) (maps s) (blocks s))) as Hw.
         destruct (wp_run _ _ _ (Hw ltac:(done) eq_refl eq_refl ltac:(by split))) as (o & t & Eo & Ho). unfold wpu.
         cbn [this pages kern errno fds maps blocks]. rewrite Eo. exact Ho.
       - intros o u [-> Ho]. apply wp_ret. rewrite Z.add_0_r. done. }
  apply wp_bind, wp_lift. destruct (as_int_cases (underruns (this s) + 1)) as [[-> Hi]|[-> Ho]].
  2: { split; [done|]. lia. }
  apply wp_bind, wp_put, wp_ret. cbn [this pages kern errno fds maps blocks]. destruct (has (flags (this s)) PCM_NORESTART) eqn:En.
  { apply wp_ret. split; [done|]. split; [by split_and!|lia]. }
  apply wp_bind. set (s1 := Sys _ pg k _ _ _ _).
  pose proof (wp_start data frames s1 Hlen eq_refl) as Hw. cbn zeta in Hw.
  change (payload (this s1) data frames) with bytes in Hw. change (pages s1) with pg in Hw. change (kern s1) with k in Hw.
  destruct (wp_run _ _ _ Hw) as (o & t & E1 & -> & He). unfold wpu. rewrite E1. split; [done|]. split; [|lia].
  change (underruns (this s1)) with (underruns (this s) + 1) in He. by eapply write_ends_same.
Qed.

(** The two passes on a playback stream. *)
Lemma pcm_write_ends data count s :
  has (flags (this s)) PCM_IN = false -> 0 < frame_size (this s) -> 0 <= channels (config (this s)) < 2 ^ 26 ->
  0 <= count <= zlen data -> INT_MIN <= underruns (this s) <= INT_MAX ->
  let bytes := payload (this s) data (count / frame_size (this s)) in
  wpu (underrun bytes s = true /\ underruns (this s) = INT_MAX) (pcm_write data count) (fun r t =>
    r = write_answer bytes s /\
    write_ends bytes (underruns (this s) + (if underrun bytes s then 1 else 0)) s r t /\
    (underrun bytes s = true -> underruns (this s) < INT_MAX)) s.
Proof.
  intros Hin Hfs Hch Hcount Hu bytes. unfold pcm_write. apply wp_bind, wp_get. rewrite Hin. eapply wp_bind, wp_lift_Ok.
  - unfold xfer_frames, udiv. rewrite wrap_small; [|destruct (format _); cbn; change (2 ^ 32) with 4294967296; change (2 ^ 26) with 67108864 in Hch; lia].
    fold (frame_size (this s)). rewrite (proj2 (Z.eqb_neq _ _)) by lia. done.
  - apply write_loop_ends; [|done]. pose proof (Z.mul_div_le count (frame_size (this s)) Hfs). lia.
Qed.

(** C26. Whatever the kernel answers, pcm_write on a playback stream returns after at most two
    passes.  On a stopped stream it prepares it and writes, and the result is 0 when the kernel accepts
    both; on a running one it writes; when the kernel answers EPIPE, the underrun is counted, and then
    the result is -EPIPE if PCM_NORESTART is set, and otherwise the stream is prepared and the same bytes
    are written again.  Every other refusal is -1 with an error message.  Afterwards
    the stream runs exactly if the result is 0, and then the kernel has just accepted all the whole
    frames of the buffer.  The one signed overflow is that of the count of underruns at INT_MAX. *)
Theorem pcm_write_outcome data count s :
  has (flags (this s)) PCM_IN = false -> 0 < frame_size (this s) ->
  0 <= channels (config (this s)) < 2 ^ 26 -> 0 <= count <= zlen data -> INT_MIN <= underruns (this s) <= INT_MAX ->
  let bytes := payload (this s) data (count / frame_size (this s)) in
  match pcm_write data count s with
  | Ok (r, t) => r = write_answer bytes s /\
      write_ends bytes (underruns (this s) + (if underrun bytes s then 1 else 0)) s r t /\
      (underrun bytes s = true -> underruns (this s) < INT_MAX)
  | Ub _ => underrun bytes s = true /\ underruns (this s) = INT_MAX
  end.
Proof. intros. by apply pcm_write_ends. Qed.
End Write.

(** ** A device that has run dry: it refuses to write until it is prepared again *)

Definition dry_device : Kernel bool := {|
  open_device _ k := (3, 0, k);
  ioctl r pg k := match r with
                  | PREPARE => (0, 0, pg, true)
                  | WRITEI_FRAMES _ => if k then (0, 0, pg, k) else (-1, EPIPE, pg, k)
                  | _ => (0, 0, pg, k)
                  end;
  ioctl_hw _ p k := (0, 0, p, k);
  ioctl_readi _ pg k := (0, 0, [], pg, k);
  mmap _ k := (0, k);
  calloc k := (true, k);
  poll _ pg k := (1, POLLOUT, 0, pg, k);
  device pg k := (pg, k);
  strerror _ := str "Broken pipe"
|}.

Definition running_pcm (flg : Z) : pcm := Pcm 3 flg true 0 64 1024 [] cd_config false false false 0 false.

Definition dry_sys (flg : Z) : sys bool := Sys (running_pcm flg) (Shared 0 0 (0, 0) 0 0 []) false 0 1 0 1.

Lemma pcm_write_outcome_witness : exists t,
  @pcm_write bool dry_device [1; 2; 3; 4; 5] 5 (dry_sys 0) = Ok (0, t) /\ underruns (this t) = 1.
Proof.
  pose proof (@pcm_write_outcome bool dry_device [1; 2; 3; 4; 5] 5 (dry_sys 0) eq_refl eq_refl) as H.
  destruct (@pcm_write bool dry_device [1; 2; 3; 4; 5] 5 (dry_sys 0)) as [[r t]|e] eqn:E.
  - destruct H as (Hr & (_ & Hu & _) & _); [cbn; lia|vm_compute; split; congruence|vm_compute; split; congruence|].
    exists t. vm_compute in Hr. subst r. split; [reflexivity|]. rewrite Hu. reflexivity.
  - vm_compute in E. discriminate E.
Defined.
