(* ===== verification/PcmRing.v ===== *)
(** sample/pcm.c, pcm_mmap_write: the ring as a queue of frames.  The abstract
    specification is a queue to which the library adds at one end and from which the device
    takes at the other; [queued] is the queue that a ring holds. *)

From S2P Require Import Prelude CLib Pcm PcmWrite.

Open Scope c_scope.
Open Scope Z_scope.

(** ** The device *)

(** What a playing device may do to the shared pages: move hw_ptr on, up to appl_ptr. *)
Definition plays (pg pg' : shared) : Prop :=
  hw_ptr pg <= hw_ptr pg' <= appl_ptr pg /\ appl_ptr pg' = appl_ptr pg /\
  control_avail_min pg' = control_avail_min pg /\ ring pg' = ring pg.

(** poll without a timeout does not time out, an error of it sets errno, and when it
    reports no error there is room for avail_min frames in the ring of [size]. *)
Class Player (K : Type) `{Kernel K} (size : Z) : Prop := {
  device_plays pg k : hw_ptr pg <= appl_ptr pg -> plays pg (device pg k).1;
  poll_plays t pg k ret revents e pg' k' :
    poll t pg k = (ret, revents, e, pg', k') -> hw_ptr pg <= appl_ptr pg ->
    plays pg pg' /\ (ret < 0 -> 0 < e) /\ (t < 0 -> ret <> 0) /\
    (0 < ret -> has revents (POLLERR .| POLLNVAL) = false -> control_avail_min pg <= size ->
     has revents (POLLIN .| POLLOUT) = true /\ control_avail_min pg <= size - (appl_ptr pg' - hw_ptr pg'))
}.

(** ** A running playback stream on mapped pages *)

Definition frame_bytes (p : pcm) : Z := channels (config p) * (pcm_format_to_bits (format (config p)) >> 3).

Definition playing (p : pcm) : Prop :=
  mmap_status p = true /\ sync_ptr p = false /\ mmap_buffer p = true /\ running p = true /\
  has (flags p) PCM_IN = false /\ has (flags p) PCM_NOIRQ = false /\ lacks (flags p) (PCM_OUT .| PCM_MMAP) = false /\
  0 < buffer_size p <= boundary p /\ boundary p + buffer_size p <= INT_MAX /\
  0 < frame_bytes p /\ buffer_size p * frame_bytes p <= INT_MAX /\
  1 <= avail_min (config p) <= buffer_size p.

(** The frames between hw_ptr and appl_ptr are to be played; the pointers have not
    come to the boundary. *)
Definition ring_ok (p : pcm) (pg : shared) : Prop :=
  0 <= hw_ptr pg <= appl_ptr pg /\ appl_ptr pg - hw_ptr pg <= buffer_size p /\ appl_ptr pg <= boundary p /\
  zlen (ring pg) = buffer_size p * frame_bytes p /\ control_avail_min pg = avail_min (config p).

Definition room (p : pcm) (pg : shared) : Z := buffer_size p - (appl_ptr pg - hw_ptr pg).

(** The byte of the ring at the absolute position [i]. *)
Definition byte_at (p : pcm) (r : list Z) (i : Z) : Z :=
  nth (Z.to_nat (i mod (buffer_size p * frame_bytes p))) r 0.

Definition queued (p : pcm) (pg : shared) : list Z :=
  map (byte_at p (ring pg)) (seqZ (hw_ptr pg * frame_bytes p) ((appl_ptr pg - hw_ptr pg) * frame_bytes p)).

(** The frames [n] of a buffer from frame [k] on. *)
Definition frames_of (p : pcm) (buf : list Z) (k n : Z) : list Z :=
  take (Z.to_nat (n * frame_bytes p)) (drop (Z.to_nat (k * frame_bytes p)) buf).

Lemma plays_refl pg : hw_ptr pg <= appl_ptr pg -> plays pg pg.
Proof. unfold plays. intuition lia. Qed.

Lemma plays_trans a b c : plays a b -> plays b c -> plays a c.
Proof. intros (H1 & H2 & H3 & H4) (G1 & G2 & G3 & G4). unfold plays. rewrite G2, G3, G4. intuition lia. Qed.

Lemma plays_ring_ok p pg pg' : ring_ok p pg -> plays pg pg' -> ring_ok p pg' /\ room p pg <= room p pg'.
Proof.
  intros (R1 & R2 & R3 & R4 & R5) (P1 & P2 & P3 & P4). unfold ring_ok, room. rewrite P2, P3, P4. intuition lia.
Qed.

(** The device takes frames from the front. *)
Lemma plays_queued p pg pg' :
  0 < frame_bytes p -> ring_ok p pg -> plays pg pg' -> exists gone, queued p pg = gone ++ queued p pg'.
Proof.
  intros Hf (R1 & R2 & R3 & R4 & R5) (P1 & P2 & P3 & P4). unfold queued. rewrite P2, P4.
  exists (map (byte_at p (ring pg)) (seqZ (hw_ptr pg * frame_bytes p) ((hw_ptr pg' - hw_ptr pg) * frame_bytes p))).
  rewrite <- map_app. f_equal.
  replace (hw_ptr pg' * frame_bytes p) with (hw_ptr pg * frame_bytes p + (hw_ptr pg' - hw_ptr pg) * frame_bytes p) by lia.
  rewrite <- seqZ_app by nia. f_equal. lia.
Qed.

(** ** A copy into the ring *)

Definition copied (o : Z) (chunk r : list Z) : list Z :=
  take (Z.to_nat o) r ++ chunk ++ drop (Z.to_nat (o + zlen chunk)) r.

Lemma copied_length o chunk r : 0 <= o -> o + zlen chunk <= zlen r -> length (copied o chunk r) = length r.
Proof. unfold copied, zlen. intros. rewrite !length_app, length_take, length_drop. lia. Qed.

Lemma copied_nth o chunk r i :
  0 <= o -> o + zlen chunk <= zlen r -> 0 <= i ->
  nth (Z.to_nat i) (copied o chunk r) 0 =
  if (o <=? i) && (i <? o + zlen chunk) then nth (Z.to_nat (i - o)) chunk 0 else nth (Z.to_nat i) r 0.
Proof.
  unfold copied, zlen. intros Ho Hlen Hi.
  assert (length (take (Z.to_nat o) r) = Z.to_nat o) as Ht by (rewrite length_take; lia).
  destruct (Z.leb_spec o i); cbn [andb].
  - rewrite app_nth2 by lia. rewrite Ht. destruct (Z.ltb_spec i (o + Z.of_nat (length chunk))).
    + rewrite app_nth1 by lia. f_equal. lia.
    + rewrite app_nth2 by lia. rewrite !nth_lookup, lookup_drop. do 2 f_equal. lia.
  - rewrite app_nth1 by lia. rewrite !nth_lookup, lookup_take_lt by lia. done.
Qed.

(** Positions less than a ring apart are different bytes of it. *)
Lemma mod_apart L a j i : 0 < L -> i < a -> 0 <= j -> a + j - i < L -> a mod L + j < L -> i mod L <> a mod L + j.
Proof.
  intros HL Hi Hj Hd Hw E. assert ((a + j) mod L = a mod L + j) as Ea.
  { rewrite <- (Z.mod_small (a mod L + j) L) by (pose proof (Z.mod_pos_bound a L HL); lia).
    by rewrite Zplus_mod_idemp_l. }
  rewrite <- Ea in E. assert ((a + j - i) mod L = 0) as E0.
  { rewrite Zminus_mod, E, Z.sub_diag. done. }
  rewrite Z.mod_small in E0; lia.
Qed.

Lemma map_nth_seqZ (l : list Z) a n (f : Z -> Z) :
  0 <= n -> zlen l = n -> (forall j, 0 <= j < n -> f (a + j) = nth (Z.to_nat j) l 0) -> map f (seqZ a n) = l.
Proof.
  intros Hn Hl Hf. apply list_eq. intros i. rewrite list_lookup_fmap. unfold zlen in Hl.
  destruct (decide (i < length l)%nat).
  - rewrite lookup_seqZ_lt by lia. cbn. rewrite Hf by lia. rewrite Nat2Z.id. symmetry.
    destruct (lookup_lt_is_Some_2 l i) as [x Hx]; [done|]. rewrite nth_lookup, Hx. done.
  - rewrite lookup_seqZ_ge by lia. cbn. symmetry. apply lookup_ge_None. lia.
Qed.

(** The library adds [n] frames at the back: they are placed behind the others and do not
    overwrite one of them. *)
Lemma copied_queued p pg chunk n :
  0 < buffer_size p -> 0 < frame_bytes p -> ring_ok p pg -> 0 <= n <= room p pg ->
  appl_ptr pg mod buffer_size p + n <= buffer_size p -> zlen chunk = n * frame_bytes p ->
  queued p (set_appl_ptr (appl_ptr pg + n)
              (set_ring (copied (appl_ptr pg mod buffer_size p * frame_bytes p) chunk (ring pg)) pg))
  = queued p pg ++ chunk.
Proof.
  intros Hbs Hf (R1 & R2 & R3 & R4 & R5) Hn Hfit Hlen. unfold queued, room in *. cbn [hw_ptr appl_ptr ring set_appl_ptr set_ring].
  set (fb := frame_bytes p) in *. set (bs := buffer_size p) in *.
  set (o := appl_ptr pg mod bs * fb).
  pose proof (Z.mod_pos_bound (appl_ptr pg) bs Hbs) as Hmod.
  assert (o = (appl_ptr pg * fb) mod (bs * fb)) as Eo by (unfold o; rewrite Zmult_mod_distr_r; lia).
  assert (0 < bs * fb) as HL by nia.
  assert (o + n * fb <= bs * fb) as Hfit' by (unfold o; nia).
  replace ((appl_ptr pg + n - hw_ptr pg) * fb) with ((appl_ptr pg - hw_ptr pg) * fb + n * fb) by lia.
  rewrite seqZ_app by nia. rewrite map_app. f_equal.
  - apply map_ext_in. intros i Hi%list_elem_of_In%elem_of_seqZ. unfold byte_at. fold fb bs.
    pose proof (Z.mod_pos_bound i (bs * fb) HL) as Hi'. rewrite copied_nth by (rewrite ?Hlen, ?R4; unfold o; nia).
    rewrite Hlen. destruct (Z.leb_spec o (i mod (bs * fb))), (Z.ltb_spec (i mod (bs * fb)) (o + n * fb)); try done. cbn [andb].
    exfalso. rewrite Eo in *. apply (mod_apart (bs * fb) (appl_ptr pg * fb) (i mod (bs * fb) - (appl_ptr pg * fb) mod (bs * fb)) i); lia || nia.
  - replace (hw_ptr pg * fb + (appl_ptr pg - hw_ptr pg) * fb) with (appl_ptr pg * fb) by lia.
    apply map_nth_seqZ; [nia|done|]. intros j Hj. unfold byte_at. fold fb bs.
    assert ((appl_ptr pg * fb + j) mod (bs * fb) = o + j) as ->.
    { rewrite <- Zplus_mod_idemp_l, <- Eo. apply Z.mod_small. unfold o. nia. }
    rewrite copied_nth by (rewrite ?Hlen, ?R4; unfold o; nia). rewrite Hlen.
    rewrite (proj2 (Z.leb_le _ _)), (proj2 (Z.ltb_lt _ _)) by lia. cbn [andb]. f_equal. lia.
Qed.

(** * The functions on the ring *)

Lemma s32_id x : - 2 ^ 31 <= x < 2 ^ 31 -> s32 x = x.
Proof. intros. by apply sext_small. Qed.

Lemma u32_id x : 0 <= x < 2 ^ 32 -> u32 x = x.
Proof. apply wrap_small. Qed.

Section Ring.
Context {K : Type} `{Kernel K} {size : Z} `{!Player K size}.
Implicit Types (s t : sys K) (buf : list Z).

Definition inv s : Prop :=
  playing (this s) /\ buffer_size (this s) = size /\ ring_ok (this s) (pages s) /\ 0 <= errno s.

(** The device ran; the library did nothing. *)
Definition moves s t : Prop := this t = this s /\ plays (pages s) (pages t) /\ errno t = errno s.

Lemma moves_inv s t : moves s t -> inv s -> inv t /\ room (this s) (pages s) <= room (this t) (pages t).
Proof.
  intros (E1 & E2 & E3) (I1 & I2 & I3 & I4). unfold inv. rewrite E1, E3.
  destruct (plays_ring_ok _ _ _ I3 E2) as [? ?]. auto.
Qed.

Lemma moves_queued s t : inv s -> moves s t -> exists gone, queued (this s) (pages s) = gone ++ queued (this t) (pages t).
Proof.
  intros (Ip & _ & I3 & _) (E1 & E2 & _). rewrite E1. apply plays_queued; [|done..]. apply Ip.
Qed.

Lemma wp_read_status s (Q : shared -> sys K -> Prop) :
  inv s -> (forall t, moves s t -> Q (pages t) t) -> wp read_status Q s.
Proof.
  intros ((P1 & P2 & _) & _ & (R1 & _) & _) HQ. unfold wpu, read_status. rewrite P1, P2. cbn [negb].
  pose proof (device_plays (pages s) (kern s)) as Hd. destruct (device _ _) as [pg k]. cbn in Hd.
  apply (HQ (Sys _ pg k _ _ _ _)). split; [done|]. split; [|done]. apply Hd. lia.
Qed.

Lemma wp_read_control s (Q : shared -> sys K -> Prop) : inv s -> Q (pages s) s -> wp read_control Q s.
Proof. intros ((P1 & _) & _) HQ. unfold read_control. apply wp_bind, wp_get. by rewrite P1. Qed.

Lemma wp_no_sync f s (Q : Z -> sys K -> Prop) : inv s -> Q 0 s -> wp (pcm_sync_ptr f) Q s.
Proof. intros ((_ & P2 & _) & _) HQ. unfold pcm_sync_ptr. apply wp_bind, wp_get. by rewrite P2. Qed.

Lemma wp_avail s (Q : Z -> sys K -> Prop) :
  inv s -> (forall t, moves s t -> inv t -> Q (room (this t) (pages t)) t) -> wp pcm_mmap_avail Q s.
Proof.
  intros Hs HQ. unfold pcm_mmap_avail. apply wp_bind, wp_no_sync; [done|]. apply wp_bind, wp_get.
  pose proof Hs as ((_ & _ & _ & _ & P5 & _) & _). rewrite P5. unfold pcm_mmap_playback_avail.
  apply wp_bind, wp_read_status; [done|]. intros t Ht. destruct (moves_inv s t Ht Hs) as [It _].
  apply wp_bind, wp_read_control; [done|]. apply wp_bind, wp_get.
  specialize (HQ t Ht It). destruct It as ((_ & _ & _ & _ & _ & _ & _ & P8 & P9 & _) & _ & (R1 & R2 & R3 & _) & _).
  unfold INT_MAX in *. change (2 ^ 31) with 2147483648 in *.
  rewrite (s32_id (hw_ptr _ + _ - _)) by (change (2 ^ 31) with 2147483648; lia).
  rewrite (s32_id (boundary _)) by (change (2 ^ 31) with 2147483648; lia).
  unfold room in HQ. rewrite (proj2 (Z.ltb_ge _ _)) by lia. rewrite (proj2 (Z.ltb_ge _ _)) by lia.
  apply wp_ret. by replace (hw_ptr (pages t) + buffer_size (this t) - appl_ptr (pages t)) with
    (buffer_size (this t) - (appl_ptr (pages t) - hw_ptr (pages t))) by lia.
Qed.

(** The frames that can be copied at once. *)
Lemma wp_begin n s (Q : Z * Z -> sys K -> Prop) :
  inv s -> 1 <= n < 2 ^ 31 -> n <= room (this s) (pages s) ->
  (forall t f, moves s t -> inv t -> 1 <= f <= n -> f <= room (this t) (pages t) ->
     appl_ptr (pages t) mod buffer_size (this t) + f <= buffer_size (this t) ->
     Q (appl_ptr (pages t) mod buffer_size (this t), f) t) ->
  wp (pcm_mmap_begin n) Q s.
Proof.
  intros Hs Hn Hroom HQ. unfold pcm_mmap_begin. apply wp_bind, wp_read_control; [done|]. apply wp_bind, wp_get.
  pose proof Hs as ((_ & _ & _ & _ & _ & _ & _ & P8 & P9 & _) & _ & (R1 & R2 & R3 & _) & _).
  pose proof (Z.mod_pos_bound (appl_ptr (pages s)) (buffer_size (this s))) as Hmod.
  unfold INT_MAX in *. eapply wp_bind, wp_lift_Ok; [rewrite (proj2 (Z.eqb_neq _ _)) by lia; reflexivity|].
  apply wp_bind, wp_avail; [done|]. intros t Ht It. apply wp_ret.
  destruct (moves_inv s t Ht Hs) as [_ Hge]. pose proof Ht as (E1 & (_ & E2 & _) & E3).
  assert (room (this t) (pages t) <= buffer_size (this t)) as Hle.
  { destruct It as (_ & _ & (? & ? & _) & _). unfold room. lia. }
  rewrite E1 in *. rewrite <- E2 in *.
  change (2 ^ 31) with 2147483648 in *.
  rewrite !u32_id by (change (2 ^ 32) with 4294967296; lia).
  rewrite (proj2 (Z.ltb_ge (buffer_size (this s)) _)) by lia. rewrite (proj2 (Z.ltb_ge (room _ _) n)) by lia.
  specialize (HQ t). rewrite E1 in HQ. apply HQ; [exact Ht|exact It|..]; destruct (Z.ltb_spec (buffer_size (this s) - appl_ptr (pages t) mod buffer_size (this s)) n); lia.
Qed.

Lemma frame_bytes_eq (p : pcm) n :
  0 <= n * frame_bytes p <= INT_MAX -> s32 (pcm_frames_to_bytes p n) = n * frame_bytes p.
Proof.
  unfold pcm_frames_to_bytes, frame_bytes, INT_MAX. intros Hn. rewrite <- Z.mul_assoc.
  rewrite u32_id by (change (2 ^ 32) with 4294967296; lia). apply s32_id. change (2 ^ 31) with 2147483648. lia.
Qed.

Lemma memcpy_frames (p : pcm) r o buf k n :
  0 < frame_bytes p -> 0 <= n -> 0 <= k -> 0 <= o -> o + n * frame_bytes p <= zlen r -> (k + n) * frame_bytes p <= zlen buf ->
  memcpy r o buf (k * frame_bytes p) (n * frame_bytes p) = Ok (copied o (frames_of p buf k n) r) /\
  zlen (frames_of p buf k n) = n * frame_bytes p.
Proof.
  intros Hf Hn Hk Ho Hr Hb. assert (zlen (frames_of p buf k n) = n * frame_bytes p) as Hl.
  { unfold zlen, frames_of in *. rewrite length_take, length_drop. nia. }
  split; [|done]. unfold memcpy, copied. rewrite Hl.
  rewrite !(proj2 (Z.ltb_ge _ _)) by nia. done.
Qed.

Lemma span_bounds bs fb off f n k len :
  0 < fb -> 0 <= off -> 0 <= f <= n -> 0 <= k -> off + f <= bs -> bs * fb <= INT_MAX -> (k + n) * fb <= len -> len <= INT_MAX ->
  0 <= f * fb <= INT_MAX /\ 0 <= off * fb <= INT_MAX /\ 0 <= k * fb <= INT_MAX /\
  off * fb + f * fb <= bs * fb /\ (k + f) * fb <= len.
Proof. unfold INT_MAX. intros. split_and!; nia. Qed.

(** One pass: some frames go from the buffer to the back of the queue. *)
Lemma wp_transfer_step {A} (m : Z -> Z -> list Z -> ST (sys K) A) (Q : A -> sys K -> Prop) buf k n s :
  inv s -> 1 <= n <= room (this s) (pages s) -> appl_ptr (pages s) + n <= boundary (this s) ->
  0 <= k -> (k + n) * frame_bytes (this s) <= zlen buf -> zlen buf <= INT_MAX ->
  (forall f t, 1 <= f <= n -> inv t -> this t = this s -> errno t = errno s ->
     appl_ptr (pages t) = appl_ptr (pages s) + f -> room (this s) (pages s) - f <= room (this t) (pages t) ->
     (exists gone, queued (this s) (pages s) ++ frames_of (this s) buf k f = gone ++ queued (this t) (pages t)) ->
     wp (m f f buf) Q t) ->
  wp ('(pcm_offset, frames) ← pcm_mmap_begin n;
      buf ← pcm_areas_copy pcm_offset buf k frames;
      commit ← pcm_mmap_commit frames; m frames commit buf) Q s.
Proof.
  intros Hs Hn Hap Hk Hb Hb' HQ. pose proof Hs as ((_ & _ & _ & _ & _ & _ & _ & P8 & P9 & P10 & P11 & _) & _ & (_ & R2 & R3 & _) & _).
  apply wp_bind, wp_begin; [done|unfold room, INT_MAX in *; change (2 ^ 31) with 2147483648; lia|lia|].
  intros t f Ht It Hf Hroom Hfit. pose proof (moves_queued s t Hs Ht) as [gone Hg].
  destruct (moves_inv s t Ht Hs) as [_ Hge]. destruct Ht as (E1 & (_ & E2 & _) & E3).
  pose proof It as ((I1 & I2 & I3 & I4 & I5 & _) & Isz & (J1 & J2 & J3 & J4 & J5) & Ie). rewrite E1 in *.
  set (p := this s) in *. set (pg := pages t) in *. rewrite <- E2 in *.
  pose proof (Z.mod_pos_bound (appl_ptr pg) (buffer_size p)) as Hmod.
  apply wp_bind. unfold pcm_areas_copy. apply wp_bind, wp_get, wp_bind. unfold wpu at 1. cbn [page].
  rewrite E1. fold p pg.
  destruct (span_bounds (buffer_size p) (frame_bytes p) (appl_ptr pg mod buffer_size p) f n k (zlen buf)) as (S1 & S2 & S3 & S4 & S5); [lia..|].
  rewrite !frame_bytes_eq by lia. rewrite I3, I5. cbn [negb].
  destruct (memcpy_frames p (ring pg) (appl_ptr pg mod buffer_size p * frame_bytes p) buf k f) as [Em Hl]; [lia..|].
  unfold INT_MAX in *.
  eapply wp_bind, wp_lift_Ok; [exact Em|]. apply wp_bind. unfold wpu at 1. cbn [put_page].
  apply wp_bind. unfold pcm_mmap_commit, pcm_mmap_appl_forward. apply wp_bind, wp_bind.
  set (t1 := Sys _ _ _ _ _ _ _). set (pg1 := set_ring _ _) in t1.
  set (t2 := Sys (this t1) (set_appl_ptr (appl_ptr pg + f) pg1) (kern t1) (errno t1) (fds t1) (maps t1) (blocks t1)).
  change (2 ^ 31) with 2147483648 in *.
  unfold read_control, write_control. apply wp_bind, wp_get. cbn [this t1]. rewrite E1. fold p. rewrite I1.
  unfold wpu at 1. cbn [page]. apply wp_bind, wp_get. cbn [this t1 pages]. rewrite E1. fold p.
  rewrite (s32_id f) by (change (2 ^ 31) with 2147483648; lia).
  change (appl_ptr pg1) with (appl_ptr pg).
  rewrite u32_id by (change (2 ^ 32) with 4294967296; lia).
  rewrite (proj2 (Z.ltb_ge (boundary p) _)) by lia.
  apply wp_bind, wp_get. cbn [this t1]. rewrite E1. fold p. rewrite I1.
  change (wp (pcm_sync_ptr 0 ≫= fun _ => mret f) (fun a => wp (m f a buf) Q) t2).
  assert (inv t2) as It2.
  { split; [exact (proj1 It)|]. split; [exact (proj1 (proj2 It))|]. split; [|exact Ie].
    unfold ring_ok, t2, pg1, t1. cbn. fold pg. rewrite E1. fold p. unfold room in *.
    split; [lia|]. split; [lia|]. split; [lia|]. split; [|done].
    unfold zlen. rewrite copied_length; [exact J4|lia|lia]. }
  apply wp_bind, wp_no_sync; [done|]. apply wp_ret, HQ.
  - done.
  - done.
  - exact E1.
  - exact E3.
  - done.
  - change (room (this t2) (pages t2)) with (buffer_size (this t) - (appl_ptr pg + f - hw_ptr pg)). rewrite E1. fold p. unfold room in *. lia.
  - exists gone. rewrite Hg, <- app_assoc. f_equal. change (this t2) with (this t). rewrite E1. fold p. symmetry.
    apply copied_queued; done || lia.
Qed.
(** The abstract step: [frames] are added at the back, some were taken at the front. *)
Definition enqueues s (frames : list Z) t : Prop :=
  exists gone, queued (this s) (pages s) ++ frames = gone ++ queued (this t) (pages t).

Lemma enqueues_trans s t u l k : enqueues s l t -> enqueues t k u -> enqueues s (l ++ k) u.
Proof.
  intros [g1 E1] [g2 E2]. exists (g1 ++ g2). by rewrite app_assoc, E1, <- !app_assoc, E2.
Qed.

Lemma frames_of_app (p : pcm) buf k n m :
  0 < frame_bytes p -> 0 <= k -> 0 <= n -> 0 <= m -> frames_of p buf k n ++ frames_of p buf (k + n) m = frames_of p buf k (n + m).
Proof.
  intros Hf Hk Hn Hm. unfold frames_of. set (fb := frame_bytes p) in *.
  replace (Z.to_nat ((k + n) * fb)) with (Z.to_nat (k * fb) + Z.to_nat (n * fb))%nat by nia.
  replace (Z.to_nat ((n + m) * fb)) with (Z.to_nat (n * fb) + Z.to_nat (m * fb))%nat by nia.
  rewrite <- drop_drop. apply take_take_drop.
Qed.

Lemma frames_of_0 (p : pcm) buf k : frames_of p buf k 0 = [].
Proof. done. Qed.

(** What a transfer of [n] frames leaves. *)
Definition transferred buf k n s t : Prop :=
  inv t /\ this t = this s /\ errno t = errno s /\ appl_ptr (pages t) = appl_ptr (pages s) + n /\
  room (this s) (pages s) - n <= room (this t) (pages t) /\ enqueues s (frames_of (this s) buf k n) t.

Lemma wp_transfer_areas fuel buf k n c s :
  inv s -> 0 <= n <= room (this s) (pages s) -> appl_ptr (pages s) + n <= boundary (this s) ->
  0 <= k -> (k + n) * frame_bytes (this s) <= zlen buf -> zlen buf <= INT_MAX -> n <= Z.of_nat fuel ->
  0 <= c -> c + n <= INT_MAX ->
  wp (pcm_mmap_transfer_areas fuel buf k n c) (fun r t => r = (c + n, buf) /\ transferred buf k n s t) s.
Proof.
  revert k n c s. induction fuel as [|fuel IH]; intros k n c s Hs Hn Hap Hk Hb Hb' Hfuel Hc Hcn.
  all: cbn [pcm_mmap_transfer_areas].
  all: destruct (Z.eqb_spec n 0) as [->|]; [|try lia].
  1,2: apply wp_ret; rewrite s32_id by (unfold INT_MAX in *; change (2 ^ 31) with 2147483648; lia); split; [f_equal; lia|].
  1,2: split_and!; try done; [lia|lia|exists []; by rewrite frames_of_0, app_nil_r].
  apply (wp_transfer_step (fun frames commit buf => if commit <? 0 then _ else _)); [done|lia|done|done|done|done|].
  intros f t Hf It Et Ee Ea Hr Hq.
  pose proof (Hs) as ((_ & _ & _ & _ & _ & _ & _ & P8 & P9 & P10 & _) & _).
  assert (k + n <= INT_MAX) as Hkn by nia. unfold INT_MAX in *.
  rewrite (proj2 (Z.ltb_ge f 0)) by lia. rewrite !u32_id by (change (2 ^ 32) with 4294967296; lia).
  eapply wp_mono; [apply (IH (k + f) (n - f) (c + f) t); rewrite ?Et; try done; try lia|].
  - rewrite Et in Hr. lia.
  - intros r u (-> & Iu & Eu & Eeu & Eau & Hru & Hqu). split; [f_equal; lia|].
    split; [done|]. split; [congruence|]. split; [congruence|]. split; [lia|]. split; [lia|].
    rewrite Et in Hqu. replace (frames_of (this s) buf k n) with (frames_of (this s) buf k f ++ frames_of (this s) buf (k + f) (n - f)).
    + by eapply enqueues_trans.
    + rewrite frames_of_app by lia. f_equal. lia.
Qed.

(** ** Waiting for room *)

Lemma moves_refl s : inv s -> moves s s.
Proof. intros (_ & _ & (R1 & _) & _). split; [done|]. split; [|done]. apply plays_refl. lia. Qed.

Lemma wp_any_status s (Q : shared -> sys K -> Prop) :
  mmap_status (this s) = true -> (forall pg t, this t = this s -> Q pg t) -> wp read_status Q s.
Proof.
  intros Hm HQ. unfold wpu, read_status. rewrite Hm. cbn [negb].
  destruct (sync_ptr (this s)); [by apply HQ|]. destruct (device _ _) as [pg k]. by apply HQ.
Qed.

(** The poll ends with an error, or with room for avail_min frames. *)
Definition waited s (r : Z) t : Prop :=
  this t = this s /\ (r < 0 \/ 0 < r /\ inv t /\ moves s t /\ avail_min (config (this s)) <= room (this t) (pages t)).

Lemma wp_wait fuel timeout s :
  inv s -> timeout < 0 -> wp (pcm_wait (S fuel) timeout) (waited s) s.
Proof.
  intros Hs Ht. cbn [pcm_wait]. apply wp_bind. unfold wait_pass.
  apply wp_bind. unfold wpu at 1, do_poll. destruct (poll _ _ _) as [[[[ret rev] e] pg] k] eqn:Ep.
  pose proof Hs as (Hp & Hsz & HR & He). pose proof HR as (R1 & _ & _ & _ & R5).
  destruct (poll_plays _ _ _ _ _ _ _ _ Ep ltac:(lia)) as (Hplays & Herr & Hto & Hroom).
  destruct (Z.ltb_spec ret 0) as [Hneg|Hpos].
  { apply wp_bind, wp_get_errno, wp_ret, wp_ret. cbn. split; [done|]. left. specialize (Herr Hneg). lia. }
  rewrite (proj2 (Z.eqb_neq ret 0)) by (by apply Hto). specialize (Hto Ht).
  set (t := Sys _ pg _ _ _ _ _). assert (moves s t) as Hmv by (split; [done|]; by split).
  destruct (moves_inv s t Hmv Hs) as [It _]. apply wp_bind, wp_get_errno.
  rewrite (proj2 (Z.eqb_neq (errno t) _)) by (destruct It as (_ & _ & _ & It); unfold EINTR; lia).
  destruct (has rev (POLLERR .| POLLNVAL)) eqn:Erev.
  - apply wp_bind. unfold pcm_state. apply wp_bind, wp_no_sync; [done|]. cbn [Z.ltb Z.compare].
    apply wp_bind, wp_any_status; [apply It|]. intros pg' u Eu. apply wp_ret, wp_ret, wp_ret. split; [exact Eu|]. left.
    unfold EPIPE, ESTRPIPE, ENODEV, EIO. by repeat case_match.
  - destruct (Hroom ltac:(lia) eq_refl) as [-> Hr]; [destruct Hp as (_ & _ & _ & _ & _ & _ & _ & _ & _ & _ & _ & Hp); lia|].
    apply wp_ret, wp_ret. split; [done|]. right. split; [done|]. split; [done|]. split; [done|].
    unfold room. cbn. destruct Hmv as (_ & (_ & E2 & _) & _). cbn in E2. lia.
Qed.

Definition but_wait s t : Prop := exists b, this t = set_wait b (this s).

Lemma inv_set_wait s b : inv s ->
  inv (Sys (set_wait b (this s)) (pages s) (kern s) (errno s) (fds s) (maps s) (blocks s)).
Proof. exact id. Qed.

(** Either there is nothing to wait for, and something can be written, or the wait gives
    room, or the stream is stopped. *)
Definition room_result s (avail : Z) (o : option Z) t : Prop :=
  match o with
  | None => but_wait s t /\ pages t = pages s /\ errno t = errno s /\ inv t /\ 1 <= avail
  | Some r => r < 0 /\ running (this t) = false \/
      0 <= r /\ but_wait s t /\ inv t /\ appl_ptr (pages t) = appl_ptr (pages s) /\ enqueues s [] t /\
      avail < avail_min (config (this s)) <= room (this t) (pages t)
  end.

Lemma wp_wait_for_room fuel count avail s :
  inv s -> 1 <= count < 2 ^ 32 -> 0 <= avail <= INT_MAX ->
  wp (wait_for_room (S fuel) count avail) (room_result s avail) s.
Proof.
  intros Hs Hc Ha. pose proof Hs as ((P1 & _ & _ & P4 & _ & P6 & _ & _ & _ & _ & _ & P12) & _). unfold INT_MAX in *.
  unfold wait_for_room. apply wp_bind, wp_get. rewrite P4. cbn [negb]. rewrite u32_id by (change (2 ^ 32) with 4294967296; lia).
  apply wp_bind, (wp_mono _ (fun _ t => t = Sys (set_wait (wait_for_avail_min (this s) || (avail <? count)) (this s))
    (pages s) (kern s) (errno s) (fds s) (maps s) (blocks s))).
  { destruct (wait_for_avail_min (this s)) eqn:Ew; cbn [negb andb orb].
    - apply wp_ret. destruct s as [[] ? ? ? ? ? ?]. cbn in *. by subst.
    - destruct (avail <? count); [by apply wp_put|]. apply wp_ret. destruct s as [[] ? ? ? ? ? ?]. cbn in *. by subst. }
  intros _ t ->. apply wp_bind, wp_get. cbn [this wait_for_avail_min set_wait config flags].
  set (w := _ || _). destruct (w && (avail <? avail_min (config (this s)))) eqn:Ewait.
  - apply andb_prop in Ewait as [_ Hlt%Z.ltb_lt]. apply wp_bind, wp_put. cbn [this]. rewrite P6.
    apply wp_bind, wp_ret, wp_bind.
    set (u := Sys _ _ _ _ _ _ _). assert (inv u) as Iu by exact Hs.
    eapply wp_mono; [apply wp_wait; [done|lia]|]. intros r v (Ev & Hv). destruct (Z.ltb_spec r 0) as [Hr|Hr].
    + apply wp_bind, wp_put, wp_bind, wp_any_status; [cbn; by rewrite Ev|]. intros pg x Ex. cbn in Ex.
      assert (mmap_status (this x) = true /\ running (this x) = false) as [Hm Hrun] by by rewrite Ex; cbn; rewrite Ev.
      apply wp_bind. unfold read_control, write_control. apply wp_bind, wp_get. rewrite Hm. unfold wpu at 1. cbn [page].
      apply wp_bind. unfold wpu at 1, oops. apply wp_bind, wp_bind, wp_get. cbn [this mmap_status set_error]. rewrite Hm.
      unfold wpu at 1. cbn [put_page]. apply wp_ret. left. split; [lia|exact Hrun].
    + apply wp_ret. right. split; [done|]. destruct Hv as [?|(_ & Iv & Hmv & Hroom)]; [lia|].
      split; [by exists false|]. split; [done|]. destruct (moves_queued u v Iu Hmv) as [gone Hg].
      destruct Hmv as (_ & (_ & E2 & _) & _). split; [done|]. split; [exists gone; rewrite app_nil_r; exact Hg|]. exact (conj Hlt Hroom).
  - apply wp_ret. split; [by exists w|]. split; [done|]. split; [done|]. split; [exact Hs|].
    destruct (Z.ltb_spec avail (avail_min (config (this s)))); [|lia]. rewrite andb_true_r in Ewait.
    apply orb_false_elim in Ewait as [_ Hge%Z.ltb_ge]. lia.
Qed.

(** ** The transfer *)

Lemma wp_avail_update s (Q : Z -> sys K -> Prop) :
  inv s -> (forall t, moves s t -> inv t -> Q (room (this t) (pages t)) t) -> wp pcm_avail_update Q s.
Proof. intros Hs HQ. unfold pcm_avail_update. apply wp_bind, wp_no_sync; [done|]. by apply wp_avail. Qed.

Lemma wp_started a s : inv s -> wp (start_at_threshold a) (fun o t => o = None /\ t = s) s.
Proof. intros ((_ & _ & _ & P4 & _) & _). unfold start_at_threshold. apply wp_bind, wp_get. by rewrite P4. Qed.

Lemma room_range s : inv s -> 0 <= room (this s) (pages s) <= INT_MAX.
Proof. intros ((_ & _ & _ & _ & _ & _ & _ & P8 & P9 & _) & _ & (R1 & R2 & _) & _). unfold room. lia. Qed.

(** How a pass leaves the transfer of [n] frames from frame [k] on. *)
Definition pass_result buf k n s (r : flow * list Z) t : Prop :=
  r.2 = buf /\
  match r.1 with
  | Breaks => False
  | Returns z => z < 0 /\ running (this t) = false
  | Continues k' n' _ => exists f, 0 <= f <= n /\ k' = k + f /\ n' = n - f /\ but_wait s t /\ inv t /\
      appl_ptr (pages t) = appl_ptr (pages s) + f /\ enqueues s (frames_of (this s) buf k f) t /\
      (1 <= f \/ room (this s) (pages s) < avail_min (config (this s)) <= room (this t) (pages t))
  end.

Lemma but_wait_facts s t : but_wait s t ->
  frame_bytes (this t) = frame_bytes (this s) /\ boundary (this t) = boundary (this s) /\ config (this t) = config (this s) /\
  (forall buf k n, frames_of (this t) buf k n = frames_of (this s) buf k n) /\
  (forall pg, queued (this t) pg = queued (this s) pg) /\ (forall pg, room (this t) pg = room (this s) pg).
Proof. intros [b E]. rewrite E. by repeat split. Qed.

Lemma wp_transfer_pass fuel buf k n err s :
  inv s -> 1 <= n -> appl_ptr (pages s) + n <= boundary (this s) -> 0 <= k ->
  (k + n) * frame_bytes (this s) <= zlen buf -> zlen buf <= INT_MAX -> n <= Z.of_nat (S fuel) ->
  wp (transfer_pass (S fuel) buf k n err) (pass_result buf k n s) s.
Proof.
  intros Hs Hn Hap Hk Hb Hb' Hfuel. unfold transfer_pass.
  apply wp_bind, wp_avail_update; [done|]. intros t Ht It. pose proof (room_range t It) as Hrt.
  set (avail := room (this t) (pages t)) in *. rewrite (proj2 (Z.ltb_ge avail 0)) by lia.
  destruct (moves_inv s t Ht Hs) as [_ Hge]. fold avail in Hge. pose proof (moves_queued s t Hs Ht) as [gone Hg].
  destruct Ht as (Et & (_ & E2 & _) & _).
  pose proof Hs as ((_ & _ & _ & _ & _ & _ & _ & P8 & P9 & P10 & _) & _ & (R1 & _) & _).
  assert (k + n <= INT_MAX) as Hkn by nia. unfold INT_MAX in *.
  apply wp_bind. eapply wp_mono; [by apply wp_started|]. intros ? ? [-> ->].
  apply wp_bind. eapply wp_mono; [apply (wp_wait_for_room fuel n avail t It); unfold INT_MAX; change (2 ^ 32) with 4294967296; lia|].
  intros [r|] u Hu; cbn [room_result] in Hu.
  - apply wp_ret. split; [done|]. cbn. destruct Hu as [[Hr Hrun]|(Hr & [b Eu] & Iu & Eau & [g2 Hq] & Hav)].
    + by rewrite (proj2 (Z.ltb_lt _ _)) by lia.
    + rewrite (proj2 (Z.ltb_ge _ _)) by lia. exists 0. rewrite Et in *.
      split; [lia|]. split; [lia|]. split; [lia|]. split; [by exists b|]. split; [done|]. split; [lia|].
      split; [|right; lia]. exists (gone ++ g2). rewrite frames_of_0, Hg, <- !app_assoc. f_equal. unfold enqueues in Hq.
      rewrite app_nil_r in *; exact Hq.
  - destruct Hu as (Hbw & Epg & Eerr & Iu & Hav).
    destruct (but_wait_facts _ _ Hbw) as (F1 & F2 & F3 & F4 & F5 & F6).
    rewrite (s32_id n) by (change (2 ^ 31) with 2147483648; lia).
    set (f := if avail <? n then avail else n). assert (1 <= f <= n /\ f <= avail) as [Hf Hfa] by (unfold f; destruct (Z.ltb_spec avail n); lia).
    rewrite (proj2 (Z.eqb_neq f 0)) by lia. rewrite (u32_id f) by (change (2 ^ 32) with 4294967296; lia).
    apply wp_bind. eapply wp_mono; [apply (wp_transfer_areas (S fuel) buf k f 0 u Iu)|].
    + rewrite F6, Epg. fold avail. lia.
    + rewrite F2, Epg, Et, E2. lia.
    + lia.
    + rewrite F1, Et. transitivity ((k + n) * frame_bytes (this s)); [apply Z.mul_le_mono_nonneg_r; lia|done].
    + done.
    + lia.
    + lia.
    + unfold INT_MAX. lia.
    + intros ? v (-> & Iv & Ev & _ & Eav & _ & [g2 Hq]). cbn [fst snd]. rewrite Z.add_0_l.
      rewrite (proj2 (Z.ltb_ge f 0)) by lia. rewrite !u32_id by (change (2 ^ 32) with 4294967296; lia).
      apply wp_ret. split; [done|]. exists f. rewrite Epg, E2 in Eav.
      split; [lia|]. split; [done|]. split; [done|]. split; [destruct Hbw as [b Hbw]; exists b; congruence|]. split; [done|].
      split; [done|]. split; [|by left; lia]. exists (gone ++ g2). rewrite Hg, <- !app_assoc. f_equal.
      rewrite F5, F4, Epg, Et in *. exact Hq.
Qed.

(** ** The whole transfer: passes that write alternate at most with waits. *)
Lemma wp_transfer_loop fuel buf k n err s :
  inv s -> 0 <= n -> appl_ptr (pages s) + n <= boundary (this s) -> 0 <= k ->
  (k + n) * frame_bytes (this s) <= zlen buf -> zlen buf <= INT_MAX ->
  2 * n + (if avail_min (config (this s)) <=? room (this s) (pages s) then 0 else 1) <= Z.of_nat fuel ->
  wp (transfer_loop fuel buf k n err) (fun r t => r.2 = buf /\
    (r.1 < 0 /\ running (this t) = false \/
     r.1 = 0 /\ but_wait s t /\ inv t /\ appl_ptr (pages t) = appl_ptr (pages s) + n /\ enqueues s (frames_of (this s) buf k n) t)) s.
Proof.
  revert k n err s. induction fuel as [|fuel IH]; intros k n err s Hs Hn Hap Hk Hb Hb' Hfuel.
  all: cbn [transfer_loop]; destruct (Z.eqb_spec n 0) as [->|]; [|try (destruct (_ <=? _) in Hfuel; lia)].
  1,2: apply wp_ret; split; [done|]; right; split; [done|]; split; [exists (wait_for_avail_min (this s)); by destruct (this s)|].
  1,2: split; [done|]; split; [lia|]; exists []; by rewrite frames_of_0, app_nil_r.
  apply wp_bind. eapply wp_mono; [apply wp_transfer_pass; try done; [lia|]|].
  { destruct (_ <=? _) in Hfuel; lia. }
  intros [[z|k' n' err'|] buf'] t [Ebuf Hres]; cbn in Ebuf, Hres; subst buf'; [| |done].
  - apply wp_ret. split; [done|]. by left.
  - destruct Hres as (f & Hf & -> & -> & Hbw & It & Ea & Hq & Hor).
    destruct (but_wait_facts _ _ Hbw) as (F1 & F2 & F3 & F4 & F5 & F6).
    pose proof Hs as ((_ & _ & _ & _ & _ & _ & _ & _ & _ & P10 & _) & _).
    eapply wp_mono; [apply IH; try done; rewrite ?F1, ?F2; try lia|].
    + rewrite F3. destruct (Z.leb_spec (avail_min (config (this s))) (room (this s) (pages s))),
        (Z.leb_spec (avail_min (config (this s))) (room (this t) (pages t))); lia.
    + intros r u [Er Hu]. split; [done|]. destruct Hu as [?|(E0 & [b Eu] & Iu & Eau & Hqu)]; [by left|].
      right. split; [done|]. split; [destruct Hbw as [b' Hbw]; exists b; by rewrite Eu, Hbw|]. split; [done|]. split; [lia|].
      rewrite F4 in Hqu. replace (frames_of (this s) buf k n) with (frames_of (this s) buf k f ++ frames_of (this s) buf (k + f) (n - f)).
      * by eapply enqueues_trans.
      * rewrite frames_of_app by lia. f_equal. lia.
Qed.

(** C3. pcm_mmap_write refines a queue, within these limits: the stream plays, with its ring and the two
    pages mapped (the copy that SYNC_PTR keeps is not covered) and without PCM_NOIRQ; the ring
    and its pointers satisfy [inv]; and the frames of this call do not take appl_ptr past the boundary
    (pcm_full_ring_wrap shows the fault that the wrap has).  The device may move hw_ptr on up to appl_ptr
    at every access, and poll may fail, but does not time out without a timeout ([Player]).  Then the call
    returns; the result is 0 with every whole frame of the buffer added, in order,
    at the back of the queue that the ring holds, whose front the device
    takes, no frame being overwritten before it is played; or negative, after an
    error of poll, and then the stream is stopped.  Twice the number of frames and one is fuel enough. *)
Theorem pcm_ring_is_queue data count fuel s :
  let n := count / frame_bytes (this s) in
  inv s -> 0 <= count <= zlen data -> zlen data <= INT_MAX ->
  appl_ptr (pages s) + n <= boundary (this s) -> 2 * n + 1 <= Z.of_nat fuel ->
  exists r t, pcm_mmap_write fuel data count s = Ok ((r, data), t) /\
    (r < 0 /\ running (this t) = false \/
     r = 0 /\ inv t /\ appl_ptr (pages t) = appl_ptr (pages s) + n /\
     exists gone, queued (this s) (pages s) ++ take (Z.to_nat (n * frame_bytes (this s))) data
                  = gone ++ queued (this t) (pages t)).
Proof.
  intros n Hs Hcount Hdata Hap Hfuel.
  enough (wp (pcm_mmap_write fuel data count) (fun r t => r.2 = data /\
    (r.1 < 0 /\ running (this t) = false \/
     r.1 = 0 /\ but_wait s t /\ inv t /\ appl_ptr (pages t) = appl_ptr (pages s) + n /\ enqueues s (frames_of (this s) data 0 n) t)) s) as Hw.
  { unfold wpu in Hw. destruct (pcm_mmap_write _ _ _ _) as [[[r d] t]|]; [|done]. destruct Hw as [Ed Hw]. cbn in Ed, Hw. subst d. exists r, t.
    split; [done|]. destruct Hw as [?|(? & _ & ? & ? & ?)]; [by left|right]. done. }
  pose proof Hs as ((_ & _ & _ & _ & _ & _ & P7 & P8 & P9 & P10 & P11 & _) & _).
  unfold pcm_mmap_write. apply wp_bind, wp_get. rewrite P7. unfold pcm_mmap_transfer.
  assert (0 <= n) as Hn by (unfold n; apply Z.div_pos; lia).
  assert (n * frame_bytes (this s) <= count) as Hnc by (unfold n; pose proof (Z.mul_div_le count (frame_bytes (this s)) P10); lia).
  destruct (Z.eqb_spec count 0) as [->|Hc].
  - assert (n = 0) as -> by done. apply wp_ret. split; [done|]. right. split; [done|].
    split; [exists (wait_for_avail_min (this s)); by destruct (this s)|]. split; [done|]. split; [lia|].
    exists []. by rewrite frames_of_0, app_nil_r.
  - apply wp_bind, wp_get. eapply wp_bind, wp_lift_Ok.
    + unfold pcm_bytes_to_frames, udiv. fold (frame_bytes (this s)).
      rewrite u32_id by (change (2 ^ 32) with 4294967296; unfold INT_MAX in *; nia).
      rewrite (proj2 (Z.eqb_neq _ _)) by lia. reflexivity.
    + fold n. apply wp_transfer_loop; try done; try lia. destruct (_ <=? _); lia.
Qed.
End Ring.

(** ** At the boundary *)

(** C40. The test avail > boundary should be >=: when the ring is full and appl_ptr has
    wrapped but hw_ptr has not, the whole boundary counts as free, and pcm_mmap_begin
    gives out frames, up to the end of the ring, that are still to be played. *)
Theorem pcm_full_ring_wrap {K} `{Kernel K} n k (s : sys K) :
  let p := this s in
  playing p -> 2 * buffer_size p <= boundary p ->
  hw_ptr (pages s) - appl_ptr (pages s) = boundary p - buffer_size p -> 0 <= appl_ptr (pages s) -> hw_ptr (pages s) <= boundary p ->
  device (pages s) (kern s) = (pages s, k) -> 1 <= n <= buffer_size p - appl_ptr (pages s) mod buffer_size p ->
  exists t, pcm_mmap_begin n s = Ok ((appl_ptr (pages s) mod buffer_size p, n), t) /\ pages t = pages s.
Proof.
  intros p (P1 & P2 & P3 & P4 & P5 & P6 & P7 & P8 & P9 & _) Hbb Hfull Ha Hh Hdev Hn.
  pose proof (Z.mod_pos_bound (appl_ptr (pages s)) (buffer_size p)) as Hmod. unfold INT_MAX in *.
  enough (wp (pcm_mmap_begin n) (fun r t => r = (appl_ptr (pages s) mod buffer_size p, n) /\ pages t = pages s) s) as Hw.
  { unfold wpu in Hw. destruct (pcm_mmap_begin n s) as [[r t]|]; [|done]. destruct Hw as [-> Hw]. by exists t. }
  assert (Hs32 : forall x, - 2147483648 <= x < 2147483648 -> s32 x = x) by (intros; by apply s32_id).
  assert (Hu32 : forall x, 0 <= x < 4294967296 -> u32 x = x) by (intros; by apply u32_id).
  unfold pcm_mmap_begin, read_control. apply wp_bind, wp_bind, wp_get. fold p. rewrite P1. unfold wpu at 1. cbn [page].
  apply wp_bind, wp_get. fold p. eapply wp_bind, wp_lift_Ok; [rewrite (proj2 (Z.eqb_neq _ _)) by lia; reflexivity|].
  apply wp_bind. unfold pcm_mmap_avail, pcm_sync_ptr. apply wp_bind, wp_bind, wp_get. fold p. rewrite P2.
  apply wp_ret, wp_bind, wp_get. fold p. rewrite P5. unfold pcm_mmap_playback_avail, read_control. apply wp_bind.
  unfold wpu at 1, read_status. fold p. rewrite P1, P2, Hdev. cbn [negb].
  apply wp_bind, wp_bind, wp_get. cbn [this]. fold p. rewrite P1. unfold wpu at 1. cbn [page].
  apply wp_bind, wp_get. cbn [this pages]. fold p.
  replace (hw_ptr (pages s) + buffer_size p - appl_ptr (pages s)) with (boundary p) by lia.
  rewrite !Hs32 by lia. rewrite (proj2 (Z.ltb_ge (boundary p) 0)), (proj2 (Z.ltb_ge (boundary p) (boundary p))) by lia.
  apply wp_ret, wp_ret. rewrite !Hu32 by lia.
  rewrite (proj2 (Z.ltb_lt (buffer_size p) (boundary p))) by lia. rewrite (proj2 (Z.ltb_ge (buffer_size p) n)) by lia.
  by rewrite (proj2 (Z.ltb_ge _ n)) by lia.
Qed.

Definition wrapped_sys : sys bool :=
  Sys (Pcm 3 PCM_MMAP true 0 4 64 [] (Config 1 8000 2 2 PCM_FORMAT_S16_LE 1 4 0 2) true false true 0 false)
      (Shared 62 PCM_STATE_RUNNING (0, 0) 2 2 (replicate 8 9)) true 0 1 3 1.

Lemma pcm_full_ring_wrap_witness : exists t,
  @pcm_mmap_begin bool dry_device 2 wrapped_sys = Ok ((2, 2), t) /\ pages t = pages wrapped_sys.
Proof.
  apply (@pcm_full_ring_wrap bool dry_device 2 true wrapped_sys).
  - repeat split; vm_compute; congruence.
  - vm_compute. congruence.
  - reflexivity.
  - vm_compute. congruence.
  - vm_compute. congruence.
  - reflexivity.
  - vm_compute. split; congruence.
Defined.

(** ** The ideal device plays *)

#[export] Instance ideal_player size : Player (list Z) size.
Proof.
  split.
  - intros pg k Hle. unfold plays. cbn. repeat split; lia.
  - intros t pg k ret rev e pg' k' [= <- <- <- <- <-] Hle. unfold plays. cbn.
    repeat split; try lia; done.
Qed.

Definition mono : pcm_config := Config 1 8000 2 2 PCM_FORMAT_S16_LE 1 4 0 2.

Definition mono_sys : sys (list Z) :=
  Sys (Pcm 3 PCM_MMAP true 0 4 64 [] mono true false true 0 false)
      (Shared 0 PCM_STATE_RUNNING (0, 0) 3 2 (replicate 8 9)) [] 0 1 3 1.

Lemma pcm_ring_is_queue_witness : exists t,
  pcm_mmap_write 13 [1; 2; 3; 4; 5; 6; 7; 8; 9; 10; 11; 12; 13] 13 mono_sys = Ok ((0, [1; 2; 3; 4; 5; 6; 7; 8; 9; 10; 11; 12; 13]), t) /\
  appl_ptr (pages t) = 9.
Proof.
  destruct (pcm_ring_is_queue (size := 4) [1; 2; 3; 4; 5; 6; 7; 8; 9; 10; 11; 12; 13] 13 13 mono_sys) as (r & t & E & Hr).
  - repeat split; vm_compute; congruence.
  - vm_compute; split; congruence.
  - vm_compute. congruence.
  - vm_compute. congruence.
  - vm_compute. congruence.
  - assert (r = 0 /\ appl_ptr (pages t) = 9) as [-> Ha]; [|exists t; split; [exact E|exact Ha]].
    vm_compute in E. injection E as <- <-. vm_compute. auto.
Defined.
