(* ===== verification/Decode.v ===== *)
(** The first half of the two players, sample/ffmpeg_alsa_back.c and sample/ffmpeg_alsa.c:
    opening an audio file and decoding it.  FFmpeg is not in the tree: a [media] is what its
    calls answer for the file that is played. *)

From S2P Require Import Prelude.

Open Scope c_scope.
Open Scope Z_scope.

(** A frame of avcodec_receive_frame; [convert n] are the bytes that swr_convert writes when it is told
    that there is room for n samples of each channel, none when it returns 0 or an error. *)
Record frame : Type := Frame { nb_samples : Z; convert : Z -> list Z }.

Record packet : Type := Packet { stream_index : Z; send_packet : Z; frames : list frame }.

Record media : Type := Media {
  open_input : Z;               (* avformat_open_input *)
  stream_info : Z;              (* avformat_find_stream_info *)
  best_stream : Z;              (* av_find_best_stream *)
  nb_streams : Z;
  decoder : bool;               (* avcodec_find_decoder *)
  set_parameters : Z;           (* avcodec_parameters_to_context *)
  open_codec : Z;               (* avcodec_open2 *)
  default_channels : Z;         (* channels of the default layout for those of the codec *)
  sample_rate : Z;
  planar : bool;                (* av_sample_fmt_is_planar *)
  rescale : Z -> Z -> Z -> Z;   (* av_rescale_rnd (_, _, _, AV_ROUND_ZERO) *)
  packets : list packet         (* av_read_frame *)
}.

Definition out_sample_rate : Z := 48000.

(** main up to out_channels: the index of the stream, or [None] when it returns -1. *)
Definition open_media (m : media) : res (option Z) :=
  if open_input m <? 0 then Ok None
  else if stream_info m <? 0 then Ok None
  else
    let snd_index := best_stream m in
    if negb (snd_index =? -1) then
      if negb ((0 <=? snd_index) && (snd_index <? nb_streams m)) then Ub OobRead   (* streams[snd_index] *)
      else if negb (decoder m) then Ok None
      else if set_parameters m <? 0 then Ok None
      else if open_codec m <? 0 then Ok None
      else Ok (Some snd_index)
    else Ok None.

Section Decode.
Context (size : Z) (m : media).   (* the bytes of audio_buf *)

(** What a frame adds; formats that are not planar add nothing. *)
Definition decode_frame (f : frame) : res (list (list Z)) :=
  if planar m then
    let bytes := convert f (rescale m (nb_samples f) out_sample_rate (sample_rate m)) in
    if size <? zlen bytes then Ub OobWrite
    else if zlen bytes <=? 0 then Ok [] else Ok [bytes]
  else Ok [].

Fixpoint decode_frames (l : list frame) : res (list (list Z)) :=
  match l with
  | [] => Ok []
  | f :: l => let! a := decode_frame f in let! b := decode_frames l in Ok (a ++ b)
  end.

(** while (av_read_frame (fmt_ctx, pkt) >= 0) *)
Fixpoint decode_packets (snd_index : Z) (l : list packet) : res (list (list Z)) :=
  match l with
  | [] => Ok []
  | p :: l =>
      let! a := if (stream_index p =? snd_index) && (0 <=? send_packet p) then decode_frames (frames p) else Ok [] in
      let! b := decode_packets snd_index l in Ok (a ++ b)
  end.
End Decode.

(** * Lemmas *)

(** av_find_best_stream: the index of a stream, or an error. *)
Definition stream_exists (m : media) : Prop := 0 <= best_stream m -> best_stream m < nb_streams m.

(** The error is not -1, which is all that main tests for. *)
Definition missing (m : media) : Prop := 0 <= open_input m /\ 0 <= stream_info m /\ best_stream m < -1.

(** The stream is there and its decoder starts. *)
Definition decodes (m : media) : Prop := open_media m = Ok (Some (best_stream m)).

(** What swr_convert makes of a frame. *)
Definition sound_of (m : media) (f : frame) : list Z :=
  if planar m then convert f (rescale m (nb_samples f) out_sample_rate (sample_rate m)) else [].

(** The frames of the stream that is played. *)
Definition played_frames (m : media) : list frame :=
  mjoin (frames <$> filter (fun p => stream_index p = best_stream m /\ 0 <= send_packet p) (packets m)).

(** The sound of the frame does not fit into audio_buf. *)
Definition overruns (size : Z) (m : media) (f : frame) : Prop := size < zlen (sound_of m f).

Section Lemmas.
Context (size : Z) (m : media).

(** Decoding either stays inside the buffer, and then gives the sound of the frames in pieces that are not
    empty, or one of the frames does not fit. *)
Definition decoded (l : list frame) (r : res (list (list Z))) : Prop :=
  match r with
  | Ok c => mjoin c = mjoin (sound_of m <$> l) /\ Forall (fun f => ~ overruns size m f) l /\
            Forall (fun b => 0 < zlen b <= size) c
  | Ub e => e = OobWrite /\ Exists (overruns size m) l
  end.

Lemma decode_frame_cases f : 0 <= size -> decoded [f] (decode_frame size m f).
Proof.
  intros H0. unfold decoded, decode_frame, overruns, sound_of. cbn [fmap list_fmap mjoin list_join]. rewrite app_nil_r.
  destruct (planar m); [|rewrite Forall_singleton, zlen_nil; split; [done|split; [lia|done]]].
  set (b := convert f _). destruct (Z.ltb_spec size (zlen b)) as [Hs|Hs]; [by split; [|constructor]|].
  destruct (Z.leb_spec (zlen b) 0) as [Hz|Hz].
  - rewrite Forall_singleton. fold b. split; [|split; [lia|done]]. destruct b; [done|]. rewrite zlen_cons in Hz. pose proof (zlen_nonneg b). lia.
  - rewrite !Forall_singleton. fold b. split; [apply app_nil_r|lia].
Qed.

Lemma decoded_app l l' r r' :
  decoded l r -> decoded l' r' -> decoded (l ++ l') (let! a := r in let! b := r' in Ok (a ++ b)).
Proof.
  unfold decoded. destruct r as [a|e]; cbn [res_bind].
  2: { intros [-> He] _. split; [done|]. apply Exists_app. by left. }
  intros (Ja & Ha & Fa). destruct r' as [b|e]; cbn [res_bind].
  - intros (Jb & Hb & Fb). rewrite fmap_app, !join_app, Ja, Jb. split; [done|]. by rewrite !Forall_app.
  - intros [-> He]. split; [done|]. apply Exists_app. by right.
Qed.

Lemma decode_frames_cases l : 0 <= size -> decoded l (decode_frames size m l).
Proof.
  intros H0. induction l as [|f l IH]; [by cbn|]. cbn [decode_frames]. change (f :: l) with ([f] ++ l).
  apply decoded_app; [by apply decode_frame_cases|done].
Qed.

Lemma decode_packets_cases snd l : 0 <= size ->
  decoded (mjoin (frames <$> filter (fun p => stream_index p = snd /\ 0 <= send_packet p) l)) (decode_packets size m snd l).
Proof.
  intros H0. induction l as [|p l IH]; [by cbn|]. cbn [decode_packets].
  destruct (decide (stream_index p = snd /\ 0 <= send_packet p)) as [Hp|Hp].
  - rewrite filter_cons_True by done. destruct Hp as [-> Hp]. rewrite Z.eqb_refl, (proj2 (Z.leb_le _ _) Hp). cbn [andb].
    by apply decoded_app; [apply decode_frames_cases|].
  - rewrite filter_cons_False by done.
    assert ((stream_index p =? snd) && (0 <=? send_packet p) = false) as ->.
    { destruct (Z.eqb_spec (stream_index p) snd); [|done]. cbn [andb]. apply Z.leb_gt. destruct (Z.le_gt_cases 0 (send_packet p)); [|lia]. tauto. }
    by apply (decoded_app []).
Qed.

(** Main decodes all frames of the stream. *)
Lemma decode_cases : 0 <= size -> decoded (played_frames m) (decode_packets size m (best_stream m) (packets m)).
Proof. apply decode_packets_cases. Qed.

(** Opening a file: its stream, or -1, or the error of av_find_best_stream as an index. *)
Lemma open_cases :
  stream_exists m ->
  match open_media m with
  | Ok r => ~ missing m /\ forall i, r = Some i -> i = best_stream m
  | Ub e => e = OobRead /\ missing m
  end.
Proof.
  intros Hs. unfold open_media, missing. destruct (Z.ltb_spec (open_input m) 0); [split; [lia|done]|].
  destruct (Z.ltb_spec (stream_info m) 0); [split; [lia|done]|].
  destruct (Z.eqb_spec (best_stream m) (-1)) as [E|E]; cbn [negb]; [split; [lia|done]|].
  destruct (Z.leb_spec 0 (best_stream m)) as [Hb|Hb]; cbn [andb negb]; [|split; [done|lia]].
  rewrite (proj2 (Z.ltb_lt _ (nb_streams m))) by auto. cbn [negb].
  destruct (decoder m); [|split; [lia|done]]. destruct (set_parameters m <? 0); [split; [lia|done]|].
  destruct (open_codec m <? 0); split; [lia|done|lia|]. by intros i [= <-].
Qed.
End Lemmas.

(** av_find_best_stream reports a missing stream by AVERROR_STREAM_NOT_FOUND, which is not the -1 the
    players test for: the error is used as an index. *)
Lemma stream_not_found m : missing m -> open_media m = Ub OobRead.
Proof.
  intros (H1 & H2 & H3). unfold open_media. rewrite !(proj2 (Z.ltb_ge _ 0)) by done.
  rewrite (proj2 (Z.eqb_neq _ _)) by lia. cbn [negb]. by rewrite (proj2 (Z.leb_gt 0 _)) by lia.
Qed.

(** A frame whose samples do not fit is converted past the end of audio_buf. *)
Lemma frame_overrun size m f :
  planar m = true -> size < zlen (convert f (rescale m (nb_samples f) out_sample_rate (sample_rate m))) ->
  decode_frame size m f = Ub OobWrite.
Proof. intros Hp Hs. unfold decode_frame. by rewrite Hp, (proj2 (Z.ltb_lt _ _) Hs). Qed.
