(* ===== verification/PlayFile.v ===== *)
(** sample/ffmpeg_alsa_back.c (the same file in ffmpeg_sample/): an audio file is decoded
    (Decode.v) into a second file, which is read back and played through the PCM library (Pcm.v).
    Writing the second file is taken to succeed.  What reaches the device is stated for every
    device that meets the interface [Recorder]. *)

From S2P Require Import Prelude CLib Pcm PcmWrite Decode.

Open Scope c_scope.
Open Scope Z_scope.

Section Play.
Context {K : Type} `{Kernel K}.
Local Abbreviation M := (ST (sys K)).

(** config, of which avail_min is never written: [junk] is what is on the stack. *)
Definition play_config (out_channels out_sample_rate junk : Z) : pcm_config :=
  Config out_channels out_sample_rate 1024 4 PCM_FORMAT_S16_LE 0 0 0 junk.

(** do ... while (num_read > 0), with [file] the rest of the file; true: it ended at the end of
    the file, false: after an error of pcm_write.  The part of the buffer past num_read is
    never read. *)
Fixpoint play_loop (fuel : nat) (size : Z) (file : list Z) : M bool :=
  match fuel with
  | O => fault NoReturn
  | S fuel =>
      let buffer := take (Z.to_nat size) file in
      let num_read := zlen buffer in
      if 0 <? num_read then
        r ← pcm_write buffer num_read;
        if negb (r =? 0) then mret false else play_loop fuel size (drop (Z.to_nat size) file)
      else mret true
  end.

(** malloc (size): [mem] is its answer.  The result of main, and of the loop when it was reached. *)
Definition play_file (mem : bool) (out_channels out_sample_rate junk : Z) (file : list Z) : M (Z * option bool) :=
  '(h, _) ← pcm_open 0 1 PCM_OUT (Some (play_config out_channels out_sample_rate junk));
  match h with
  | BadPcm => mret (-1, None)
  | Opened =>
      p ← get;
      if negb (pcm_is_ready p) then mret (-1, None)
      else
        let size := s32 (pcm_frames_to_bytes p (pcm_get_buffer_size p)) in
        if negb mem then pcm_close h;; mret (-1, None)
        else
          played ← play_loop (S (length file)) size file;
          pcm_close h;;
          mret (0, Some played)
  end.

Definition MAX_AUDIO_FRAME_SIZE : Z := 192000.

(** main: [created] and [reopened] are the answers of the two fopen. *)
Definition main (argc : Z) (created reopened mem : bool) (junk : Z) (m : media) : M (Z * option bool) :=
  if negb (argc =? 3) then mret (-1, None)
  else if negb created then mret (-1, None)
  else
    r ← lift (open_media m);
    match r with
    | None => mret (-1, None)
    | Some snd_index =>
        chunks ← lift (decode_packets (MAX_AUDIO_FRAME_SIZE * 2) m snd_index (packets m));
        if negb reopened then mret (-1, None)
        else play_file mem (default_channels m) out_sample_rate junk (mjoin chunks)
    end.
End Play.

(** * What reaches the device *)

(** A device that records the frames it accepts, in order, and nothing else. *)
Class Recorder (K : Type) `{Kernel K} : Type := {
  sink : K -> list Z;
  sink_open name k : sink (open_device name k).2 = sink k;
  sink_ioctl r pg k : sink (ioctl r pg k).2 =
    sink k ++ match r with WRITEI_FRAMES bytes => if (ioctl r pg k).1.1.1 =? 0 then bytes else [] | _ => [] end;
  sink_hw b p k : sink (ioctl_hw b p k).2 = sink k;
  sink_mmap m k : sink (mmap m k).2 = sink k;
  sink_calloc k : sink (calloc k).2 = sink k;
  sink_device pg k : sink (device pg k).2 = sink k
}.

Section Delivery.
Context {K : Type} `{Recorder K}.
Implicit Types (s t : sys K).

(** The buffers of the sound cards are far below that, in frames. *)
Definition MAX_FRAMES : Z := 2 ^ 26.

Definition kept (p q : pcm) : Prop :=
  flags q = flags p /\ channels (config q) = channels (config p) /\ format (config q) = format (config p) /\
  (buffer_size p < MAX_FRAMES -> buffer_size q < MAX_FRAMES).

(** The device has got [bytes] more, and the stream is of the same kind. *)
Definition got (bytes : list Z) s t : Prop :=
  sink (kern t) = sink (kern s) ++ bytes /\ kept (this s) (this t).

Lemma kept_refl p : kept p p.
Proof. by repeat split. Qed.

Lemma got_minor s t : kern t = kern s -> kept (this s) (this t) -> got [] s t.
Proof. intros E Hk. unfold got. by rewrite E, app_nil_r. Qed.

Lemma got_refl s : got [] s s.
Proof. apply got_minor; [done|apply kept_refl]. Qed.

Lemma got_trans a b s t u : got a s t -> got b t u -> got (a ++ b) s u.
Proof.
  intros (A1 & A2 & A3 & A4 & A5) (B1 & B2 & B3 & B4 & B5). unfold got, kept. rewrite app_assoc.
  repeat split; [congruence..|auto].
Qed.

#[local] Instance got_preorder : PreOrder (got []).
Proof. split; [exact got_refl|]. intros s t u Ht Hu. exact (got_trans [] [] _ _ _ Ht Hu). Qed.

Local Abbreviation Quiet := (Preserves (got [])).

#[local] Instance quiet_get : Quiet get.
Proof. intros s. apply got_refl. Qed.
#[local] Instance quiet_get_errno : Quiet get_errno.
Proof. intros s. apply got_refl. Qed.
#[local] Instance quiet_count a b c : Quiet (count a b c).
Proof. intros s. by apply got_minor. Qed.
#[local] Instance quiet_oops e msg : Quiet (oops e msg).
Proof. intros s. unfold wpu, oops. by apply got_minor. Qed.
#[local] Instance quiet_put_page f : Quiet (put_page f).
Proof. intros s. by apply got_minor. Qed.

(** The stream stays of the same kind. *)
Class Minor (f : pcm -> pcm) : Prop := minor p : kept p (f p).

#[local] Instance quiet_put f : Minor f -> Quiet (put f).
Proof. intros Hf s. by apply got_minor. Qed.

#[local] Hint Extern 1 (Minor _) => intros ?; repeat split; first [reflexivity|intros; exact eq_refl|tauto] : typeclass_instances.

Class Silent (r : request) : Prop := silent : match r with WRITEI_FRAMES _ => False | _ => True end.

#[local] Instance quiet_ioctl r : Silent r -> Quiet (do_ioctl r).
Proof.
  unfold Silent. intros Hr s. unfold wpu, do_ioctl. pose proof (sink_ioctl r (pages s) (kern s)) as E.
  destruct (ioctl r _ _) as [[[ret e] pg] k]. unfold got. cbn [kern this fst snd] in *. rewrite E. by destruct r.
Qed.
#[local] Hint Extern 1 (Silent _) => exact I : typeclass_instances.
#[local] Instance quiet_hw b p : Quiet (do_ioctl_hw b p).
Proof.
  intros s. unfold wpu, do_ioctl_hw. pose proof (sink_hw b p (kern s)) as E.
  destruct (ioctl_hw _ _ _) as [[[ret e] q] k]. unfold got. cbn [kern this snd] in *. by rewrite E, app_nil_r.
Qed.
#[local] Instance quiet_open name : Quiet (do_open name).
Proof.
  intros s. unfold wpu, do_open. pose proof (sink_open name (kern s)) as E.
  destruct (open_device _ _) as [[ret e] k]. unfold got. cbn [kern this snd] in *. by rewrite E, app_nil_r.
Qed.
#[local] Instance quiet_mmap m : Quiet (do_mmap m).
Proof.
  intros s. unfold wpu, do_mmap. pose proof (sink_mmap m (kern s)) as E.
  destruct (mmap _ _) as [e k]. unfold got. cbn [kern this snd] in *. by rewrite E, app_nil_r.
Qed.
#[local] Instance quiet_calloc : Quiet do_calloc.
Proof.
  intros s. unfold wpu, do_calloc. pose proof (sink_calloc (kern s)) as E.
  destruct (calloc _) as [ok k]. unfold got. cbn [kern this snd] in *. by rewrite E, app_nil_r.
Qed.
#[local] Instance quiet_mmap_status : Quiet pcm_hw_mmap_status.
Proof. unfold pcm_hw_mmap_status, pcm_sync_ptr. apply _. Qed.
#[local] Instance quiet_fail flg : Quiet (fail flg).
Proof. unfold fail, munmap_buffer, fail_close, close_fd. apply _. Qed.
#[local] Instance quiet_close h : Quiet (pcm_close h).
Proof. unfold pcm_close, pcm_hw_munmap_status, pcm_stop, munmap_buffer, close_fd. destruct h; apply _. Qed.

#[local] Instance quiet_open_software flg c : Quiet (open_software flg c).
Proof.
  intros s. unfold open_software. apply wp_bind, wp_get, wp_bind, wp_lift.
  destruct (double_boundary _ _ _) as [bound|]; [|exact I]. destruct (thresholds flg c (config (this s)) _) as [own sw] eqn:E.
  unfold thresholds in E. injection E as <- _. apply wp_bind. set (m := put _ : ST (sys K) unit).
  assert (wlp m (fun _ t => got [] s t) s) as Hm by (apply got_minor; [done|by repeat split]).
  eapply wp_mono; [exact Hm|]. intros ? t Ht. apply (wp_preserves (got [])); [apply _|]. intros ? u Hu. exact (got_trans [] [] _ _ _ Ht Hu).
Qed.

(** No underrun is counted while a stream is opened. *)
Definition calm s t : Prop := underruns (this s) = 0 -> underruns (this t) = 0.

#[local] Instance calm_preorder : PreOrder calm.
Proof. split; [intros s E; exact E|intros s t u; unfold calm; auto]. Qed.

Local Abbreviation Calm := (Preserves calm).

Class Uncounted (f : pcm -> pcm) : Prop := uncounted p : underruns p = 0 -> underruns (f p) = 0.

#[local] Hint Extern 1 (Uncounted _) => intros ? E; first [exact E|exact eq_refl] : typeclass_instances.

#[local] Instance calm_put f : Uncounted f -> Calm (put f).
Proof. intros Hf s. exact (Hf _). Qed.
#[local] Instance calm_get : Calm get.
Proof. intros s E. exact E. Qed.
#[local] Instance calm_get_errno : Calm get_errno.
Proof. intros s E. exact E. Qed.
#[local] Instance calm_count a b c : Calm (count a b c).
Proof. intros s E. exact E. Qed.
#[local] Instance calm_oops e msg : Calm (oops e msg).
Proof. intros s E. exact E. Qed.
#[local] Instance calm_put_page f : Calm (put_page f).
Proof. intros s E. exact E. Qed.
#[local] Instance calm_ioctl r : Calm (do_ioctl r).
Proof. intros s. unfold wpu, do_ioctl. destruct (ioctl r _ _) as [[[? ?] ?] ?]. intros E. exact E. Qed.
#[local] Instance calm_hw b p : Calm (do_ioctl_hw b p).
Proof. intros s. unfold wpu, do_ioctl_hw. destruct (ioctl_hw _ _ _) as [[[? ?] ?] ?]. intros E. exact E. Qed.
#[local] Instance calm_open name : Calm (do_open name).
Proof. intros s. unfold wpu, do_open. destruct (open_device _ _) as [[? ?] ?]. intros E. exact E. Qed.
#[local] Instance calm_mmap m : Calm (do_mmap m).
Proof. intros s. unfold wpu, do_mmap. destruct (mmap _ _). intros E. exact E. Qed.
#[local] Instance calm_calloc : Calm do_calloc.
Proof. intros s. unfold wpu, do_calloc. destruct (calloc _). intros E. exact E.
Qed.
#[local] Instance calm_fail flg : Calm (fail flg).
Proof. unfold fail, munmap_buffer, fail_close, close_fd. apply _. Qed.
#[local] Instance calm_mmap_status : Calm pcm_hw_mmap_status.
Proof. unfold pcm_hw_mmap_status, pcm_sync_ptr. apply _. Qed.
#[local] Instance calm_open_hardware flg c hw : Calm (open_hardware flg c hw).
Proof. unfold open_hardware, open_software, thresholds, fail_close, close_fd. apply _. Qed.

(** The device settles on sizes below [MAX_FRAMES]. *)
Definition fixes_small : Prop := forall hw k ret e hw' k',
  ioctl_hw (K := K) false hw k = (ret, e, hw', k') -> ret = 0 ->
  0 < u32 (param_get_int hw' SNDRV_PCM_HW_PARAM_PERIODS * param_get_int hw' SNDRV_PCM_HW_PARAM_PERIOD_SIZE) < MAX_FRAMES.

Lemma fixes_small_sizes : fixes_small -> fixes_sizes (K := K).
Proof. intros Hf hw k ret e hw' k' E Hr. specialize (Hf _ _ _ _ _ _ E Hr). unfold MAX_FRAMES in Hf. split; [lia|]. eapply Z.lt_trans; [apply Hf|done]. Qed.

Lemma quiet_open_hardware flg c hw : fixes_small -> Quiet (open_hardware flg c hw).
Proof.
  intros Hf s. unfold open_hardware. apply wp_bind.
  assert (wlp (do_ioctl_hw false (set_access flg hw)) (fun r t => got [] s t /\ (r.1 = 0 ->
    u32 (param_get_int r.2 SNDRV_PCM_HW_PARAM_PERIODS * param_get_int r.2 SNDRV_PCM_HW_PARAM_PERIOD_SIZE) < MAX_FRAMES)) s) as Hhw.
  { unfold wpu. pose proof (quiet_hw false (set_access flg hw) s) as Hq. unfold wpu, do_ioctl_hw in *.
    destruct (ioctl_hw _ _ _) as [[[ret e] hw'] k] eqn:E. split; [done|]. cbn [fst snd]. intros Hr. by eapply Hf. }
  eapply wp_mono; [exact Hhw|]. intros [r hw'] t [Ht Hb]. cbn [fst snd] in Hb. destruct (Z.eqb_spec r 0) as [Hr|_]; cbn [negb].
  - apply wp_bind, (wp_mono _ (fun _ u => got [] s u)).
    { unfold wpu, put. destruct Ht as (A1 & A2 & A3 & A4 & A5). repeat split; [done..|]. intros _. by apply Hb. }
    intros ? u Hu. apply (wp_preserves (got [])); [apply _|]. intros ? v Hv. exact (got_trans [] [] _ _ _ Hu Hv).
  - apply (wp_preserves (got [])); [unfold fail_close, close_fd; apply _|]. intros ? v Hv. exact (got_trans [] [] _ _ _ Ht Hv).
Qed.

(** What pcm_open leaves: nothing played, and a stream of the kind asked for. *)
Lemma open_quiet card device flg c s :
  fixes_small -> wlp (pcm_open card device flg (Some c)) (fun r t => sink (kern t) = sink (kern s) /\
    (r.1 = Opened -> flags (this t) = flg /\ channels (config (this t)) = channels c /\
       format (config (this t)) = format c /\ buffer_size (this t) < MAX_FRAMES /\ underruns (this t) = 0)) s.
Proof.
  intros Hf. pose proof (fun c hw => quiet_open_hardware flg c hw Hf) as Hq. unfold pcm_open.
  apply wp_bind, (wp_preserves (got [])); [apply _|]. intros [] t [Et _]; cycle 1.
  { apply wp_ret. split; [by rewrite Et, app_nil_r|done]. }
  apply wp_bind. set (p0 := Pcm _ _ _ _ _ _ _ _ _ _ _ _ _). set (u := Sys p0 (pages t) (kern t) (errno t) (fds t) (maps t) (blocks t)).
  change (wlp (put (fun _ => p0)) ?Q t) with (Q tt u).
  apply (wp_preserves2 (got []) calm); [unfold fail_close, close_fd; apply _..|]. intros [h c'] v (Ev & A1 & A2 & A3 & A4) Hc. cbn [fst].
  split; [rewrite Ev, app_nil_r; cbn; by rewrite Et, app_nil_r|]. intros _. repeat split; [done..|by apply A4|by apply Hc].
Qed.
(** ** pcm_write *)

#[local] Instance books_preorder : PreOrder (@same_books K).
Proof. split; [exact same_books_refl|exact same_books_trans]. Qed.

Local Abbreviation Booked := (Preserves (same_books (K := K))).

#[local] Instance booked_get : Booked get.
Proof. intros s. apply same_books_refl. Qed.
#[local] Instance booked_get_errno : Booked get_errno.
Proof. intros s. apply same_books_refl. Qed.
#[local] Instance booked_ioctl r : Booked (do_ioctl r).
Proof. intros s. unfold wpu, do_ioctl. destruct (ioctl _ _ _) as [[[ret e] pg] k]. by repeat split. Qed.
#[local] Instance booked_oops e msg : Booked (oops e msg).
Proof. intros s. by repeat split. Qed.
#[local] Instance booked_running b : Booked (put (set_running b)).
Proof. intros s. by repeat split. Qed.
#[local] Instance booked_underruns n : Booked (put (set_underruns n)).
Proof. intros s. by repeat split. Qed.

Lemma booked_write data count : Booked (pcm_write data count).
Proof.
  assert (forall frames, Booked (write_pass data frames)) as Hp
    by (intros; unfold write_pass, writei; apply _).
  unfold pcm_write, write_loop. apply preserves_bind; [apply _..|]. intros p.
  apply preserves_if; [apply _|]. apply preserves_bind; [apply _..|]. intros frames.
  repeat (apply preserves_bind; [apply _..|]; intros [|]; [apply _|]). apply _.
Qed.

Lemma sink_writei data frames s :
  wlp (writei data frames) (fun r t => got (if r =? 0 then payload (this s) data frames else []) s t) s.
Proof.
  unfold writei. apply wp_bind, wp_get. destruct (_ <? _); [exact I|]. unfold wpu, do_ioctl, payload, frame_size.
  set (bytes := take _ data). pose proof (sink_ioctl (WRITEI_FRAMES bytes) (pages s) (kern s)) as E.
  destruct (ioctl _ _ _) as [[[ret e] pg] k]. cbn [fst snd] in E. split; [exact E|apply kept_refl].
Qed.

(** Only a pass that ends with 0 has played something, the whole frames of the buffer. *)
Lemma sink_write_pass data frames s :
  wlp (write_pass data frames) (fun o t => got (if decide (o = Some 0) then payload (this s) data frames else []) s t) s.
Proof.
  unfold write_pass. apply wp_bind, wp_get.
  assert (forall e msg t, got [] s t ->
    wlp (Some <$> oops e msg) (fun o u => got (if decide (o = Some 0) then payload (this s) data frames else []) s u) t) as Hoops.
  { intros e msg t Ht. apply wp_fmap. unfold wpu, oops. exact (got_trans [] [] _ _ _ Ht (got_minor _ _ eq_refl (kept_refl _))). }
  assert (forall t, got [] s t -> frame_size (this t) = frame_size (this s)) as Hfs.
  { intros t (_ & _ & E1 & E2 & _). unfold frame_size. by rewrite E1, E2. }
  destruct (running (this s)); cbn [negb].
  - apply wp_bind. eapply wp_mono; [apply sink_writei|]. intros r t; cbn beta; destruct (Z.eqb_spec r 0) as [->|]; cbn [negb]; intros Ht.
    { apply wp_ret. by rewrite decide_True. }
    apply wp_bind, (wp_preserves (got [])); [apply _|]. intros ? u Hu. pose proof (got_trans [] [] _ _ _ Ht Hu) as Hs.
    apply wp_bind, (wp_preserves (got [])); [apply _|]. intros e v Hv. pose proof (got_trans [] [] _ _ _ Hs Hv) as Hs'.
    destruct (e =? EPIPE); [|by apply Hoops].
    apply wp_bind, wp_lift. destruct (as_int _) as [n'|]; [|exact I].
    apply wp_bind, (wp_preserves (got [])); [apply _|]. intros ? w Hw. pose proof (got_trans [] [] _ _ _ Hs' Hw) as Hs''.
    apply wp_ret. by rewrite decide_False by (by destruct (has _ _)).
  - apply wp_bind, (wp_preserves (got [])); [apply _|]. intros r t Ht. destruct (negb (r =? 0)).
    { apply wp_bind, (wp_preserves (got [])); [apply _|]. intros e u Hu. apply Hoops. exact (got_trans [] [] _ _ _ Ht Hu). }
    apply wp_bind. eapply wp_mono; [apply sink_writei|]. intros r' u Hu.
    unfold payload in Hu. rewrite (Hfs t Ht) in Hu. fold (payload (this s) data frames) in Hu.
    pose proof (got_trans [] _ _ _ _ Ht Hu) as Hs. cbn [app] in Hs. revert Hs. clear Hu. destruct (Z.eqb_spec r' 0) as [->|]; cbn [negb]; intros Hs.
    + apply wp_bind, (wp_preserves (got [])); [apply _|]. intros ? v Hv. apply wp_ret. rewrite decide_True by done.
      pose proof (got_trans _ [] _ _ _ Hs Hv) as Hs'. by rewrite app_nil_r in Hs'.
    + apply wp_bind, (wp_preserves (got [])); [apply _|]. intros e v Hv. apply Hoops. exact (got_trans [] [] _ _ _ Hs Hv).
Qed.

(** A playback stream of 16-bit samples in [ch] channels. *)
Definition plays (ch : Z) s : Prop :=
  flags (this s) = PCM_OUT /\ channels (config (this s)) = ch /\ format (config (this s)) = PCM_FORMAT_S16_LE.

Lemma plays_got ch b s t : got b s t -> plays ch s -> plays ch t.
Proof. intros (_ & E1 & E2 & E3 & _) (P1 & P2 & P3). unfold plays. rewrite E1, E2, E3. auto. Qed.

Lemma plays_frame_size ch s : plays ch s -> frame_size (this s) = 2 * ch.
Proof. intros (_ & E1 & E2). unfold frame_size. rewrite E1, E2. cbn [pcm_format_to_bits]. replace (ch * 16) with (2 * ch * 8) by lia. by apply Z.div_mul. Qed.

(** The bytes of the whole frames among the first ones. *)
Definition whole (ch : Z) (bytes : list Z) : nat := Z.to_nat (zlen bytes / (2 * ch) * (2 * ch)).

Lemma sink_pcm_write data ch s : plays ch s -> 0 < ch <= 8 ->
  wlp (pcm_write data (zlen data)) (fun r t => got (if r =? 0 then take (whole ch data) data else []) s t) s.
Proof.
  intros Hp Hch. pose proof (plays_frame_size _ _ Hp) as Hfs. unfold pcm_write. apply wp_bind, wp_get.
  destruct (has _ _). { apply wp_ret. apply got_refl. }
  apply wp_bind, wp_lift. unfold xfer_frames, udiv. destruct Hp as (P1 & P2 & P3). rewrite P2, P3. cbn [pcm_format_to_bits].
  assert (u32 (ch * 16) / 8 = 2 * ch) as ->.
  { rewrite wrap_small by (change (2 ^ 32) with 4294967296; lia). replace (ch * 16) with (2 * ch * 8) by lia. by apply Z.div_mul. }
  rewrite (proj2 (Z.eqb_neq _ 0)) by lia.
  assert (payload (this s) data (zlen data / (2 * ch)) = take (whole ch data) data) as Epay.
  { unfold payload, whole. by rewrite Hfs. }
  cbn [write_loop]. apply wp_bind. eapply wp_mono; [apply sink_write_pass|]. intros [r|] t Ht.
  { apply wp_ret. rewrite Epay in Ht. case_decide as D; [by injection D as ->|]. by rewrite (proj2 (Z.eqb_neq r 0)) by congruence. }
  cbn in Ht. apply wp_bind. eapply wp_mono; [apply sink_write_pass|]. intros [r|] u Hu; [|exact I].
  apply wp_ret. assert (payload (this t) data (zlen data / (2 * ch)) = take (whole ch data) data) as Epay'.
  { unfold payload, whole. by rewrite (plays_frame_size ch t) by (eapply plays_got; [done|by repeat split]). }
  rewrite Epay' in Hu.
  pose proof (got_trans [] _ _ _ _ Ht Hu) as Hs. cbn [app] in Hs.
  case_decide as D; [by injection D as ->|]. by rewrite (proj2 (Z.eqb_neq r 0)) by congruence.
Qed.

(** The bytes go to the device or nothing does, and at most one underrun is counted; the count may overflow. *)
Lemma wp_play_write data ch s : plays ch s -> 0 < ch <= 8 -> 0 <= underruns (this s) <= INT_MAX ->
  wpu (underruns (this s) = INT_MAX) (pcm_write data (zlen data)) (fun r t =>
    got (if r =? 0 then take (whole ch data) data else []) s t /\ same_books s t /\
    underruns (this s) <= underruns (this t) <= underruns (this s) + 1 /\ underruns (this t) <= INT_MAX) s.
Proof.
  intros Hp Hch Hu. pose proof (plays_frame_size _ _ Hp) as Hfs.
  pose proof (sink_pcm_write data ch s Hp Hch) as Hg. pose proof (booked_write data (zlen data) s) as Hb.
  pose proof (pcm_write_ends data (zlen data) s) as He. cbv zeta in He. unfold wpu in *.
  destruct (pcm_write data (zlen data) s) as [[r t]|e].
  - split; [done|]. split; [done|]. destruct He as (_ & (_ & -> & _) & Hlt); [..|destruct (underrun _ _); [specialize (Hlt eq_refl)|]; lia].
    + by destruct Hp as (-> & _).
    + lia.
    + destruct Hp as (_ & -> & _). change (2 ^ 26) with 67108864. lia.
    + pose proof (zlen_nonneg data). lia.
    + unfold INT_MIN. lia.
  - apply He.
    + by destruct Hp as (-> & _).
    + lia.
    + destruct Hp as (_ & -> & _). change (2 ^ 26) with 67108864. lia.
    + pose proof (zlen_nonneg data). lia.
    + unfold INT_MIN. lia.
Qed.

(** ** The file *)

(** A buffer of whole frames is played to its last byte. *)
Lemma whole_buffer ch m bytes : 0 < ch -> zlen bytes = m * (2 * ch) -> take (whole ch bytes) bytes = bytes.
Proof. intros Hch E. apply take_ge. unfold whole. rewrite E, Z.div_mul by lia. rewrite <- E. unfold zlen. lia. Qed.

Lemma whole_drop ch m bytes : 0 < ch -> 0 <= m -> m * (2 * ch) <= zlen bytes ->
  (Z.to_nat (m * (2 * ch)) + whole ch (drop (Z.to_nat (m * (2 * ch))) bytes) = whole ch bytes)%nat.
Proof.
  intros Hch Hm Hl. unfold whole. set (f := 2 * ch). assert (zlen (drop (Z.to_nat (m * f)) bytes) = zlen bytes - m * f) as ->.
  { unfold zlen in *. rewrite length_drop. subst f. lia. }
  replace (zlen bytes - m * f) with (zlen bytes + (- m) * f) by lia. rewrite Z.div_add by (subst f; lia).
  assert (m <= zlen bytes / f) by (apply Z.div_le_lower_bound; subst f; lia). subst f. nia.
Qed.

Lemma wp_play_loop ch m : 0 < ch <= 8 -> 0 < m -> forall fuel file s,
  plays ch s -> (length file < fuel)%nat -> 0 <= underruns (this s) <= INT_MAX ->
  wpu (INT_MAX < underruns (this s) + zlen file) (play_loop fuel (m * (2 * ch)) file) (fun ok t => exists n,
    got (take n file) s t /\ same_books s t /\ (ok = true -> n = whole ch file)) s.
Proof.
  intros Hch Hm. induction fuel as [|fuel IH]; intros file s Hp Hf Hu0; [lia|]. cbn [play_loop].
  set (k := Z.to_nat (m * (2 * ch))). assert (0 < k)%nat as Hk by (subst k; lia).
  assert (zlen (take k file) = Z.min (m * (2 * ch)) (zlen file)) as El by (unfold zlen; rewrite length_take; subst k; lia).
  destruct (Z.ltb_spec 0 (zlen (take k file))) as [Hpos|Hpos]; cycle 1.
  { assert (file = []) as ->. { destruct file; [done|]. rewrite El, zlen_cons in Hpos. pose proof (zlen_nonneg file). nia. }
    apply wp_ret. exists 0%nat. split; [apply got_refl|]. split; [apply same_books_refl|done]. }
  apply wp_bind. eapply wpu_mono; [by apply (wp_play_write _ ch)|rewrite El in Hpos; lia|]. intros r t. cbn beta.
  destruct (Z.eqb_spec r 0) as [->|]; cbn [negb]; intros (Ht & Hb & Hc & Hc'); cycle 1.
  { apply wp_ret. exists 0%nat. done. }
  assert (length (drop k file) < fuel)%nat as Hf'.
  { rewrite length_drop. destruct file; [unfold zlen in Hpos; rewrite length_take in Hpos; cbn [length] in Hpos; lia|]. cbn [length] in *. lia. }
  eapply wpu_mono; [apply IH; [by eapply plays_got|done|lia]| |].
  { assert (zlen (drop k file) < zlen file); [|lia]. unfold zlen in *. rewrite length_drop, length_take in *. lia. }
  intros ok u (n & Hu & Hb' & Hn).
  pose proof (got_trans _ _ _ _ _ Ht Hu) as Hs. pose proof (same_books_trans _ _ _ Hb Hb') as Hbs.
  destruct (Z.le_gt_cases (m * (2 * ch)) (zlen file)) as [Hle|Hgt].
  - rewrite (whole_buffer ch m) in Hs by (lia || (rewrite El; lia)). rewrite take_take_drop in Hs.
    exists (k + n)%nat. split; [done|]. split; [done|]. intros Hok. rewrite Hn by done.
    by apply whole_drop; [lia..|].
  - assert (take k file = file) as Etk by (apply take_ge; unfold zlen in *; subst k; lia).
    assert (drop k file = []) as Edk by (apply drop_ge; unfold zlen in *; subst k; lia).
    rewrite Etk, Edk, take_nil, app_nil_r in Hs. exists (whole ch file). done.
Qed.

(** How a run ends that returns: the device has got a prefix of the file; when the loop ended at the end
    of the file that prefix is all its whole frames, and when it was not reached the prefix is empty;
    after a result of 0 the books of the PCM library are as before. *)
Definition delivers (ch : Z) (file : list Z) s (r : Z * option bool) t : Prop := exists n,
  sink (kern t) = sink (kern s) ++ take n file /\
  (r.2 = Some true -> n = whole ch file) /\ (r.2 = None -> n = 0%nat) /\
  (r.1 = 0 -> fds t = fds s /\ maps t = maps s /\ blocks t = blocks s).

Lemma delivers_nothing ch file s t :
  sink (kern t) = sink (kern s) -> delivers ch file s (-1, None) t.
Proof. intros E. exists 0%nat. by rewrite app_nil_r. Qed.

(** After the decoding, whatever the device answers, as long as it settles on a buffer below [MAX_FRAMES]:
    the program ends so, unless it runs dry more than INT_MAX times. *)
Lemma play_file_delivers mem ch rate junk file s :
  fixes_small -> 0 < ch <= 8 ->
  wpu (INT_MAX < zlen file) (play_file mem ch rate junk file) (delivers ch file s) s.
Proof.
  intros Hf Hch. unfold play_file. apply wp_bind. eapply wpu_mono; [apply wp_and| |].
  { apply (pcm_open_post 0 1 PCM_OUT _ s), fixes_small_sizes, Hf. }
  { by apply open_quiet. }
  { done. }
  intros [h c'] t [Hopen [Hsink Hkind]]. cbn [fst snd] in *. destruct h.
  { apply wp_ret, delivers_nothing, Hsink. }
  destruct (Hkind eq_refl) as (Hflags & Hchan & Hfmt & Hsize & Hzero). clear Hkind. cbn [play_config channels format] in Hchan, Hfmt.
  apply wp_bind, wp_get. destruct Hopen as [Hbal Hready]. destruct (pcm_is_ready (this t)); cbn [negb]; cycle 1.
  { apply wp_ret, delivers_nothing, Hsink. }
  destruct mem; cbn [negb]; cycle 1.
  { apply wp_bind. eapply wpu_mono; [apply wp_and; [by apply wp_close|apply (preserves (R := got []))]|done|].
    intros z u [Hu [Hsu _]]. apply wp_ret, delivers_nothing. by rewrite Hsu, app_nil_r. }
  assert (plays ch t) as Hp by done. destruct Hready as (_ & (Hpos & _) & _).
  assert (s32 (pcm_frames_to_bytes (this t) (pcm_get_buffer_size (this t))) = buffer_size (this t) * (2 * ch)) as ->.
  { unfold pcm_frames_to_bytes, pcm_get_buffer_size. rewrite Hchan, Hfmt. change (pcm_format_to_bits _ >> 3) with 2.
    unfold MAX_FRAMES in Hsize. change (2 ^ 26) with 67108864 in Hsize.
    assert (0 <= buffer_size (this t) * ch * 2 < 2147483648) by nia.
    rewrite wrap_small by (change (2 ^ 32) with 4294967296; lia). rewrite sext_small; [lia|done|].
    change (2 ^ (32 - 1)) with 2147483648. lia. }
  apply wp_bind. eapply wpu_mono; [apply (wp_play_loop ch); [done|lia|done|lia|rewrite Hzero; unfold INT_MAX; lia]|by rewrite Hzero|].
  intros ok u (n & [Hu _] & Hb & Hn).
  apply wp_bind. eapply wpu_mono; [apply wp_and; [apply (wp_close s); by eapply balanced_same|apply (preserves (R := got []))]|done|].
  intros z v [(_ & Hv) [Hsv _]]. apply wp_ret. exists n. rewrite Hsv, Hu, Hsink, app_nil_r. cbn [fst snd].
  split; [done|]. split; [intros [= ->]; auto|]. done.
Qed.

(** C15. The whole program, on a device that settles on a buffer below [MAX_FRAMES] frames and answers as it
    likes otherwise, and a file of at most 8 channels.  When it returns, what the device has got is a
    prefix of the decoded sound: all the whole frames of the sound after a loop that ended at the
    end of the file, nothing when the loop was not reached; and after a result of 0 the descriptors,
    mappings and blocks of the PCM library are as they were.  It fails to return in three ways only,
    the first two of which always do: FFmpeg finds no stream and answers an error below -1; the
    decoder starts and the sound of some frame does not fit into audio_buf; or there are more
    than INT_MAX bytes of sound, where the count of underruns may overflow. *)
Theorem play_main_delivers argc created reopened mem junk m s :
  fixes_small -> 0 < default_channels m <= 8 -> stream_exists m ->
  let sound := mjoin (sound_of m <$> played_frames m) in
  let started := argc = 3 /\ created = true in
  let overrun := decodes m /\ Exists (overruns (MAX_AUDIO_FRAME_SIZE * 2) m) (played_frames m) in
  match main argc created reopened mem junk m s with
  | Ok (r, t) => delivers (default_channels m) sound s r t /\ (started -> ~ missing m /\ ~ overrun)
  | Ub e => started /\
      (e = OobRead /\ missing m \/ e = OobWrite /\ overrun \/ INT_MAX < zlen sound)
  end.
Proof.
  intros Hf Hch Hs sound started overrun.
  assert (delivers (default_channels m) sound s (-1, None) s) as Hfail by by apply delivers_nothing.
  unfold main, started. destruct (Z.eqb_spec argc 3) as [Ha|Ha]; cbn [negb]; [|split; [exact Hfail|tauto]].
  destruct created; cbn [negb]; [|split; [exact Hfail|intros [_ [=]]]].
  pose proof (open_cases m Hs) as Ho. unfold mbind, ST_bind, lift. destruct (open_media m) as [r|e] eqn:Eo; cbn [res_bind]; [|tauto].
  destruct Ho as [Hm Hr]. destruct r as [snd|]; cycle 1.
  { split; [exact Hfail|]. intros _. split; [exact Hm|]. unfold overrun, decodes. rewrite Eo. by intros [[=] _]. }
  rewrite (Hr snd eq_refl) in Eo |- *.
  pose proof (decode_cases (MAX_AUDIO_FRAME_SIZE * 2) m ltac:(done)) as Hd.
  destruct (decode_packets _ _ _ _) as [c|e]; cbn [decoded res_bind] in *; [|split; [done|]; unfold overrun, decodes; tauto].
  destruct Hd as (Ec & Hfit & _). fold sound in Ec. assert (~ overrun) as Hno by (intros [_ (f & Hin & Hov)%Exists_exists]; rewrite Forall_forall in Hfit; exact (Hfit f Hin Hov)).
  destruct reopened; cbn [negb]; [|by split]. rewrite Ec.
  pose proof (play_file_delivers mem (default_channels m) out_sample_rate junk sound s Hf Hch) as Hp. unfold wpu in Hp.
  destruct (play_file _ _ _ _ _ s) as [[r t]|e] eqn:Ep; [by split|].
  split; [done|]. right. right. exact Hp.
Qed.
End Delivery.

(** ** The device of Pcm.v records what it is given *)

#[export] Instance ideal_recorder : Recorder (list Z).
Proof.
  apply (Build_Recorder (list Z) ideal_device id); try done. intros [] pg k; cbn; by rewrite ?app_nil_r.
Defined.

Lemma ideal_fixes_small : fixes_small (K := list Z).
Proof.
  intros hw k ret e hw' k' [= <- <- <- <-] _. unfold fix_sizes, MAX_FRAMES.
  set (a := param_get_int hw _). set (b := param_get_min hw _).
  change (param_get_int _ SNDRV_PCM_HW_PARAM_PERIODS) with (1 + a mod 64).
  change (param_get_int _ SNDRV_PCM_HW_PARAM_PERIOD_SIZE) with (1 + b mod 64).
  pose proof (Z.mod_pos_bound a 64 eq_refl). pose proof (Z.mod_pos_bound b 64 eq_refl).
  rewrite wrap_small; change (2 ^ 32) with 4294967296; change (2 ^ 26) with 67108864; nia.
Qed.

(** A stereo stream of two packets, and one of another stream between them. *)
Definition stereo_frame (nb : Z) (bytes : list Z) : frame := Frame nb (fun n => take (Z.to_nat (n * 4)) bytes).

Definition demo_media : media :=
  Media 0 0 0 2 true 0 0 2 48000 true (fun a b c => a * b ÷ c)
    [Packet 0 0 [stereo_frame 1 [1; 2; 3; 4]; stereo_frame 0 []];
     Packet 1 0 [stereo_frame 1 [99; 99; 99; 99]];
     Packet 0 0 [stereo_frame 2 [5; 6; 7; 8; 9; 10; 11; 12]]].

Lemma play_main_delivers_witness : exists t,
  main 3 true true true 77 demo_media idle_sys = Ok ((0, Some true), t) /\
  kern t = [1; 2; 3; 4; 5; 6; 7; 8; 9; 10; 11; 12] /\ fds t = 0 /\ maps t = 0 /\ blocks t = 0.
Proof.
  pose proof (play_main_delivers 3 true true true 77 demo_media idle_sys ideal_fixes_small ltac:(cbn; lia) ltac:(unfold stream_exists; cbn; lia)) as H.
  destruct (main 3 true true true 77 demo_media idle_sys) as [[[r ok] t]|e] eqn:E.
  - assert (r = 0 /\ ok = Some true) as [-> ->].
    { vm_compute in E. injection E as <- <- _. split; reflexivity. }
    destruct H as [(n & Hs & Hn & _ & Hr) _]. exists t. split; [reflexivity|]. rewrite (Hn eq_refl) in Hs. split; [exact Hs|]. exact (Hr eq_refl).
  - vm_compute in E. discriminate E.
Defined.
