(* ===== verification/Alsa.v ===== *)
(** sample/ffmpeg_alsa.c (the same file in ffmpeg_sample/): the two buffers between the thread
    that decodes and the thread that plays.  Decoding is the choice of the next frame, one of the
    pieces of Decode.v, none of which is empty.  A frame may be of any size: one above the 40960 bytes of
    audio_buf has been written past its end by swr_convert (Decode.v, frame_overrun), and is
    followed here to the copy that leaves a buffer.  A step is one access to a shared
    variable (they are volatile int, and x86-64 keeps the order of the accesses of a
    thread as far as it matters here: each flag is set by one thread and cleared by the
    other). *)

From S2P Require Import Prelude.

Open Scope Z_scope.

Definition MAX_AUDIO_FRAME_SIZE : Z := 40960.

Inductive side : Type := B1 | B2.

Definition other (b : side) : side := match b with B1 => B2 | B2 => B1 end.

#[export] Instance side_eq_dec : EqDecision side.
Proof. solve_decision. Defined.

(** buf1, buf1_en, buf1_pos and buf1_len, and the same for buf2. *)
Record buffer : Type := Buffer { bytes : list Z; en : bool; pos : Z; len : Z }.

(** Where main is; [frame] is what the decoder has put into audio_buf. *)
Inductive producer : Type :=
  | Start1 | Start2                       (* buf1_en = 0; buf2_en = 1 *)
  | NextFrame
  | TestA (frame : list Z)                (* buf1_en == 0 *)
  | TestB (frame : list Z)                (* && buf2_en == 1 *)
  | TestC (frame : list Z)                (* buf2_en == 0 *)
  | TestD (frame : list Z)                (* && buf1_en == 1 *)
  | Fill (b : side) (frame : list Z)      (* append to b, or go on to the other buffer *)
  | Await (b : side) (frame : list Z)     (* while (the other en == 1) *)
  | SetEn (b : side) (frame : list Z)     (* b_en = 1 *)
  | SetLen (b : side) (frame : list Z)    (* b_len = b_pos *)
  | ResetPos (b : side) (frame : list Z)  (* b_pos = 0 *)
  | Copy (b : side) (frame : list Z)      (* memcpy to the other buffer, and its pos *)
  | Finish                                (* convert_over = 1 *)
  | Decoded.

(** Where pcm_play is. *)
Inductive player : Type :=
  | Look2 | Look1
  | Play (b : side)                       (* pcm_write (p_pcm, b, b_len) *)
  | Clear (b : side)                      (* b_en = 0 *)
  | LoopTest                              (* convert_over == 0 *)
  | Played.

Record state : Type := State {
  buf1 : buffer; buf2 : buffer; convert_over : bool; main : producer; pcm_play : player; written : list (list Z) }.

Definition buf (b : side) (s : state) : buffer := match b with B1 => buf1 s | B2 => buf2 s end.

Definition set_buf (b : side) (f : buffer -> buffer) (s : state) : state :=
  match b with
  | B1 => State (f (buf1 s)) (buf2 s) (convert_over s) (main s) (pcm_play s) (written s)
  | B2 => State (buf1 s) (f (buf2 s)) (convert_over s) (main s) (pcm_play s) (written s)
  end.

Definition set_en (e : bool) (b : buffer) : buffer := Buffer (bytes b) e (pos b) (len b).

(** memcpy (b + at, frame, size) *)
Definition memcpy (b : buffer) (at_ : Z) (frame : list Z) : res (list Z) :=
  if (0 <=? at_) && (at_ + zlen frame <=? MAX_AUDIO_FRAME_SIZE)
  then Ok (take (Z.to_nat at_) (bytes b) ++ frame ++ drop (Z.to_nat (at_ + zlen frame)) (bytes b)) else Ub OobWrite.

Definition goes_main (p : producer) (s : state) : state :=
  State (buf1 s) (buf2 s) (convert_over s) p (pcm_play s) (written s).
Definition goes_play (p : player) (s : state) : state :=
  State (buf1 s) (buf2 s) (convert_over s) (main s) p (written s).

(** One step of main that does not choose a frame; None: it is over, or a frame is to be chosen. *)
Definition main_step (s : state) : option (res state) :=
  match main s with
  | Start1 => Some (Ok (goes_main Start2 (set_buf B1 (set_en false) s)))
  | Start2 => Some (Ok (goes_main NextFrame (set_buf B2 (set_en true) s)))
  | NextFrame | Decoded => None
  | TestA f => Some (Ok (goes_main (if en (buf1 s) then TestC f else TestB f) s))
  | TestB f => Some (Ok (goes_main (if en (buf2 s) then Fill B1 f else TestC f) s))
  | TestC f => Some (Ok (goes_main (if en (buf2 s) then NextFrame else TestD f) s))
  | TestD f => Some (Ok (goes_main (if en (buf1 s) then Fill B2 f else NextFrame) s))
  | Fill b f =>
      if MAX_AUDIO_FRAME_SIZE <? pos (buf b s) + zlen f then Some (Ok (goes_main (Await b f) s))
      else
        Some (let! m := memcpy (buf b s) (pos (buf b s)) f in
              Ok (goes_main NextFrame (set_buf b (fun u => Buffer m (en u) (pos u + zlen f) (len u)) s)))
  | Await b f => Some (Ok (goes_main (if en (buf (other b) s) then Await b f else SetEn b f) s))
  | SetEn b f => Some (Ok (goes_main (SetLen b f) (set_buf b (set_en true) s)))
  | SetLen b f => Some (Ok (goes_main (ResetPos b f) (set_buf b (fun u => Buffer (bytes u) (en u) (pos u) (pos u)) s)))
  | ResetPos b f => Some (Ok (goes_main (Copy b f) (set_buf b (fun u => Buffer (bytes u) (en u) 0 (len u)) s)))
  | Copy b f =>
      Some (let! m := memcpy (buf (other b) s) 0 f in
            Ok (goes_main NextFrame (set_buf (other b) (fun u => Buffer m (en u) (zlen f) (len u)) s)))
  | Finish => Some (Ok (State (buf1 s) (buf2 s) true Decoded (pcm_play s) (written s)))
  end.

(** One step of pcm_play.  pcm_write reads len, and then that many bytes. *)
Definition play_step (s : state) : option state :=
  match pcm_play s with
  | Look2 => Some (goes_play (if en (buf2 s) then Play B2 else Look1) s)
  | Look1 => Some (goes_play (if en (buf1 s) then Play B1 else LoopTest) s)
  | Play b =>
      Some (State (buf1 s) (buf2 s) (convert_over s) (main s) (Clear b)
              (written s ++ [take (Z.to_nat (len (buf b s))) (bytes (buf b s))]))
  | Clear b => Some (goes_play LoopTest (set_buf b (set_en false) s))
  | LoopTest => Some (goes_play (if convert_over s then Played else Look2) s)
  | Played => None
  end.

Inductive step (s : state) : state -> Prop :=
  | step_frame f : main s = NextFrame -> 0 < zlen f -> step s (goes_main (TestA f) s)
  | step_end : main s = NextFrame -> step s (goes_main Finish s)
  | step_main t : main_step s = Some (Ok t) -> step s t
  | step_play t : play_step s = Some t -> step s t.

Definition zero_buffer : buffer := Buffer (replicate (Z.to_nat MAX_AUDIO_FRAME_SIZE) 0) false 0 0.

Definition started : state := State zero_buffer zero_buffer false Start1 Look2 [].

Definition reachable : state -> Prop := reaches (eq started) step.

(** * The hand-over *)

(** The buffer main is about to write to. *)
Definition writes (p : producer) : option side :=
  match p with Fill b _ => Some b | Copy b _ => Some (other b) | _ => None end.

(** The buffers that main knows not to be played. *)
Definition idle (p : producer) (b : side) : bool :=
  match p with
  | TestB _ => bool_decide (b = B1)
  | TestD _ => bool_decide (b = B2)
  | Fill c _ | Await c _ => bool_decide (b = c)
  | SetEn _ _ => true
  | SetLen c _ | ResetPos c _ | Copy c _ => bool_decide (b = other c)
  | _ => false
  end.

Definition plays (p : player) (b : side) : bool :=
  match p with Play c | Clear c => bool_decide (b = c) | _ => false end.

Definition carried (p : producer) : option (list Z) :=
  match p with
  | TestA f | TestB f | TestC f | TestD f | Fill _ f | Await _ f | SetEn _ f | SetLen _ f | ResetPos _ f | Copy _ f => Some f
  | _ => None
  end.

Definition buffer_ok (b : buffer) : Prop :=
  zlen (bytes b) = MAX_AUDIO_FRAME_SIZE /\ 0 <= pos b <= MAX_AUDIO_FRAME_SIZE /\ 0 <= len b <= MAX_AUDIO_FRAME_SIZE.

Record inv (s : state) : Prop := {
  inv_idle b : idle (main s) b = true -> en (buf b s) = false;
  inv_plays b : plays (pcm_play s) b = true -> en (buf b s) = true;
  inv_buffer b : buffer_ok (buf b s);
  inv_frame f : carried (main s) = Some f -> 0 < zlen f;
  inv_start : main s = Start1 \/ main s = Start2 -> en (buf1 s) = false /\ en (buf2 s) = false }.

Lemma buf_set_buf b c f s : buf c (set_buf b f s) = if decide (c = b) then f (buf c s) else buf c s.
Proof. by destruct b, c. Qed.

Lemma main_set_buf b f s : main (set_buf b f s) = main s.
Proof. by destruct b. Qed.
Lemma play_set_buf b f s : pcm_play (set_buf b f s) = pcm_play s.
Proof. by destruct b. Qed.
Lemma written_set_buf b f s : written (set_buf b f s) = written s.
Proof. by destruct b. Qed.
Lemma buf_goes_main c p s : buf c (goes_main p s) = buf c s.
Proof. by destruct c. Qed.
Lemma buf_goes_play c p s : buf c (goes_play p s) = buf c s.
Proof. by destruct c. Qed.

Create Rewrite HintDb alsa.
#[local] Hint Rewrite buf_goes_main buf_goes_play buf_set_buf main_set_buf play_set_buf : alsa.

Lemma memcpy_ok b at_ f m : buffer_ok b -> memcpy b at_ f = Ok m -> zlen m = MAX_AUDIO_FRAME_SIZE /\ at_ + zlen f <= MAX_AUDIO_FRAME_SIZE.
Proof.
  unfold memcpy. intros (Hb & _) E. destruct (_ && _) eqn:D; [|done]. injection E as <-. pose proof (zlen_nonneg f).
  apply andb_true_iff in D as [D1%Z.leb_le D2%Z.leb_le]. unfold zlen in *.
  rewrite !length_app, length_take, length_drop. lia.
Qed.

(** main changes a flag, a number or the bytes of a buffer that is not played. *)
Lemma inv_main s p c f :
  inv s -> buffer_ok (f (buf c s)) ->
  (plays (pcm_play s) c = true -> en (f (buf c s)) = true) ->
  (forall b, idle p b = true -> en (if decide (b = c) then f (buf b s) else buf b s) = false) ->
  (forall x, carried p = Some x -> 0 < zlen x) ->
  (p = Start2 -> en (f (buf B1 s)) = false /\ c = B1 /\ en (buf2 s) = false) -> p <> Start1 ->
  inv (goes_main p (set_buf c f s)).
Proof.
  intros [Hi Hp Hb Hf Hs] Hok Hpl Hid Hca Hst Hne. constructor.
  - intros b. rewrite buf_goes_main, buf_set_buf. apply Hid.
  - intros b. rewrite buf_goes_main, buf_set_buf. cbn [goes_main pcm_play]. rewrite play_set_buf.
    case_decide as E; [rewrite E; exact Hpl|auto].
  - intros b. rewrite buf_goes_main, buf_set_buf. case_decide as E; [by rewrite E|auto].
  - exact Hca.
  - cbn [goes_main main]. intros [->| ->]; [done|]. destruct (Hst eq_refl) as (H1 & -> & H2). by cbn.
Qed.

(** main only moves on. *)
Lemma inv_main_goes s p :
  inv s -> (forall b, idle p b = true -> en (buf b s) = false) ->
  (forall x, carried p = Some x -> 0 < zlen x) -> p <> Start1 -> p <> Start2 -> inv (goes_main p s).
Proof.
  intros [Hi Hp Hb Hf Hs] Hid Hca H1 H2. constructor; [|by intros b; rewrite buf_goes_main; apply Hp| |done|by intros []].
  - intros b. rewrite buf_goes_main. apply Hid.
  - intros b. rewrite buf_goes_main. apply Hb.
Qed.

Lemma inv_main_step s t : inv s -> main_step s = Some (Ok t) -> inv t.
Proof.
  intros Hs E. pose proof Hs as [Hi Hp Hb Hf Hst]. unfold main_step in E.
  destruct (main s) as [| | |f|f|f|f|b f|b f|b f|b f|b f|b f| |] eqn:Em; try done.
  - destruct (Hst (or_introl eq_refl)) as [E1 E2]. injection E as <-.
    apply (inv_main s Start2 B1 (set_en false)); try done; [apply (Hb B1)|]. intros Hpl%Hp. cbn in *. congruence.
  - destruct (Hst (or_intror eq_refl)) as [E1 E2]. injection E as <-.
    apply (inv_main s NextFrame B2 (set_en true)); try done. apply (Hb B2).
  - injection E as <-. destruct (en (buf1 s)) eqn:E1; apply inv_main_goes; try done.
    intros []; [done|]. cbn. discriminate.
  - injection E as <-. destruct (en (buf2 s)) eqn:E1; by apply inv_main_goes.
  - injection E as <-. destruct (en (buf2 s)) eqn:E1; apply inv_main_goes; try done. by intros [].
  - injection E as <-. destruct (en (buf1 s)) eqn:E1; by apply inv_main_goes.
  - destruct (Z.ltb_spec MAX_AUDIO_FRAME_SIZE (pos (buf b s) + zlen f)) as [Hlt|Hle].
    + injection E as <-. apply inv_main_goes; try done.
    + destruct (memcpy _ _ _) as [m|] eqn:Ec; [|discriminate E]. injection E as <-.
      pose proof (memcpy_ok _ _ _ _ (Hb b) Ec) as [Hm Hfit]. destruct (Hb b) as (_ & Hpos & Hlen). specialize (Hf f eq_refl).
      apply inv_main; try done; [|by intros Hpl%Hp]. split_and!; cbn [bytes pos len]; lia.
  - injection E as <-. destruct (en (buf (other b) s)) eqn:E1; apply inv_main_goes; try done.
    intros c _. destruct (decide (c = b)) as [->|]; [apply Hi; cbn; by apply bool_decide_eq_true|].
    by destruct b, c.
  - injection E as <-. apply inv_main; try done; [apply Hb|]. intros c Hc. cbn in Hc. apply bool_decide_eq_true in Hc as ->.
    rewrite decide_False by by destruct b. by apply Hi.
  - injection E as <-. destruct (Hb b) as (B1' & B2' & B3'). apply inv_main; try done; [by apply Hp|].
    intros c Hc. cbn in Hc. rewrite decide_False; [by apply Hi|]. apply bool_decide_eq_true in Hc as ->. by destruct b.
  - injection E as <-. destruct (Hb b) as (B1' & B2' & B3'). apply inv_main; try done; [by apply Hp|].
    intros c Hc. cbn in Hc. rewrite decide_False; [by apply Hi|]. apply bool_decide_eq_true in Hc as ->. by destruct b.
  - destruct (memcpy _ _ _) as [m|] eqn:Ec; [|discriminate E]. injection E as <-.
    pose proof (memcpy_ok _ _ _ _ (Hb (other b)) Ec) as [Hm Hfit]. destruct (Hb (other b)) as (_ & Hpos & Hlen). specialize (Hf f eq_refl).
    apply inv_main; try done; [|by apply Hp]. split_and!; cbn [bytes pos len]; lia.
  - injection E as <-. constructor; [|exact Hp|exact Hb|done|by intros []]. by intros b.
Qed.

Lemma inv_play_step s t : inv s -> play_step s = Some t -> inv t.
Proof.
  intros Hs E. pose proof Hs as [Hi Hp Hb Hf Hst]. unfold play_step in E.
  assert (forall p, (forall b, plays p b = true -> en (buf b s) = true) -> inv (goes_play p s)) as Hgo.
  { intros p Hpl. constructor; [| | |exact Hf|exact Hst]; intros b; rewrite buf_goes_play; auto. }
  destruct (pcm_play s) as [| |b|b| |] eqn:Ep; try done.
  - injection E as <-. apply Hgo. destruct (en (buf2 s)) eqn:E2; [|done]. intros b Hpl.
    cbn in Hpl. by apply bool_decide_eq_true in Hpl as ->.
  - injection E as <-. apply Hgo. destruct (en (buf1 s)) eqn:E2; [|done]. intros b Hpl.
    cbn in Hpl. by apply bool_decide_eq_true in Hpl as ->.
  - injection E as <-. constructor; [exact Hi|exact Hp|exact Hb|exact Hf|exact Hst].
  - injection E as <-. constructor.
    + intros c. rewrite buf_goes_play, buf_set_buf. cbn [goes_play main]. rewrite main_set_buf. case_decide; [done|apply Hi].
    + done.
    + intros c. rewrite buf_goes_play, buf_set_buf. case_decide; [apply Hb|apply Hb].
    + cbn [goes_play main]. rewrite main_set_buf. exact Hf.
    + cbn [goes_play main]. rewrite main_set_buf. intros Hm. destruct (Hst Hm) as [E1 E2]. by destruct b.
  - injection E as <-. apply Hgo. by destruct (convert_over s).
Qed.

Lemma alsa_inv_reachable s : reachable s -> inv s.
Proof.
  apply reaches_invariant; clear s; [intros s <-|intros s t IH Hst].
  - constructor; [by intros []|by intros []| |done|done].
    intros []; (split; [reflexivity|cbn; unfold MAX_AUDIO_FRAME_SIZE; lia]).
  - destruct Hst as [f Em Hf|Em|t E|t E]; [| |by eapply inv_main_step|by eapply inv_play_step].
    + apply inv_main_goes; [done|by intros []| |done|done]. by intros x [= <-].
    + apply inv_main_goes; try done.
Qed.


(** ** Silence *)

(** Both flags are clear and nobody is about to set one. *)
Definition silent (s : state) : Prop :=
  en (buf1 s) = false /\ en (buf2 s) = false /\
  match main s with
  | NextFrame | TestA _ | TestB _ | TestC _ | TestD _ | Finish | Decoded => True | _ => False end /\
  match pcm_play s with Play _ | Clear _ => False | _ => True end.

Lemma silent_step s t : silent s -> step s t -> silent t /\ written t = written s.
Proof.
  intros (E1 & E2 & Hm & Hp). destruct 1 as [f Em Hf|Em|t E|t E].
  - by repeat split.
  - by repeat split.
  - unfold main_step in E. destruct (main s); try done; injection E as <-; rewrite ?E1, ?E2; by repeat split.
  - unfold play_step in E. destruct (pcm_play s); try done; injection E as <-; rewrite ?E1, ?E2.
    + by repeat split.
    + by repeat split.
    + split; [|done]. repeat split; [done..|]. cbn. by destruct (convert_over s).
Qed.

(** Once both flags are clear every frame is dropped and nothing more is played. *)
Lemma alsa_goes_silent s t : silent s -> rtc step s t -> silent t /\ written t = written s.
Proof.
  intros Hs. induction 1 as [s|s t u Hst _ IH]; [done|]. destruct (silent_step s t Hs Hst) as [Ht E].
  destruct (IH Ht) as [Hu E']. split; [done|]. congruence.
Qed.

(** ** Runs *)

Inductive event : Type := Decode (frame : list Z) | RunMain | RunPlay.

Definition exec (s : state) (e : event) : option state :=
  match e with
  | Decode f => if decide (0 < zlen f) then match main s with NextFrame => Some (goes_main (TestA f) s) | _ => None end else None
  | RunMain => match main_step s with Some (Ok t) => Some t | _ => None end
  | RunPlay => play_step s
  end.

Definition run : list event -> state -> option state := run_events exec.

Lemma alsa_run_reachable es s : run es started = Some s -> reachable s.
Proof.
  apply run_events_reaches; [|by apply reaches_init]. clear. intros r e t Er.
  destruct e; cbn in Er; [|destruct (main_step r) as [[u|]|] eqn:Em; try done; injection Er as <-; by apply step_main|by apply step_play].
  case_decide; [|done]. destruct (main r) eqn:Em; try done. injection Er as <-. by apply step_frame.
Qed.

(** The play thread is as fast as usual: it plays the empty buf2 before the first frame is
    there, and the program is silent from then on. *)
Lemma alsa_starts_silent : exists s, reachable s /\ silent s /\ written s = [[]].
Proof.
  set (es := [RunMain; RunMain; RunPlay; RunPlay; RunPlay]).
  assert ((fun s => (en (buf1 s), en (buf2 s), main s, pcm_play s, written s)) <$> run es started =
          Some (false, false, NextFrame, LoopTest, [[]])) as E by (vm_compute; reflexivity).
  destruct (run es started) as [s|] eqn:Er; [|discriminate E].
  exists s. split; [by eapply alsa_run_reachable|]. injection E as E1 E2 E3 E4 E5. unfold silent. by rewrite E1, E2, E3, E4.
Qed.

(** One frame that fills buf1, and a second one while the first is played. *)
Definition hand_over : list event :=
  [RunMain; RunMain; Decode (replicate 40960 7)] ++ replicate 3 RunMain ++ [Decode [8; 9]] ++ replicate 3 RunMain ++
  replicate 3 RunPlay ++ replicate 5 RunMain ++ [RunPlay; RunPlay; RunPlay].

(** The flag is set before the length: a player in between plays the full buffer with its old
    length, here 0, and marks it as played. *)
Lemma alsa_stale_length : exists s f, reachable s /\ main s = SetLen B1 f /\ pcm_play s = LoopTest /\
  pos (buf1 s) = 40960 /\ en (buf1 s) = false /\ written s = [[]; []].
Proof.
  set (es := [RunMain; RunMain; Decode (replicate 40960 7)] ++ replicate 3 RunMain ++ [Decode [8; 9]] ++ replicate 3 RunMain ++
    replicate 4 RunPlay ++ replicate 2 RunMain ++ replicate 4 RunPlay).
  assert ((fun s => (main s, pcm_play s, pos (buf1 s), en (buf1 s), written s)) <$> run es started =
          Some (SetLen B1 [8; 9], LoopTest, 40960, false, [[]; []])) as E by (vm_compute; reflexivity).
  destruct (run es started) as [s|] eqn:Er; [|discriminate E].
  exists s, [8; 9]. split; [eapply alsa_run_reachable; exact Er|]. clear Er. injection E as E1 E2 E3 E4 E5. auto.
Qed.

(** A frame of 40961 bytes: main is about to copy it out of buf2. *)
Definition too_big : list event :=
  [RunMain; RunMain; Decode (replicate 40961 7)] ++ replicate 3 RunMain ++ replicate 3 RunPlay ++ replicate 4 RunMain.

