(* ===== verification/Ftps.v ===== *)
(** ftps/ftps_client.c: the FTPS client.  What the network, OpenSSL, the file system and the
    allocator answer is a [script], consumed in order; the state also holds what is open and
    a log of what goes out.  Console output is left out, but for the reads it makes. *)

From stdpp Require Import gmap.
From S2P Require Import Prelude CLib.

Open Scope c_scope.
Open Scope Z_scope.

(** ** The outside *)

(** The control connection of the session and the data connection of a transfer. *)
Inductive channel : Type := Control | Data.

#[export] Instance channel_eq_dec : EqDecision channel.
Proof. solve_decision. Defined.

(** The calls that succeed or fail. *)
Inductive call : Type :=
  | SslWrite | SockOpt | Connecting | Handshake | CtxNew | SslNew | Malloc | PeerName.

#[export] Instance call_eq_dec : EqDecision call.
Proof. solve_decision. Defined.

(** The answers to the calls to come.  An exhausted list means success, but for the reads and
    the sockets, which then fail. *)
Record script : Type := Script {
  reads : channel -> list (list Z);  (* SSL_read: the bytes that arrive, none at the end of the stream *)
  answers : call -> list bool;
  sockets : list Z;                  (* socket: a descriptor or -1 *)
  fopens : list (option (list Z));   (* fopen: what the file holds *)
  fwrites : list nat;                (* fwrite: how many bytes it takes at most *)
  frames : list (list Z)             (* the 24 bytes the array lhost holds on entry *)
}.

Inductive action : Type :=
  | Open (path mode : list Z)            (* fopen *)
  | Write (bytes : list Z)               (* fwrite to the local file *)
  | Connect (addr port : Z)              (* connect *)
  | Send (c : channel) (bytes : list Z). (* SSL_write *)

(** struct _ftps_client_: the pointers are NULL or not, and a field may be unwritten.  The
    fields mode, sbio and cert are never read; [chan] is the connection behind connfd. *)
Record FtpsClient : Type := Client {
  chan : channel; ssl : bool; ctx : bool; connfd : option Z; ip : list Z }.

Record state : Type := State {
  net : script; log : list action;
  fds : gset Z; ssls : Z; ctxs : Z; blocks : Z; files : Z }.

Abbreviation M := (ST state).

Definition set_net (n : script) (s : state) : state :=
  State n (log s) (fds s) (ssls s) (ctxs s) (blocks s) (files s).

Definition emit (a : action) : M unit := fun s =>
  Ok (tt, State (net s) (log s ++ [a]) (fds s) (ssls s) (ctxs s) (blocks s) (files s)).

Definition put_fds (f : gset Z -> gset Z) : M unit := fun s =>
  Ok (tt, State (net s) (log s) (f (fds s)) (ssls s) (ctxs s) (blocks s) (files s)).

(** What is allocated, by kind. *)
Definition count (ds dc db df : Z) : M unit := fun s =>
  Ok (tt, State (net s) (log s) (fds s) (ssls s + ds) (ctxs s + dc) (blocks s + db) (files s + df)).

Definition holds (b : bool) : Z := if b then 1 else 0.

Definition answer (c : call) : M bool := fun s =>
  match answers (net s) c with
  | [] => Ok (true, s)
  | b :: rest =>
      let n := net s in
      Ok (b, set_net (Script (reads n) (fun c' => if decide (c' = c) then rest else answers n c')
                        (sockets n) (fopens n) (fwrites n) (frames n)) s)
  end.

(** SSL_read (ssl, buf, max): what does not fit is left for the next read. *)
Definition SSL_read (c : channel) (max : nat) : M (Z * list Z) := fun s =>
  match reads (net s) c with
  | [] => Ok ((-1, []), s)
  | bytes :: rest =>
      let n := net s in
      let left := if (max <? length bytes)%nat then drop max bytes :: rest else rest in
      Ok ((zlen (take max bytes), take max bytes),
          set_net (Script (fun c' => if decide (c' = c) then left else reads n c') (answers n)
                     (sockets n) (fopens n) (fwrites n) (frames n)) s)
  end.

Definition SSL_write (c : channel) (bytes : list Z) : M bool :=
  ok ← answer SslWrite; (if ok : bool then emit (Send c bytes) else mret tt);; mret ok.

Definition socket : M Z := fun s =>
  match sockets (net s) with
  | [] => Ok (-1, s)
  | fd :: rest =>
      let n := net s in
      let s := set_net (Script (reads n) (answers n) rest (fopens n) (fwrites n) (frames n)) s in
      if fd <? 0 then Ok (-1, s) else let! (_, s) := put_fds (union {[fd]}) s in Ok (fd, s)
  end.

Definition close (fd : option Z) : M unit :=
  match fd with None => fault Uninit | Some fd => put_fds (fun l => l ∖ {[fd]}) end.

Definition setsockopt : M bool := answer SockOpt.

Definition connect (addr port : Z) : M bool :=
  ok ← answer Connecting; (if ok : bool then emit (Connect addr port) else mret tt);; mret ok.

Definition SSL_CTX_new : M bool := ok ← answer CtxNew; count 0 (holds ok) 0 0;; mret ok.
Definition SSL_new : M bool := ok ← answer SslNew; count (holds ok) 0 0 0;; mret ok.
Definition malloc : M bool := ok ← answer Malloc; count 0 0 (holds ok) 0;; mret ok.

Definition fopen (path mode : list Z) : M (option (list Z)) := fun s =>
  let n := net s in
  let (f, rest) := match fopens n with [] => (Some [], []) | f :: rest => (f, rest) end in
  let s := set_net (Script (reads n) (answers n) (sockets n) rest (fwrites n) (frames n)) s in
  match f with
  | None => Ok (None, s)
  | Some text => let! (_, s) := count 0 0 0 1 s in let! (_, s) := emit (Open path mode) s in Ok (Some text, s)
  end.

Definition fclose : M unit := count 0 0 0 (-1).

Definition fwrite (bytes : list Z) : M Z := fun s =>
  let n := net s in
  match fwrites n with
  | [] => let! (_, s) := emit (Write bytes) s in Ok (zlen bytes, s)
  | k :: rest =>
      let s := set_net (Script (reads n) (answers n) (sockets n) (fopens n) rest (frames n)) s in
      let! (_, s) := emit (Write (take k bytes)) s in Ok (zlen (take k bytes), s)
  end.

(** The array a call finds on the stack. *)
Definition frame : M (list Z) := fun s =>
  let n := net s in
  match frames n with
  | [] => Ok (replicate 24 0, s)
  | f :: rest =>
      Ok (f, set_net (Script (reads n) (answers n) (sockets n) (fopens n) (fwrites n) rest) s)
  end.

(** The resolver and the address functions of the C library.  An address and a port are numbers
    in the order of the host. *)
Class Resolver : Type := {
  inet_aton : list Z -> option Z;
  inet_addr : list Z -> Z;
  inet_ntoa : Z -> list Z;
  gethostbyname : list Z -> option Z;
  getservbyname : list Z -> option Z
}.

(** ** Buffers *)

(** The text in a zeroed buffer of [size] bytes into which [bytes] were read: when they
    fill it, what looks for the NUL reads on. *)
Definition buffer_text (size : nat) (bytes : list Z) : res (list Z) :=
  if (length bytes <? size)%nat then Ok (c_string bytes)
  else if bool_decide (0 ∈ bytes) then Ok (c_string bytes) else Ub OobRead.

(** The string at the start of an array of which every byte is given. *)
Definition array_text (buf : list Z) : res (list Z) :=
  if bool_decide (0 ∈ buf) then Ok (c_string buf) else Ub OobRead.

(** snprintf (buf, size, ...) *)
Definition snprintf (size : nat) (text : list Z) : list Z := take (size - 1) text.

Definition crlf : list Z := [13; 10].

(** ** The client *)

Section Client.
Context `{Resolver}.

Definition set_conn (fd : Z) (cli : FtpsClient) : FtpsClient := Client (chan cli) (ssl cli) (ctx cli) (Some fd) (ip cli).
Definition set_ip (ip : list Z) (cli : FtpsClient) : FtpsClient := Client (chan cli) (ssl cli) (ctx cli) (connfd cli) ip.
Definition set_ssl (b : bool) (cli : FtpsClient) : FtpsClient := Client (chan cli) b (ctx cli) (connfd cli) (ip cli).
Definition set_ctx (b : bool) (cli : FtpsClient) : FtpsClient := Client (chan cli) (ssl cli) b (connfd cli) (ip cli).

Definition TestConnection : M Z := peer ← answer PeerName; mret (if peer : bool then 0 else -1).

Definition OpenConnectByIp (ip port : list Z) : M Z :=
  fd ← socket;
  if fd <? 0 then mret (-1)
  else
    ok ← connect (inet_addr ip) (u16 (atoi port));
    if ok : bool then mret fd else close (Some fd);; mret (-1).

(** memcpy (lhost, host, strlen (host)): the NUL is not copied, so that what was there
    follows the host. *)
Definition lhost_of (host frame : list Z) : res (list Z) :=
  if (24 <? length host)%nat then Ub OobWrite else Ok (host ++ drop (length host) frame).

(** isdigit ( *pnum ) ? htons (atoi (pnum)) : getservbyname (pnum, "tcp")->s_port *)
Definition port_of (pnum : list Z) : res Z :=
  match pnum with
  | [] => Ub OobRead
  | c :: _ =>
      if isdigit c then if forallb isdigit pnum then Ub OobRead else Ok (u16 (atoi pnum))
      else let! name := array_text pnum in
           match getservbyname name with None => Ub NullDeref | Some port => Ok port end
  end.

(** The name in lhost, and the port; None: the service ftp has no entry. *)
Definition split_host (lhost : list Z) : res (list Z * option Z) :=
  match strchr (c_string lhost) 58 with
  | Some n => let! port := port_of (drop (S n) lhost) in Ok (take n lhost, Some port)
  | None => let! name := array_text lhost in Ok (name, getservbyname (str "ftp"))
  end.

Definition OpenConnectByHost (cli : FtpsClient) (host : list Z) : M (Z * FtpsClient) :=
  frame ← frame;
  lhost ← lift (lhost_of host frame);
  '(name, port) ← lift (split_host lhost);
  match port with
  | None => mret (0, cli)
  | Some port =>
      match (match inet_aton name with
             | Some addr => Some (addr, snprintf 16 name)
             | None => (fun addr => (addr, snprintf 16 (inet_ntoa addr))) <$> gethostbyname name
             end) with
      | None => mret (-1, cli)
      | Some (addr, text) =>
          let cli := set_ip text cli in
          sControl ← socket;
          if sControl =? -1 then mret (-1, cli)
          else
            reuse ← setsockopt;
            if negb reuse then mret (-1, cli)
            else
              linger ← setsockopt;
              if negb linger then close (Some sControl);; mret (-1, cli)
              else
                ok ← connect addr port;
                if negb ok then mret (-1, cli) else mret (0, set_conn sControl cli)
      end
  end.

Definition InitSSL (cli : FtpsClient) : M (Z * FtpsClient) :=
  ok ← SSL_CTX_new;
  let cli := set_ctx ok cli in
  if negb (ctx cli) then mret (-1, cli)
  else
    ok ← SSL_new;
    let cli := set_ssl ok cli in
    if negb (ctx cli) then mret (-1, cli) else mret (0, cli).

Definition NegoSSL (cli : FtpsClient) : M Z :=
  match connfd cli with
  | None => fault Uninit
  | Some _ =>
      if negb (ssl cli) then fault NullDeref
      else ok ← answer Handshake; mret (if ok : bool then 0 else -1)
  end.

Definition EnRecv (cli : FtpsClient) (recvlen : nat) : M (Z * list Z) :=
  if ssl cli then SSL_read (chan cli) recvlen else fault NullDeref.

Definition EnSend (cli : FtpsClient) (sendbuf : list Z) : M Z :=
  if ssl cli then ok ← SSL_write (chan cli) sendbuf; mret (if ok : bool then 0 else -1) else fault NullDeref.

Definition PrintResp (cli : FtpsClient) : M Z :=
  '(_, recvbuf) ← EnRecv cli 1024;
  _ ← lift (buffer_text 1024 recvbuf);
  mret 0.

Definition FtpsConn (cli : FtpsClient) (host : list Z) : M (Z * FtpsClient) :=
  '(ret, cli) ← OpenConnectByHost cli host;
  if negb (ret =? 0) then mret (-1, cli)
  else
    '(ret, cli) ← InitSSL cli;
    if negb (ret =? 0) then mret (-1, cli)
    else ret ← NegoSSL cli; mret (if ret =? 0 then 0 else -1, cli).

Definition PROT_P_CMD : list Z := str "PROT P" ++ crlf.
Definition PBSZ_0_CMD : list Z := str "PBSZ 0" ++ crlf.
Definition AUTH_SSL_CMD : list Z := str "AUTH SSL" ++ crlf.
Definition AUTH_TLS_CMD : list Z := str "AUTH_TLS" ++ crlf.
Definition TYPE_A_CMD : list Z := str "TYPE A" ++ crlf.
Definition TYPE_I_CMD : list Z := str "TYPE I" ++ crlf.
Definition PASV_CMD : list Z := str "PASV" ++ crlf.
Definition QUIT_CMD : list Z := str "QUIT" ++ crlf.

Definition SetConnType (cli : FtpsClient) (type : Z) : M Z :=
  EnSend cli PROT_P_CMD;; PrintResp cli;;
  EnSend cli PBSZ_0_CMD;; PrintResp cli;;
  if type =? 1 then
    EnSend cli AUTH_SSL_CMD;; PrintResp cli;;
    EnSend cli AUTH_TLS_CMD;; PrintResp cli;;
    mret 0
  else mret 0.

Definition FtpsLogin (cli : FtpsClient) (user pass : list Z) : M Z :=
  SetConnType cli 1;;
  EnSend cli (snprintf 1024 (str "USER " ++ user ++ crlf));; PrintResp cli;;
  EnSend cli (snprintf 1024 (str "PASS " ++ pass ++ crlf));; PrintResp cli;;
  mret 0.

(** The fields of the block malloc gives are not written. *)
Definition OpenFtpsClient (host : list Z) : M (option FtpsClient) :=
  ok ← malloc;
  if negb ok then mret None
  else
    '(failed, cli) ← FtpsConn (Client Control false false None []) host;
    if failed =? -1 then mret None
    else PrintResp cli;; mret (Some cli).

(** ** Transfers *)

(** "%d %s %s %s (%d,%d,%d,%d,%d,%d)." *)
Definition fmt_pasv : list directive :=
  [DInt; DSpace; DStr; DSpace; DStr; DSpace; DStr; DSpace; DLit 40; DInt; DLit 44; DInt; DLit 44; DInt; DLit 44;
   DInt; DLit 44; DInt; DLit 44; DInt; DLit 41; DLit 46].

(** The numbers v[0..6], zero when not assigned; str1, str2 and str3 have 32 bytes. *)
Definition scan_pasv (text : list Z) : res (Z -> Z) :=
  let items := sscanf text fmt_pasv in
  if forallb (fun i => match i with SStr w => (length w <? 32)%nat | SInt _ => true end) items then
    let v k := match items !! Z.to_nat (if k =? 0 then 0 else k + 3) with Some (SInt n) => n | _ => 0 end in Ok v
  else Ub OobWrite.

(** port = v[5] * 256 + v[6] *)
Definition pasv_port (v : Z -> Z) : res Z :=
  if int_range (v 5 * 256) && int_range (v 5 * 256 + v 6) then Ok (v 5 * 256 + v 6) else Ub IntOverflow.

Definition FtpsOpenPasvSockConn (cli datahandle : FtpsClient) : M (Z * FtpsClient) :=
  EnSend cli PASV_CMD;;
  '(_, buff) ← EnRecv cli 512;
  text ← lift (buffer_text 512 buff);
  match strchr text 40 with
  | None => mret (-1, datahandle)
  | Some _ =>
      v ← lift (scan_pasv text);
      port ← lift (pasv_port v);
      let host := snprintf 256 (ip cli ++ [58] ++ print_int port) in
      '(ret, datahandle) ← OpenConnectByHost datahandle host;
      mret (if ret <? 0 then -1 else 0, datahandle)
  end.

Definition FtpsOpenPasvSslConn (cli datahandle : FtpsClient) : M (Z * FtpsClient) :=
  ok ← (if ctx cli then SSL_new else mret false);
  let datahandle := set_ssl ok datahandle in
  if negb (ssl datahandle) then close (connfd datahandle);; mret (-1, datahandle)
  else success ← answer Handshake; mret (if success : bool then 0 else -1, datahandle).

(** The arguments are not NULL: the callers have tested them. *)
Definition FtpsOpenPasvDataConn (cli datahandle : FtpsClient) (cmd : list Z) : M (Z * FtpsClient) :=
  '(failed, datahandle) ← FtpsOpenPasvSockConn cli datahandle;
  if negb (failed =? 0) then mret (-1, datahandle)
  else
    EnSend cli TYPE_I_CMD;; PrintResp cli;;
    EnSend cli cmd;;
    '(_, buff) ← EnRecv cli 1024;
    if default 0 (head buff) =? 53 then
      _ ← lift (buffer_text 1024 buff);
      close (connfd datahandle);; mret (-1, datahandle)
    else
      '(failed, datahandle) ← FtpsOpenPasvSslConn cli datahandle;
      if negb (failed =? 0) then close (connfd datahandle);; mret (-1, datahandle)
      else mret (0, datahandle).

Definition CloseFtpsClient (cli : option FtpsClient) : M Z :=
  match cli with
  | None => mret 0
  | Some cli =>
      (if ssl cli then count (-1) 0 0 0 else mret tt);;
      (if ctx cli then count 0 (-1) 0 0 else mret tt);;
      close (connfd cli);; count 0 0 (-1) 0;; mret 0
  end.

Definition CloseFtpsDataConn (cli datahandle : FtpsClient) : M Z :=
  EnSend cli QUIT_CMD;; CloseFtpsClient (Some datahandle);; mret 0.

(** datahandle after bzero *)
Definition zero_client : FtpsClient := Client Data false false (Some 0) [].

(** while ((len = SSL_read (...)) > 0) *)
Fixpoint download_loop (fuel : nat) (datahandle : FtpsClient) : M unit :=
  match fuel with
  | O => fault NoReturn
  | S fuel =>
      '(len, buff) ← EnRecv datahandle 1024;
      if 0 <? len then
        n ← fwrite buff;
        if n <=? 0 then mret tt else download_loop fuel datahandle
      else mret tt
  end.

(** Every pass takes a byte or more. *)
Definition download_fuel (c : channel) (s : state) : nat := S (length (concat (reads (net s) c))).

Definition download (datahandle : FtpsClient) : M unit :=
  fun s => download_loop (download_fuel (chan datahandle) s) datahandle s.

(** while ((len = fread (buff, 1, 1024, fp)) > 0), with [text] the rest of the file *)
Fixpoint upload_loop (fuel : nat) (datahandle : FtpsClient) (text : list Z) : M unit :=
  match fuel with
  | O => fault NoReturn
  | S fuel =>
      if 0 <? zlen (take 1024 text) then
        ret ← EnSend datahandle (take 1024 text);
        if ret <? 0 then mret tt else upload_loop fuel datahandle (drop 1024 text)
      else mret tt
  end.

Definition upload (datahandle : FtpsClient) (text : list Z) : M unit :=
  upload_loop (S (length text)) datahandle text.

(** The code the two transfers share; the sources have it twice. *)
Definition transfer (cli : option FtpsClient) (localpath : option (list Z)) (mode cmd : list Z)
    (loop : FtpsClient -> list Z -> M unit) : M Z :=
  match cli with
  | None => mret (-1)
  | Some cli =>
      let localpath := default (str "./temp.record") localpath in
      ok ← malloc;
      if negb ok then mret (-1)
      else
        fp ← fopen localpath mode;
        match fp with
        | None => mret (-1)
        | Some text =>
            '(failed, datahandle) ← FtpsOpenPasvDataConn cli zero_client cmd;
            if negb (failed =? 0) then mret (-1)
            else loop datahandle text;; CloseFtpsDataConn cli datahandle;; fclose;; mret 0
        end
  end.

Definition FtpsAccessDataByPasvMode (cli : option FtpsClient) (localpath : option (list Z)) (cmd : list Z) : M Z :=
  transfer cli localpath (str "wb+") cmd (fun datahandle _ => download datahandle).

Definition FtpsUploadDataByPasvMode (cli : option FtpsClient) (localpath : option (list Z)) (cmd : list Z) : M Z :=
  transfer cli localpath (str "rb") cmd upload.

Definition FtpsGet (cli : option FtpsClient) (localpath : option (list Z)) (remotepath : list Z) : M Z :=
  failed ← FtpsAccessDataByPasvMode cli localpath (snprintf 256 (str "RETR " ++ remotepath ++ crlf));
  mret (if failed =? 0 then 0 else -1).

Definition FtpsPut (cli : option FtpsClient) (remotepath : list Z) (localpath : option (list Z)) : M Z :=
  failed ← FtpsUploadDataByPasvMode cli localpath (snprintf 256 (str "STOR " ++ remotepath ++ crlf));
  mret (if failed =? 0 then 0 else -1).

Definition FtpsDir (cli : option FtpsClient) (localpath : option (list Z)) (remotepath : list Z) : M Z :=
  failed ← FtpsAccessDataByPasvMode cli localpath (snprintf 1024 (str "LIST -aL " ++ remotepath ++ crlf));
  mret (if failed =? 0 then 0 else -1).

(** The result, and the value stored through the pointer. *)
Definition FtpsSize (cli : FtpsClient) (path : list Z) : M (Z * option Z) :=
  EnSend cli (snprintf 256 TYPE_A_CMD);;
  '(_, buff) ← EnRecv cli 1024;
  _ ← lift (buffer_text 1024 buff);
  EnSend cli (snprintf 256 (str "SIZE " ++ path ++ crlf));;
  '(_, buff) ← EnRecv cli 1024;
  text ← lift (buffer_text 1024 buff);
  mret (match sscanf text [DULong; DSpace; DULong] with
        | [SInt _; SInt sz] => (0, Some sz)
        | _ => (-1, None)
        end).

Definition FtpsChdir (cli : FtpsClient) (path : option (list Z)) : M Z :=
  match path with
  | None => mret 0
  | Some path =>
      let buf := str "CWD " ++ path ++ crlf in
      if (256 <=? length buf)%nat then fault OobWrite
      else
        ret ← EnSend cli buf;
        if ret <? 0 then mret (-1)
        else
          '(ret, buf) ← EnRecv cli 256;
          if ret <=? 0 then mret (-1)
          else
            _ ← lift (buffer_text 256 buf);
            mret (if default 0 (head buf) =? 53 then -1 else 0)
  end.

(** main, on argv. *)
Definition main (argv : list (list Z)) : M Z :=
  match argv with
  | [_; command; arg2; arg3; addr; port; user; pass] =>
      let host := addr ++ [58] ++ port in
      if (24 <=? length host)%nat then fault OobWrite
      else
        cli ← OpenFtpsClient host;
        match cli with
        | None => mret (-1)
        | Some cli =>
            failed ← FtpsLogin cli user pass;
            if negb (failed =? 0) then mret (-1) else
            failed ← (if bool_decide (command = str "get") then FtpsGet (Some cli) (Some arg2) arg3
                      else if bool_decide (command = str "put") then FtpsPut (Some cli) arg2 (Some arg3)
                      else mret 0);
            if negb (failed =? 0) then mret (-1) else CloseFtpsClient (Some cli);; mret 0
        end
  | _ => mret (-1)
  end.

End Client.
