(* ===== verification/FtpsTransfer.v ===== *)
(** What the transfers of the FTPS client do and what they leave open: a weakest-precondition
    calculus over the monad of Ftps.v, for partial and for total correctness, the account
    of descriptors, sessions, blocks and files, and a run in which the server plays along. *)

From stdpp Require Import gmap.
From S2P Require Import Prelude CLib Ftps.

Open Scope c_scope.
Open Scope Z_scope.

Section Transfer.
Context `{Resolver}.

(** ** Leaks *)

(** [moved s t f ds dc db df]: from [s] to [t] the descriptors changed by [f], the other counts
    by the differences. *)
Definition moved (s t : state) (f : gset Z -> gset Z) (ds dc db df : Z) : Prop :=
  fds t = f (fds s) /\ ssls t = ssls s + ds /\ ctxs t = ctxs s + dc /\ blocks t = blocks s + db /\ files t = files s + df.

(** Nothing was opened or closed, nor a socket asked for. *)
Definition same (s t : state) : Prop := moved s t id 0 0 0 0 /\ sockets (net t) = sockets (net s).

Lemma same_refl s : same s s.
Proof. repeat split; unfold id; lia. Qed.

Lemma same_trans s t r : same s t -> same t r -> same s r.
Proof.
  intros [(A1 & A2 & A3 & A4 & A5) A6] [(B1 & B2 & B3 & B4 & B5) B6]. unfold id in *.
  repeat split; unfold id; first [congruence|lia].
Qed.

Lemma moved_same s t r f a b c d : moved s t f a b c d -> same t r -> moved s r f a b c d.
Proof.
  intros (A1 & A2 & A3 & A4 & A5) [(B1 & B2 & B3 & B4 & B5) _]. unfold id in *.
  repeat split; first [congruence|lia].
Qed.

Lemma same_moved s t r f a b c d : same s t -> moved t r f a b c d -> moved s r f a b c d.
Proof.
  intros [(B1 & B2 & B3 & B4 & B5) _] (A1 & A2 & A3 & A4 & A5). unfold id in *.
  repeat split; first [congruence|lia].
Qed.

Lemma moved_moved s t r f g a b c d a' b' c' d' :
  moved s t f a b c d -> moved t r g a' b' c' d' -> moved s r (fun l => g (f l)) (a + a') (b + b') (c + c') (d + d').
Proof.
  intros (A1 & A2 & A3 & A4 & A5) (B1 & B2 & B3 & B4 & B5). repeat split; first [congruence|lia].
Qed.

#[local] Instance same_preorder : PreOrder same.
Proof. split; [exact same_refl|exact same_trans]. Qed.

(** Operations that open and close nothing. *)
Local Abbreviation Keeps := (Preserves same).

Lemma same_set_net n s : sockets n = sockets (net s) -> same s (set_net n s).
Proof. intros E. repeat split; unfold id; cbn; [lia..|done]. Qed.

#[local] Instance keeps_emit a : Keeps (emit a).
Proof. intros s. repeat split; unfold id; cbn; lia. Qed.
#[local] Instance keeps_answer c : Keeps (answer c).
Proof. intros s. unfold wpu, answer. destruct (answers _ _); [apply same_refl|by apply same_set_net]. Qed.
#[local] Instance keeps_read c n : Keeps (SSL_read c n).
Proof. intros s. unfold wpu, SSL_read. destruct (reads _ _); [apply same_refl|by apply same_set_net]. Qed.
#[local] Instance keeps_frame : Keeps frame.
Proof. intros s. unfold wpu, frame. destruct (frames _); [apply same_refl|by apply same_set_net]. Qed.
#[local] Instance keeps_fwrite bytes : Keeps (fwrite bytes).
Proof.
  intros s. unfold wpu, fwrite. destruct (fwrites _); (repeat split; unfold id; cbn; lia).
Qed.
#[local] Instance keeps_send cli b : Keeps (EnSend cli b).
Proof. unfold EnSend, SSL_write. apply _. Qed.
#[local] Instance keeps_recv cli n : Keeps (EnRecv cli n).
Proof. unfold EnRecv. apply _. Qed.
#[local] Instance keeps_resp cli : Keeps (PrintResp cli).
Proof. unfold PrintResp. apply _. Qed.
#[local] Instance keeps_connect addr port : Keeps (connect addr port).
Proof. unfold connect. apply _. Qed.
#[local] Instance keeps_setsockopt : Keeps setsockopt.
Proof. unfold setsockopt. apply _. Qed.

#[local] Instance keeps_download_loop fuel d : Keeps (download_loop fuel d).
Proof. induction fuel as [|fuel IH]; cbn [download_loop]; apply _. Qed.
#[local] Instance keeps_download d : Keeps (download d).
Proof. intros s. exact (keeps_download_loop _ _ s). Qed.
#[local] Instance keeps_upload d text : Keeps (upload d text).
Proof.
  unfold upload. generalize (S (length text)) as fuel. intros fuel.
  revert text. induction fuel as [|fuel IH]; intros text; cbn [upload_loop]; apply _.
Qed.

(** *** The calls that open and close *)

Lemma wp_count_open u ds dc db df (Q : unit -> state -> Prop) s :
  (forall t, moved s t id ds dc db df -> sockets (net t) = sockets (net s) -> Q tt t) -> wpu u (count ds dc db df) Q s.
Proof. intros HQ. apply HQ; repeat split. Qed.

Lemma wp_close_fd u fd (Q : unit -> state -> Prop) s :
  (forall t, moved s t (fun l => l ∖ {[fd]}) 0 0 0 0 -> Q tt t) -> wpu u (close (Some fd)) Q s.
Proof. intros HQ. apply HQ. repeat split; cbn; lia. Qed.

Lemma wp_ssl_new (Q : bool -> state -> Prop) s :
  (forall ok t, moved s t id (holds ok) 0 0 0 -> Q ok t) -> wlp SSL_new Q s.
Proof.
  intros HQ. unfold SSL_new. apply wp_bind, (wp_preserves same); [apply _|]. intros ok t Ht.
  apply wp_bind, wp_count_open. intros r Hr _. apply wp_ret, HQ. eapply same_moved; eauto.
Qed.

Lemma wp_malloc (Q : bool -> state -> Prop) s :
  (forall ok t, moved s t id 0 0 (holds ok) 0 -> sockets (net t) = sockets (net s) -> log t = log s -> Q ok t) ->
  wlp malloc Q s.
Proof.
  intros HQ. unfold wpu, malloc, mbind, ST_bind, answer. destruct (answers (net s) Malloc) as [|ok rest]; cbn [res_bind];
    apply HQ; repeat split; unfold id; cbn; lia.
Qed.

Lemma wp_fopen path mode (Q : option (list Z) -> state -> Prop) s :
  (forall f t, moved s t id 0 0 0 (match f with Some _ => 1 | None => 0 end) ->
     sockets (net t) = sockets (net s) -> (f = None -> log t = log s) -> Q f t) ->
  wlp (fopen path mode) Q s.
Proof.
  intros HQ. unfold wpu, fopen. destruct (match fopens (net s) with [] => _ | _ => _ end) as [[text|] rest];
    apply HQ; try done; repeat split; unfold id; cbn; lia.
Qed.

(** The kernel does not give a descriptor that is in use. *)
Definition fresh (s : state) : Prop := Forall (fun fd => 0 <= fd -> fd ∉ fds s) (sockets (net s)).

Lemma fresh_same s t : same s t -> fresh s -> fresh t.
Proof. intros [(E & _) Es]. unfold fresh, id in *. by rewrite E, Es. Qed.

Lemma wp_socket (Q : Z -> state -> Prop) s :
  fresh s ->
  (forall t, moved s t id 0 0 0 0 -> Q (-1) t) ->
  (forall fd t, 0 <= fd -> fd ∉ fds s -> moved s t (union {[fd]}) 0 0 0 0 -> Q fd t) -> wlp socket Q s.
Proof.
  intros F H1 H2. unfold wpu, socket. unfold fresh in F. destruct (sockets (net s)) as [|fd rest]; [apply H1, same_refl|].
  apply Forall_cons in F as [F _]. destruct (Z.ltb_spec fd 0) as [Hfd|Hfd].
  - apply H1. repeat split; unfold id; cbn; lia.
  - apply H2; [done|auto|]. repeat split; cbn; lia.
Qed.

(** *** Opening the data connection *)

(** The bytes of an address: no NUL and no colon. *)
Definition plain_name (name : list Z) : Prop := Forall (fun c => c <> 0 /\ c <> 58) name.

Lemma split_host_colon name rest :
  plain_name name -> split_host (name ++ 58 :: rest) = let! port := port_of rest in Ok (name, Some port).
Proof.
  intros F. unfold split_host.
  assert (strchr (c_string (name ++ 58 :: rest)) 58 = Some (length name)) as ->.
  { unfold c_string. induction F as [|c name [H0 H58] F IH]; [by cbn; destruct (span _ rest)|]. cbn [app span].
    rewrite (proj2 (Z.eqb_neq c 0)) by done. cbn [negb]. destruct (span _ (name ++ _)) as [m r]. cbn [fst] in *.
    cbn [strchr]. by rewrite (proj2 (Z.eqb_neq c 58)), IH by done. }
  rewrite take_app_length, (drop_app_ge name) by lia. by replace (S (length name) - length name)%nat with 1%nat by lia.
Qed.

(** A failed attempt leaves at most a descriptor behind. *)
Definition one_lost (s t : state) : Prop :=
  moved s t id 0 0 0 0 \/ exists fd, moved s t (union {[fd]}) 0 0 0 0.

(** [conn]: the descriptor is open after a success. *)
Definition opened (s t : state) (d : FtpsClient) (ds : Z) : Prop :=
  exists fd, connfd d = Some fd /\ fd ∉ fds s /\ moved s t (union {[fd]}) ds 0 0 0.

Lemma moved_closed s t r fd ds : fd ∉ fds s ->
  moved s t (union {[fd]}) ds 0 0 0 -> moved t r (fun l => l ∖ {[fd]}) 0 0 0 0 -> moved s r id ds 0 0 0.
Proof.
  intros Hfd (A1 & A2 & A3 & A4 & A5) (B1 & B2 & B3 & B4 & B5).
  repeat split; unfold id; [|lia..]. rewrite B1, A1. set_solver.
Qed.

Lemma wp_open_host d name rest (Q : Z * FtpsClient -> state -> Prop) s :
  plain_name name -> fresh s ->
  (forall d' t, opened s t d' 0 -> ctx d' = ctx d -> chan d' = chan d -> Q (0, d') t) ->
  (forall d' t, one_lost s t -> Q (-1, d') t) ->
  wlp (OpenConnectByHost d (name ++ 58 :: rest)) Q s.
Proof.
  intros Hn Hs H0 H1. unfold OpenConnectByHost. apply wp_bind, (wp_preserves same); [apply _|]. intros fr t1 E1.
  apply wp_bind, wp_lift. unfold lhost_of. destruct (_ <? _)%nat; [exact I|].
  apply wp_bind, wp_lift. rewrite <- app_assoc. cbn [app]. rewrite split_host_colon by done.
  destruct (port_of _) as [port|]; cbn [res_bind]; [|exact I].
  destruct (match inet_aton name with Some _ => _ | None => _ end) as [[addr text]|]; cycle 1.
  { apply wp_ret, H1. left. apply E1. }
  apply wp_bind, wp_socket; [by apply (fresh_same s)| |].
  { intros t Ht. apply wp_ret, H1. left. by eapply same_moved. }
  intros fd t2 Hfd Hf E2. rewrite (proj2 (Z.eqb_neq fd (-1))) by lia.
  assert (moved s t2 (union {[fd]}) 0 0 0 0) as E by by eapply same_moved.
  assert (fd ∉ fds s) as Hfs. { destruct E1 as [(E1 & _) _]. unfold id in E1. by rewrite <- E1. }
  clear t1 E1 Hf E2. apply wp_bind, (wp_preserves same); [apply _|]. intros [] t3 E3; cbn [negb]; cycle 1.
  { apply wp_ret, H1. right. exists fd. by eapply moved_same. }
  apply wp_bind, (wp_preserves same); [apply _|]. intros [] t4 E4; cbn [negb]; cycle 1.
  { apply wp_bind, wp_close_fd. intros t5 E5. apply wp_ret, H1. left.
    eapply moved_closed; [exact Hfs| |exact E5]. eapply moved_same; [|exact E4]. by eapply moved_same. }
  apply wp_bind, (wp_preserves same); [apply _|]. intros ok t5 E5.
  assert (moved s t5 (union {[fd]}) 0 0 0 0) as Es.
  { eapply moved_same; [|exact E5]. eapply moved_same; [|exact E4]. by eapply moved_same. }
  destruct ok; cbn [negb]; apply wp_ret; [apply H0; [|done..]|apply H1; right]; by exists fd.
Qed.

(** What a failed attempt to open the data connection leaves behind. *)
Definition lost (s t : state) : Prop :=
  moved s t id 0 0 0 0 \/ moved s t id 1 0 0 0 \/ exists fd, moved s t (union {[fd]}) 0 0 0 0.

Lemma wp_open_ssl cli d (Q : Z * FtpsClient -> state -> Prop) s s0 :
  opened s0 s d 0 -> ctx d = false ->
  (forall d' t, opened s0 t d' 1 -> ssl d' = true -> ctx d' = false -> Q (0, d') t) ->
  (forall d' t, connfd d' = connfd d -> opened s0 t d' 1 \/ moved s0 t id 0 0 0 0 -> Q (-1, d') t) ->
  wlp (FtpsOpenPasvSslConn cli d) Q s.
Proof.
  intros (fd & Ed & Hfd & E) Hc H0 H1. unfold FtpsOpenPasvSslConn.
  apply wp_bind, (wp_mono _ (fun ok t => moved s t id (holds ok) 0 0 0)).
  { destruct (ctx cli); [apply wp_ssl_new; auto|]. apply wp_ret. repeat split; unfold id; cbn; lia. }
  intros [] t Ht; cbn [negb set_ssl ssl holds] in *.
  - apply wp_bind, (wp_preserves same); [apply _|]. intros ok r Hr.
    assert (moved s0 r (union {[fd]}) 1 0 0 0) as Er.
    { eapply moved_same; [|exact Hr]. exact (moved_moved _ _ _ _ _ _ _ _ _ _ _ _ _ E Ht). }
    destruct ok; apply wp_ret; [apply H0; try done; by exists fd|apply H1; [done|left; by exists fd]].
  - apply wp_bind. change (connfd (set_ssl false d)) with (connfd d). rewrite Ed. apply wp_close_fd.
    intros r Hr. apply wp_ret, H1; [done|]. right. eapply moved_closed; [exact Hfd| |exact Hr].
    exact (moved_moved _ _ _ _ _ _ _ _ _ _ _ _ _ E Ht).
Qed.

(** What snprintf ("%s", sizeof (cli->ip)) stores of an address. *)
Definition client_ok (cli : FtpsClient) : Prop := plain_name (ip cli) /\ (length (ip cli) <= 15)%nat.

Lemma pasv_host name port : (length name <= 15)%nat -> int_range port = true ->
  snprintf 256 (name ++ [58] ++ print_int port) = name ++ 58 :: print_int port.
Proof.
  intros Hl Hp. apply take_ge. unfold int_range, INT_MIN, INT_MAX in Hp.
  pose proof (print_int_length port ltac:(lia)). cbn [app]. rewrite length_app. cbn [length]. lia.
Qed.

Lemma wp_open_sock cli d (Q : Z * FtpsClient -> state -> Prop) s :
  client_ok cli -> fresh s ->
  (forall d' t, opened s t d' 0 -> ctx d' = ctx d -> chan d' = chan d -> Q (0, d') t) ->
  (forall d' t, one_lost s t -> Q (-1, d') t) ->
  wlp (FtpsOpenPasvSockConn cli d) Q s.
Proof.
  intros [Hn Hl] Hs H0 H1. unfold FtpsOpenPasvSockConn.
  apply wp_bind, (wp_preserves same); [apply _|]. intros _ t1 E1. apply wp_bind, (wp_preserves same); [apply _|]. intros [_ buff] t2 E2.
  apply wp_bind, wp_lift. destruct (buffer_text 512 buff) as [text|]; [|exact I].
  assert (same s t2) as E by by eapply same_trans. clear t1 E1 E2.
  destruct (strchr text 40); [|apply wp_ret, H1; left; apply E].
  apply wp_bind, wp_lift. destruct (scan_pasv text) as [v|]; [|exact I].
  apply wp_bind, wp_lift. unfold pasv_port. destruct (int_range (v 5 * 256) && _) eqn:Hp; [|exact I].
  apply andb_true_iff in Hp as [_ Hp]. rewrite pasv_host by done.
  apply wp_bind, wp_open_host; [done|by apply (fresh_same s)| |].
  - intros d' t (fd & Ed & Hfd & Et) Hc Hch. apply wp_ret, H0; [|done..]. exists fd. split_and!; [done| |by eapply same_moved].
    destruct E as [(E & _) _]. unfold id in E. by rewrite <- E.
  - intros d' t Ht. apply wp_ret, H1. destruct Ht as [Ht|[fd Ht]]; [left|right; exists fd]; by eapply same_moved.
Qed.

Lemma wp_open_data cli cmd (Q : Z * FtpsClient -> state -> Prop) s :
  client_ok cli -> fresh s ->
  (forall d' t, opened s t d' 1 -> ssl d' = true -> ctx d' = false -> Q (0, d') t) ->
  (forall d' t, lost s t -> Q (-1, d') t) ->
  wlp (FtpsOpenPasvDataConn cli zero_client cmd) Q s.
Proof.
  intros Hc Hs H0 H1. unfold FtpsOpenPasvDataConn. apply wp_bind, wp_open_sock; [done..| |]; cycle 1.
  { intros d' t [Ht|Ht]; apply wp_ret, H1; [by left|by right; right]. }
  intros d t (fd & Ed & Hfd & E) Hd _. cbn [negb Z.eqb]. change (ctx zero_client) with false in Hd.
  do 3 (apply wp_bind, (wp_preserves same); [apply _|]; intros ? ? ?).
  apply wp_bind, (wp_preserves same); [apply _|]. intros [? buff] t4 E4.
  assert (moved s t4 (union {[fd]}) 0 0 0 0) as Es by (repeat (eapply moved_same; [|eassumption]); done).
  destruct (_ =? 53).
  - apply wp_bind, wp_lift. destruct (buffer_text 1024 buff); [|exact I]. apply wp_bind. rewrite Ed. apply wp_close_fd.
    intros r Hr. apply wp_ret, H1. left. by eapply moved_closed.
  - apply wp_bind, (wp_open_ssl _ _ _ _ s); [by exists fd|done| |].
    + intros d' r Hr Hss Hcc. by apply wp_ret, H0.
    + intros d' r Ed' Hr. cbn [negb Z.eqb]. apply wp_bind. rewrite Ed', Ed. apply wp_close_fd. intros q Hq. apply wp_ret, H1.
      destruct Hr as [(fd' & E' & Hfd' & Hr)|Hr].
      * right; left. rewrite Ed', Ed in E'. injection E' as [= <-]. by eapply moved_closed.
      * left. destruct Hr as (A1 & A2 & A3 & A4 & A5), Hq as (B1 & B2 & B3 & B4 & B5).
        repeat split; unfold id in *; [|lia..]. rewrite B1, A1. set_solver.
Qed.

Lemma wp_close_data cli d fd s0 (Q : Z -> state -> Prop) s b f :
  connfd d = Some fd -> fd ∉ fds s0 -> ssl d = true -> ctx d = false -> moved s0 s (union {[fd]}) 1 0 b f ->
  (forall t, moved s0 t id 0 0 (b - 1) f -> Q 0 t) -> wlp (CloseFtpsDataConn cli d) Q s.
Proof.
  intros Ed Hfd Hs Hc E HQ. unfold CloseFtpsDataConn, CloseFtpsClient. rewrite Hs, Hc, Ed.
  apply wp_bind, (wp_preserves same); [apply _|]. intros _ t1 E1. apply wp_bind, wp_bind, wp_count_open. intros t2 E2 _.
  apply wp_bind, wp_ret, wp_bind, wp_close_fd. intros t3 E3. apply wp_bind, wp_count_open. intros t4 E4 _.
  apply wp_ret, wp_ret, HQ. destruct E as (A1 & A2 & A3 & A4 & A5), E1 as [(B1 & B2 & B3 & B4 & B5) _],
    E2 as (C1 & C2 & C3 & C4 & C5), E3 as (D1 & D2 & D3 & D4 & D5), E4 as (F1 & F2 & F3 & F4 & F5).
  unfold id in *. repeat split; [|lia..]. rewrite F1, D1, C1, B1, A1. set_solver.
Qed.

(** The result of a transfer, by what it leaves open: everything is given back after a
    success.  After a failure the block of the data handle is not, nor the local file once it
    is open; neither is a socket that could not be connected, or a session whose handshake
    failed. *)
Inductive leaves (s : state) : Z -> state -> Prop :=
  | leaves_done t : moved s t id 0 0 0 0 -> leaves s 0 t
  | leaves_no_block t : moved s t id 0 0 0 0 -> log t = log s -> leaves s (-1) t
  | leaves_no_file t : moved s t id 0 0 1 0 -> log t = log s -> leaves s (-1) t
  | leaves_file t : moved s t id 0 0 1 1 -> leaves s (-1) t
  | leaves_socket t fd : moved s t (union {[fd]}) 0 0 1 1 -> leaves s (-1) t
  | leaves_session t : moved s t id 1 0 1 1 -> leaves s (-1) t.

Lemma fresh_after s t ds dc db df : moved s t id ds dc db df -> sockets (net t) = sockets (net s) -> fresh s -> fresh t.
Proof. intros (E & _) Es. unfold fresh, id in *. by rewrite E, Es. Qed.

Lemma transfer_leaves cli localpath mode cmd loop s :
  client_ok cli -> fresh s -> (forall d text, Keeps (loop d text)) ->
  wlp (transfer (Some cli) localpath mode cmd loop) (leaves s) s.
Proof.
  intros Hc Hs Hl. unfold transfer. apply wp_bind, wp_malloc. intros [] t1 E1 N1 L1; cbn [negb holds] in *; cycle 1.
  { apply wp_ret. by apply leaves_no_block. }
  apply wp_bind, wp_fopen. intros [text|] t2 E2 N2 L2; cycle 1.
  { apply wp_ret, leaves_no_file; [exact (moved_moved _ _ _ _ _ _ _ _ _ _ _ _ _ E1 E2)|]. rewrite L2; done. }
  pose proof (moved_moved _ _ _ _ _ _ _ _ _ _ _ _ _ E1 E2) as E. cbn [Z.add] in E.
  assert (fds t2 = fds s) as Efds by apply E.
  apply wp_bind, wp_open_data; [done| | |].
  { eapply fresh_after; [exact E| |done]. by rewrite N2. }
  - intros d t3 (fd & Ed & Hfd & E3) Hd Hdc. cbn [negb Z.eqb]. rewrite Efds in Hfd.
    pose proof (moved_moved _ _ _ _ _ _ _ _ _ _ _ _ _ E E3) as E'. cbn [Z.add] in E'.
    apply wp_bind, (wp_preserves same); [apply _|]. intros _ t4 E4.
    apply wp_bind. eapply (wp_close_data _ _ fd s); [done..|by eapply moved_same|]. intros t5 E5.
    apply wp_bind, wp_count_open. intros t6 E6 _. apply wp_ret, leaves_done.
    exact (moved_moved _ _ _ _ _ _ _ _ _ _ _ _ _ E5 E6).
  - intros d t3 [E3|[E3|[fd E3]]]; apply wp_ret;
      [apply leaves_file|apply leaves_session|apply (leaves_socket _ _ fd)];
      exact (moved_moved _ _ _ _ _ _ _ _ _ _ _ _ _ E E3).
Qed.

(** FtpsGet, FtpsPut and FtpsDir. *)
Inductive transfers (cli : FtpsClient) : M Z -> Prop :=
  | transfers_get localpath remotepath : transfers cli (FtpsGet (Some cli) localpath remotepath)
  | transfers_put remotepath localpath : transfers cli (FtpsPut (Some cli) remotepath localpath)
  | transfers_dir localpath remotepath : transfers cli (FtpsDir (Some cli) localpath remotepath).

Lemma transfers_leave cli m s : client_ok cli -> fresh s -> transfers cli m -> wlp m (leaves s) s.
Proof.
  intros Hc Hs []; apply wp_bind; (eapply wp_mono; [apply transfer_leaves; [done..|apply _]|]);
    intros r t Ht; apply wp_ret; assert ((if r =? 0 then 0 else -1) = r) as -> by (destruct Ht; reflexivity);
    exact Ht.
Qed.

(** ** A transfer that goes well *)

(** What is left of the script and the log, when every call to come succeeds. *)
Record view : Type := View {
  ctl : list (list Z); dat : list (list Z); socks : list Z; frms : list (list Z); acts : list action }.

Definition smooth (s : state) (v : view) : Prop :=
  (forall c, answers (net s) c = []) /\ fwrites (net s) = [] /\
  v = View (reads (net s) Control) (reads (net s) Data) (sockets (net s)) (frames (net s)) (log s).

Definition add_act (a : action) (v : view) : view := View (ctl v) (dat v) (socks v) (frms v) (acts v ++ [a]).

Lemma run_answer c s v (Q : bool -> state -> Prop) : smooth s v -> Q true s -> wp (answer c) Q s.
Proof. intros (Ha & _). unfold wpu, answer. by rewrite Ha. Qed.

Lemma run_emit a s v (Q : unit -> state -> Prop) :
  smooth s v -> (forall t, smooth t (add_act a v) -> Q tt t) -> wp (emit a) Q s.
Proof. intros (Ha & Hf & ->) HQ. by apply HQ. Qed.

Lemma run_count ds dc db df s v (Q : unit -> state -> Prop) :
  smooth s v -> (forall t, smooth t v -> Q tt t) -> wp (count ds dc db df) Q s.
Proof. intros (Ha & Hf & ->) HQ. by apply HQ. Qed.

Lemma run_close fd s v (Q : unit -> state -> Prop) :
  smooth s v -> (forall t, smooth t v -> Q tt t) -> wp (close (Some fd)) Q s.
Proof. intros (Ha & Hf & ->) HQ. by apply HQ. Qed.

Lemma run_send cli b s v (Q : Z -> state -> Prop) :
  smooth s v -> ssl cli = true -> (forall t, smooth t (add_act (Send (chan cli) b) v) -> Q 0 t) ->
  wp (EnSend cli b) Q s.
Proof.
  intros Hs Hl HQ. unfold EnSend, SSL_write. rewrite Hl. apply wp_bind, wp_bind, (run_answer _ _ v); [done|].
  apply wp_bind, (run_emit _ _ v); [done|]. intros t Ht. by apply wp_ret, wp_ret, HQ.
Qed.

Lemma run_fwrite b s v (Q : Z -> state -> Prop) :
  smooth s v -> (forall t, smooth t (add_act (Write b) v) -> Q (zlen b) t) -> wp (fwrite b) Q s.
Proof. intros (Ha & Hf & ->) HQ. unfold wpu, fwrite. rewrite Hf. by apply HQ. Qed.

Lemma run_recv cli n b rest s v (Q : Z * list Z -> state -> Prop) :
  smooth s v -> ssl cli = true -> chan cli = Control -> ctl v = b :: rest -> (length b <= n)%nat ->
  (forall t, smooth t (View rest (dat v) (socks v) (frms v) (acts v)) -> Q (zlen b, b) t) ->
  wp (EnRecv cli n) Q s.
Proof.
  intros (Ha & Hf & ->) Hl Hc Ec Hb HQ. unfold EnRecv, wpu, SSL_read. rewrite Hl, Hc. cbn [ctl] in Ec. rewrite Ec.
  rewrite (proj2 (Nat.ltb_ge _ _)), take_ge by lia. by apply HQ.
Qed.

Lemma run_resp cli b rest s v (Q : Z -> state -> Prop) :
  smooth s v -> ssl cli = true -> chan cli = Control -> ctl v = b :: rest -> (length b < 1024)%nat ->
  (forall t, smooth t (View rest (dat v) (socks v) (frms v) (acts v)) -> Q 0 t) -> wp (PrintResp cli) Q s.
Proof.
  intros. apply wp_bind. eapply run_recv; [done..|lia|]. intros t Ht. apply wp_bind, wp_lift.
  unfold buffer_text. rewrite (proj2 (Nat.ltb_lt _ _)) by done. apply wp_ret. auto.
Qed.

(** The reads of the data connection: [chunks], and then the end of the stream or an error. *)
Definition stream (chunks reads : list (list Z)) : Prop :=
  Forall (fun b => b <> []) chunks /\ exists tail, reads = chunks ++ tail /\ default [] (head tail) = [].

Lemma run_download fuel : forall d chunks s v (Q : unit -> state -> Prop),
  smooth s v -> ssl d = true -> chan d = Data -> stream chunks (dat v) -> (length (concat (dat v)) < fuel)%nat ->
  (forall t parts rest, concat parts = concat chunks ->
     smooth t (View (ctl v) rest (socks v) (frms v) (acts v ++ map Write parts)) -> Q tt t) ->
  wp (download_loop fuel d) Q s.
Proof.
  induction fuel as [|fuel IH]; intros d chunks s v Q Hs Hl Hc (Hne & tail & Ed & Ht) Hf HQ; [lia|].
  cbn [download_loop]. destruct chunks as [|b chunks].
  - apply wp_bind. unfold EnRecv. rewrite Hl, Hc. destruct Hs as (Ha & Hw & ->). cbn [dat app] in *.
    unfold wpu, SSL_read. rewrite Ed. destruct tail as [|b tail].
    + cbn. by apply (HQ _ [] []); [|split_and!; [..|rewrite app_nil_r, Ed]].
    + cbn in Ht. subst b. cbn. by apply (HQ _ [] tail); [|split_and!; [..|rewrite app_nil_r]].
  - apply Forall_cons in Hne as [Hb Hne].
    assert (forall s', smooth s' v -> wp (EnRecv d 1024) (fun '(len, buff) t =>
      buff = take 1024 b /\ len = zlen buff /\ smooth t (View (ctl v)
        ((if (1024 <? length b)%nat then [drop 1024 b] else []) ++ chunks ++ tail) (socks v) (frms v) (acts v))) s') as Hr.
    { intros s' (Ha & Hw & Ev). unfold EnRecv. rewrite Hl, Hc. unfold wpu, SSL_read.
      assert (reads (net s') Data = b :: chunks ++ tail) as -> by (rewrite Ev in Ed; exact Ed).
      do 2 (split; [done|]). rewrite Ev. do 2 (split; [done|]). cbn [net set_net reads decide_rel]. by destruct (1024 <? length b)%nat. }
    apply wp_bind. eapply wp_mono; [by apply Hr|]. intros [len buff] t (-> & -> & Hs').
    assert (0 < zlen (take 1024 b)). { destruct b; [done|]. cbn [take]. rewrite zlen_cons. pose proof (zlen_nonneg (take 1023 b)). lia. }
    rewrite (proj2 (Z.ltb_lt _ _)) by done. apply wp_bind. eapply run_fwrite; [done|]. intros t' Ht'.
    rewrite (proj2 (Z.leb_gt _ _)) by done.
    assert (length (concat (dat v)) = length (take 1024 b) + length (drop 1024 b) + length (concat (chunks ++ tail)))%nat as El.
    { rewrite Ed. cbn [app concat]. rewrite !length_app, <- (take_drop 1024 b) at 1. by rewrite length_app. }
    unfold zlen in H0.
    destruct (Nat.ltb_spec 1024 (length b)) as [Hlen|Hlen].
    + eapply (IH d (drop 1024 b :: chunks)); [done..| | |].
      * split; [constructor; [|done]|by exists tail]. intros E%(f_equal length). rewrite length_drop in E. cbn in E. lia.
      * cbn [dat add_act app concat]. rewrite length_app. lia.
      * intros q parts rest Ep Hq. apply (HQ q (take 1024 b :: parts) rest).
        { cbn [concat] in *. rewrite Ep, app_assoc. by rewrite take_drop. }
        cbn [acts add_act] in Hq. by rewrite <- app_assoc in Hq.
    + eapply (IH d chunks); [done..| | |].
      * split; [done|by exists tail].
      * cbn [dat add_act app]. lia.
      * intros q parts rest Ep Hq. apply (HQ q (take 1024 b :: parts) rest).
        { cbn [concat] in *. rewrite Ep, take_ge by lia. done. }
        cbn [acts add_act] in Hq. by rewrite <- app_assoc in Hq.
Qed.

(** *** The PASV reply and the port *)

Lemma starts_digit_isdigit c r : isdigit c = false -> starts_digit 10 (c :: r) = false.
Proof.
  intros Hc. cbn [starts_digit]. unfold digit_value. rewrite Hc. apply Z.ltb_ge.
  destruct ((97 <=? c) && (c <=? 122)) eqn:E; [lia|]. destruct (isupper c) eqn:E2; [|lia]. unfold isupper in E2. lia.
Qed.

Lemma atoi_print n r : 0 <= n <= INT_MAX -> starts_digit 10 r = false -> atoi (print_int n ++ r) = n.
Proof.
  intros Hn Hr. unfold atoi. assert (strtol (print_int n ++ r) 10 = n) as ->.
  { pose proof (scan_print_int n r Hr) as E. unfold scan_number in E. unfold strtol, strto_base. cbn [Z.eqb orb Pos.eqb].
    destruct (sign _) as [neg s1]. destruct (starts_digit 10 s1); [|done].
    destruct (read_digits 10 0 s1) as [v t]. cbn [fst]. injection E as E _. rewrite E.
    unfold clamp, LONG_MIN, LONG_MAX, INT_MAX in *. lia. }
  apply sext_small; unfold INT_MAX in *; lia.
Qed.

(** The port is read with the digits that follow it. *)
Lemma port_of_digits n r : 0 <= n ->
  port_of (print_int n ++ r) = if forallb isdigit r then Ub OobRead else Ok (u16 (atoi (print_int n ++ r))).
Proof.
  intros Hn. unfold port_of, print_int. rewrite (proj2 (Z.ltb_ge _ _)) by lia. pose proof (print_nat_isdigit n Hn) as F.
  destruct (print_nat_spec 10 n ltac:(lia) Hn) as [Ne _]. destruct (print_nat 10 n) as [|x t]; [done|].
  apply Forall_cons in F as [Hx F]. cbn [app forallb]. rewrite Hx. cbn [andb]. rewrite forallb_app.
  replace (forallb isdigit t) with true; [done|]. symmetry. apply forallb_forall. intros y Hy. rewrite Forall_forall in F. by apply F, list_elem_of_In.
Qed.

Lemma atoi_port n c r : 0 <= n < 65536 -> isdigit c = false -> u16 (atoi (print_int n ++ c :: r)) = n.
Proof.
  intros Hn Hc. rewrite atoi_print; [apply Z.mod_small; lia|unfold INT_MAX; lia|by apply starts_digit_isdigit].
Qed.

(** 227 Entering Passive Mode (h1,h2,h3,h4,p1,p2) and what follows *)
Definition pasv_reply (h1 h2 h3 h4 p1 p2 : Z) (tail : list Z) : list Z :=
  str "227 Entering Passive Mode (" ++ print_int h1 ++ 44 :: print_int h2 ++ 44 :: print_int h3 ++ 44 ::
  print_int h4 ++ 44 :: print_int p1 ++ 44 :: print_int p2 ++ 41 :: tail.

Lemma scanned_byte h : 0 <= h < 256 -> s32 (clamp LONG_MIN LONG_MAX h) = h.
Proof.
  intros Hh. assert (clamp LONG_MIN LONG_MAX h = h) as -> by (unfold clamp, LONG_MIN, LONG_MAX; lia).
  apply sext_small; lia.
Qed.

Lemma sscanf_comma h s ds : 0 <= h < 256 ->
  sscanf (print_int h ++ 44 :: s) (DInt :: DLit 44 :: ds) = SInt h :: sscanf s ds.
Proof.
  intros Hh. cbn [sscanf]. rewrite scan_print_int by done. cbn [sscanf Z.eqb Pos.eqb]. by rewrite scanned_byte.
Qed.

Lemma sscanf_pasv h1 h2 h3 h4 p1 p2 tail :
  Forall (fun h => 0 <= h < 256) [h1; h2; h3; h4; p1; p2] ->
  sscanf (pasv_reply h1 h2 h3 h4 p1 p2 tail) fmt_pasv =
  [SInt 227; SStr (str "Entering"); SStr (str "Passive"); SStr (str "Mode");
   SInt h1; SInt h2; SInt h3; SInt h4; SInt p1; SInt p2].
Proof.
  intros F. rewrite !Forall_cons in F. destruct F as (H1 & H2 & H3 & H4 & H5 & H6 & _). unfold pasv_reply.
  assert (forall x, sscanf (str "227 Entering Passive Mode (" ++ x) fmt_pasv =
    [SInt 227; SStr (str "Entering"); SStr (str "Passive"); SStr (str "Mode")] ++ sscanf x (drop 9 fmt_pasv)) as ->
    by reflexivity.
  unfold fmt_pasv. cbn [drop]. rewrite !sscanf_comma by done. cbn [sscanf]. rewrite scan_print_int by done.
  rewrite scanned_byte by done. cbn [Z.eqb Pos.eqb app]. by destruct tail as [|x tail]; [|destruct (x =? 46)].
Qed.

Lemma print_int_small h : 0 <= h < 256 -> Forall (fun c => c <> 0) (print_int h) /\ (length (print_int h) <= 3)%nat.
Proof.
  intros Hh. unfold print_int. rewrite (proj2 (Z.ltb_ge _ _)) by lia. split; [|by apply print_nat_length; lia].
  eapply Forall_impl; [by apply print_nat_isdigit; lia|]. cbn. intros c. unfold isdigit. lia.
Qed.

Lemma c_string_nonzero s : Forall (fun c => c <> 0) s -> c_string s = s.
Proof.
  unfold c_string. induction 1 as [|c s Hc F IH]; [done|]. cbn [span]. rewrite (proj2 (Z.eqb_neq c 0)) by done.
  cbn [negb]. destruct (span _ s) as [m r]. cbn [fst] in *. by rewrite IH.
Qed.

Lemma pasv_reply_text h1 h2 h3 h4 p1 p2 tail :
  Forall (fun h => 0 <= h < 256) [h1; h2; h3; h4; p1; p2] -> Forall (fun c => c <> 0) tail -> (length tail <= 400)%nat ->
  (length (pasv_reply h1 h2 h3 h4 p1 p2 tail) < 512)%nat /\
  buffer_text 512 (pasv_reply h1 h2 h3 h4 p1 p2 tail) = Ok (pasv_reply h1 h2 h3 h4 p1 p2 tail).
Proof.
  intros F Ht Hl. rewrite !Forall_cons in F. destruct F as (H1 & H2 & H3 & H4 & H5 & H6 & _).
  apply print_int_small in H1 as [? ?], H2 as [? ?], H3 as [? ?], H4 as [? ?], H5 as [? ?], H6 as [? ?].
  assert (length (pasv_reply h1 h2 h3 h4 p1 p2 tail) < 512)%nat as E.
  { unfold pasv_reply. repeat (rewrite length_app || cbn [length]). change (length (str _)) with 27%nat. lia. }
  split; [done|]. unfold buffer_text. rewrite (proj2 (Nat.ltb_lt _ _)) by done. f_equal. apply c_string_nonzero.
  unfold pasv_reply. apply Forall_app; split; [apply (bool_decide_unpack _); vm_compute; exact I|].
  repeat (apply Forall_app; split; [done|]; apply Forall_cons; split; [done|]). done.
Qed.

Lemma run_frame fr frs s v (Q : list Z -> state -> Prop) :
  smooth s v -> frms v = fr :: frs ->
  (forall t, smooth t (View (ctl v) (dat v) (socks v) frs (acts v)) -> Q fr t) -> wp frame Q s.
Proof. intros (Ha & Hf & ->) E HQ. cbn [frms] in E. unfold wpu, frame. rewrite E. by apply HQ. Qed.

Lemma run_socket fd ss s v (Q : Z -> state -> Prop) :
  smooth s v -> socks v = fd :: ss -> 0 <= fd ->
  (forall t, smooth t (View (ctl v) (dat v) ss (frms v) (acts v)) -> Q fd t) -> wp socket Q s.
Proof.
  intros (Ha & Hf & ->) E Hfd HQ. cbn [socks] in E. unfold wpu, socket. rewrite E, (proj2 (Z.ltb_ge fd 0)) by done.
  by apply HQ.
Qed.

(** What the array lhost, with [fr] on the stack, holds behind the host and the port; and the port that is read. *)
Definition behind (cli : FtpsClient) (port : Z) (fr : list Z) : list Z := drop (length (ip cli ++ 58 :: print_int port)) fr.
Definition dialled (cli : FtpsClient) (port : Z) (fr : list Z) : Z := u16 (atoi (print_int port ++ behind cli port fr)).

Lemma host_port_short cli port : client_ok cli -> 0 <= port < 65536 -> (length (ip cli ++ 58%Z :: print_int port) <= 24)%nat.
Proof.
  intros [_ Hl] Hp. pose proof (print_nat_length port 5 ltac:(lia) ltac:(lia)) as Hd. rewrite length_app. cbn [length]. unfold print_int.
  rewrite (proj2 (Z.ltb_ge _ _)) by lia. lia.
Qed.

(** The two steps that take the host apart. *)
Lemma split_frame cli port fr : client_ok cli -> 0 <= port < 65536 ->
  exists lhost, lhost_of (ip cli ++ 58 :: print_int port) fr = Ok lhost /\
    split_host lhost = if forallb isdigit (behind cli port fr) then Ub OobRead else Ok (ip cli, Some (dialled cli port fr)).
Proof.
  intros Hc Hp. pose proof (host_port_short cli port Hc Hp) as Hh. destruct Hc as [Hn Hl]. unfold lhost_of.
  rewrite (proj2 (Nat.ltb_ge _ _)) by done. eexists. split; [done|]. fold (behind cli port fr). rewrite <- app_assoc. cbn [app].
  rewrite split_host_colon, port_of_digits by (done || lia). by destruct (forallb _ _).
Qed.

Lemma run_open_host cli d port addr fd ss fr frs s v (Q : Z * FtpsClient -> state -> Prop) :
  smooth s v -> client_ok cli -> inet_aton (ip cli) = Some addr -> 0 <= port < 65536 ->
  socks v = fd :: ss -> 0 <= fd -> frms v = fr :: frs -> forallb isdigit (behind cli port fr) = false ->
  (forall t, smooth t (View (ctl v) (dat v) ss frs (acts v ++ [Connect addr (dialled cli port fr)])) ->
     Q (0, set_conn fd (set_ip (snprintf 16 (ip cli)) d)) t) ->
  wp (OpenConnectByHost d (ip cli ++ 58 :: print_int port)) Q s.
Proof.
  intros Hs Hn Ha Hp Es Hfd Ef Hb HQ. unfold OpenConnectByHost.
  apply wp_bind. eapply run_frame; [done..|]. intros t1 H1.
  destruct (split_frame cli port fr Hn Hp) as (lhost & -> & E). rewrite Hb in E.
  apply wp_bind, wp_lift, wp_bind, wp_lift. rewrite E, Ha.
  apply wp_bind. eapply run_socket; [done..|]. intros t2 H2. rewrite (proj2 (Z.eqb_neq fd (-1))) by lia.
  unfold setsockopt, connect.
  do 2 (apply wp_bind; eapply run_answer; [done|]; cbn [negb]).
  apply wp_bind, wp_bind. eapply run_answer; [done|]. apply wp_bind. eapply run_emit; [done|]. intros t3 H3.
  by apply wp_ret, wp_ret, HQ.
Qed.

(** The answers a session needs for one transfer, [cmd] being the command. *)
Record ready (cli : FtpsClient) (addr port fd : Z) (fr reply type_reply cmd_reply : list Z) (rest : list (list Z))
    (v : view) : Prop := {
  r_cli : client_ok cli;
  r_ssl : ssl cli = true;
  r_ctx : ctx cli = true;
  r_chan : chan cli = Control;
  r_addr : inet_aton (ip cli) = Some addr;
  r_port : 0 <= port < 65536;
  r_fd : 0 <= fd;
  r_ctl : ctl v = reply :: type_reply :: cmd_reply :: rest;
  r_type : (length type_reply < 1024)%nat;
  r_cmd : (length cmd_reply <= 1024)%nat /\ default 0 (head cmd_reply) <> 53;
  r_socks : exists ss, socks v = fd :: ss;
  r_frms : exists frs, frms v = fr :: frs }.

Lemma run_open_data cli addr fd fr h1 h2 h3 h4 p1 p2 tail type_reply cmd_reply rest cmd s v
    (Q : Z * FtpsClient -> state -> Prop) :
  smooth s v -> ready cli addr (p1 * 256 + p2) fd fr (pasv_reply h1 h2 h3 h4 p1 p2 tail) type_reply cmd_reply rest v ->
  Forall (fun h => 0 <= h < 256) [h1; h2; h3; h4; p1; p2] -> Forall (fun c => c <> 0) tail -> (length tail <= 400)%nat ->
  forallb isdigit (behind cli (p1 * 256 + p2) fr) = false ->
  (forall t ss frs, smooth t (View rest (dat v) ss frs (acts v ++ [Send Control PASV_CMD; Connect addr (dialled cli (p1 * 256 + p2) fr);
     Send Control TYPE_I_CMD; Send Control cmd])) -> forall txt, Q (0, Client Data true false (Some fd) txt) t) ->
  wp (FtpsOpenPasvDataConn cli zero_client cmd) Q s.
Proof.
  intros Hs [Rc Rs Rx Rn Ra Rp Rf Rl Rt [Rm Rm'] [ss Rk] [frs Rr]] F Ht Hl Hb HQ.
  destruct (pasv_reply_text h1 h2 h3 h4 p1 p2 tail F Ht Hl) as [L T].
  unfold FtpsOpenPasvDataConn, FtpsOpenPasvSockConn.
  apply wp_bind, wp_bind. eapply run_send; [done..|]. intros t1 H1.
  apply wp_bind. eapply run_recv; [exact H1|done..|exact Rl|lia|]. intros t2 H2. apply wp_bind, wp_lift. rewrite T.
  assert (strchr (pasv_reply h1 h2 h3 h4 p1 p2 tail) 40 = Some 26%nat) as -> by reflexivity.
  apply wp_bind, wp_lift. unfold scan_pasv. rewrite sscanf_pasv by done. cbn [forallb].
  apply wp_bind, wp_lift. rewrite !Forall_cons in F. destruct F as (_ & _ & _ & _ & B1 & B2 & _).
  set (w := fun k : Z => _). assert (pasv_port w = Ok (p1 * 256 + p2)) as ->.
  { unfold pasv_port. change (w 5) with p1. change (w 6) with p2. unfold int_range, INT_MIN, INT_MAX.
    by rewrite !(proj2 (Z.leb_le _ _)) by lia. }
  rewrite pasv_host by (apply Rc || unfold int_range, INT_MIN, INT_MAX; lia).
  apply wp_bind. eapply run_open_host; [exact H2|done|done|lia|exact Rk|done|exact Rr|exact Hb|]. intros t3 H3.
  apply wp_ret. cbn [Z.eqb negb Z.ltb Z.compare].
  apply wp_bind. eapply run_send; [done..|]. intros t4 H4.
  apply wp_bind. eapply run_resp; [exact H4|done..|]. intros t5 H5.
  apply wp_bind. eapply run_send; [done..|]. intros t6 H6.
  apply wp_bind. eapply run_recv; [exact H6|done..|lia|]. intros t7 H7. rewrite (proj2 (Z.eqb_neq _ 53)) by done.
  apply wp_bind. unfold FtpsOpenPasvSslConn. rewrite Rx. unfold SSL_new. apply wp_bind, wp_bind.
  eapply run_answer; [done|]. apply wp_bind. eapply run_count; [done|]. intros t8 H8. apply wp_ret. cbn [set_ssl ssl negb].
  apply wp_bind. eapply run_answer; [done|]. apply wp_ret, wp_ret. eapply HQ.
  cbn [add_act ctl dat socks frms acts] in H8. rewrite !Rn, <- !app_assoc in H8. exact H8.
Qed.

Lemma run_malloc s v (Q : bool -> state -> Prop) :
  smooth s v -> (forall t, smooth t v -> fopens (net t) = fopens (net s) -> Q true t) -> wp malloc Q s.
Proof.
  intros Hs HQ. unfold malloc. apply wp_bind. eapply run_answer; [done|]. apply wp_bind.
  unfold wpu, count. cbn. apply HQ; [|done]. destruct Hs as (? & ? & ->). done.
Qed.

Lemma run_fopen path mode s v (Q : option (list Z) -> state -> Prop) :
  smooth s v -> head (fopens (net s)) <> Some None ->
  (forall text t, smooth t (add_act (Open path mode) v) -> Q (Some text) t) -> wp (fopen path mode) Q s.
Proof.
  intros (Ha & Hf & ->) Ho HQ. unfold wpu, fopen. destruct (fopens (net s)) as [|[text|] rest]; [..|done]; by apply HQ.
Qed.

Lemma run_close_data cli txt fd s v (Q : Z -> state -> Prop) :
  smooth s v -> ssl cli = true -> chan cli = Control ->
  (forall t, smooth t (add_act (Send Control QUIT_CMD) v) -> Q 0 t) ->
  wp (CloseFtpsDataConn cli (Client Data true false (Some fd) txt)) Q s.
Proof.
  intros Hs Hl Hc HQ. unfold CloseFtpsDataConn, CloseFtpsClient. cbn [ssl ctx connfd].
  apply wp_bind. eapply run_send; [done..|]. intros t1 H1. rewrite Hc in H1.
  apply wp_bind, wp_bind. eapply run_count; [done|]. intros t2 H2. apply wp_bind, wp_ret.
  apply wp_bind. eapply run_close; [done|]. intros t3 H3. apply wp_bind. eapply run_count; [done|]. intros t4 H4.
  by apply wp_ret, wp_ret, HQ.
Qed.

(** The log of a download. *)
Definition download_log (path cmd : list Z) (addr port : Z) (parts : list (list Z)) : list action :=
  [Open path (str "wb+"); Send Control PASV_CMD; Connect addr port; Send Control TYPE_I_CMD; Send Control cmd] ++
  map Write parts ++ [Send Control QUIT_CMD].

Lemma run_access cli addr fd fr h1 h2 h3 h4 p1 p2 tail type_reply cmd_reply rest chunks localpath cmd s v :
  smooth s v -> ready cli addr (p1 * 256 + p2) fd fr (pasv_reply h1 h2 h3 h4 p1 p2 tail) type_reply cmd_reply rest v ->
  Forall (fun h => 0 <= h < 256) [h1; h2; h3; h4; p1; p2] -> Forall (fun c => c <> 0) tail -> (length tail <= 400)%nat ->
  forallb isdigit (behind cli (p1 * 256 + p2) fr) = false ->
  head (fopens (net s)) <> Some None -> stream chunks (dat v) ->
  wp (FtpsAccessDataByPasvMode (Some cli) localpath cmd) (fun r t => r = 0 /\ exists parts,
    concat parts = concat chunks /\
    log t = log s ++ download_log (default (str "./temp.record") localpath) cmd addr (dialled cli (p1 * 256 + p2) fr) parts) s.
Proof.
  intros Hs Hr F Ht Hl Hb Ho Hd. assert (acts v = log s) as El by by destruct Hs as (_ & _ & ->).
  unfold FtpsAccessDataByPasvMode, transfer.
  apply wp_bind. eapply run_malloc; [done|]. intros t1 H1 O1. cbn [negb].
  apply wp_bind. eapply run_fopen; [done|by rewrite O1|]. intros text t2 H2.
  apply wp_bind. eapply run_open_data; [exact H2| |done|done|done|exact Hb|].
  { destruct Hr. constructor; eauto. }
  intros t3 ss frs H3 txt. cbn [Z.eqb negb].
  apply wp_bind. unfold download. eapply (run_download _ _ chunks); [exact H3|done|done|exact Hd| |].
  { unfold download_fuel. cbn [chan dat add_act]. destruct H3 as (_ & _ & E).
    apply (f_equal dat) in E. cbn in E. rewrite <- E. lia. }
  intros t4 parts rest' Ep H4. apply wp_bind. eapply run_close_data; [exact H4|apply Hr..|]. intros t5 H5.
  apply wp_bind. eapply run_count; [done|]. intros t6 H6. apply wp_ret. split; [done|]. exists parts. split; [done|].
  destruct H6 as (_ & _ & E). apply (f_equal acts) in E. cbn [acts add_act] in E. rewrite <- E, El.
  unfold download_log. by rewrite <- !app_assoc.
Qed.

(** A step that returns, before one that fails. *)
Lemma fails_bind {A B} (m : M A) (f : A -> M B) s e : wp m (fun a t => f a t = Ub e) s -> (m ≫= f) s = Ub e.
Proof. unfold wpu, mbind, ST_bind. destruct (m s) as [[a t]|e']; [|done]. by cbn [res_bind]. Qed.

Lemma fails_first {A B} (m : M A) (f : A -> M B) s e : m s = Ub e -> (m ≫= f) s = Ub e.
Proof. unfold mbind, ST_bind. by intros ->. Qed.

(** Digits up to the end of the array. *)
Lemma access_digits cli addr fd fr h1 h2 h3 h4 p1 p2 tail type_reply cmd_reply rest localpath cmd s v :
  smooth s v -> ready cli addr (p1 * 256 + p2) fd fr (pasv_reply h1 h2 h3 h4 p1 p2 tail) type_reply cmd_reply rest v ->
  Forall (fun h => 0 <= h < 256) [h1; h2; h3; h4; p1; p2] -> Forall (fun c => c <> 0) tail -> (length tail <= 400)%nat ->
  head (fopens (net s)) <> Some None -> forallb isdigit (behind cli (p1 * 256 + p2) fr) = true ->
  FtpsAccessDataByPasvMode (Some cli) localpath cmd s = Ub OobRead.
Proof.
  intros Hs [Rc Rs Rx Rn Ra Rp Rf Rl Rt [Rm Rm'] [ss Rk] [frs Rr]] F Ht Hl Ho Hb.
  destruct (pasv_reply_text h1 h2 h3 h4 p1 p2 tail F Ht Hl) as [L T]. unfold FtpsAccessDataByPasvMode, transfer.
  apply fails_bind. eapply run_malloc; [done|]. intros t1 H1 O1. cbn [negb].
  apply fails_bind. eapply run_fopen; [done|by rewrite O1|]. intros text t2 H2.
  apply fails_first. unfold FtpsOpenPasvDataConn. apply fails_first. unfold FtpsOpenPasvSockConn.
  apply fails_bind. eapply run_send; [done..|]. intros t3 H3.
  apply fails_bind. eapply run_recv; [exact H3|done..|exact Rl|lia|]. intros t4 H4. apply fails_bind, wp_lift. rewrite T.
  assert (strchr (pasv_reply h1 h2 h3 h4 p1 p2 tail) 40 = Some 26%nat) as -> by reflexivity.
  apply fails_bind, wp_lift. unfold scan_pasv. rewrite sscanf_pasv by done. cbn [forallb].
  apply fails_bind, wp_lift. rewrite !Forall_cons in F. destruct F as (_ & _ & _ & _ & B1 & B2 & _).
  set (w := fun k : Z => _). assert (pasv_port w = Ok (p1 * 256 + p2)) as ->.
  { unfold pasv_port. change (w 5) with p1. change (w 6) with p2. unfold int_range, INT_MIN, INT_MAX.
    by rewrite !(proj2 (Z.leb_le _ _)) by lia. }
  rewrite pasv_host by (apply Rc || unfold int_range, INT_MIN, INT_MAX; lia).
  apply fails_first. unfold OpenConnectByHost. apply fails_bind. eapply run_frame; [exact H4|exact Rr|]. intros t5 H5.
  destruct (split_frame cli (p1 * 256 + p2) fr Rc ltac:(lia)) as (lhost & -> & E). rewrite Hb in E.
  apply fails_bind, wp_lift, fails_first. by rewrite E.
Qed.

(** ** The two properties *)

(** C10. FtpsGet, when the server accepts the command and its PASV reply is well formed.  The code does not copy the NUL
    of the host into lhost, so that the port is read together with the digits that the stack [fr] happens to hold
    behind it ([behind], [dialled]); when those are digits to the end of the array, the array is left.  Otherwise FtpsGet
    returns 0; what goes out is PASV, the connection to the port so read, which is the one that the reply names if the
    next byte is no digit, at the address of the control connection, TYPE I, RETR with the path, and QUIT at the end; the
    bytes written to the local file are those that arrive on the data connection, however they
    are cut; and everything that was opened is closed. *)
Theorem ftps_get_transfer cli addr fd fr h1 h2 h3 h4 p1 p2 tail type_reply cmd_reply rest chunks localpath remotepath s v :
  let port := p1 * 256 + p2 in
  smooth s v -> ready cli addr port fd fr (pasv_reply h1 h2 h3 h4 p1 p2 tail) type_reply cmd_reply rest v ->
  Forall (fun h => 0 <= h < 256) [h1; h2; h3; h4; p1; p2] -> Forall (fun c => c <> 0) tail -> (length tail <= 400)%nat ->
  head (fopens (net s)) <> Some None -> stream chunks (dat v) -> fresh s -> (length remotepath <= 248)%nat ->
  (forall c r, behind cli port fr = c :: r -> isdigit c = false -> dialled cli port fr = port) /\
  if forallb isdigit (behind cli port fr) then FtpsGet (Some cli) localpath remotepath s = Ub OobRead
  else exists t parts, FtpsGet (Some cli) localpath remotepath s = Ok (0, t) /\
    concat parts = concat chunks /\
    log t = log s ++ download_log (default (str "./temp.record") localpath) (str "RETR " ++ remotepath ++ crlf)
                       addr (dialled cli port fr) parts /\
    moved s t id 0 0 0 0.
Proof.
  intros port Hs Hr F Ht Hl Ho Hd Hf Hp. pose proof (r_cli _ _ _ _ _ _ _ _ _ _ Hr) as Hc.
  assert (snprintf 256 (str "RETR " ++ remotepath ++ crlf) = str "RETR " ++ remotepath ++ crlf) as Er.
  { unfold snprintf. rewrite take_ge; [done|]. rewrite !length_app. change (length (str "RETR ")) with 5%nat. change (length crlf) with 2%nat. lia. }
  split. { intros c r Eb Hdig. unfold dialled. rewrite Eb. apply atoi_port; [|done]. by destruct Hr. }
  destruct (forallb isdigit (behind cli port fr)) eqn:Hb.
  { unfold FtpsGet. rewrite Er. unfold mbind, ST_bind. by rewrite (access_digits cli addr fd fr h1 h2 h3 h4 p1 p2 tail type_reply cmd_reply rest localpath _ s v). }
  assert (wp (FtpsGet (Some cli) localpath remotepath) (fun r t => r = 0 /\ exists parts,
    concat parts = concat chunks /\ log t = log s ++ download_log (default (str "./temp.record") localpath)
      (str "RETR " ++ remotepath ++ crlf) addr (dialled cli port fr) parts) s) as (r & t & E & -> & parts & Ep & El)%wp_run.
  { unfold FtpsGet. rewrite Er. apply wp_bind. eapply wp_mono; [by eapply run_access|]. intros r t [-> Hx]. by apply wp_ret. }
  exists t, parts. do 3 (split; [done|]).
  pose proof (wp_Ok _ _ _ _ _ (transfers_leave cli _ s Hc Hf (transfers_get cli localpath remotepath)) E) as Hm.
  inversion Hm. done.
Qed.

(** C21. Whatever the server, the network and the file system answer, a call of FtpsGet, FtpsPut
    or FtpsDir that returns 0 has closed all that it opened.  One that returns -1 has not: the
    block of the data handle is lost, the local file stays open once it was opened, and the
    socket or the SSL session of an attempt that fails half way may be lost too. *)
Theorem ftps_transfer_leaves cli m s r t :
  client_ok cli -> fresh s -> transfers cli m -> m s = Ok (r, t) -> leaves s r t.
Proof. intros Hc Hf Hm E. exact (wp_Ok _ _ _ _ _ (transfers_leave _ _ _ Hc Hf Hm) E). Qed.

End Transfer.

(** ** A server at 10.0.0.9 *)

#[export] Instance one_host : Resolver := {
  inet_aton name := if bool_decide (name = str "10.0.0.9") then Some 0x0A000009 else None;
  inet_addr _ := 0x0A000009;
  inet_ntoa _ := str "10.0.0.9";
  gethostbyname _ := None;
  getservbyname _ := Some 21
}.

Definition session : FtpsClient := Client Control true true (Some 3) (str "10.0.0.9").

Definition on_stack (fr : list Z) (control data : list (list Z)) (sockopts : list bool) : state :=
  State (Script (fun c => match c with Control => control | Data => data end)
           (fun c => if decide (c = SockOpt) then sockopts else []) [4] [] [] [fr])
    [] {[3]} 1 1 1 0.

Definition at_server : list (list Z) -> list (list Z) -> list bool -> state := on_stack (replicate 24 0).

Definition pasv_text : list Z := str "227 Entering Passive Mode (10,0,0,9,8,1).".

Definition get_session (fr : list Z) : state :=
  on_stack fr [pasv_text; str "200 ok"; str "150 here"] [str "hello "; str "world"; []] [].

(** A cleared stack, one with a digit behind the port, and one full of digits. *)
Lemma ftps_get_transfer_witness :
  (exists t parts, FtpsGet (Some session) (Some (str "f")) (str "g") (get_session (replicate 24 0)) = Ok (0, t) /\
    concat parts = str "hello world" /\
    log t = download_log (str "f") (str "RETR g" ++ crlf) 0x0A000009 2049 parts) /\
  (exists t parts, FtpsGet (Some session) (Some (str "f")) (str "g") (get_session (replicate 14 53 ++ replicate 10 0)) = Ok (0, t) /\
    log t = download_log (str "f") (str "RETR g" ++ crlf) 0x0A000009 20495 parts) /\
  FtpsGet (Some session) (Some (str "f")) (str "g") (get_session (replicate 24 53)) = Ub OobRead.
Proof.
  assert (forall fr, let v := View [pasv_text; str "200 ok"; str "150 here"] [str "hello "; str "world"; []] [4] [fr] [] in
    smooth (get_session fr) v /\ ready session 0x0A000009 2049 4 fr pasv_text (str "200 ok") (str "150 here") [] v /\
    fresh (get_session fr)) as Hready.
  { intros fr. split; [repeat split; by intros []|]. split; cycle 1.
    { apply (bool_decide_unpack _). vm_compute. exact I. }
    constructor; try done; try lia.
    + split; [apply (bool_decide_unpack _); vm_compute; exact I|vm_compute; lia].
    + vm_compute; lia.
    + split; [vm_compute; lia|done].
    + by exists [].
    + by exists []. }
  assert (forall fr (P : Prop), ((let port := 8 * 256 + 1 in
    if forallb isdigit (behind session port fr) then FtpsGet (Some session) (Some (str "f")) (str "g") (get_session fr) = Ub OobRead
    else exists t parts, FtpsGet (Some session) (Some (str "f")) (str "g") (get_session fr) = Ok (0, t) /\
      concat parts = str "hello world" /\
      log t = [] ++ download_log (str "f") (str "RETR " ++ str "g" ++ crlf) 0x0A000009 (dialled session port fr) parts /\
      moved (get_session fr) t id 0 0 0 0) -> P) -> P) as Hget.
  { intros fr P HP. apply HP. destruct (Hready fr) as (Hs & Hr & Hf).
    apply (ftps_get_transfer session 0x0A000009 4 fr 10 0 0 9 8 1 [46] (str "200 ok") (str "150 here") []
      [str "hello "; str "world"] (Some (str "f")) (str "g") (get_session fr) _ Hs Hr).
    - repeat constructor; lia.
    - by repeat constructor.
    - cbn. lia.
    - done.
    - split; [by repeat constructor|]. exists [[]]. done.
    - exact Hf.
    - cbn. lia. }
  split_and!.
  - apply (Hget (replicate 24 0)). intros (t & parts & E & Ec & El & _). exists t, parts. split; [exact E|]. split; [exact Ec|].
    replace (dialled session _ _) with 2049 in El by (vm_compute; reflexivity). exact El.
  - apply (Hget (replicate 14 53 ++ replicate 10 0)). intros (t & parts & E & _ & El & _). exists t, parts. split; [exact E|].
    replace (dialled session _ _) with 20495 in El by (vm_compute; reflexivity). exact El.
  - apply (Hget (replicate 24 53)). intros E. exact E.
Defined.

(** The server closes its port: the socket is lost with the block and the file. *)
Lemma ftps_transfer_leaves_witness : exists t,
  FtpsGet (Some session) (Some (str "f")) (str "g") (at_server [pasv_text] [] [false]) = Ok (-1, t) /\
  leaves (at_server [pasv_text] [] [false]) (-1) t /\ fds t = {[4; 3]} /\ blocks t = 2 /\ files t = 1.
Proof.
  destruct (FtpsGet (Some session) (Some (str "f")) (str "g") (at_server [pasv_text] [] [false])) as [[r t]|] eqn:E;
    [|vm_compute in E; discriminate].
  exists t. assert (r = -1 /\ fds t = {[4; 3]} /\ blocks t = 2 /\ files t = 1) as (-> & H1 & H2 & H3).
  { vm_compute in E. injection E as <- <-. split_and!; reflexivity. }
  split; [reflexivity|]. split; [|split_and!; assumption].
  eapply ftps_transfer_leaves; [| |apply (transfers_get session (Some (str "f")) (str "g"))|exact E].
  - split; [apply (bool_decide_unpack _); vm_compute; exact I|vm_compute; lia].
  - apply (bool_decide_unpack _). vm_compute. exact I.
Defined.
