(* ===== verification/Queue.v ===== *)
(** queue/queue.c: a pool of five image buffers behind a mutex and a condition variable.  Any
    number of threads call queue_allocate and queue_release; a step is one call of the
    pthread library with the code up to the next one, which is atomic because the code
    touches the pool only with the mutex held.  main does not compile (it passes too few
    arguments) and is left out. *)

From Stdlib Require Import ZifyNat.
From S2P Require Import Prelude.

Open Scope Z_scope.

(** ** The pool *)

Definition QUEUE_SIZE : nat := 5.

Record QueueElement : Type := Element { address : Z; in_use : Z }.

Record ImageQueue : Type := Queue { elements : list QueueElement; head : nat; tail : nat }.

#[export] Instance element_eq_dec : EqDecision QueueElement.
Proof. solve_decision. Defined.

(** (i + 1) % QUEUE_SIZE *)
Definition advance (i : nat) : nat := (i + 1) mod QUEUE_SIZE.
Arguments advance : simpl never.

(** [malloc i]: the address of the i-th block, None for NULL; None: exit (EXIT_FAILURE). *)
Definition queue_init (malloc : nat -> option Z) : option ImageQueue :=
  es ← mapM (fun i => a ← malloc i; Some (Element a 0)) (seq 0 QUEUE_SIZE);
  Some (Queue es 0 0).

(** queue->elements[queue->head].in_use == 1 *)
Definition head_in_use (q : ImageQueue) : bool :=
  match elements q !! head q with Some e => in_use e =? 1 | None => false end.

(** The lines of queue_allocate after the loop. *)
Definition take_head (q : ImageQueue) : option (Z * ImageQueue) :=
  e ← elements q !! head q;
  Some (address e, Queue (<[head q := Element (address e) 1]> (elements q)) (advance (head q)) (tail q)).

(** The loop of queue_release. *)
Definition release_block (addr : Z) (q : ImageQueue) : ImageQueue :=
  match list_find (fun e => address e = addr) (elements q) with
  | Some (i, e) =>
      Queue (<[i := Element (address e) 0]> (elements q)) (head q) (advance (tail q))
  | None => q
  end.

(** queue_destroy: the blocks it frees. *)
Definition queue_destroy (q : ImageQueue) : list Z := map address (elements q).

(** ** The threads *)

(** Where a thread is: outside, or before the call named. *)
Inductive pc : Type :=
  | Idle
  | LockA                  (* queue_allocate: pthread_mutex_lock *)
  | TestA                  (* the test of the loop, the mutex held *)
  | WaitA                  (* asleep in pthread_cond_wait *)
  | WokenA                 (* in pthread_cond_wait, to lock the mutex again *)
  | UnlockA (addr : Z)     (* pthread_mutex_unlock, and return addr *)
  | LockR (addr : Z)       (* queue_release: pthread_mutex_lock *)
  | BodyR (addr : Z)       (* the loop *)
  | SignalR                (* pthread_cond_signal *)
  | UnlockR.               (* pthread_mutex_unlock *)

#[export] Instance pc_eq_dec : EqDecision pc.
Proof. solve_decision. Defined.

(** The pool, the holder of the mutex, the threads, and the blocks handed out and not given
    back yet, oldest first (a history variable). *)
Record state : Type := State { pool : ImageQueue; owner : option nat; threads : list pc; out : list Z }.

Definition at_pc (t : nat) (p : pc) (s : state) : Prop := threads s !! t = Some p.

Definition goes (t : nat) (p : pc) (o : option nat) (s : state) : state :=
  State (pool s) o (<[t := p]> (threads s)) (out s).

(** The block a thread has called queue_release with, until it is marked free. *)
Definition releasing (p : pc) : option Z := match p with LockR a | BodyR a => Some a | _ => None end.

(** What the clients may release: a block that is out and that nobody releases already. *)
Definition owned (s : state) (a : Z) : Prop :=
  a ∈ out s /\ Forall (fun p => releasing p <> Some a) (threads s).

(** First in, first out: the oldest block, one at a time. *)
Definition fifo (s : state) (a : Z) : Prop :=
  List.hd_error (out s) = Some a /\ Forall (fun p => releasing p = None) (threads s).

Section Steps.
Variable may_release : state -> Z -> Prop.

Inductive step (s : state) : state -> Prop :=
  | call_allocate t : at_pc t Idle s -> step s (goes t LockA (owner s) s)
  | lock_allocate t : at_pc t LockA s -> owner s = None -> step s (goes t TestA (Some t) s)
  | wait t : at_pc t TestA s -> head_in_use (pool s) = true -> step s (goes t WaitA None s)
  | take t a q : at_pc t TestA s -> head_in_use (pool s) = false -> take_head (pool s) = Some (a, q) ->
      step s (State q (owner s) (<[t := UnlockA a]> (threads s)) (out s ++ [a]))
  | unlock_allocate t a : at_pc t (UnlockA a) s -> step s (goes t Idle None s)
  | spurious t : at_pc t WaitA s -> step s (goes t WokenA (owner s) s)
  | relock t : at_pc t WokenA s -> owner s = None -> step s (goes t TestA (Some t) s)
  | call_release t a : at_pc t Idle s -> may_release s a -> step s (goes t (LockR a) (owner s) s)
  | lock_release t a : at_pc t (LockR a) s -> owner s = None -> step s (goes t (BodyR a) (Some t) s)
  | release t a : at_pc t (BodyR a) s ->
      step s (State (release_block a (pool s)) (owner s) (<[t := SignalR]> (threads s)) (filter (fun b => b <> a) (out s)))
  | signal t u : at_pc t SignalR s -> at_pc u WaitA s ->
      step s (goes u WokenA (owner s) (goes t UnlockR (owner s) s))
  | signal_nobody t : at_pc t SignalR s -> WaitA ∉ threads s -> step s (goes t UnlockR (owner s) s)
  | unlock_release t : at_pc t UnlockR s -> step s (goes t Idle None s).

(** The same, executable: what a thread does next, and the choices of the scheduler. *)
Inductive event : Type := Run (t : nat) | Release (t : nat) (a : Z) | Spurious (t : nat) | Signal (t u : nat).

Context `{forall s a, Decision (may_release s a)}.

Definition exec (s : state) (e : event) : option state :=
  match e with
  | Run t =>
      p ← threads s !! t;
      match p with
      | Idle => Some (goes t LockA (owner s) s)
      | LockA | WokenA => if decide (owner s = None) then Some (goes t TestA (Some t) s) else None
      | TestA =>
          if head_in_use (pool s) then Some (goes t WaitA None s)
          else '(a, q) ← take_head (pool s);
               Some (State q (owner s) (<[t := UnlockA a]> (threads s)) (out s ++ [a]))
      | WaitA => None
      | UnlockA a => Some (goes t Idle None s)
      | LockR a => if decide (owner s = None) then Some (goes t (BodyR a) (Some t) s) else None
      | BodyR a =>
          Some (State (release_block a (pool s)) (owner s) (<[t := SignalR]> (threads s)) (filter (fun b => b <> a) (out s)))
      | SignalR => if decide (WaitA ∈ threads s) then None else Some (goes t UnlockR (owner s) s)
      | UnlockR => Some (goes t Idle None s)
      end
  | Release t a =>
      if decide (threads s !! t = Some Idle /\ may_release s a) then Some (goes t (LockR a) (owner s) s) else None
  | Spurious t => if decide (threads s !! t = Some WaitA) then Some (goes t WokenA (owner s) s) else None
  | Signal t u =>
      if decide (threads s !! t = Some SignalR /\ threads s !! u = Some WaitA)
      then Some (goes u WokenA (owner s) (goes t UnlockR (owner s) s)) else None
  end.

Definition run : list event -> state -> option state := run_events exec.

(** [n] threads on a pool just made. *)
Definition initial (malloc : nat -> option Z) (n : nat) (s : state) : Prop :=
  exists q, queue_init malloc = Some q /\ s = State q None (replicate n Idle) [].

Definition reachable (malloc : nat -> option Z) (n : nat) : state -> Prop := reaches (initial malloc n) step.

Lemma reachable_init malloc n q : queue_init malloc = Some q -> reachable malloc n (State q None (replicate n Idle) []).
Proof. intros Hq. apply reaches_init. by exists q. Qed.

Lemma exec_step s e t : exec s e = Some t -> step s t.
Proof.
  intros E. destruct e as [t'|t' a|t'|t' u]; cbn in E.
  - destruct (threads s !! t') as [p|] eqn:Ht; [|done]. cbn in E.
    destruct p; try (case_decide as D; [try done|try done]); try (injection E as <-); try done.
    + by apply call_allocate.
    + by apply lock_allocate.
    + destruct (head_in_use (pool s)) eqn:Eh; [injection E as <-; by apply wait|].
      destruct (take_head (pool s)) as [[a q]|] eqn:Eq; [|done]. injection E as <-. by apply take.
    + by apply relock.
    + by eapply unlock_allocate.
    + by apply lock_release.
    + by apply release.
    + by apply signal_nobody.
    + by apply unlock_release.
  - case_decide as D; [|done]. destruct D. injection E as <-. by apply call_release.
  - case_decide as D; [|done]. injection E as <-. by apply spurious.
  - case_decide as D; [|done]. destruct D. injection E as <-. by apply signal.
Qed.

Lemma run_reachable malloc n es s t : reachable malloc n s -> run es s = Some t -> reachable malloc n t.
Proof. apply run_events_reaches, exec_step. Qed.
End Steps.

(** * No block is shared *)

(** The threads between a lock and the unlock that follows. *)
Definition holds_mutex (p : pc) : bool :=
  match p with TestA | UnlockA _ | BodyR _ | SignalR | UnlockR => true | _ => false end.

Definition lock_ok (owner : option nat) (threads : list pc) : Prop :=
  forall t p, threads !! t = Some p -> holds_mutex p = true <-> owner = Some t.

Definition release_ok (threads : list pc) (out : list Z) : Prop :=
  (forall t p a, threads !! t = Some p -> releasing p = Some a -> a ∈ out) /\
  (forall t u p r a, threads !! t = Some p -> threads !! u = Some r ->
     releasing p = Some a -> releasing r = Some a -> t = u).

Record pool_ok (q : ImageQueue) (out : list Z) : Prop := {
  ok_length : length (elements q) = QUEUE_SIZE;
  ok_nodup : NoDup (map address (elements q));
  ok_flags : Forall (fun e => in_use e = 0 \/ in_use e = 1) (elements q);
  ok_head : (head q < QUEUE_SIZE)%nat;
  ok_tail : (tail q < QUEUE_SIZE)%nat;
  ok_out_nodup : NoDup out;
  ok_out a : a ∈ out <-> Element a 1 ∈ elements q }.

Definition inv (s : state) : Prop :=
  pool_ok (pool s) (out s) /\ lock_ok (owner s) (threads s) /\ release_ok (threads s) (out s).

(** A thread moves: the mutex is kept, taken when nobody has it, or given back. *)
Lemma lock_ok_goes o o' l t p p' :
  lock_ok o l -> l !! t = Some p ->
  o' = (if holds_mutex p' then Some t else if holds_mutex p then None else o) ->
  (holds_mutex p' = true -> holds_mutex p = true \/ o = None) -> lock_ok o' (<[t := p']> l).
Proof.
  intros Hl Ht -> Ho u r Hu. pose proof (Hl t p Ht) as Hp.
  apply list_lookup_insert_Some in Hu as [(<- & <- & _)|[Hne Hu]].
  - destruct (holds_mutex p'); [done|]. destruct (holds_mutex p); [done|]. by rewrite <- Hp.
  - pose proof (Hl u r Hu) as Hr. destruct (holds_mutex p') eqn:E.
    + destruct (Ho eq_refl) as [E'| ->]; [|naive_solver]. rewrite Hr, (proj1 Hp E'). naive_solver.
    + destruct (holds_mutex p) eqn:E'; [|done]. rewrite Hr, (proj1 Hp eq_refl). naive_solver.
Qed.

Lemma release_ok_goes l out t p' :
  release_ok l out -> releasing p' = None -> release_ok (<[t := p']> l) out.
Proof.
  intros [H1 H2] Hn. split.
  - intros u p a Hu Hr. apply list_lookup_insert_Some in Hu as [(<- & <- & _)|[_ Hu]]; [congruence|eauto].
  - intros u v p r a Hu Hv Hp Hr. apply list_lookup_insert_Some in Hu as [(<- & <- & _)|[_ Hu]]; [congruence|].
    apply list_lookup_insert_Some in Hv as [(<- & <- & _)|[_ Hv]]; [congruence|eauto].
Qed.

(** A thread calls queue_release, or goes on with it. *)
Lemma release_ok_call l out t p' a :
  release_ok l out -> releasing p' = Some a -> a ∈ out ->
  (forall u p, l !! u = Some p -> releasing p = Some a -> u = t) -> release_ok (<[t := p']> l) out.
Proof.
  intros [H1 H2] Hn Ha Hu. split.
  - intros u p b Hl Hr. apply list_lookup_insert_Some in Hl as [(<- & <- & _)|[_ Hl]]; [congruence|eauto].
  - intros u v p r b Hl Hv Hp Hr.
    apply list_lookup_insert_Some in Hl as [(<- & <- & _)|[Hlu Hl]];
      apply list_lookup_insert_Some in Hv as [(<- & <- & _)|[Hlv Hv]]; [done| | |by eapply H2].
    + assert (b = a) as -> by congruence. symmetry. eauto.
    + assert (b = a) as -> by congruence. eauto.
Qed.

Lemma nodup_address es i j e f :
  NoDup (map address es) -> es !! i = Some e -> es !! j = Some f -> address e = address f -> i = j.
Proof.
  intros Hn Hi Hj E. eapply NoDup_lookup; [exact Hn| |]; rewrite list_lookup_fmap; [by rewrite Hi|by rewrite Hj, E].
Qed.

(** Marking one element leaves the addresses as they are. *)
Lemma map_address_mark es i e x :
  es !! i = Some e -> map address (<[i := Element (address e) x]> es) = map address es.
Proof.
  intros Hi. change (address <$> <[i := Element (address e) x]> es = address <$> es). rewrite list_fmap_insert. cbn.
  apply list_insert_id. by rewrite list_lookup_fmap, Hi.
Qed.

(** What is marked as in use after element [i] has been marked. *)
Lemma elem_of_mark es i e x a :
  NoDup (map address es) -> es !! i = Some e ->
  Element a 1 ∈ <[i := Element (address e) x]> es <->
  (a = address e /\ x = 1) \/ (a <> address e /\ Element a 1 ∈ es).
Proof.
  intros Hn Hi. pose proof (lookup_lt_Some _ _ _ Hi) as Hl. rewrite !list_elem_of_lookup. split.
  - intros [j [(<- & E & _)|[Hne Hj]]%list_lookup_insert_Some].
    + injection E as -> ->. by left.
    + right. split; [|eauto]. intros ->. by pose proof (nodup_address _ _ _ _ _ Hn Hi Hj eq_refl).
  - intros [[-> ->]|[Hne [j Hj]]]; [exists i; by apply list_lookup_insert_eq|].
    exists j. rewrite list_lookup_insert_ne; [done|]. intros ->. rewrite Hi in Hj. by injection Hj as ->.
Qed.

Lemma take_pool_ok q out a q' :
  pool_ok q out -> head_in_use q = false -> take_head q = Some (a, q') ->
  a ∉ out /\ pool_ok q' (out ++ [a]).
Proof.
  intros [Hl Hn Hf Hh Ht Ho Hi] Hu E. unfold take_head, head_in_use in *.
  destruct (elements q !! head q) as [e|] eqn:Ee; [|done]. injection E as <- <-.
  assert (in_use e = 0) as E0.
  { rewrite Forall_forall in Hf. destruct (Hf e); [by eapply list_elem_of_lookup_2|done|]. lia. }
  assert (address e ∉ out) as Hout.
  { rewrite Hi. intros [j Hj]%list_elem_of_lookup. pose proof (nodup_address _ _ _ _ _ Hn Ee Hj eq_refl) as <-.
    rewrite Ee in Hj. injection Hj as Hj. apply (f_equal in_use) in Hj. cbn in Hj. lia. }
  split; [done|]. constructor; cbn [elements head tail].
  - by rewrite length_insert.
  - by rewrite (map_address_mark _ _ e).
  - apply Forall_insert; [done|by right].
  - exact (Nat.mod_upper_bound (head q + 1) QUEUE_SIZE ltac:(done)).
  - done.
  - apply NoDup_app. split_and!; [done| |apply NoDup_singleton]. intros b Hb ->%list_elem_of_singleton. done.
  - intros b. rewrite (elem_of_mark _ _ _ _ _ Hn Ee), elem_of_app, list_elem_of_singleton, Hi.
    destruct (decide (b = address e)); naive_solver.
Qed.

Lemma release_pool_ok q out a :
  pool_ok q out -> pool_ok (release_block a q) (filter (fun b => b <> a) out).
Proof.
  intros [Hl Hn Hf Hh Ht Ho Hi]. unfold release_block. destruct (list_find _ _) as [[i e]|] eqn:E.
  - apply list_find_Some in E as (Ee & <- & _). constructor; cbn [elements head tail].
    + by rewrite length_insert.
    + by rewrite (map_address_mark _ _ e).
    + apply Forall_insert; [done|by left].
    + done.
    + exact (Nat.mod_upper_bound (tail q + 1) QUEUE_SIZE ltac:(done)).
    + by apply NoDup_filter.
    + intros b. rewrite (elem_of_mark _ _ _ _ _ Hn Ee), list_elem_of_filter, Hi. naive_solver lia.
  - apply list_find_None in E. constructor; try done; [by apply NoDup_filter|].
    intros b. rewrite list_elem_of_filter, Hi. split; [by intros [_ ?]|]. intros Hb. split; [|done]. intros ->.
    rewrite Forall_forall in E. by apply (E _ Hb).
Qed.

(** Live blocks have different addresses. *)
Definition malloc_ok (malloc : nat -> option Z) : Prop := forall i j a, malloc i = Some a -> malloc j = Some a -> i = j.

Lemma queue_init_ok malloc q : malloc_ok malloc -> queue_init malloc = Some q ->
  pool_ok q [] /\ head q = 0%nat /\ tail q = 0%nat.
Proof.
  intros Hm. unfold queue_init. destruct (mapM _ _) as [es|] eqn:E; [|done]. intros [= <-].
  apply mapM_Some_1 in E. split; [|done].
  assert (forall i e, es !! i = Some e -> malloc i = Some (address e) /\ in_use e = 0) as He.
  { intros i e Hi. destruct (Forall2_lookup_r _ _ _ _ _ E Hi) as (j & Hj & Hr).
    apply lookup_seq in Hj as [-> _]. cbn in Hr. destruct (malloc i); [|done]. by injection Hr as <-. }
  constructor; cbn [elements head tail].
  - by rewrite <- (Forall2_length _ _ _ E).
  - apply NoDup_alt. intros i j a. rewrite !list_lookup_fmap. intros Hi Hj.
    destruct (es !! i) as [e|] eqn:Ei; [|done]. destruct (es !! j) as [f|] eqn:Ej; [|done].
    apply He in Ei as [Ei _]. apply He in Ej as [Ej _]. cbn in Hi, Hj. apply (Hm i j a); congruence.
  - apply Forall_lookup. intros i e Hi. left. by apply (He i).
  - unfold QUEUE_SIZE. lia.
  - unfold QUEUE_SIZE. lia.
  - constructor.
  - intros a. split; [by intros ?%elem_of_nil|]. intros [i Hi]%list_elem_of_lookup. by apply He in Hi as [_ Hi].
Qed.

Section Sharing.
Context (may_release : state -> Z -> Prop) (Hmay : forall s a, may_release s a -> owned s a).

Lemma inv_goes s t p p' o' :
  inv s -> at_pc t p s -> releasing p' = None ->
  o' = (if holds_mutex p' then Some t else if holds_mutex p then None else owner s) ->
  (holds_mutex p' = true -> holds_mutex p = true \/ owner s = None) -> inv (goes t p' o' s).
Proof.
  intros (Hp & Hl & Hr) Ht Hn Ho Hx. split_and!; [done|by eapply lock_ok_goes|by apply release_ok_goes].
Qed.

Lemma inv_step s t : inv s -> step may_release s t -> inv t.
Proof.
  intros Hs. pose proof Hs as (Hp & Hl & Hr). destruct 1 as [t Ht|t Ht Ho|t Ht Hh|t a q Ht Hh Hq|t a Ht|t Ht|t Ht Ho
    |t a Ht Hm|t a Ht Ho|t a Ht|t u Ht Hu|t Ht Hn|t Ht]; try (by eapply inv_goes; [done|exact Ht|try done; auto..]).
  - destruct (take_pool_ok _ _ _ _ Hp Hh Hq) as [_ Hp']. split_and!; cbn [pool owner threads out]; [done| |].
    + eapply lock_ok_goes; [exact Hl|exact Ht| |by left]. by apply (Hl _ _ Ht).
    + apply release_ok_goes; [|done]. destruct Hr as [H1 H2]. split; [|done]. intros. apply elem_of_app. left. eauto.
  - destruct (Hmay s a Hm) as [Ha Hn]. rewrite Forall_forall in Hn. split_and!; cbn [goes pool owner threads out]; [done|by eapply lock_ok_goes|].
    eapply release_ok_call; [done|done|done|]. intros u p Hu Hx. destruct (Hn p); [|done]. by eapply list_elem_of_lookup_2.
  - split_and!; cbn [goes pool owner threads out]; [done|eapply lock_ok_goes; [done|done| |by auto]; done|].
    pose proof Hr as [H1 H2]. eapply release_ok_call; [done|done|by eapply H1|]. intros u p Hu Hx. by eapply H2.
  - split_and!; cbn [pool owner threads out]; [by apply release_pool_ok| |].
    + eapply lock_ok_goes; [exact Hl|exact Ht| |by left]. by apply (Hl _ _ Ht).
    + destruct (release_ok_goes _ _ t SignalR Hr eq_refl) as [H1 H2]. split; [|done].
      intros u p b Hu Hb. apply list_elem_of_filter. split; [|eauto]. intros ->.
      apply list_lookup_insert_Some in Hu as [(<- & <- & _)|[Hne Hu]]; [done|].
      apply Hne. destruct Hr as [_ Hr]. by eapply Hr.
  - eapply (inv_goes _ _ WaitA); [| |done|done|done].
    + eapply inv_goes; [done|exact Ht|done| |by left]. by apply (Hl _ _ Ht).
    + unfold at_pc, goes in *. cbn [threads]. rewrite list_lookup_insert_ne; [done|]. intros ->. congruence.
  - eapply inv_goes; [done|exact Ht|done| |by left]. by apply (Hl _ _ Ht).
Qed.

Lemma inv_reachable malloc n s : malloc_ok malloc -> reachable may_release malloc n s -> inv s.
Proof.
  intros Hm. apply reaches_invariant; [|apply inv_step]. clear s. intros s (q & Hq & ->).
  destruct (queue_init_ok _ _ Hm Hq) as [Hp _]. split_and!; cbn [pool owner threads out]; [done| |].
  - intros t p [-> _]%lookup_replicate. done.
  - split; intros t; [intros p a [-> _]%lookup_replicate|intros u p r a [-> _]%lookup_replicate]; done.
Qed.
End Sharing.

(** * First in, first out: nobody sleeps beside a free block *)

Section Fifo.
#[local] Ltac Zify.zify_post_hook ::= Z.to_euclidean_division_equations.

(** The blocks that are out stand in the ring from the tail on, and the head follows them. *)
Definition ring_ok (q : ImageQueue) (out : list Z) : Prop :=
  (length out <= QUEUE_SIZE)%nat /\ head q = ((tail q + length out) mod QUEUE_SIZE)%nat /\
  forall i a, out !! i = Some a ->
    exists e, elements q !! ((tail q + i) mod QUEUE_SIZE)%nat = Some e /\ address e = a.

Definition one_release (threads : list pc) (out : list Z) : Prop :=
  (forall t p a, threads !! t = Some p -> releasing p = Some a -> List.hd_error out = Some a) /\
  (forall t u p r a b, threads !! t = Some p -> threads !! u = Some r ->
     releasing p = Some a -> releasing r = Some b -> t = u).

(** The threads on their way to a block, or about to wake one that is asleep. *)
Definition on_its_way (p : pc) : bool := match p with WokenA | TestA | SignalR => true | _ => false end.
Definition going (p : pc) : nat := if on_its_way p then 1%nat else 0%nat.
Definition total (l : list pc) : nat := sum_list (map going l).

Definition woken_ok (threads : list pc) (out : list Z) : Prop :=
  WaitA ∈ threads -> (QUEUE_SIZE <= length out + total threads)%nat.

Definition fifo_inv (s : state) : Prop :=
  inv s /\ ring_ok (pool s) (out s) /\ one_release (threads s) (out s) /\ woken_ok (threads s) (out s).

Lemma total_cons x l : total (x :: l) = (going x + total l)%nat.
Proof. reflexivity. Qed.

Lemma total_insert l t p p' : l !! t = Some p -> (total (<[t := p']> l) + going p = total l + going p')%nat.
Proof.
  revert t. induction l as [|x l IH]; intros [|t] Ht; [done|done| |].
  - injection Ht as ->. change (<[0%nat := p']> (p :: l)) with (p' :: l). rewrite !total_cons. lia.
  - specialize (IH t Ht). change (<[S t := p']> (x :: l)) with (x :: <[t := p']> l). rewrite !total_cons. lia.
Qed.

Lemma total_pos l : (0 < total l)%nat -> exists t p, l !! t = Some p /\ on_its_way p = true.
Proof.
  induction l as [|x l IH]; [by cbn; lia|]. rewrite total_cons. unfold going. destruct (on_its_way x) eqn:E; intros H.
  - by exists 0%nat, x.
  - destruct (IH H) as (t & p & Ht & Hp). by exists (S t), p.
Qed.

Lemma wait_insert (l : list pc) (t : nat) p' : WaitA ∈ <[t := p']> l -> p' = WaitA \/ WaitA ∈ l.
Proof.
  intros [j Hj]%list_elem_of_lookup. apply list_lookup_insert_Some in Hj as [(_ & E & _)|[_ Hj]]; [by left|].
  right. by eapply list_elem_of_lookup_2.
Qed.

(** The block at the head is free unless all are out. *)
Lemma head_in_use_full q out : pool_ok q out -> ring_ok q out -> head_in_use q = true <-> length out = QUEUE_SIZE.
Proof.
  intros [Hl Hn Hf Hh Ht Ho Hi] (Hlen & Hhead & Hring). unfold head_in_use.
  destruct (lookup_lt_is_Some_2 (elements q) (head q) ltac:(by rewrite Hl)) as [e Ee]. rewrite Ee. split.
  - intros E. assert (e = Element (address e) 1) as Ee1 by (destruct e; cbn in *; f_equal; lia).
    assert (address e ∈ out) as [i Hi']%list_elem_of_lookup.
    { apply Hi. rewrite <- Ee1. by eapply list_elem_of_lookup_2. }
    destruct (Hring i _ Hi') as (f & Ef & E'). pose proof (nodup_address _ _ _ _ _ Hn Ef Ee E') as Hpos.
    pose proof (lookup_lt_Some _ _ _ Hi'). unfold QUEUE_SIZE in *. rewrite Hhead in Hpos. lia.
  - intros E. destruct (lookup_lt_is_Some_2 out 0 ltac:(unfold QUEUE_SIZE in E; lia)) as [a Ha].
    destruct (Hring 0%nat a Ha) as (f & Ef & <-). assert (f = e) as ->.
    { replace ((tail q + 0) mod QUEUE_SIZE)%nat with (head q) in Ef; [congruence|].
      rewrite Hhead, E. unfold QUEUE_SIZE in *. lia. }
    assert (Element (address e) 1 ∈ elements q) as [j Hj]%list_elem_of_lookup by (apply Hi; by eapply list_elem_of_lookup_2).
    pose proof (nodup_address _ _ _ _ _ Hn Ee Hj eq_refl) as <-. rewrite Ee in Hj. injection Hj as Hj.
    rewrite Hj. done.
Qed.

Lemma take_ring_ok q out a q' : pool_ok q out -> ring_ok q out -> head_in_use q = false ->
  take_head q = Some (a, q') -> ring_ok q' (out ++ [a]).
Proof.
  intros Hp Hr Hu E. assert (length out <> QUEUE_SIZE) as Hne.
  { intros Hx. apply (head_in_use_full _ _ Hp Hr) in Hx. congruence. }
  destruct Hr as (Hlen & Hhead & Hring), Hp as [Hl Hn _ Hh Ht _ _]. unfold take_head in E.
  destruct (elements q !! head q) as [e|] eqn:Ee; [|done]. injection E as <- <-.
  split_and!; cbn [elements head tail].
  - rewrite length_app. cbn [length]. lia.
  - rewrite length_app. cbn [length]. rewrite Hhead. unfold advance, QUEUE_SIZE in *. lia.
  - intros i b Hb. apply lookup_app_Some in Hb as [Hb|[Hi Hb]].
    + destruct (Hring i b Hb) as (f & Ef & <-). destruct (decide (head q = (tail q + i) mod QUEUE_SIZE)%nat) as [E|E].
      * rewrite <- E, list_lookup_insert_eq by by eapply lookup_lt_Some.
        eexists; split; [done|]. cbn. rewrite <- E in Ef. congruence.
      * rewrite list_lookup_insert_ne by done. eauto.
    + apply list_lookup_singleton_Some in Hb as [Hz <-]. replace i with (length out) by lia. rewrite <- Hhead.
      rewrite list_lookup_insert_eq by by eapply lookup_lt_Some. eexists; split; [done|done].
Qed.

Lemma release_ring_ok q a rest : pool_ok q (a :: rest) -> ring_ok q (a :: rest) ->
  ring_ok (release_block a q) rest /\ filter (fun b => b <> a) (a :: rest) = rest.
Proof.
  intros [Hl Hn _ Hh Ht Ho _] (Hlen & Hhead & Hring).
  destruct (Hring 0%nat a eq_refl) as (e & Ee & <-).
  assert ((tail q + 0) mod QUEUE_SIZE = tail q)%nat as E0 by (unfold QUEUE_SIZE in *; lia). rewrite E0 in Ee.
  apply NoDup_cons in Ho as [Ha Ho]. split.
  - unfold release_block. destruct (list_find _ _) as [[i f]|] eqn:E; cycle 1.
    { apply list_find_None in E. rewrite Forall_forall in E. exfalso. by apply (E e); [eapply list_elem_of_lookup_2|]. }
    apply list_find_Some in E as (Ef & Eaf & _). pose proof (nodup_address _ _ _ _ _ Hn Ef Ee Eaf) as ->.
    cbn [length] in *. split_and!; cbn [elements head tail]; [lia|rewrite Hhead; unfold advance, QUEUE_SIZE in *; lia|].
    intros i b Hb. pose proof (lookup_lt_Some _ _ _ Hb) as Hi.
    destruct (Hring (S i) b Hb) as (g & Eg & <-).
    replace ((advance (tail q) + i) mod QUEUE_SIZE)%nat with ((tail q + S i) mod QUEUE_SIZE)%nat
      by (unfold advance, QUEUE_SIZE; lia).
    rewrite list_lookup_insert_ne; [eauto|]. unfold QUEUE_SIZE in *. lia.
  - rewrite filter_cons_False by naive_solver.
    clear -Ha. induction rest as [|b rest IH]; [done|]. apply not_elem_of_cons in Ha as [Hb Ha].
    rewrite filter_cons_True by congruence. by rewrite IH.
Qed.
(** A thread moves, and the blocks that are out stay out. *)
Lemma one_release_goes l out t p' : one_release l out -> releasing p' = None -> one_release (<[t := p']> l) out.
Proof.
  intros [H1 H2] Hn. split.
  - intros u p a Hu Hr. apply list_lookup_insert_Some in Hu as [(<- & <- & _)|[_ Hu]]; [congruence|eauto].
  - intros u v p r a b Hu Hv Hp Hr. apply list_lookup_insert_Some in Hu as [(<- & <- & _)|[_ Hu]]; [congruence|].
    apply list_lookup_insert_Some in Hv as [(<- & <- & _)|[_ Hv]]; [congruence|eauto].
Qed.

Lemma one_release_call l out t p' a :
  one_release l out -> releasing p' = Some a -> List.hd_error out = Some a ->
  (forall u p b, l !! u = Some p -> releasing p = Some b -> u = t) -> one_release (<[t := p']> l) out.
Proof.
  intros [H1 H2] Hn Ha Hu. split.
  - intros u p b Hl Hr. apply list_lookup_insert_Some in Hl as [(<- & <- & _)|[_ Hl]]; [congruence|eauto].
  - intros u v p r b b' Hl Hv Hp Hr.
    apply list_lookup_insert_Some in Hl as [(<- & <- & _)|[Hlu Hl]];
      apply list_lookup_insert_Some in Hv as [(<- & <- & _)|[Hlv Hv]]; [done|symmetry| |]; eauto.
Qed.

(** With the number of blocks that are out, a thread that moves keeps enough of the others
    on their way. *)
Lemma woken_ok_goes l out out' t p p' :
  woken_ok l out -> l !! t = Some p ->
  (p' = WaitA -> length out' = QUEUE_SIZE) ->
  (length out + going p <= length out' + going p')%nat -> woken_ok (<[t := p']> l) out'.
Proof.
  intros Hw Ht Hp' Hle Hin. pose proof (total_insert l t p p' Ht) as E.
  apply wait_insert in Hin as [->|Hin]; [rewrite Hp' by done; lia|]. specialize (Hw Hin). lia.
Qed.

(** A signal with nobody asleep: nothing has to be kept. *)
Lemma woken_ok_nobody l out t p' : WaitA ∉ l -> p' <> WaitA -> woken_ok (<[t := p']> l) out.
Proof. intros Hn Hp Hin. by apply wait_insert in Hin as [->|]. Qed.

Lemma fifo_owned s a : fifo s a -> owned s a.
Proof.
  intros [Ha Hn]. split; [|eapply Forall_impl; [exact Hn|]; cbn; congruence]. destruct (out s) as [|b l]; [done|].
  injection Ha as ->. by left.
Qed.

Lemma fifo_inv_goes s t p p' o' :
  fifo_inv s -> at_pc t p s -> inv (goes t p' o' s) -> releasing p' = None ->
  (p' = WaitA -> length (out s) = QUEUE_SIZE) -> (going p <= going p')%nat -> fifo_inv (goes t p' o' s).
Proof.
  intros (_ & Hq & Hr & Hw) Ht Hi Hn Hp Hg. split; [done|]. split; [done|]. split; [by apply one_release_goes|].
  change (woken_ok (<[t := p']> (threads s)) (out s)). eapply woken_ok_goes; [done|exact Ht|done|lia].
Qed.

Lemma fifo_inv_step s t : fifo_inv s -> step fifo s t -> fifo_inv t.
Proof.
  intros Hs Hst. pose proof Hs as (Hi & Hq & Hr & Hw).
  pose proof (inv_step fifo fifo_owned s t Hi Hst) as Hi'. pose proof Hi as (Hp & Hl & _).
  destruct Hst as [t Ht|t Ht Ho|t Ht Hh|t a q Ht Hh Hx|t a Ht|t Ht|t Ht Ho|t a Ht Hm|t a Ht Ho|t a Ht|t u Ht Hu|t Ht Hn|t Ht];
    try (by eapply fifo_inv_goes; [done|exact Ht|done|done|done|cbn; lia]).
  - assert (length (out s) = QUEUE_SIZE) as Hfull by (by apply (head_in_use_full (pool s))).
    split; [done|]. split; [done|]. split; [by apply one_release_goes|]. intros _. cbn [out goes threads]. lia.
  - split; [done|]. split; [by eapply take_ring_ok|]. split.
    + destruct (one_release_goes _ _ t (UnlockA a) Hr eq_refl) as [H1 H2]. split; [|done].
      intros u p b Hu Hb. specialize (H1 u p b Hu Hb). cbn [out]. by destruct (out s).
    + eapply woken_ok_goes; [done|exact Ht|done|]. cbn [out]. rewrite length_app. cbn. lia.
  - destruct Hm as [Ha Hn]. rewrite Forall_forall in Hn. split; [done|]. split; [done|]. split.
    + eapply one_release_call; [done|done|done|]. intros u p b Hu Hb. rewrite (Hn p) in Hb; [done|].
      by eapply list_elem_of_lookup_2.
    + eapply woken_ok_goes; [done|exact Ht|done|done].
  - destruct Hr as [H1 H2]. split; [done|]. split; [done|]. split.
    + eapply one_release_call; [done|done|by eapply H1|]. intros u p b Hu Hb. by eapply (H2 u t p).
    + eapply woken_ok_goes; [done|exact Ht|done|done].
  - destruct Hr as [H1 H2]. pose proof (H1 t _ a Ht eq_refl) as Ha. cbn [pool out threads] in *.
    destruct (out s) as [|b rest] eqn:Eo; [done|]. injection Ha as ->.
    destruct (release_ring_ok _ _ _ Hp Hq) as [Hq' Ef].
    split; [done|]. cbn [pool out threads]. rewrite Ef. split; [done|]. split.
    + split.
      * intros u p b Hu Hb. apply list_lookup_insert_Some in Hu as [(<- & <- & _)|[Hne Hu]]; [done|].
        destruct Hne. by eapply (H2 t u (BodyR a) p).
      * apply (one_release_goes _ (a :: rest) t SignalR); [by split|done].
    + eapply woken_ok_goes; [done|exact Ht|done|]. cbn. lia.
  - assert (t <> u) as Hne by (intros ->; unfold at_pc in *; congruence).
    split; [done|]. split; [done|]. split; [by apply one_release_goes; [apply one_release_goes|]|].
    intros _. cbn [goes threads out]. pose proof (list_elem_of_lookup_2 _ _ _ Hu) as Hin. specialize (Hw Hin).
    pose proof (total_insert (threads s) t SignalR UnlockR Ht) as E1.
    assert (<[t := UnlockR]> (threads s) !! u = Some WaitA) as Hu' by by rewrite list_lookup_insert_ne.
    pose proof (total_insert _ u WaitA WokenA Hu') as E2. cbn [going on_its_way] in *. lia.
  - split; [done|]. split; [done|]. split; [by apply one_release_goes|]. by apply woken_ok_nobody.
Qed.

Lemma fifo_reachable malloc n s : malloc_ok malloc -> reachable fifo malloc n s -> fifo_inv s.
Proof.
  intros Hm. apply reaches_invariant; [|apply fifo_inv_step]. clear s. intros s (q & Hq & ->).
  split; [by eapply inv_reachable; [apply fifo_owned|exact Hm|apply reachable_init]|].
  destruct (queue_init_ok _ _ Hm Hq) as (_ & Eh & Et). split_and!; cbn [pool out threads].
  - split_and!; [cbn; lia|by rewrite Eh, Et|]. intros i a. by rewrite lookup_nil.
  - split; [intros t p a [-> _]%lookup_replicate|intros t u p r a b [-> _]%lookup_replicate]; done.
  - intros [j [Hj _]%lookup_replicate]%list_elem_of_lookup. done.
Qed.
End Fifo.

#[export] Instance owned_dec s a : Decision (owned s a).
Proof. unfold owned. apply _. Defined.
#[export] Instance fifo_dec s a : Decision (fifo s a).
Proof. unfold fifo. apply _. Defined.

(** C13. With any number of threads that release only blocks they were given: one thread at
    most is between a lock and the unlock that follows; the blocks marked as in use are those
    that are out, each once; and the block queue_allocate is about to hand out is not out. *)
Theorem queue_no_sharing malloc n s :
  malloc_ok malloc -> reachable owned malloc n s ->
  (forall t u p r, at_pc t p s -> at_pc u r s -> holds_mutex p = true -> holds_mutex r = true -> t = u) /\
  NoDup (out s) /\ (forall a, a ∈ out s <-> Element a 1 ∈ elements (pool s)) /\
  (forall t a q, at_pc t TestA s -> head_in_use (pool s) = false -> take_head (pool s) = Some (a, q) -> a ∉ out s).
Proof.
  intros Hm Hs. destruct (inv_reachable owned (fun _ _ h => h) malloc n s Hm Hs) as (Hp & Hl & _). split_and!.
  - intros t u p r Ht Hu Hx Hy. apply (Hl t p Ht) in Hx. apply (Hl u r Hu) in Hy. congruence.
  - apply Hp.
  - apply Hp.
  - intros t a q _ Hh Hq. by apply (take_pool_ok _ _ _ _ Hp Hh Hq).
Qed.

(** C14. When the blocks are released in the order they were handed out, one at a time: a
    thread goes to sleep only when all five are out; while one is free no thread sleeps
    without another that is on its way to it or about to signal, so no wake-up is lost; and
    the tail stands at the oldest block. *)
Theorem queue_fifo_wakes malloc n s :
  malloc_ok malloc -> reachable fifo malloc n s ->
  (head_in_use (pool s) = true <-> length (out s) = QUEUE_SIZE) /\
  (forall t, at_pc t WaitA s -> (length (out s) < QUEUE_SIZE)%nat -> exists u p, at_pc u p s /\ on_its_way p = true) /\
  (forall a, List.hd_error (out s) = Some a -> address <$> elements (pool s) !! tail (pool s) = Some a).
Proof.
  intros Hm Hs. destruct (fifo_reachable malloc n s Hm Hs) as ((Hp & _) & Hq & _ & Hw). split_and!.
  - by apply head_in_use_full.
  - intros t Ht Hl. apply total_pos. specialize (Hw (list_elem_of_lookup_2 _ _ _ Ht)). lia.
  - intros a Ha. destruct Hq as (_ & _ & Hq). destruct (out s) as [|b l]; [done|]. injection Ha as ->.
    destruct (Hq 0%nat a eq_refl) as (e & Ee & <-). rewrite Nat.add_0_r, Nat.mod_small in Ee by apply Hp. by rewrite Ee.
Qed.

(** ** Runs *)

Definition blocks (i : nat) : option Z := Some (Z.of_nat i * 16).

Definition started (n : nat) : state :=
  State (Queue (map (fun i => Element (Z.of_nat i * 16) 0) (seq 0 QUEUE_SIZE)) 0 0) None (replicate n Idle) [].

Lemma blocks_ok : malloc_ok blocks.
Proof. intros i j a. unfold blocks. intros [= <-] [=]. lia. Qed.

(** queue_allocate by thread [t], to its end or to sleep. *)
Definition allocates (t : nat) : list event := [Run t; Run t; Run t; Run t].
Definition sleeps (t : nat) : list event := [Run t; Run t; Run t].

(** Thread 0 takes all blocks, 1 and 2 wait; 0 gives back the second block, which wakes 1
    for nothing, and then the first, which wakes 2: 1 sleeps beside the second block. *)
Definition lost : list event :=
  concat (replicate 5 (allocates 0)) ++ sleeps 1 ++ sleeps 2 ++
  [Release 0 16; Run 0; Run 0; Signal 0 1; Run 0; Run 1; Run 1] ++
  [Release 0 0; Run 0; Run 0; Signal 0 2; Run 0; Run 2; Run 2; Run 2].

(** Blocks released out of order: a thread sleeps, the block at the head is free, and every
    other thread is outside. *)
Lemma queue_lost_wakeup : exists s, reachable owned blocks 3 s /\
  threads s = [Idle; WaitA; Idle] /\ owner s = None /\ head_in_use (pool s) = false.
Proof.
  destruct (run owned lost (started 3)) as [s|] eqn:E; [|vm_compute in E; discriminate].
  exists s. split; [eapply run_reachable; [by apply reachable_init|exact E]|].
  vm_compute in E. injection E as <-. split_and!; reflexivity.
Qed.

Lemma queue_no_sharing_witness : exists s, reachable owned blocks 3 s /\
  at_pc 1 WaitA s /\ out s = [32; 48; 64; 0] /\ NoDup (out s).
Proof.
  destruct (run owned lost (started 3)) as [s|] eqn:E; [|vm_compute in E; discriminate].
  assert (reachable owned blocks 3 s) as Hr by (eapply run_reachable; [by apply reachable_init|exact E]).
  exists s. split; [exact Hr|]. split; [|split].
  - vm_compute in E. injection E as <-. reflexivity.
  - vm_compute in E. injection E as <-. reflexivity.
  - apply (queue_no_sharing blocks 3 s blocks_ok Hr).
Defined.

(** All five are out and thread 1 sleeps; thread 0 is between the release of the first block
    and the signal. *)
Lemma queue_fifo_wakes_witness : exists s, reachable fifo blocks 2 s /\ at_pc 1 WaitA s /\
  length (out s) = 4%nat /\ exists u p, at_pc u p s /\ on_its_way p = true.
Proof.
  set (es := concat (replicate 5 (allocates 0)) ++ sleeps 1 ++ [Release 0 0; Run 0; Run 0]).
  destruct (run fifo es (started 2)) as [s|] eqn:E; [|vm_compute in E; discriminate].
  assert (reachable fifo blocks 2 s) as Hr by (eapply run_reachable; [by apply reachable_init|exact E]).
  assert (at_pc 1 WaitA s /\ length (out s) = 4%nat) as [Hw Hl].
  { vm_compute in E. injection E as <-. split; reflexivity. }
  exists s. do 3 (split; [assumption|]).
  apply (queue_fifo_wakes blocks 2 s blocks_ok Hr) with 1%nat; [exact Hw|]. rewrite Hl. unfold QUEUE_SIZE. lia.
Defined.
