(* ===== verification/DataFormat.v ===== *)
(** data_format_convertion.c: hexadecimal text to bytes and back. *)

From S2P Require Import Prelude CLib.

Open Scope c_scope.
Open Scope Z_scope.

(** ((p > '9') && ((p <= 'F') || (p <= 'f'))) ? p - 48 - 7 : p - 48, with p a signed char *)
Definition nibble (c : Z) : Z :=
  let p := s8 c in if (57 <? p) && ((p <=? 70) || (p <=? 102)) then p - 48 - 7 else p - 48.

(** The pairs of characters, and the last one when their number is odd. *)
Fixpoint to_hex (str : list Z) : list Z :=
  match str with
  | high :: low :: str =>
      u8 (((s8 (nibble high) .& 15) << 4) .| (s8 (nibble low) .& 15)) :: to_hex str
  | [c] => [u8 (nibble c)]
  | [] => []
  end.

(** What is stored in out, and the result, also stored in *outlen when that is not NULL. *)
Definition StringToHex (str : list Z) : list Z * Z :=
  (to_hex str, zlen str / 2 + zlen str mod 2).

(** "%02x" of an int *)
Definition print_02x (n : Z) : list Z :=
  let text := print_nat 16 (u32 n) in if (length text <? 2)%nat then 48 :: text else text.

(** [text] written at [j] into [buf]. *)
Definition write_at (buf : list Z) (j : nat) (text : list Z) : res (list Z) :=
  if (length buf <? j + length text)%nat then Ub OobWrite
  else Ok (take j buf ++ text ++ drop (j + length text) buf).

(** The loop of str2hex, sprintf writing a NUL after its text, and the last NUL. *)
Fixpoint str2hex_at (dest : list Z) (j : nat) (src : list Z) : res (list Z) :=
  match src with
  | [] => write_at dest j [0]
  | c :: src => let! dest := write_at dest j (print_02x (s8 c) ++ [0]) in str2hex_at dest (j + 2) src
  end.

Definition str2hex (dest src : list Z) : res (list Z) := str2hex_at dest 0 src.

(** The characters stored in ascii, and the result. *)
Definition to_ascii (c : Z) : Z :=
  if ((48 <=? c) && (c <=? 57)) || ((65 <=? c) && (c <=? 90)) || ((97 <=? c) && (c <=? 122)) then c else 255.

Definition hex_to_ascii (hex : list Z) : list Z * Z := (map to_ascii hex, zlen hex).

(** The characters stored in output; no NUL is stored. *)
Definition hexEncode (d : Z) : Z := if d <? 10 then 48 + d else 55 + d.

Definition hex2str (input : list Z) : list Z :=
  concat (map (fun b => [hexEncode ((b >> 4) .& 15); hexEncode (b .& 15)]) input).

(** ** Properties *)

Definition byte_cases (P : Z -> bool) : bool := forallb (fun n => P (Z.of_nat n)) (seq 0 256).

Lemma byte_cases_ok P b : byte_cases P = true -> 0 <= b < 256 -> P b = true.
Proof.
  unfold byte_cases. rewrite forallb_forall. intros Hp Hb. specialize (Hp (Z.to_nat b)).
  rewrite Z2Nat.id in Hp by lia. apply Hp, in_seq. lia.
Qed.

(** StringToHex reads back what hex2str writes, and what a lower-case printer writes. *)
Lemma StringToHex_hex2str input : byte_list input -> StringToHex (hex2str input) = (input, zlen input).
Proof.
  intros F. unfold StringToHex. f_equal.
  - induction F as [|b input Hb F IH]; [done|]. change (hex2str (b :: input)) with
      (hexEncode ((b >> 4) .& 15) :: hexEncode (b .& 15) :: hex2str input). cbn [to_hex]. rewrite IH. f_equal.
    apply Z.eqb_eq. apply (byte_cases_ok (fun b =>
      u8 (((s8 (nibble (hexEncode ((b >> 4) .& 15))) .& 15) << 4) .| (s8 (nibble (hexEncode (b .& 15))) .& 15)) =? b)); [|done].
    vm_compute. reflexivity.
  - assert (zlen (hex2str input) = zlen input * 2) as ->.
    { clear F. induction input as [|b input IH]; [done|]. change (hex2str (b :: input)) with
        (hexEncode ((b >> 4) .& 15) :: hexEncode (b .& 15) :: hex2str input). rewrite !zlen_cons, IH. lia. }
    rewrite Z.div_mul, Z.mod_mul; lia.
Qed.

(** The text of str2hex for characters below 128; one that is negative as a char is printed as
    eight digits of which the next one leaves the first two, so that 0x80 gives ff. *)
Lemma str2hex_examples :
  str2hex (replicate 7 9) (str "1z") = Ok (str "317a" ++ [0; 9; 9]) /\
  str2hex (replicate 12 9) [128; 65] = Ok (str "ff41" ++ [0] ++ str "f80" ++ [0; 9; 9; 9]) /\
  str2hex (replicate 3 9) [128] = Ub OobWrite.
Proof. vm_compute. done. Qed.

(** The last digit of an odd number of lower-case digits is not masked. *)
Lemma StringToHex_odd : (StringToHex (str "1a1a")).1 = [26; 26] /\ (StringToHex (str "1aa")).1 = [26; 42].
Proof. vm_compute. done. Qed.
