(* ===== verification/FileTransfer.v ===== *)
(** send_file.c and recv_file.c: a file over a TCP connection.  What send, recv and fwrite
    answer are lists, consumed in order; a loop that has used up the answers is still
    running, which is the result [None]. *)

From S2P Require Import Prelude.

Open Scope c_scope.
Open Scope Z_scope.

Definition CHUNK : Z := 1024000.

(** socket_connect and socket_bind_listen: a descriptor, or -1 after an error, when the socket
    stays open.  The results of the calls are the arguments. *)
Definition socket_connect (socket connect : Z) : Z :=
  if socket =? -1 then -1 else if connect <? 0 then -1 else socket.

Definition socket_bind_listen (socket bind listen : Z) : Z :=
  if socket =? -1 then -1 else if bind <? 0 then -1 else if listen <? 0 then -1 else socket.

(** ** send_file *)

(** while (ready_to_send_bytes != 0): [ready] are the bytes from &buf[total_send_bytes] on, [wire] what
    the network has taken; the answer is the value of ret.  Errors, EAGAIN among them, and
    zero only lead to the next round. *)
Fixpoint send_loop (answers : list Z) (ready wire : list Z) : option (list Z * list Z) :=
  if zlen ready =? 0 then Some (wire, answers)
  else
    match answers with
    | [] => None
    | ret :: answers =>
        if ret =? zlen ready then Some (wire ++ ready, answers)
        else if 0 <? ret then send_loop answers (drop (Z.to_nat ret) ready) (wire ++ take (Z.to_nat ret) ready)
        else send_loop answers ready wire
    end.

(** while ((read_bytes = fread (buf, 1, chunk, fp)) > 0) *)
Fixpoint send_chunks (chunk fuel : nat) (answers file wire : list Z) : option (list Z * list Z) :=
  match fuel with
  | O => None
  | S fuel =>
      let buf := take chunk file in
      if 0 <? zlen buf then
        '(wire, answers) ← send_loop answers buf wire; send_chunks chunk fuel answers (drop chunk file) wire
      else Some (wire, answers)
  end.

(** [mem], [file]: the answers of malloc and fopen; both are used without a test. *)
Definition send_file (mem : bool) (file : option (list Z)) (answers : list Z) : res (option (list Z)) :=
  match mem, file with
  | true, Some file => Ok (fst <$> send_chunks (Z.to_nat CHUNK) (S (length file)) answers file [])
  | _, _ => Ub NullDeref
  end.

(** ** recv_file *)

(** while (sockfd != -1): a message is what recv gives, none at the end of the stream, [None] an
    error.  fwrite takes as many bytes as its answer says; the count is only logged. *)
Fixpoint recv_loop (messages : list (option (list Z))) (writes : list nat) (disk : list Z) : option (list Z) :=
  match messages with
  | [] => None
  | None :: messages => recv_loop messages writes disk
  | Some [] :: _ => Some disk
  | Some bytes :: messages =>
      match writes with
      | [] => recv_loop messages [] (disk ++ bytes)
      | n :: writes => recv_loop messages writes (disk ++ take n bytes)
      end
  end.

(** The result is -1 when accept fails; the file is then empty and not closed. *)
Definition recv_file (mem fopen : bool) (acceptfd : Z) (messages : list (option (list Z))) (writes : list nat) :
    res (option (Z * list Z)) :=
  if acceptfd <? 0 then Ok (Some (-1, []))
  else if mem && fopen then Ok ((fun disk => (0, disk)) <$> recv_loop messages writes []) else Ub NullDeref.

(** ** From one end to the other *)

Lemma CHUNK_pos : (0 < Z.to_nat CHUNK)%nat.
Proof. apply (proj1 (Z2Nat.inj_lt 0 CHUNK ltac:(lia) ltac:(unfold CHUNK; lia))). reflexivity. Qed.

(** The positive answers, each at most what was asked for: the file is gone when their number
    reaches its length. *)
Definition progress (answers : list Z) : nat := length (List.filter (fun ret => 0 <? ret) answers).

Lemma send_loop_sends answers : forall ready wire,
  (length ready <= progress answers)%nat ->
  exists rest, send_loop answers ready wire = Some (wire ++ ready, rest) /\ (progress answers <= progress rest + length ready)%nat.
Proof.
  induction answers as [|ret answers IH]; intros ready wire Hp.
  - cbn in Hp. destruct ready; [|cbn in Hp; lia]. exists []. cbn. by rewrite app_nil_r.
  - cbn [send_loop]. destruct (Z.eqb_spec (zlen ready) 0) as [E|E].
    { destruct ready; [|unfold zlen in E; cbn in E; lia]. exists (ret :: answers). rewrite app_nil_r. split; [done|lia]. }
    unfold progress in *. cbn [List.filter] in *. destruct (Z.eqb_spec ret (zlen ready)) as [Er|Er].
    { exists answers. split; [done|]. assert (1 <= length ready)%nat by (unfold zlen in E; lia). destruct (0 <? ret); cbn [length]; lia. }
    destruct (Z.ltb_spec 0 ret) as [Hr|Hr]; [|by apply IH]. cbn [length] in Hp.
    destruct (IH (drop (Z.to_nat ret) ready) (wire ++ take (Z.to_nat ret) ready)) as (rest & Es & Hrest).
    { rewrite length_drop. lia. }
    exists rest. rewrite Es, <- app_assoc, take_drop. split; [done|]. rewrite length_drop in Hrest. cbn [length].
    assert (1 <= length ready)%nat by (unfold zlen in E; lia). lia.
Qed.

Lemma send_chunks_sends k fuel : (0 < k)%nat -> forall answers file wire,
  (length file < fuel)%nat -> (length file <= progress answers)%nat ->
  exists rest, send_chunks k fuel answers file wire = Some (wire ++ file, rest).
Proof.
  intros Hk. induction fuel as [|fuel IH]; intros answers file wire Hf Hp; [lia|]. cbn [send_chunks].
  assert (zlen (take k file) = Z.min (Z.of_nat k) (zlen file)) as El by (unfold zlen; rewrite length_take; lia).
  destruct (Z.ltb_spec 0 (zlen (take k file))) as [Hpos|Hpos]; cycle 1.
  { assert (file = []) as -> by (destruct file; [done|]; unfold zlen in *; cbn [length] in *; lia).
    exists answers. by rewrite app_nil_r. }
  destruct (send_loop_sends answers (take k file) wire) as (rest & Es & Hrest).
  { rewrite length_take. lia. }
  rewrite Es. cbn. destruct (IH rest (drop k file) (wire ++ take k file)) as (rest' & Ec).
  - rewrite length_drop. unfold zlen in *. lia.
  - rewrite length_drop. rewrite length_take in Hrest. lia.
  - exists rest'. by rewrite Ec, <- app_assoc, take_drop.
Qed.

Lemma recv_loop_stores messages disk :
  Forall (fun m => m <> Some []) messages ->
  recv_loop (messages ++ [Some []]) [] disk = Some (disk ++ concat (omap id messages)).
Proof.
  intros F. revert disk. induction F as [|m messages Hm F IH]; intros disk; cbn; [by rewrite app_nil_r|].
  destruct m as [[|c bytes]|]; cbn; [done| |apply IH]. rewrite IH, <- app_assoc. done.
Qed.

(** A file that is read, sent with as many answers above zero as it has bytes, cut by the network
    in any way and received with a disk that takes everything is the file; errors on the way,
    which neither program reports, change nothing. *)
Lemma file_arrives file answers messages fd :
  (length file <= progress answers)%nat -> 0 <= fd -> Forall (fun m => m <> Some []) messages ->
  exists wire, send_file true (Some file) answers = Ok (Some wire) /\
    (concat (omap id messages) = wire -> recv_file true true fd (messages ++ [Some []]) [] = Ok (Some (0, file))).
Proof.
  intros Hp Hfd F. destruct (send_chunks_sends (Z.to_nat CHUNK) (S (length file)) CHUNK_pos answers file [] ltac:(lia) Hp) as (rest & E).
  exists file. unfold send_file. rewrite E. split; [done|]. intros Em. unfold recv_file.
  rewrite (proj2 (Z.ltb_ge fd 0)) by done. cbn [andb]. by rewrite recv_loop_stores, Em.
Qed.

(** With a descriptor that is not connected send fails for ever. *)
Lemma send_never_ends answers c file :
  Forall (fun ret => ret < 0) answers -> send_file true (Some (c :: file)) answers = Ok None.
Proof.
  intros F. unfold send_file. pose proof CHUNK_pos as Hk. revert Hk. generalize (Z.to_nat CHUNK) as k. intros k Hk.
  cbn [send_chunks]. set (buf := take k (c :: file)).
  assert (0 < zlen buf) as Hb by (unfold buf, zlen; rewrite length_take; cbn [length]; lia). clearbody buf.
  rewrite (proj2 (Z.ltb_lt 0 _)) by done. enough (send_loop answers buf [] = None) as -> by done.
  induction F as [|ret answers Hr F IH]; cbn [send_loop]; rewrite (proj2 (Z.eqb_neq (zlen buf) 0)) by lia; [done|].
  rewrite (proj2 (Z.eqb_neq ret _)) by lia. by rewrite (proj2 (Z.ltb_ge 0 ret)) by lia.
Qed.
