(* ===== verification/Threads.v ===== *)
(** test/ (the same files in linux/test/): the programs with threads.  semaphore_test.c hands a
    number from one thread to the other with two semaphores, pthread_test.c counts behind a
    mutex, pthreads_tcp/server.c makes a thread for each client.  A step is one access to
    shared memory or one call of the pthread library; [exec] says what the step of a thread
    does, and a program may take the step of any thread that has one. *)

From S2P Require Import Prelude.

Open Scope Z_scope.

(** * semaphore_test.c *)

Module Semaphore.

(** Before the call or the access named. *)
Inductive p_pc : Type := PWait | PStore | PPrint | PPost.
Inductive q_pc : Type := QWait | QRead | QClear | QPrint | QPrintTemp | QPost.

(** The lines printed. *)
Inductive line : Type := LineP (n : Z) | LineQ (n : Z) | LineTemp (n : Z).

(** The two semaphores, queue_t, the two threads with the local variable temp, and the output. *)
Record state : Type := State { p : nat; q : nat; queue_t : Z; p_func : p_pc; q_func : q_pc; temp : Z; printed : list line }.

Definition sem_init : state := State 1 0 0 PWait QWait 0 [].

(** [r] is what rand answers. *)
Definition p_exec (s : state) (r : Z) : option state :=
  match p_func s with
  | PWait => match p s with O => None | S n => Some (State n (q s) (queue_t s) PStore (q_func s) (temp s) (printed s)) end
  | PStore => Some (State (p s) (q s) (r mod 1000 + 1) PPrint (q_func s) (temp s) (printed s))
  | PPrint => Some (State (p s) (q s) (queue_t s) PPost (q_func s) (temp s) (printed s ++ [LineP (queue_t s)]))
  | PPost => Some (State (p s) (S (q s)) (queue_t s) PWait (q_func s) (temp s) (printed s))
  end.

Definition q_exec (s : state) : option state :=
  match q_func s with
  | QWait => match q s with O => None | S n => Some (State (p s) n (queue_t s) (p_func s) QRead (temp s) (printed s)) end
  | QRead => Some (State (p s) (q s) (queue_t s) (p_func s) QClear (queue_t s) (printed s))
  | QClear => Some (State (p s) (q s) (-1) (p_func s) QPrint (temp s) (printed s))
  | QPrint => Some (State (p s) (q s) (queue_t s) (p_func s) QPrintTemp (temp s) (printed s ++ [LineQ (queue_t s)]))
  | QPrintTemp => Some (State (p s) (q s) (queue_t s) (p_func s) QPost (temp s) (printed s ++ [LineTemp (temp s)]))
  | QPost => Some (State (S (p s)) (q s) (queue_t s) (p_func s) QWait (temp s) (printed s))
  end.

Inductive event : Type := RunP (r : Z) | RunQ.

Definition exec (s : state) (e : event) : option state := match e with RunP r => p_exec s r | RunQ => q_exec s end.

Definition step (s t : state) : Prop := exists e, exec s e = Some t.

Definition reachable : state -> Prop := reaches (eq sem_init) step.

(** What a number that is handed over leaves on the console. *)
Definition round (v : Z) : list line := [LineP v; LineQ (-1); LineTemp v].

Definition made (v : Z) : Prop := 1 <= v <= 1000.

(** Where the number on its way is, and how much of its round is printed: one thread has the
    turn, or one of the semaphores has it. *)
Inductive turn (s : state) : list line -> Prop :=
  | turn_free : p s = 1%nat -> q s = 0%nat -> p_func s = PWait -> q_func s = QWait -> turn s []
  | turn_store : p s = 0%nat -> q s = 0%nat -> p_func s = PStore -> q_func s = QWait -> turn s []
  | turn_print : p s = 0%nat -> q s = 0%nat -> p_func s = PPrint -> q_func s = QWait -> made (queue_t s) -> turn s []
  | turn_post : p s = 0%nat -> q s = 0%nat -> p_func s = PPost -> q_func s = QWait -> made (queue_t s) -> turn s [LineP (queue_t s)]
  | turn_posted : p s = 0%nat -> q s = 1%nat -> p_func s = PWait -> q_func s = QWait -> made (queue_t s) -> turn s [LineP (queue_t s)]
  | turn_read : p s = 0%nat -> q s = 0%nat -> p_func s = PWait -> q_func s = QRead -> made (queue_t s) -> turn s [LineP (queue_t s)]
  | turn_clear : p s = 0%nat -> q s = 0%nat -> p_func s = PWait -> q_func s = QClear -> made (temp s) -> turn s [LineP (temp s)]
  | turn_q : p s = 0%nat -> q s = 0%nat -> p_func s = PWait -> q_func s = QPrint -> queue_t s = -1 -> made (temp s) -> turn s [LineP (temp s)]
  | turn_temp : p s = 0%nat -> q s = 0%nat -> p_func s = PWait -> q_func s = QPrintTemp -> made (temp s) ->
      turn s [LineP (temp s); LineQ (-1)]
  | turn_done : p s = 0%nat -> q s = 0%nat -> p_func s = PWait -> q_func s = QPost -> turn s [].

Definition inv (s : state) : Prop := exists vs now, printed s = flat_map round vs ++ now /\ Forall made vs /\ turn s now.

(** [by_turn c]: the step leads to the turn [c]. *)
Ltac by_turn c vs now := exists vs, now; cbn; split; [by rewrite ?app_nil_r, ?app_assoc|]; split; [done|]; by apply c; cbn.

Lemma sem_inv_step s t : inv s -> step s t -> inv t.
Proof.
  intros (vs & now & Hp & Hv & Ht) (e & E). destruct s as [p q x pf qf tmp out]. cbn in Hp.
  destruct Ht; cbn in *; subst; destruct e as [r|]; cbn in E; try discriminate E; injection E as <-.
  - by_turn turn_store vs (@nil line).
  - exists vs, []. cbn. split; [done|]. split; [done|]. apply turn_print; cbn; try done. unfold made.
    pose proof (Z.mod_pos_bound r 1000 ltac:(lia)). lia.
  - by_turn turn_post vs [LineP x].
  - by_turn turn_posted vs [LineP x].
  - by_turn turn_read vs [LineP x].
  - by_turn turn_clear vs [LineP x].
  - by_turn turn_q vs [LineP tmp].
  - exists vs, [LineP tmp; LineQ (-1)]. cbn. split; [by rewrite <- app_assoc|]. split; [done|]. by apply turn_temp.
  - exists (vs ++ [tmp]), []. cbn. rewrite flat_map_app, <- app_assoc, app_nil_r. split; [done|].
    split; [|by apply turn_done]. apply Forall_app. split; [done|by apply Forall_singleton].
  - by_turn turn_free vs (@nil line).
Qed.

Lemma sem_inv_reachable s : reachable s -> inv s.
Proof.
  apply reaches_invariant; [|apply sem_inv_step]. clear s. intros s <-. exists [], []. split_and!; [done|constructor|by apply turn_free].
Qed.

(** A thread is between its sem_wait and its sem_post. *)
Definition p_inside (s : state) : Prop := p_func s <> PWait.
Definition q_inside (s : state) : Prop := q_func s <> QWait.

(** C29. The two semaphores hand the numbers over: the threads are never both between sem_wait and
    sem_post; what is printed is, number after number, the number made, the -1 left in its
    place and the number taken, which is the one made; and one of the threads can always go on. *)
Theorem semaphore_handover s :
  reachable s ->
  ~ (p_inside s /\ q_inside s) /\
  (exists vs v now, printed s = flat_map round vs ++ now /\ Forall made vs /\ made v /\ now `prefix_of` round v) /\
  (exists e t, exec s e = Some t).
Proof.
  intros (vs & now & Hp & Hv & Ht)%sem_inv_reachable. unfold p_inside, q_inside. split_and!.
  - destruct Ht; intros []; congruence.
  - assert (exists v, made v /\ now `prefix_of` round v) as (v & Hm & Hn); [|by exists vs, v, now].
    destruct Ht; (eexists; split; [first [eassumption|by instantiate (1 := 1)]|]); unfold round; repeat apply prefix_cons; apply prefix_nil.
  - destruct s as [p q x pf qf tmp out]. destruct Ht; cbn in *; subst;
      first [by exists (RunP 0); eexists|by exists RunQ; eexists].
Qed.

Lemma semaphore_handover_witness :
  exists s, reachable s /\ printed s = [LineP 8; LineQ (-1); LineTemp 8; LineP 6] /\ ~ (p_inside s /\ q_inside s).
Proof.
  destruct (run_events exec (replicate 4 (RunP 7) ++ replicate 6 RunQ ++ replicate 4 (RunP 1005)) sem_init) as [s|] eqn:E;
    [|vm_compute in E; discriminate].
  assert (reachable s) as Hs.
  { eapply run_events_reaches; [|by apply reaches_init|exact E]. intros r e t Ht. by exists e. }
  exists s. split; [exact Hs|]. split; [|apply (semaphore_handover s Hs)]. vm_compute in E. injection E as <-. reflexivity.
Defined.
End Semaphore.

(** * pthread_test.c *)

Module Counter.

Definition max_count : Z := 5000.

(** Before the access named: g_num++ is a load and a store. *)
Inductive pc : Type := Test | Lock | Load | Store (g : Z) | Print | Unlock | Done.

#[export] Instance pc_eq_dec : EqDecision pc.
Proof. solve_decision. Defined.

(** The local i, or j, and the place. *)
Record thread : Type := Thread { i : Z; at_ : pc }.

(** The mutex, g_num, the threads, and the numbers printed with the thread that printed them. *)
Record state : Type := State { owner : option nat; g_num : Z; threads : list thread; printed : list (nat * Z) }.

(** counter1 is thread 0 and counter2 thread 1; they are the same function but for what they
    print. *)
Definition exec (s : state) (t : nat) : option state :=
  th ← threads s !! t;
  let goes o g p out := Some (State o g (<[t := p]> (threads s)) out) in
  let at_pc p := Thread (i th) p in
  match at_ th with
  | Test => goes (owner s) (g_num s) (at_pc (if i th <=? max_count / 4 then Lock else Done)) (printed s)
  | Lock => match owner s with None => goes (Some t) (g_num s) (at_pc Load) (printed s) | Some _ => None end
  | Load => goes (owner s) (g_num s) (at_pc (Store (g_num s))) (printed s)
  | Store g => goes (owner s) (g + 1) (at_pc Print) (printed s)
  | Print => goes (owner s) (g_num s) (at_pc Unlock) (printed s ++ [(t, g_num s)])
  | Unlock => goes None (g_num s) (Thread (i th + 1) Test) (printed s)
  | Done => None
  end.

Definition step (s t : state) : Prop := exists u, exec s u = Some t.

(** main makes two threads. *)
Definition started (n : nat) : state := State None 0 (replicate n (Thread 1 Test)) [].

Definition reachable (n : nat) : state -> Prop := reaches (eq (started n)) step.

(** The mutex is held. *)
Definition inside (p : pc) : bool := match p with Load | Store _ | Print | Unlock => true | _ => false end.

(** What a thread has added to g_num. *)
Definition counted (th : thread) : Z := i th - 1 + match at_ th with Print | Unlock => 1 | _ => 0 end.

Definition total (l : list thread) : Z := foldr (fun th n => counted th + n) 0 l.

Lemma counter_total_insert l t th th' : l !! t = Some th -> total (<[t := th']> l) = total l - counted th + counted th'.
Proof.
  revert t. induction l as [|x l IH]; intros [|t] Ht; [done|done| |].
  - injection Ht as <-. change (counted th' + total l = counted x + total l - counted x + counted th'). lia.
  - change (counted x + total (<[t := th']> l) = counted x + total l - counted th + counted th'). rewrite (IH t Ht). lia.
Qed.

(** A thread runs from 1 to the bound, and loads the value it will add one to. *)
Definition thread_ok (g : Z) (th : thread) : Prop :=
  match at_ th with
  | Test => 1 <= i th <= max_count / 4 + 1
  | Done => i th = max_count / 4 + 1
  | Store x => 1 <= i th <= max_count / 4 /\ x = g
  | _ => 1 <= i th <= max_count / 4
  end.

(** The number that is not printed yet. *)
Definition unprinted (s : state) : list Z :=
  match t ← owner s; threads s !! t with Some th => if decide (at_ th = Print) then [g_num s] else [] | None => [] end.

Record inv (s : state) : Prop := {
  inv_total : g_num s = total (threads s);
  inv_lock t th : threads s !! t = Some th -> inside (at_ th) = true <-> owner s = Some t;
  inv_owner t : owner s = Some t -> is_Some (threads s !! t);
  inv_threads t th : threads s !! t = Some th -> thread_ok (g_num s) th;
  inv_printed : map snd (printed s) ++ unprinted s = seqZ 1 (g_num s);
  inv_g : 0 <= g_num s }.

(** The frame of a step: thread [t] goes from [th] to [th'], and holds the mutex before or after it, or
    changes nothing shared. *)
Lemma counter_inv_goes s t th th' o' g' out' :
  inv s -> threads s !! t = Some th -> thread_ok g' th' -> g' - counted th' = g_num s - counted th ->
  o' = (if inside (at_ th') then Some t else if inside (at_ th) then None else owner s) ->
  (inside (at_ th') = true -> inside (at_ th) = true \/ owner s = None) ->
  (g' = g_num s \/ owner s = Some t) -> 0 <= g' ->
  map snd out' ++ unprinted (State o' g' (<[t := th']> (threads s)) out') = seqZ 1 g' ->
  inv (State o' g' (<[t := th']> (threads s)) out').
Proof.
  intros [Ht Hl Ho Hth Hp Hg] Et Hok Hc -> Hin Hsh Hg' Hout. pose proof (Hl t th Et) as Hlt.
  constructor; cbn [owner g_num threads printed]; [|..|exact Hout|exact Hg'].
  - rewrite (counter_total_insert _ _ th) by done. lia.
  - intros u r [(<- & <- & _)|[Hne Hu]]%list_lookup_insert_Some.
    + destruct (inside (at_ th')); [done|]. destruct (inside (at_ th)); [done|]. by rewrite <- Hlt.
    + pose proof (Hl u r Hu) as Hlu. destruct (inside (at_ th')) eqn:E.
      * destruct (Hin eq_refl) as [E'|E']; rewrite Hlu; [rewrite (proj1 Hlt E')|rewrite E']; naive_solver.
      * destruct (inside (at_ th)) eqn:E'; [|done]. rewrite Hlu, (proj1 Hlt eq_refl). naive_solver.
  - intros u Hu. apply lookup_lt_is_Some. rewrite length_insert. apply lookup_lt_is_Some.
    destruct (inside (at_ th')); [injection Hu as <-; by eexists|]. destruct (inside (at_ th)); [done|auto].
  - intros u r [(<- & <- & _)|[Hne Hu]]%list_lookup_insert_Some; [done|]. specialize (Hth u r Hu).
    destruct Hsh as [->|Hown]; [done|]. unfold thread_ok in *. destruct (at_ r) eqn:E; try done.
    assert (owner s = Some u) as Hu' by by apply (Hl u r Hu); rewrite E. congruence.
Qed.

Lemma counter_unprinted_insert g l t th out :
  (t < length l)%nat -> unprinted (State (Some t) g (<[t := th]> l) out) = if decide (at_ th = Print) then [g] else [].
Proof. intros Hl. unfold unprinted. cbn. by rewrite list_lookup_insert_eq. Qed.

Lemma counter_seqZ_next g : 0 <= g -> seqZ 1 (g + 1) = seqZ 1 g ++ [g + 1].
Proof. intros Hg. rewrite seqZ_app by lia. f_equal. by rewrite (Z.add_comm 1 g). Qed.

(** Threads outside do not print. *)
Lemma counter_unprinted_keep s t th th' out :
  inv s -> threads s !! t = Some th -> inside (at_ th) = false -> inside (at_ th') = false ->
  unprinted (State (owner s) (g_num s) (<[t := th']> (threads s)) out) = unprinted s.
Proof.
  intros Hs Et E E'. unfold unprinted. cbn. destruct (owner s) as [u|] eqn:Eo; [|done]. cbn.
  destruct (decide (u = t)) as [->|Hne]; [|by rewrite list_lookup_insert_ne].
  pose proof (proj2 (inv_lock s Hs t th Et) Eo). congruence.
Qed.

Lemma counter_inv_step s t : inv s -> step s t -> inv t.
Proof.
  intros Hs (u & E). unfold exec in E. destruct (threads s !! u) as [th|] eqn:Et; [|done]. cbn in E.
  pose proof (inv_threads s Hs u th Et) as Hok. pose proof (inv_g s Hs) as Hg. pose proof (inv_printed s Hs) as Hp.
  pose proof (inv_lock s Hs u th Et) as Hl. pose proof (lookup_lt_Some _ _ _ Et) as Hlt. destruct th as [i pc]. unfold thread_ok in Hok.
  cbn [Counter.at_ Counter.i] in *. destruct pc as [| | |g| | |]; cbn in Hl.
  - injection E as <-. apply (counter_inv_goes s u (Thread i Test)); try done; cbn [at_ Counter.i inside counted] in *.
    + unfold thread_ok. destruct (Z.leb_spec i (max_count / 4)); cbn; lia.
    + unfold counted. by destruct (i <=? max_count / 4).
    + by destruct (i <=? max_count / 4).
    + by destruct (i <=? max_count / 4).
    + by left.
    + rewrite (counter_unprinted_keep s u (Thread i Test)); try done. cbn. by destruct (i <=? max_count / 4).
  - destruct (owner s) as [|] eqn:Eo; [done|]. injection E as <-.
    apply (counter_inv_goes s u (Thread i Lock)); try done; cbn [at_ inside]; [by right|by left|].
    rewrite counter_unprinted_insert by done. unfold unprinted in Hp. rewrite Eo in Hp. exact Hp.
  - assert (owner s = Some u) as Eo by by apply Hl. injection E as <-.
    apply (counter_inv_goes s u (Thread i Load)); try done; cbn [at_ inside]; [by left|by left|].
    rewrite Eo, counter_unprinted_insert by done. unfold unprinted in Hp. rewrite Eo in Hp. cbn in Hp. rewrite Et in Hp. exact Hp.
  - assert (owner s = Some u) as Eo by by apply Hl. destruct Hok as [Hi ->]. injection E as <-.
    apply (counter_inv_goes s u (Thread i (Store (g_num s)))); try done; cbn [at_ inside]; [unfold counted; cbn; lia|by left|by right|lia|].
    rewrite Eo, counter_unprinted_insert by done. unfold unprinted in Hp. rewrite Eo in Hp. cbn in Hp. rewrite Et in Hp.
    rewrite app_nil_r in Hp. rewrite Hp. symmetry. by apply counter_seqZ_next.
  - assert (owner s = Some u) as Eo by by apply Hl. injection E as <-.
    apply (counter_inv_goes s u (Thread i Print)); try done; cbn [at_ inside]; [by left|by left|].
    rewrite Eo, counter_unprinted_insert by done. unfold unprinted in Hp. rewrite Eo in Hp. cbn in Hp. rewrite Et in Hp.
    rewrite map_app, app_nil_r. exact Hp.
  - assert (owner s = Some u) as Eo by by apply Hl. injection E as <-.
    apply (counter_inv_goes s u (Thread i Unlock)); try done; cbn [at_ inside]; [unfold thread_ok; cbn; lia|unfold counted; cbn; lia|by left|].
    unfold unprinted in Hp. rewrite Eo in Hp. cbn in Hp. rewrite Et in Hp. exact Hp.
  - done.
Qed.

Lemma counter_inv_reachable n s : reachable n s -> inv s.
Proof.
  apply reaches_invariant; [|apply counter_inv_step]. clear s. intros s <-. constructor; cbn; try done.
  - induction n as [|n IH]; cbn; [done|]. rewrite <- IH. done.
  - intros t th [-> _]%lookup_replicate. done.
  - intros t th [-> _]%lookup_replicate. by unfold thread_ok.
Qed.

Definition finished (s : state) : Prop := Forall (fun th => at_ th = Done) (threads s).

Lemma counter_total_done l : Forall (fun th => counted th = max_count / 4) l -> total l = zlen l * (max_count / 4).
Proof. induction 1 as [|th l H _ IH]; [done|]. change (counted th + total l = zlen (th :: l) * (max_count / 4)). rewrite H, IH, zlen_cons. lia. Qed.

Lemma counter_threads_number n s : reachable n s -> length (threads s) = n.
Proof.
  revert s. apply reaches_invariant; [intros s <-; apply length_replicate|]. intros s t IH (u & E). unfold exec in E.
  destruct (threads s !! u) as [th|]; [|done]. cbn in E.
  destruct (at_ th); try destruct (owner s); try done; injection E as <-; cbn; by rewrite length_insert.
Qed.

(** C30. However the threads are scheduled, g_num counts every round: when all threads have ended it is
    their number times the rounds of one, the numbers printed so far are 1, 2, 3 and so on, each
    once, and until all have ended one of them can go on. *)
Theorem counter_counts_all n s :
  reachable n s ->
  (exists k, map snd (printed s) = seqZ 1 k /\ k <= g_num s <= k + 1) /\
  (finished s -> g_num s = Z.of_nat n * (max_count / 4) /\ map snd (printed s) = seqZ 1 (g_num s)) /\
  (finished s \/ exists u t, exec s u = Some t).
Proof.
  intros Hr. pose proof (counter_inv_reachable n s Hr) as [Ht Hl Ho Hth Hp Hg]. split_and!.
  - unfold unprinted in Hp. destruct (t ← owner s; threads s !! t) as [th|]; [|exists (g_num s); rewrite app_nil_r in Hp; split; [done|lia]].
    case_decide; [|exists (g_num s); rewrite app_nil_r in Hp; split; [done|lia]].
    exists (g_num s - 1). split; [|lia]. assert (0 < g_num s) as Hpos.
    { destruct (Z.eq_dec (g_num s) 0) as [E|]; [|lia]. rewrite E in Hp. by destruct (map snd (printed s)). }
    replace (g_num s) with (g_num s - 1 + 1) in Hp by lia. rewrite counter_seqZ_next in Hp by lia. by apply app_inj_tail in Hp as [? _].
  - intros Hf. unfold finished in Hf. rewrite Forall_lookup in Hf. split.
    + rewrite Ht, counter_total_done, <- (counter_threads_number n s Hr); [done|]. apply Forall_lookup. intros t th Et.
      specialize (Hth t th Et). specialize (Hf t th Et). unfold thread_ok in Hth. unfold counted. rewrite Hf in *. lia.
    + rewrite <- Hp. unfold unprinted. destruct (owner s) as [t|] eqn:Eo; [|by rewrite app_nil_r].
      destruct (Ho t eq_refl) as [th Et]. pose proof (proj2 (Hl t th Et) eq_refl) as H. by rewrite (Hf t th Et) in H.
  - destruct (owner s) as [t|] eqn:Eo.
    + right. exists t. unfold exec. destruct (Ho t eq_refl) as [th Et]. pose proof (proj2 (Hl t th Et) eq_refl) as H.
      rewrite Et. cbn. destruct (at_ th); try done; by eexists.
    + destruct (decide (Forall (fun th => at_ th = Done) (threads s))) as [|Hn]; [by left|right].
      apply (not_Forall_Exists _), Exists_exists in Hn as (th & Hin & Hne).
      apply list_elem_of_lookup in Hin as [t Et]. exists t. unfold exec. rewrite Et. cbn. rewrite Eo.
      destruct (at_ th) eqn:Ea; [by eexists..|by destruct Hne].
Qed.

(** Round by round in turn. *)
Definition in_turn : list nat := concat (replicate (Z.to_nat (max_count / 4)) (replicate 6 0%nat ++ replicate 6 1%nat)) ++ [0%nat; 1%nat].

Lemma counter_counts_all_witness : exists s, reachable 2 s /\ finished s /\ g_num s = 2500.
Proof.
  assert ((fun s => map at_ (threads s)) <$> run_events exec in_turn (started 2) = Some [Done; Done]) as E by (vm_compute; reflexivity).
  destruct (run_events exec in_turn (started 2)) as [s|] eqn:Er; [|discriminate E]. injection E as E.
  assert (reachable 2 s) as Hs.
  { eapply run_events_reaches; [|by apply reaches_init|exact Er]. intros r e t Ht. by exists e. }
  clear Er. assert (finished s) as Hf.
  { apply Forall_lookup. intros t th Et.
    assert (at_ <$> threads s !! t = [Done; Done] !! t) as El by (rewrite <- E; symmetry; apply list_lookup_fmap).
    rewrite Et in El. destruct t as [|[|t]]; [injection El; done|injection El; done|discriminate El]. }
  exists s. do 2 (split; [assumption|]). apply (counter_counts_all 2 s Hs). exact Hf.
Defined.
End Counter.

(** * pthreads_tcp/server.c *)

Module Server.

(** num_t; the address is only printed. *)
Record num_t : Type := Num { accept_fd : Z; client_addr : Z }.

Inductive main_pc : Type :=
  | Accept              (* usr.accept_fd = accept () *)
  | SetAddr (addr : Z)  (* usr.client_addr = client_addr *)
  | Create              (* pthread_create (&pid, NULL, task1, &usr); pthread_detach *)
  | Exited.             (* exit (-1), in any thread *)

#[export] Instance main_pc_eq_dec : EqDecision main_pc.
Proof. solve_decision. Defined.

(** task1, with its own usr once it has copied that of main. *)
Inductive task_pc : Type :=
  | CopyUsr             (* usr = *(num_t * )arg *)
  | Serve (usr : num_t) (* recv, and the reply *)
  | Close (usr : num_t) (* close (usr.accept_fd) *)
  | Ended.

(** usr of main, the threads, the descriptors that are open, and those accept has answered. *)
Record state : Type := State { usr : num_t; main : main_pc; tasks : list task_pc; open : gset Z; accepted : list Z }.

Definition started : state := State (Num 0 0) Accept [] ∅ [].

(** What accept, recv and send answer, and what the message is. *)
Inductive answer : Type := Failed | Client (fd addr : Z) | Message (is_quit sent : bool) | EndOfStream.

(** main: [None] when pthread_create must succeed, or the answer does not fit. *)
Definition main_exec (s : state) (a : answer) : option state :=
  match main s, a with
  | Accept, Failed => Some (State (Num (-1) (client_addr (usr s))) Exited (tasks s) (open s) (accepted s))
  | Accept, Client fd addr =>
      if bool_decide (0 <= fd /\ fd ∉ open s)
      then Some (State (Num fd (client_addr (usr s))) (SetAddr addr) (tasks s) ({[fd]} ∪ open s) (accepted s ++ [fd])) else None
  | SetAddr addr, _ => Some (State (Num (accept_fd (usr s)) addr) Create (tasks s) (open s) (accepted s))
  | Create, Failed => Some (State (usr s) Exited (tasks s) (open s) (accepted s))
  | Create, _ => Some (State (usr s) Accept (tasks s ++ [CopyUsr]) (open s) (accepted s))
  | _, _ => None
  end.

Definition task_exec (s : state) (t : nat) (a : answer) : option state :=
  task ← tasks s !! t;
  let goes p := Some (State (usr s) (main s) (<[t := p]> (tasks s)) (open s) (accepted s)) in
  let exits := Some (State (usr s) Exited (tasks s) (open s) (accepted s)) in
  match task, a with
  | CopyUsr, _ => goes (Serve (usr s))
  | Serve u, Failed => exits
  | Serve u, EndOfStream => goes (Close u)
  | Serve u, Message is_quit sent => if is_quit : bool then goes (Close u) else if sent : bool then goes (Serve u) else exits
  | Close u, _ => Some (State (usr s) (main s) (<[t := Ended]> (tasks s)) (open s ∖ {[accept_fd u]}) (accepted s))
  | _, _ => None
  end.

Inductive event : Type := Main (a : answer) | Task (t : nat) (a : answer).

Definition exec (s : state) (e : event) : option state :=
  match main s with
  | Exited => None
  | _ => match e with Main a => main_exec s a | Task t a => task_exec s t a end
  end.

Definition step (s t : state) : Prop := exists e, exec s e = Some t.

Definition reachable : state -> Prop := reaches (eq started) step.

(** The descriptor a thread uses. *)
Definition serves (p : task_pc) : option Z := match p with Serve u | Close u => Some (accept_fd u) | _ => None end.

(** The race on usr of main: the first thread copies it after the second accept, both threads serve the
    second client, the first client is never served, and its descriptor stays open; the second
    close hits a third client that has got the same descriptor. *)
Definition race : list event :=
  [Main (Client 4 1); Main EndOfStream; Main EndOfStream; Main (Client 5 2); Task 0 EndOfStream; Main EndOfStream; Main EndOfStream;
   Task 1 EndOfStream].

Definition double_close : list event :=
  [Task 0 EndOfStream; Task 1 EndOfStream; Task 0 EndOfStream; Main (Client 5 3); Main EndOfStream; Main EndOfStream;
   Task 2 EndOfStream; Task 1 EndOfStream].

Lemma server_race :
  (exists s, reachable s /\ map serves (tasks s) = [Some 5; Some 5] /\ open s = {[4; 5]} /\ accepted s = [4; 5]) /\
  (exists s, reachable s /\ tasks s = [Ended; Ended; Serve (Num 5 3)] /\ 5 ∉ open s).
Proof.
  assert (forall es s, run_events exec es started = Some s -> reachable s) as Hr.
  { intros es s. apply run_events_reaches; [|by apply reaches_init]. intros r e t Ht. by exists e. }
  split.
  - destruct (run_events exec race started) as [s|] eqn:E; [|vm_compute in E; discriminate].
    exists s. split; [by eapply Hr|]. vm_compute in E. injection E as <-. split_and!; [done|set_solver|done].
  - destruct (run_events exec (race ++ double_close) started) as [s|] eqn:E; [|vm_compute in E; discriminate].
    exists s. split; [by eapply Hr|]. vm_compute in E. injection E as <-. split; [done|]. cbn. by vm_compute.
Qed.

(** ** Without the race: main accepts when the threads have their copies *)

Definition patient (s t : state) : Prop :=
  exists e, exec s e = Some t /\ (forall a, e = Main a -> main s = Accept -> CopyUsr ∉ tasks s).

Definition pending (p : main_pc) : bool := match p with SetAddr _ | Create => true | _ => false end.

(** The descriptor a thread has or will copy, and all that somebody has. *)
Definition claim (fd : Z) (p : task_pc) : option Z := match p with CopyUsr => Some fd | _ => serves p end.

Definition claims (s : state) : list Z :=
  omap (claim (accept_fd (usr s))) (tasks s) ++ (if pending (main s) then [accept_fd (usr s)] else []).

Definition inv (s : state) : Prop :=
  main s = Exited \/
  NoDup (claims s) /\ (forall fd, fd ∈ claims s <-> fd ∈ open s) /\ (pending (main s) = true -> CopyUsr ∉ tasks s).

Lemma server_claim_copied fd fd' (l : list task_pc) : CopyUsr ∉ l -> omap (claim fd) l = omap (claim fd') l.
Proof.
  induction l as [|p l IH]; [done|]. intros [Hp Hl]%not_elem_of_cons. cbn. rewrite (IH Hl). by destruct p.
Qed.

Lemma server_copied_insert t p' (l : list task_pc) : p' <> CopyUsr -> CopyUsr ∉ l -> CopyUsr ∉ <[t := p']> l.
Proof.
  intros Hp Hl [i [(_ & E & _)|[_ Hi]]%list_lookup_insert_Some]%list_elem_of_lookup; [congruence|].
  by apply Hl, (list_elem_of_lookup_2 _ i).
Qed.

(** A thread goes on with the descriptor it has. *)
Lemma server_inv_goes s t p p' :
  main s <> Exited -> inv s -> tasks s !! t = Some p -> p' <> CopyUsr ->
  claim (accept_fd (usr s)) p' = claim (accept_fd (usr s)) p ->
  inv (State (usr s) (main s) (<[t := p']> (tasks s)) (open s) (accepted s)).
Proof.
  intros Hm [|(Hn & Ho & Hc)] Ht Hp E; [done|]. right. unfold claims. cbn.
  destruct (omap_insert (claim (accept_fd (usr s))) (tasks s) t p p' Ht) as [E1 E2]. rewrite E2, E, <- E1. split_and!; [done..|].
  intros Hpe. by apply server_copied_insert, Hc.
Qed.

Lemma server_inv_close s t u :
  inv s -> main s <> Exited -> tasks s !! t = Some (Close u) ->
  inv (State (usr s) (main s) (<[t := Ended]> (tasks s)) (open s ∖ {[accept_fd u]}) (accepted s)).
Proof.
  intros [|(Hn & Ho & Hc)] Hm Ht; [done|]. right. unfold claims in *. cbn.
  destruct (omap_insert (claim (accept_fd (usr s))) (tasks s) t (Close u) Ended Ht) as [E1 E2]. rewrite E1 in Hn, Ho. rewrite E2. cbn in *.
  rewrite <- !app_assoc in *. cbn in *. set (l := omap _ (take t (tasks s))) in *. set (r := omap _ (drop _ _) ++ _) in *.
  assert (l ++ accept_fd u :: r ≡ₚ accept_fd u :: l ++ r) as Pl by (symmetry; apply Permutation_middle).
  rewrite Pl in Hn. apply NoDup_cons in Hn as [Hnin Hn]. split_and!; [done| |].
  - intros fd. rewrite elem_of_difference, elem_of_singleton, <- Ho, Pl, elem_of_cons. set_solver.
  - intros Hpe. by apply server_copied_insert, Hc.
Qed.

Lemma server_inv_patient s t : inv s -> patient s t -> inv t.
Proof.
  intros Hs (e & E & Hpat). unfold exec in E. destruct (decide (main s = Exited)) as [Hx|Hx]; [by rewrite Hx in E|].
  assert (match e with Main a => main_exec s a | Task t a => task_exec s t a end = Some t) as E' by by destruct (main s). clear E.
  destruct e as [a|u a].
  - destruct Hs as [|(Hn & Ho & Hc)]; [done|]. unfold main_exec in E'. unfold claims in *. destruct (main s) as [|addr| |] eqn:Em; [| | |done]; cbn in *.
    + destruct a; try done; [injection E' as <-; by left|]. destruct (bool_decide _) eqn:D; [|done]. injection E' as <-.
      apply bool_decide_eq_true in D as [_ Hfd]. specialize (Hpat _ eq_refl eq_refl). right. unfold claims. cbn.
      rewrite app_nil_r in *. rewrite (server_claim_copied fd (accept_fd (usr s))) by done. split_and!; [|set_solver|done].
      apply NoDup_app. split_and!; [done| |apply NoDup_singleton]. intros x Hx1 ->%list_elem_of_singleton. by apply Hfd, Ho.
    + injection E' as <-. right. by split_and!.
    + assert (inv (State (usr s) Accept (tasks s ++ [CopyUsr]) (open s) (accepted s))) as Hi.
      { right. unfold claims. cbn. rewrite omap_app, app_nil_r. cbn. by split_and!. }
      destruct a; injection E' as <-; [by left|exact Hi..].
  - unfold task_exec in E'. destruct (tasks s !! u) as [p|] eqn:Et; [|done]. cbn in E'. destruct p as [|v|v|]; [| | |done].
    + injection E' as <-. by eapply server_inv_goes.
    + destruct a as [| |is_quit sent|]; try done; [injection E' as <-; by left| |injection E' as <-; by eapply server_inv_goes].
      destruct is_quit; [injection E' as <-; by eapply server_inv_goes|]. destruct sent; injection E' as <-; [by eapply server_inv_goes|by left].
    + injection E' as <-. by eapply server_inv_close.
Qed.

(** The claims before one position are fewer than those before a later one. *)
Lemma server_claims_before fd (l : list task_pc) t u p x :
  l !! t = Some p -> claim fd p = Some x -> (t < u)%nat ->
  (length (omap (claim fd) (take t l)) < length (omap (claim fd) (take u l)))%nat.
Proof.
  intros Ht Hp Hlt. rewrite <- (take_drop (S t) (take u l)), take_take, Nat.min_l by lia.
  rewrite omap_app, (take_S_r _ _ _ Ht), omap_app. cbn. rewrite Hp, !length_app. cbn. lia.
Qed.

(** When main accepts only after the threads have copied usr, no two threads serve one client, and every
    descriptor that is open is served, about to be copied, or about to be handed to a thread. *)
Lemma server_patient s t u fd :
  reaches (eq started) patient s -> main s <> Exited -> tasks s !! t ≫= serves = Some fd -> tasks s !! u ≫= serves = Some fd ->
  t = u /\ fd ∈ open s.
Proof.
  intros Hs Hm Ht Hu. assert (inv s) as [|(Hn & Ho & _)]; [|done|].
  { revert Hs. apply reaches_invariant; [|apply server_inv_patient]. intros r <-. right. split_and!; [exact NoDup_nil_2|set_solver|done]. }
  set (n t := length (omap (claim (accept_fd (usr s))) (take t (tasks s)))).
  assert (forall t, tasks s !! t ≫= serves = Some fd ->
    (exists p, tasks s !! t = Some p /\ claim (accept_fd (usr s)) p = Some fd) /\ claims s !! n t = Some fd) as Hcl.
  { clear t u Ht Hu. intros t Ht. destruct (tasks s !! t) as [p|] eqn:Et; [|done]. cbn in Ht.
    assert (claim (accept_fd (usr s)) p = Some fd) as Ec by by destruct p. split; [by exists p|].
    destruct (omap_insert (claim (accept_fd (usr s))) (tasks s) t p p Et) as [E _]. unfold claims. rewrite E, Ec, <- app_assoc.
    by apply list_lookup_middle. }
  destruct (Hcl t Ht) as [(p & Et & Ep) Hct], (Hcl u Hu) as [(r & Eu & Er) Hcu].
  pose proof (NoDup_lookup _ _ _ _ Hn Hct Hcu) as Hl.
  split; [|by apply Ho, (list_elem_of_lookup_2 _ (n t))].
  destruct (Nat.lt_total t u) as [Hlt|[|Hlt]]; [|done|];
    [pose proof (server_claims_before _ _ _ _ _ _ Et Ep Hlt)|pose proof (server_claims_before _ _ _ _ _ _ Eu Er Hlt)]; unfold n in Hl; lia.
Qed.
End Server.
