(* ===== verification/TestSelect.v ===== *)
(** test/TCP_select/select_server.c (the same file in linux/test/): a loop around select that
    passes it the set the program keeps.  select leaves in the set only what is ready; the copy
    readfds_tmp that would keep the rest is made and never used. *)

From S2P Require Import Prelude.

Open Scope Z_scope.

Definition FD_SETSIZE : Z := 1024.

(** What the calls on a descriptor that is ready answer: accept for the listening socket, recv for a
    client, and send for the reply to its message. *)
Inductive answer : Type := Failed | Accepted (fd : Z) | EndOfStream | Quit | Text (sent : bool).

(** The set, max_fd, and the descriptors closed so far. *)
Record state : Type := State { readfds : gset Z; max_fd : Z; closed : list Z }.

(** How the pass ends: the next select, or exit (-1). *)
Inductive outcome : Type := Select (s : state) | Exit.

(** if (FD_ISSET (i, &readfds)): the new state and ret, or the end of the loop.  A descriptor that FD_SET
    cannot hold is written outside the set. *)
Definition serve (sock_fd i ret : Z) (a : answer) (s : state) : res (outcome * option Z) :=
  if i =? sock_fd then
    match a with
    | Accepted fd =>
        if FD_SETSIZE <=? fd then Ub OobWrite
        else Ok (Select (State ({[fd]} ∪ readfds s) (Z.max (max_fd s) fd) (closed s)), Some (ret - 1))
    | _ => Ok (Exit, None)
    end
  else
    let cleared := Select (State (readfds s ∖ {[i]}) (max_fd s) (closed s ++ [i])) in
    match a with
    | EndOfStream | Quit => Ok (cleared, Some ret)
    | Text true => Ok (Select s, Some (ret - 1))
    | _ => Ok (Select s, None)
    end.

(** The for loop.  [fuel] bounds the descriptors still to look at. *)
Fixpoint for_loop (fuel : nat) (sock_fd i ret : Z) (answers : Z -> answer) (s : state) : res outcome :=
  match fuel with
  | O => Ub NoReturn
  | S fuel =>
      if (i <? max_fd s + 1) && (0 <? ret) then
        if bool_decide (i ∈ readfds s) then
          match serve sock_fd i ret (answers i) s with
          | Ub e => Ub e
          | Ok (Select s, Some ret) => for_loop fuel sock_fd (i + 1) ret answers s
          | Ok (o, _) => Ok o
          end
        else for_loop fuel sock_fd (i + 1) ret answers s
      else Ok (Select s)
  end.

(** One round of while (1), select having found [ready]. *)
Definition pass (sock_fd : Z) (ready : gset Z) (answers : Z -> answer) (s : state) : res outcome :=
  for_loop (Z.to_nat FD_SETSIZE + 1) sock_fd 0 (Z.of_nat (size ready)) answers (State ready (max_fd s) (closed s)).

Definition socket_ready (sock_fd : Z) : state := State {[sock_fd]} sock_fd [].

(** The steps of main: select blocks while nothing it looks at is ready. *)
Inductive step (sock_fd : Z) (s : state) : state -> Prop :=
  | step_pass ready answers t :
      ready ⊆ readfds s -> ready <> ∅ -> pass sock_fd ready answers s = Ok (Select t) -> step sock_fd s t.

Definition set_ok (s : state) : Prop := max_fd s < FD_SETSIZE.

(** The loop ends within its fuel, and keeps every descriptor below FD_SETSIZE. *)
Lemma for_loop_ends sock_fd answers fuel : forall i ret s,
  set_ok s -> FD_SETSIZE - i < Z.of_nat fuel -> i <= FD_SETSIZE ->
  match for_loop fuel sock_fd i ret answers s with
  | Ub e => e = OobWrite
  | Ok (Select t) => set_ok t
  | Ok Exit => True
  end.
Proof.
  induction fuel as [|fuel IH]; intros i ret s Hs Hf Hi; [lia|]. cbn [for_loop].
  destruct (Z.ltb_spec i (max_fd s + 1)) as [Hlt|]; [|done]. cbn [andb].
  destruct (0 <? ret); [|done]. unfold set_ok in *. case_bool_decide; [|by apply IH; lia].
  unfold serve. destruct (i =? sock_fd).
  - destruct (answers i) as [|fd| | |sent]; try done. destruct (Z.leb_spec FD_SETSIZE fd); [done|]. apply IH; cbn [max_fd]; lia.
  - destruct (answers i) as [|fd| | |[|]]; try done; apply IH; cbn [max_fd]; lia.
Qed.

(** Without the listening socket in the set nothing is added to it. *)
Lemma for_loop_shrinks sock_fd answers fuel : forall i ret s t,
  sock_fd ∉ readfds s -> for_loop fuel sock_fd i ret answers s = Ok (Select t) -> readfds t ⊆ readfds s.
Proof.
  induction fuel as [|fuel IH]; intros i ret s t Hs; [done|]. cbn [for_loop].
  destruct (_ && _); [|by intros [= <-]]. case_bool_decide as Hin; [|by apply IH].
  unfold serve. rewrite (proj2 (Z.eqb_neq i sock_fd)) by (intros ->; done).
  destruct (answers i) as [|fd| | |[|]]; try (by intros [= <-]); try (by apply IH);
    intros H; apply IH in H; cbn [readfds] in *; set_solver.
Qed.

#[local] Strategy 100 [for_loop].

Lemma pass_shrinks sock_fd ready answers s t :
  sock_fd ∉ ready -> pass sock_fd ready answers s = Ok (Select t) -> readfds t ⊆ ready.
Proof. intros Hs E. exact (for_loop_shrinks _ _ _ _ _ (State ready (max_fd s) (closed s)) _ Hs E). Qed.

(** A pass ends: the fuel is enough while the descriptors stay below FD_SETSIZE, and they do. *)
Lemma pass_ends sock_fd ready answers s : set_ok s ->
  match pass sock_fd ready answers s with Ub e => e = OobWrite | Ok (Select t) => set_ok t | Ok Exit => True end.
Proof.
  intros Hs. refine (for_loop_ends sock_fd answers _ 0 _ (State ready (max_fd s) (closed s)) Hs _ _); [|discriminate].
  rewrite Nat2Z.inj_add, Z2Nat.id by discriminate. reflexivity.
Qed.

(** A pass that does not find the listening socket ready drops it from the set; from then on no client
    is accepted, whatever comes, and the clients that are left only become fewer. *)
Lemma listening_socket_dropped sock_fd s t :
  sock_fd ∉ readfds s -> rtc (step sock_fd) s t -> sock_fd ∉ readfds t /\ readfds t ⊆ readfds s.
Proof.
  intros Hs Hst. revert Hs. induction Hst as [s|s u t [ready answers u' Hr _ E] _ IH]; intros Hs; [by split|].
  assert (readfds u' ⊆ ready) as Hsub.
  { eapply pass_shrinks; [|exact E]. set_solver. }
  destruct IH as [? ?]; set_solver.
Qed.

(** It takes one client and one message. *)
Lemma one_message_is_enough :
  exists s t, step 3 (socket_ready 3) s /\ readfds s = {[3; 4]} /\ step 3 s t /\ readfds t = {[4]}.
Proof.
  exists (State {[4; 3]} 4 []), (State {[4]} 4 []). split_and!; [|set_solver| |done].
  - apply (step_pass _ _ {[3]} (fun _ => Accepted 4)); [done|set_solver|]. vm_compute. reflexivity.
  - apply (step_pass _ _ {[4]} (fun _ => Text true)); [set_solver|set_solver|]. vm_compute. reflexivity.
Qed.
