(* ===== verification/Fifo.v ===== *)
(** test/select_fifo_multiplexing: three programs that write what is typed to a fifo each
    (1_write.c to 3_write.c), and read.c, which prints what arrives on the three.

    Their processes run in any order; a step is one round of a writer or one pass of the
    reader.  A fifo holds any number of bytes, a write of 128 bytes is atomic (PIPE_BUF), and
    select reports only fifos with something to read, the writers having them open. *)

From S2P Require Import Prelude CLib Iniparser Http.

Open Scope c_scope.
Open Scope Z_scope.

(** char buf[128] *)
Definition SIZE : nat := 128.

(** ** The writer *)

(** fgets into buf: the line and a NUL; at the end of the input buf stays as it is. *)
Definition get_line (input buf : list Z) : list Z * list Z :=
  match fgets SIZE input with
  | Some (line, rest, _) => (rest, line ++ [0] ++ drop (S (length line)) buf)
  | None => (input, buf)
  end.

(** One round of while (1), up to the call of write, which sends the whole array. *)
Definition write_round (input buf : list Z) : res (list Z * list Z) :=
  let (input, buf) := get_line input buf in
  let! s := read_str buf in
  let! buf := write_at buf (zlen s - 1) [0] in
  Ok (input, buf).

(** ** The reader *)

(** if (FD_ISSET (fd, &readfds_tmp)): what is left in the fifo and the text printed. *)
Definition read_round (pipe : list Z) : res (list Z * list Z) :=
  let! buf := write_at (zeros SIZE) 0 (take SIZE pipe) in
  let! s := read_str buf in
  Ok (drop SIZE pipe, s).

(** ** The system *)

(** A writer, its fifo, and the texts sent and printed so far. *)
Record channel : Type := Channel {
  input : list Z;
  buf : list Z;
  pipe : list Z;
  sent : list (list Z);
  printed : list (list Z)
}.

Definition send (c : channel) : res channel :=
  let! (input, buf) := write_round (input c) (buf c) in
  Ok (Channel input buf (pipe c ++ buf) (sent c ++ [c_string buf]) (printed c)).

Definition receive (c : channel) : res channel :=
  let! (pipe, text) := read_round (pipe c) in
  Ok (Channel (input c) (buf c) pipe (sent c) (printed c ++ [text])).

(** What select may report of a fifo. *)
Definition can_report (r : bool) (c : channel) : Prop := r = true -> pipe c <> [].

(** The three tests of a pass, in order. *)
Fixpoint pass (ready : list bool) (cs : list channel) : res (list channel) :=
  match ready, cs with
  | r :: ready, c :: cs =>
      let! c := if (r : bool) then receive c else Ok c in
      let! cs := pass ready cs in Ok (c :: cs)
  | _, _ => Ok cs
  end.

Inductive step : list channel -> list channel -> Prop :=
  | step_write cs i c c' : cs !! i = Some c -> send c = Ok c' -> step cs (<[i := c']> cs)
  | step_read cs ready cs' : Forall2 can_report ready cs -> pass ready cs = Ok cs' -> step cs cs'.

(** Nothing was typed, sent or printed; buf holds any bytes. *)
Definition start (c : channel) : Prop := length (buf c) = SIZE /\ pipe c = [] /\ sent c = [] /\ printed c = [].

(** * Lemmas *)

(** A block that a writer sends holds a text. *)
Definition block (b : list Z) : Prop := length b = SIZE /\ 0 ∈ b.

(** The fifo holds whole blocks, and their texts are what was sent and not yet printed. *)
Definition in_order (c : channel) : Prop :=
  length (buf c) = SIZE /\
  exists blocks, Forall block blocks /\ pipe c = mjoin blocks /\ sent c = printed c ++ (c_string <$> blocks).

Lemma get_line_length input buf input' buf' :
  length buf = SIZE -> get_line input buf = (input', buf') -> length buf' = SIZE.
Proof.
  intros Hl. unfold get_line. destruct (fgets SIZE input) as [[[line rest] e]|] eqn:E; intros [= <- <-]; [|done].
  apply fgets_spec in E as (_ & _ & Hline & _); [|unfold SIZE; lia].
  rewrite length_app. cbn [app length]. rewrite length_drop. lia.
Qed.

Lemma write_round_block input buf input' buf' :
  length buf = SIZE -> write_round input buf = Ok (input', buf') -> block buf'.
Proof.
  intros Hl. unfold write_round. destruct (get_line input buf) as [i b] eqn:Eg. apply get_line_length in Eg; [|done].
  intros (s & _ & (b' & E & [= <- <-])%res_bind_Ok)%res_bind_Ok. split; [by rewrite (write_at_length _ _ _ _ E)|].
  unfold write_at in E. destruct (_ && _); [|done]. injection E as <-. set_solver.
Qed.

Lemma send_in_order c c' : in_order c -> send c = Ok c' -> in_order c'.
Proof.
  intros (Hl & blocks & Hb & Ep & Es) ([i b] & E & [= <-])%res_bind_Ok.
  pose proof (write_round_block _ _ _ _ Hl E) as Hblock. split; [apply Hblock|]. exists (blocks ++ [b]). cbn. split_and!.
  - apply Forall_app. auto.
  - rewrite Ep, join_app. cbn. by rewrite app_nil_r.
  - by rewrite Es, fmap_app, app_assoc.
Qed.

(** The reader takes a whole block, and prints its text. *)
Lemma receive_in_order c : in_order c -> pipe c <> [] -> exists c', receive c = Ok c' /\ in_order c'.
Proof.
  intros (Hl & blocks & Hb & Ep & Es) Hne. destruct blocks as [|b blocks]; [done|].
  apply Forall_cons in Hb as [[Hb H0] Hbs]. change (mjoin (b :: blocks)) with (b ++ mjoin blocks) in Ep.
  unfold receive, read_round. rewrite Ep, <- Hb, take_app_length, drop_app_length.
  rewrite write_at_ok by (unfold zlen, zeros; rewrite ?length_replicate; lia). cbn [res_bind].
  rewrite drop_ge by (unfold zeros; rewrite length_replicate; lia). rewrite app_nil_r.
  unfold read_str. rewrite bool_decide_eq_true_2 by done. cbn [res_bind]. eexists. split; [done|].
  split; [done|]. exists blocks. split_and!; [done|done|]. cbn. rewrite Es. cbn. by rewrite <- app_assoc.
Qed.

Lemma pass_in_order ready cs :
  Forall2 can_report ready cs -> Forall in_order cs -> exists cs', pass ready cs = Ok cs' /\ Forall in_order cs'.
Proof.
  induction 1 as [|r c ready cs Hr _ IH]; intros Hc; [by exists []|]. apply Forall_cons in Hc as [Hc Hcs].
  destruct (IH Hcs) as (cs' & E & Hcs'). cbn [pass].
  assert (exists c', (if r then receive c else Ok c) = Ok c' /\ in_order c') as (c' & -> & Hc').
  { destruct r; [apply receive_in_order; auto|by exists c]. }
  cbn [res_bind]. rewrite E. exists (c' :: cs'). auto.
Qed.

(** Every text sent is printed once, in the order of the sends, but for those still in the fifo;
    and the reader never reads past its buffers. *)
Lemma fifo_texts cs ready :
  reaches (Forall start) step cs -> Forall2 can_report ready cs ->
  Forall in_order cs /\ is_ok (pass ready cs) = true.
Proof.
  intros Hr Hready. assert (Forall in_order cs) as Hc.
  { clear Hready. revert cs Hr. apply reaches_invariant.
    - intros s Hs. eapply Forall_impl; [exact Hs|]. intros c (Hl & Ep & Es & Epr). split; [done|]. exists [].
      rewrite Ep, Es, Epr. split_and!; [by apply Forall_nil_2|done..].
    - intros s t Hs Hst. destruct Hst as [cs i c c' Hi E|cs r cs' Hrep E].
      + apply Forall_insert; [done|]. eapply send_in_order; [|exact E]. by eapply Forall_lookup_1.
      + destruct (pass_in_order r cs Hrep Hs) as (cs'' & E' & ?). congruence. }
  split; [done|]. by destruct (pass_in_order ready cs Hready Hc) as (cs' & -> & _).
Qed.

(** A line of at most 126 characters is sent as it was typed. *)
Lemma write_line line rest buf :
  10 ∉ line -> 0 ∉ line -> (length line < 127)%nat -> length buf = SIZE ->
  exists buf', write_round (line ++ [10] ++ rest) buf = Ok (rest, buf') /\ c_string buf' = line.
Proof.
  intros H10 H0 Hl Hb. unfold write_round, get_line. change (line ++ [10] ++ rest) with (line ++ 10 :: rest).
  rewrite fgets_line by (done || unfold SIZE; lia). set (t := drop _ buf). assert (0 ∉ line ++ [10]) as H0'.
  { rewrite not_elem_of_app. split; [done|]. rewrite list_elem_of_singleton. done. }
  change ([0] ++ t) with (0 :: t). rewrite read_str_nul by done. cbn [res_bind].
  assert ((line ++ [10]) ++ 0 :: t = line ++ [10] ++ [0] ++ t) as -> by by rewrite <- app_assoc.
  rewrite write_at_ok by (unfold zlen; rewrite ?length_app; cbn; lia). cbn [res_bind]. eexists. split; [reflexivity|].
  assert (Z.to_nat (zlen (line ++ [10]) - 1) = length line) as -> by (unfold zlen; rewrite length_app; cbn; lia).
  rewrite take_app_length. by apply c_string_nul.
Qed.

(** At the end of the input the writer does not stop: each round sends the last text less one
    character, until the empty text makes it write in front of buf. *)
Lemma write_at_eof t c r buf :
  0 ∉ t ++ [c] -> buf = t ++ [c] ++ [0] ++ r ->
  exists buf', write_round [] buf = Ok ([], buf') /\ c_string buf' = t.
Proof.
  intros H0 ->. unfold write_round. cbn [get_line fgets fgets_bytes SIZE Nat.sub].
  rewrite (app_assoc t [c]). change ([0] ++ r) with (0 :: r). rewrite read_str_nul by done. cbn [res_bind].
  rewrite write_at_ok by (unfold zlen; rewrite ?length_app; cbn; lia). cbn [res_bind]. eexists. split; [reflexivity|].
  assert (Z.to_nat (zlen (t ++ [c]) - 1) = length t) as -> by (unfold zlen; rewrite length_app; cbn; lia).
  rewrite <- app_assoc, take_app_length. apply c_string_nul. set_solver.
Qed.

Lemma write_before_buf r : write_round [] (0 :: r) = Ub OobWrite.
Proof. done. Qed.

(** What every writer has typed arrives: a run in which two lines go through. *)
Example fifo_run :
  let c0 := Channel (str "ab" ++ [10] ++ str "c" ++ [10]) (replicate SIZE 7) [] [] [] in
  (let! c := send c0 in let! c := send c in let! c := receive c in let! c := receive c in Ok (printed c, pipe c))
  = Ok ([str "ab"; str "c"], []).
Proof. vm_compute. reflexivity. Qed.
