(* ===== verification/TestSockets.v ===== *)
(** The small socket programs of test/ (the same files in linux/test/): the client of the two
    chat servers (TCP_select/select_client.c and pthreads_tcp/client.c, which agree), socket_tcp/TCP,
    and the broadcast over UDP.  What the calls answer are arguments; connecting is left out. *)

From S2P Require Import Prelude CLib Http.

Open Scope c_scope.
Open Scope Z_scope.

(** char buf[256] *)
Definition BUF : nat := 256.

(** The line that gets takes off the input, and the rest; the newline is dropped. *)
Fixpoint split_line (input : list Z) : list Z * list Z :=
  match input with
  | [] => ([], [])
  | c :: input => if c =? 10 then ([], input) else let (l, r) := split_line input in (c :: l, r)
  end.

(** gets: the line and a NUL, however long the line is; at the end of the input buf stays as it is. *)
Definition gets (input buf : list Z) : res (list Z * list Z) :=
  match input with
  | [] => Ok ([], buf)
  | _ => let (l, r) := split_line input in let! buf := write_at buf 0 (l ++ [0]) in Ok (r, buf)
  end.

(** ** select_client.c and client.c *)

Inductive outcome : Type :=
  | Exited (sent : list (list Z))                          (* ERRLOG *)
  | Done (sent : list Z)                                   (* the line was "quit" *)
  | Goes (input buf sent shown : list Z).                  (* the next round *)

(** One round of while (1): [ok] says whether send succeeds, [reply] are the bytes recv gives. *)
Definition client_round (input buf : list Z) (ok : bool) (reply : option (list Z)) : res outcome :=
  let! (input, buf) := gets input buf in
  if negb ok then Ok (Exited [])
  else
    let! s := read_str buf in
    if bool_decide (s = str "quit") then Ok (Done buf)
    else
      match reply with
      | None => Ok (Exited [buf])
      | Some bytes =>
          let! got := write_at buf 0 (take BUF bytes) in
          let! t := read_str got in
          Ok (Goes input got buf t)
      end.

(** ** socket_tcp/TCP *)

Definition MAXLIN : nat := 4096.

(** After accept: the answer of recv; [child] says in which process fork returned.  The child sends 26
    bytes of a literal of 12; the parent ends the text at buf[num]. *)
Definition server_round (buf : list Z) (child : bool) (message : option (list Z)) : res (list Z * list Z) :=
  let! (buf, num) := match message with
                     | None => Ok (buf, -1)
                     | Some bytes => let bytes := take MAXLIN bytes in
                                     let! buf := write_at buf 0 bytes in Ok (buf, zlen bytes)
                     end in
  if child && (zlen (str "_seosootang") + 1 <? 26) then Ub OobRead
  else
    let! buf := write_at buf num [0] in
    let! text := read_str buf in
    Ok (buf, text).

(** The end of the client: what it prints of the answer. *)
Definition client_receive (buf : list Z) (answer : option (list Z)) : res (option (list Z)) :=
  match answer with
  | None => Ok None
  | Some bytes =>
      let bytes := take MAXLIN bytes in
      let! buf := write_at buf 0 bytes in
      let! buf := write_at buf (zlen bytes) [0] in
      let! text := read_str buf in
      Ok (Some text)
  end.

(** ** UDP_broadcast *)

(** A round of send.c; [None]: the line was "quit". *)
Definition send_round (input buf : list Z) : res (option (list Z * list Z)) :=
  let! (input, buf) := gets input buf in
  let! s := read_str buf in
  if bool_decide (s = str "quit") then Ok None else Ok (Some (input, buf)).

(** A round of receive.c: a datagram comes, cut to the size of buf. *)
Definition receive_round (buf datagram : list Z) : res (list Z * list Z) :=
  let! buf := write_at buf 0 (take BUF datagram) in
  let! text := read_str buf in
  Ok (buf, text).

(** The sender, the receiver and the network between them, which may lose, repeat and reorder what was
    sent; the texts sent and shown so far. *)
Record system : Type := System {
  input : list Z; sender : list Z; receiver : list Z; sent : list (list Z); shown : list (list Z) }.

Inductive step (s : system) : system -> Prop :=
  | step_send i b : send_round (input s) (sender s) = Ok (Some (i, b)) ->
      step s (System i b (receiver s) (sent s ++ [b]) (shown s))
  | step_receive d b t : d ∈ sent s -> receive_round (receiver s) d = Ok (b, t) ->
      step s (System (input s) (sender s) b (sent s) (shown s ++ [t])).

Definition start (s : system) : Prop :=
  length (sender s) = BUF /\ length (receiver s) = BUF /\ sent s = [] /\ shown s = [].

(** * Lemmas *)

Lemma split_line_spec l r : 10 ∉ l -> split_line (l ++ [10] ++ r) = (l, r).
Proof.
  induction l as [|c l IH]; cbn; [done|]. rewrite not_elem_of_cons. intros [Hc Hl].
  rewrite (proj2 (Z.eqb_neq c 10)) by congruence. cbn in IH. by rewrite IH.
Qed.

(** A line that fits is in buf afterwards, with what buf held behind it. *)
Lemma gets_line l r buf :
  10 ∉ l -> (length l < length buf)%nat -> gets (l ++ [10] ++ r) buf = Ok (r, l ++ [0] ++ drop (length l + 1) buf).
Proof.
  intros Hl Hb. unfold gets. rewrite split_line_spec by done. destruct (l ++ [10] ++ r) eqn:E; [by destruct l|].
  rewrite write_at_ok by (unfold zlen; rewrite ?length_app; cbn; lia). cbn [res_bind]. change (Z.to_nat 0) with 0%nat.
  rewrite take_0, length_app. cbn [length app Nat.add]. by rewrite <- app_assoc.
Qed.

(** A line of 256 bytes or more overruns buf, in each of the three programs. *)
Lemma gets_overrun l r buf : 10 ∉ l -> length buf = BUF -> (BUF <= length l)%nat -> gets (l ++ [10] ++ r) buf = Ub OobWrite.
Proof.
  intros Hl Hb Hlong. unfold gets. rewrite split_line_spec by done. destruct (l ++ [10] ++ r) eqn:E; [by destruct l|].
  unfold write_at. rewrite (proj2 (Z.leb_gt _ (zlen buf))); [by rewrite andb_false_r|].
  unfold zlen. rewrite length_app. cbn [length]. lia.
Qed.

(** A round with a server that answers with a text and a NUL: the text is shown.  The whole of buf is sent,
    the bytes behind the line, never written at first, included. *)
Lemma client_talks l r buf t bytes :
  10 ∉ l -> 0 ∉ l -> l <> str "quit" -> (length l < BUF)%nat -> length buf = BUF -> 0 ∉ t -> (length t + 1 + length bytes <= BUF)%nat ->
  exists got, client_round (l ++ [10] ++ r) buf true (Some (t ++ [0] ++ bytes)) =
    Ok (Goes r got (l ++ [0] ++ drop (length l + 1) buf) t).
Proof.
  intros H10 H0 Hq Hl Hb Ht Hlen. unfold client_round. rewrite gets_line by (done || lia). cbn [res_bind negb].
  change ([0] ++ drop (length l + 1) buf) with (0 :: drop (length l + 1) buf). rewrite read_str_nul by done. cbn [res_bind].
  rewrite bool_decide_eq_false_2 by done. rewrite take_ge by (rewrite !length_app; cbn; lia).
  rewrite write_at_ok by (unfold zlen; rewrite ?length_app; cbn [length]; rewrite ?length_drop, ?length_app; cbn [length]; lia).
  cbn [res_bind]. change (Z.to_nat 0) with 0%nat. rewrite take_0. cbn [app Nat.add].
  rewrite <- app_assoc. cbn [app]. rewrite read_str_nul by done. cbn [res_bind]. eauto.
Qed.

(** When the server has closed the connection recv gives 0, which is not tested: the line typed is
    shown as if it had come from the server. *)
Lemma client_shows_itself l r buf :
  10 ∉ l -> 0 ∉ l -> l <> str "quit" -> (length l < BUF)%nat -> length buf = BUF ->
  exists got sent, client_round (l ++ [10] ++ r) buf true (Some []) = Ok (Goes r got sent l).
Proof.
  intros H10 H0 Hq Hl Hb. unfold client_round. rewrite gets_line by (done || lia). cbn [res_bind negb].
  change ([0] ++ drop (length l + 1) buf) with (0 :: drop (length l + 1) buf). rewrite read_str_nul by done. cbn [res_bind].
  rewrite bool_decide_eq_false_2 by done. rewrite take_nil, write_at_ok by (unfold zlen; cbn [length]; lia). cbn [res_bind].
  change (Z.to_nat 0) with 0%nat. rewrite take_0. cbn [app length Nat.add]. rewrite drop_0, read_str_nul by done. cbn [res_bind]. eauto.
Qed.

(** The child reads past the literal it sends, whatever came; the parent writes in front of buf after an error
    of recv, and behind it after a full message. *)
Lemma server_child buf message : length buf = MAXLIN -> server_round buf true message = Ub OobRead.
Proof.
  intros Hb. unfold server_round. destruct message as [bytes|]; [|done].
  rewrite write_at_ok; [done|lia|]. unfold zlen. rewrite length_take. lia.
Qed.

Lemma server_parent_error buf : server_round buf false None = Ub OobWrite.
Proof. done. Qed.

Lemma server_parent_full buf bytes :
  length buf = MAXLIN -> (MAXLIN <= length bytes)%nat -> server_round buf false (Some bytes) = Ub OobWrite.
Proof.
  intros Hb Hl. unfold server_round. set (got := take MAXLIN bytes). assert (length got = MAXLIN) as Eg by (unfold got; rewrite length_take; lia).
  rewrite write_at_ok by (unfold zlen; lia). cbn [res_bind andb]. unfold write_at at 1.
  rewrite (proj2 (Z.leb_gt (zlen got + zlen [0]) _)); [by rewrite andb_false_r|]. unfold zlen.
  rewrite !length_app, length_take, length_drop, Eg. cbn [length]. lia.
Qed.

(** ** The broadcast *)

Definition holds_text (b : list Z) : Prop := length b = BUF /\ 0 ∈ b.

Lemma gets_length i b i' b' : gets i b = Ok (i', b') -> length b' = length b.
Proof.
  unfold gets. destruct i as [|c i]; [by intros [= _ <-]|]. destruct (split_line (c :: i)) as [l r].
  intros (b1 & E & [= _ <-])%res_bind_Ok. by apply write_at_length in E.
Qed.

Lemma send_round_text i b i' b' : length b = BUF -> send_round i b = Ok (Some (i', b')) -> holds_text b'.
Proof.
  intros Hb. unfold send_round. intros ([i1 b1] & Eg & (s & Es & E)%res_bind_Ok)%res_bind_Ok.
  destruct (bool_decide _); [done|]. injection E as <- <-. apply gets_length in Eg. split; [lia|].
  unfold read_str in Es. by destruct (bool_decide_reflect (0 ∈ b1)).
Qed.

(** A datagram of send.c is shown as its text. *)
Lemma receive_round_text buf d : length buf = BUF -> holds_text d -> receive_round buf d = Ok (d, c_string d).
Proof.
  intros Hb [Hd H0]. unfold receive_round. rewrite take_ge by lia. rewrite write_at_ok by (unfold zlen; lia). cbn [res_bind].
  change (Z.to_nat 0) with 0%nat. rewrite take_0, drop_ge by (rewrite Hb, Hd; cbn; lia). rewrite app_nil_r. cbn [app].
  unfold read_str. by rewrite bool_decide_eq_true_2.
Qed.

(** Whatever the network does, each text that is shown is one that was sent, and the receiver
    never reads past its buffer. *)
Lemma broadcast_texts s d :
  reaches start step s -> d ∈ sent s ->
  Forall (fun t => t ∈ c_string <$> sent s) (shown s) /\ receive_round (receiver s) d = Ok (d, c_string d).
Proof.
  intros Hr Hd. assert ((length (sender s) = BUF /\ length (receiver s) = BUF /\ Forall holds_text (sent s)) /\
    Forall (fun t => t ∈ c_string <$> sent s) (shown s)) as [(Hs & Hrec & Ht) Hsh].
  { clear Hd. revert s Hr. apply reaches_invariant.
    - intros s (Hs & Hrec & -> & ->). done.
    - intros s t [(Hs & Hrec & Ht) Hsh] [i b E|d' b txt Hd' E]; cbn.
      + pose proof (send_round_text _ _ _ _ Hs E) as Hb. split.
        * split; [apply Hb|]. split; [done|]. apply Forall_app. auto.
        * eapply Forall_impl; [exact Hsh|]. intros x Hx. rewrite fmap_app. set_solver.
      + rewrite Forall_forall in Ht. rewrite receive_round_text in E by auto. injection E as <- <-. split.
        * split; [done|]. split; [apply Ht, Hd'|]. by apply Forall_forall.
        * apply Forall_app. split; [done|]. constructor; [|done]. by apply list_elem_of_fmap_2. }
  split; [done|]. apply receive_round_text; [done|]. rewrite Forall_forall in Ht. auto.
Qed.
