(* ===== verification/JpgToRgb.v ===== *)
(** jpg_2_rgb/jpg_to_rgb.c: a JPEG file is decoded row by row into a buffer, and the buffer is
    written to a file.  libjpeg is not in the tree: an [image] is what it makes of the file, one
    row for each call of jpeg_read_scanlines. *)

From S2P Require Import Prelude.

Open Scope c_scope.
Open Scope Z_scope.

(** The members output_width, output_height and output_components after jpeg_start_decompress,
    and the rows. *)
Record image : Type := Image { output_width : Z; output_height : Z; output_components : Z; rows : list (list Z) }.

(** rgb_buffer: bytes that were not written yet are [None]. *)
Abbreviation buffer := (list (option Z)) (only parsing).

Definition put_row (buf : list (option Z)) (off : Z) (row : list Z) : res (list (option Z)) :=
  if (0 <=? off) && (off + zlen row <=? zlen buf)
  then Ok (take (Z.to_nat off) buf ++ (Some <$> row) ++ drop (Z.to_nat off + length row) buf)
  else Ub OobWrite.

(** while (cinfo.output_scanline < cinfo.output_height); JDIMENSION is an unsigned int. *)
Fixpoint scan_loop (width scanline : Z) (l : list (list Z)) (buf : list (option Z)) : res (list (option Z)) :=
  match l with
  | [] => Ok buf
  | row :: l =>
      let! buf := put_row buf (u32 (u32 (scanline * width) * 3)) row in
      scan_loop width (scanline + 1) l buf
  end.

(** The value of main and the file it writes.  [None] for the image: an error of libjpeg, whose
    standard handler calls exit (1); [mem] and [created] are the answers of malloc and of the
    second fopen, which are not tested. *)
Definition main (infile : bool) (img : option image) (mem created : bool) : res (Z * list (option Z)) :=
  if negb infile then Ok (-1, [])
  else
    match img with
    | None => Ok (1, [])
    | Some i =>
        let size := u32 (u32 (output_width i * output_height i) * 3) in
        if negb mem && (0 <? output_height i) then Ub NullDeref
        else
          let! buf := scan_loop (output_width i) 0 (rows i) (replicate (Z.to_nat size) None) in
          if negb created then Ub NullDeref else Ok (0, buf)
    end.

(** * Lemmas *)

(** What libjpeg promises: as many rows as the height, each with all components of its pixels;
    a JPEG file has 16 bits for each side. *)
Record image_ok (i : image) : Prop := {
  width_range : 0 < output_width i < 65536;
  height_range : 0 < output_height i < 65536;
  row_count : zlen (rows i) = output_height i;
  row_length : Forall (fun r => zlen r = output_width i * output_components i) (rows i)
}.

(** The bytes of the rows, each filled up to three bytes a pixel. *)
Definition padded (width : Z) (l : list (list Z)) : list (option Z) :=
  mjoin ((fun r => (Some <$> r) ++ replicate (Z.to_nat (3 * width - zlen r)) None) <$> l).

(** No product wraps while the whole buffer is below 2^32 bytes. *)
Lemma offset_small width k n :
  0 <= k -> 0 <= n -> 0 < width -> (k + n) * width * 3 < 2 ^ 32 -> u32 (u32 (k * width) * 3) = k * width * 3.
Proof.
  intros Hk Hn Hw Hsz. assert (0 <= k * width) by nia. assert (0 <= n * width) by nia.
  assert ((k + n) * width * 3 = k * width * 3 + n * width * 3) as E by lia. rewrite E in Hsz.
  rewrite (wrap_small 32 (k * width)), wrap_small by lia. done.
Qed.

(** A row that has its place goes there. *)
Lemma put_row_ok done row rest :
  zlen row <= zlen rest -> put_row (done ++ rest) (zlen done) row = Ok (done ++ (Some <$> row) ++ drop (length row) rest).
Proof.
  intros Hl. unfold put_row. rewrite zlen_app. rewrite (proj2 (Z.leb_le 0 _)), (proj2 (Z.leb_le _ _)) by (auto; lia).
  cbn [andb]. unfold zlen. rewrite Nat2Z.id, take_app_length. by rewrite drop_app_add.
Qed.

(** Rows of at most three components, from row [k] on: each is written at its place. *)
Lemma scan_loop_ok width l : forall k written,
  0 < width -> Forall (fun r => zlen r <= 3 * width) l -> 0 <= k -> zlen written = k * width * 3 ->
  (k + zlen l) * width * 3 < 2 ^ 32 ->
  scan_loop width k l (written ++ replicate (Z.to_nat (zlen l * width * 3)) None) = Ok (written ++ padded width l).
Proof.
  induction l as [|r l IH]; intros k written Hw Hl Hk Hwr Hsz; [done|]. apply Forall_cons in Hl as [Hr Hl].
  rewrite zlen_cons in *. cbn [scan_loop]. pose proof (zlen_nonneg l) as Hn.
  rewrite (offset_small width k (1 + zlen l)) by lia. rewrite <- Hwr.
  rewrite put_row_ok by (unfold zlen at 2; rewrite length_replicate; nia).
  cbn [res_bind]. rewrite drop_replicate. unfold padded. cbn [fmap list_fmap mjoin list_join].
  set (gap := replicate (Z.to_nat (3 * width - zlen r)) None).
  assert (replicate (Z.to_nat ((1 + zlen l) * width * 3) - length r) None = gap ++ replicate (Z.to_nat (zlen l * width * 3)) None) as ->.
  { unfold gap. rewrite <- replicate_add. f_equal. unfold zlen in *. nia. }
  rewrite !(app_assoc _ (Some <$> r)), !(app_assoc _ gap). rewrite <- (app_assoc written (Some <$> r)).
  rewrite IH; [by rewrite <- !app_assoc|done|done|lia| |lia].
  rewrite !zlen_app. unfold gap, zlen in *. rewrite length_fmap, length_replicate. lia.
Qed.

(** For an image of at most three components that is not too large, the file has the rows, each filled up to
    three bytes a pixel with bytes that were never written. *)
Lemma jpg_rows i :
  image_ok i -> 0 <= output_components i <= 3 -> output_height i * output_width i * 3 < 2 ^ 32 ->
  main true (Some i) true true = Ok (0, padded (output_width i) (rows i)).
Proof.
  intros [Hw Hh Hc Hr] Hcomp Hsz. unfold main. cbn [negb andb].
  rewrite (Z.mul_comm (output_width i)), (offset_small (output_width i) (output_height i) 0) by lia. rewrite <- Hc in *.
  pose proof (scan_loop_ok (output_width i) (rows i) 0 []) as E. cbn [app] in E. rewrite E; [done|lia| |lia|done|lia].
  eapply Forall_impl; [exact Hr|]. intros r Er. cbn beta in Er. rewrite Er. nia.
Qed.

(** With three components that is the picture: every byte of the file was written. *)
Lemma jpg_rgb i :
  image_ok i -> output_components i = 3 -> output_height i * output_width i * 3 < 2 ^ 32 ->
  main true (Some i) true true = Ok (0, Some <$> mjoin (rows i)).
Proof.
  intros Hi Hc Hsz. rewrite jpg_rows by (done || lia). do 2 f_equal. destruct Hi as [_ _ _ Hr]. rewrite Hc in Hr.
  induction Hr as [|r l Er _ IH]; [done|]. change (mjoin (r :: l)) with (r ++ mjoin l).
  rewrite fmap_app, <- IH. change (padded (output_width i) (r :: l)) with
    (((Some <$> r) ++ replicate (Z.to_nat (3 * output_width i - zlen r)) None) ++ padded (output_width i) l). replace (3 * output_width i - zlen r) with 0 by lia. by rewrite app_nil_r.
Qed.

(** When the last row, of [c] components, ends past the buffer, it is written out of bounds unless a row
    before was. *)
Lemma scan_loop_overrun width c l : forall k buf,
  0 <= k -> 0 < width -> 3 <= c -> l <> [] -> Forall (fun r => zlen r = width * c) l ->
  k * width * 3 <= zlen buf < 2 ^ 32 -> zlen buf < (k + zlen l - 1) * width * 3 + width * c ->
  scan_loop width k l buf = Ub OobWrite.
Proof.
  induction l as [|r l IH]; intros k buf Hk Hw Hc Hne Hl [Hb Hb2] Hlast; [done|]. clear Hne.
  apply Forall_cons in Hl as [Hr Hl]. rewrite zlen_cons in Hlast. cbn [scan_loop].
  rewrite (offset_small width k 0) by lia. unfold put_row.
  destruct ((0 <=? k * width * 3) && (k * width * 3 + zlen r <=? zlen buf)) eqn:E; [|done]. cbn [res_bind].
  apply andb_prop in E as [_ E%Z.leb_le]. assert (0 <= k * width) by nia. assert (width * 3 <= width * c) by nia.
  match goal with |- scan_loop _ _ _ ?b = _ => assert (zlen b = zlen buf) as Eb end.
  { unfold zlen in *. rewrite !length_app, length_take, length_fmap, length_drop. lia. }
  destruct l as [|r' l]; [rewrite zlen_nil in Hlast; lia|]. apply IH; rewrite ?Eb; try done; lia.
Qed.

(** Four components, as in CMYK files. *)
Lemma jpg_cmyk i :
  image_ok i -> output_components i = 4 -> output_height i * output_width i * 3 < 2 ^ 32 ->
  main true (Some i) true true = Ub OobWrite.
Proof.
  intros [Hw Hh Hc Hr] Hcomp Hsz. unfold main. cbn [negb andb].
  rewrite (Z.mul_comm (output_width i)), (offset_small (output_width i) (output_height i) 0) by lia. rewrite Hcomp in Hr.
  rewrite (scan_loop_overrun (output_width i) 4); [done|lia..| | | |].
  - intros E. rewrite E, zlen_nil in Hc. lia.
  - exact Hr.
  - unfold zlen. rewrite length_replicate. nia.
  - rewrite Hc. unfold zlen. rewrite length_replicate. nia.
Qed.

(** A picture of 2^32 bytes or more: the size is computed in an unsigned int and wraps, the rows do
    not fit. *)
Lemma jpg_wraps i :
  image_ok i -> output_components i = 3 -> 2 ^ 32 <= output_height i * output_width i * 3 ->
  main true (Some i) true true = Ub OobWrite.
Proof.
  intros [Hw Hh Hc Hr] Hcomp Hsz. unfold main. cbn [negb andb]. rewrite Hcomp in Hr. set (size := u32 _).
  pose proof (wrap_bound 32 (u32 (output_width i * output_height i) * 3) ltac:(lia)) as Hs. fold size in Hs.
  rewrite (scan_loop_overrun (output_width i) 3); [done|lia..| | | |].
  - intros E. rewrite E, zlen_nil in Hc. lia.
  - exact Hr.
  - unfold zlen. rewrite length_replicate. lia.
  - rewrite Hc. unfold zlen. rewrite length_replicate. lia.
Qed.

(** One grey row of two pixels: four bytes of the six in the file were never written. *)
Example jpg_grey : main true (Some (Image 2 1 1 [[7; 8]])) true true = Ok (0, [Some 7; Some 8; None; None; None; None]).
Proof. reflexivity. Qed.
