(* ===== verification/KernelRead.v ===== *)
(** kernel_read.c: two helpers of a kernel module that read and write a file by name.  The virtual
    file system is a class; its laws are what the kernel documents of a file opened O_RDONLY. *)

From S2P Require Import Prelude.

Open Scope c_scope.
Open Scope Z_scope.

(** A state [S] of the file system and its open files [F]: filp_open (name, O_RDONLY), kernel_read at
    position 0, kernel_write at position 0, filp_close. *)
Class Vfs (S F : Type) : Type := {
  filp_open : list Z -> S -> option F * S;
  kernel_read : F -> Z -> S -> Z * list Z;
  kernel_write : F -> list Z -> S -> Z * S;
  filp_close : F -> S -> S
}.

Section Files.
Context {S F : Type} `{Vfs S F}.

(** buf after the call, of [buffer_size] bytes; the number of bytes read is not reported. *)
Definition read_file (filename buf : list Z) (buffer_size : Z) (s : S) : Z * list Z * S :=
  let (fp, s) := filp_open filename s in
  match fp with
  | None => (-1, buf, s)
  | Some fp =>
      let (size, bytes) := kernel_read fp buffer_size s in
      (0, bytes ++ drop (length bytes) buf, filp_close fp s)
  end.

Definition write_file (filename buf : list Z) (buffer_size : Z) (s : S) : Z * S :=
  let (fp, s) := filp_open filename s in
  match fp with
  | None => (-1, s)
  | Some fp =>
      let (size, s) := kernel_write fp (take (Z.to_nat buffer_size) buf) s in
      (0, filp_close fp s)
  end.
End Files.

(** What the kernel documents: a file that was opened for reading has contents, reading gives as many of them as
    are asked for and there are, writing to it fails with -EBADF, and neither changes a file. *)
Class ReadOnly (S F : Type) `{Vfs S F} : Type := {
  contents : list Z -> S -> option (list Z);
  open_contents name s : match (filp_open name s).1 with
    | Some fp => exists c, contents name s = Some c /\
                   forall n, (kernel_read fp n (filp_open name s).2).2 = take (Z.to_nat n) c
    | None => True
    end;
  open_same name s n : contents n (filp_open name s).2 = contents n s;
  write_fails name s fp bytes : (filp_open name s).1 = Some fp -> (kernel_write fp bytes (filp_open name s).2).1 < 0;
  write_same name s fp bytes n : (filp_open name s).1 = Some fp ->
    contents n (kernel_write fp bytes (filp_open name s).2).2 = contents n s;
  close_same fp s n : contents n (filp_close fp s) = contents n s
}.

Section Effects.
Context {S F : Type} `{ReadOnly S F}.

(** read_file gives the beginning of the file, and leaves every file as it was. *)
Lemma read_file_contents name buf size s :
  0 <= size <= zlen buf -> (read_file name buf size s).1.1 = 0 ->
  exists c, contents name s = Some c /\
    (read_file name buf size s).1.2 = take (Z.to_nat size) c ++ drop (length (take (Z.to_nat size) c)) buf /\
    forall n, contents n (read_file name buf size s).2 = contents n s.
Proof.
  intros Hs. unfold read_file. pose proof (open_contents name s) as Ho. pose proof (open_same name s) as Hsame.
  destruct (filp_open name s) as [[fp|] s1]; cbn [fst snd] in *; [|done]. destruct Ho as (c & Hc & Hr). specialize (Hr size).
  destruct (kernel_read fp size s1) as [n bytes]. cbn [fst snd] in *. intros _. exists c. rewrite Hr. split_and!; [done..|].
  intros m. by rewrite close_same, Hsame.
Qed.

(** write_file opens the file O_RDONLY: it reports success, and no file ever changes. *)
Lemma write_file_no_effect name buf size s n : contents n (write_file name buf size s).2 = contents n s.
Proof.
  unfold write_file. pose proof (open_same name s n) as Hsame. pose proof (write_same name s) as Hw.
  destruct (filp_open name s) as [[fp|] s1]; cbn [fst snd] in *; [|done].
  specialize (Hw fp (take (Z.to_nat size) buf) n eq_refl). destruct (kernel_write fp _ s1) as [r s2]. cbn [snd] in *.
  by rewrite close_same.
Qed.
End Effects.

(** A file system that is a map meets the interface. *)
#[export] Instance map_vfs : Vfs (gmap (list Z) (list Z)) (list Z) := {
  filp_open name s := (s !! name, s);
  kernel_read c n _ := (zlen (take (Z.to_nat n) c), take (Z.to_nat n) c);
  kernel_write _ _ s := (-9, s);
  filp_close _ s := s
}.

#[export] Instance map_read_only : ReadOnly (gmap (list Z) (list Z)) (list Z).
Proof.
  apply (Build_ReadOnly _ _ map_vfs (fun name s => s !! name)); try done.
  intros name s. cbn. destruct (s !! name) as [c|]; [|done]. by exists c.
Defined.

Example write_file_map :
  write_file (str "f") (str "new") 3 ({[ str "f" := str "old" ]} : gmap (list Z) (list Z)) = (0, {[ str "f" := str "old" ]}).
Proof. vm_compute. reflexivity. Qed.
