(* ===== verification/FtpClient.v ===== *)
(** ftp_client.c: an FTP client for Windows sockets.  What the network and the file system answer
    is a [script], consumed in order; the state also holds what is open and a log of what goes
    out.  Console output is left out. *)

From S2P Require Import Prelude CLib.

Open Scope c_scope.
Open Scope Z_scope.

(** ** The outside *)

Inductive call : Type := Startup | Sending | Connecting | Creating.

#[export] Instance call_eq_dec : EqDecision call.
Proof. solve_decision. Defined.

(** What recv gives on the control and on the data connection: bytes, none at the end of the
    stream, [None] for an error; an error when the list is used up.  The other calls answer
    whether they succeed, by default they do. *)
Record script : Type := Script {
  control : list (option (list Z));
  data : list (option (list Z));
  answers : call -> list bool;
  sockets : list Z }.

Inductive event : Type :=
  | Connect (addr port : Z)
  | Send (bytes : list Z)
  | Open (path : list Z)
  | Write (bytes : list Z).

Record state : Type := State { net : script; log : list event; fds : gset Z; wsa : Z; files : Z }.

Local Abbreviation M := (ST state).

Definition put_net (n : script) : M unit := fun s => Ok (tt, State n (log s) (fds s) (wsa s) (files s)).
Definition emit (e : event) : M unit := fun s => Ok (tt, State (net s) (log s ++ [e]) (fds s) (wsa s) (files s)).
Definition put_fds (f : gset Z -> gset Z) : M unit := fun s => Ok (tt, State (net s) (log s) (f (fds s)) (wsa s) (files s)).
Definition count (w f : Z) : M unit := fun s => Ok (tt, State (net s) (log s) (fds s) (wsa s + w) (files s + f)).

Definition answer (c : call) : M bool := fun s =>
  let n := net s in
  match answers n c with
  | [] => Ok (true, s)
  | b :: rest =>
      let! (_, s) := put_net (Script (control n) (data n) (fun c' => if decide (c' = c) then rest else answers n c') (sockets n)) s in
      Ok (b, s)
  end.

(** The next answer of recv, cut to [max] bytes; the rest stays for the next one. *)
Definition next (max : nat) (l : list (option (list Z))) : option (list Z) * list (option (list Z)) :=
  match l with
  | [] => (None, [])
  | Some bytes :: rest => (Some (take max bytes), if (max <? length bytes)%nat then Some (drop max bytes) :: rest else rest)
  | None :: rest => (None, rest)
  end.

Definition recv_control (max : nat) : M (option (list Z)) := fun s =>
  let n := net s in
  let (r, rest) := next max (control n) in
  let! (_, s) := put_net (Script rest (data n) (answers n) (sockets n)) s in Ok (r, s).

Definition recv_data (max : nat) : M (option (list Z)) := fun s =>
  let n := net s in
  let (r, rest) := next max (data n) in
  let! (_, s) := put_net (Script (control n) rest (answers n) (sockets n)) s in Ok (r, s).

(** INVALID_SOCKET is -1. *)
Definition socket : M Z := fun s =>
  let n := net s in
  match sockets n with
  | [] => Ok (-1, s)
  | fd :: rest =>
      let! (_, s) := put_net (Script (control n) (data n) (answers n) rest) s in
      if fd <? 0 then Ok (-1, s) else let! (_, s) := put_fds (union {[fd]}) s in Ok (fd, s)
  end.

Definition closesocket (fd : Z) : M unit := put_fds (fun l => l ∖ {[fd]}).

(** connect on an invalid socket fails. *)
Definition connect (fd addr port : Z) : M bool :=
  if fd <? 0 then mret false
  else ok ← answer Connecting; (if ok : bool then emit (Connect addr port) else mret tt);; mret ok.

Definition snprintf (size : nat) (text : list Z) : list Z := take (size - 1) text.

Definition crlf : list Z := [13; 10].

(** ** The client *)

Section Client.
(** inet_pton of the system. *)
Context (inet_pton : list Z -> option Z).

Definition WSAStartup : M bool := ok ← answer Startup; (if ok : bool then count 1 0 else mret tt);; mret ok.
Definition WSACleanup : M unit := count (-1) 0.

Definition connect_to_ftp_server (server_ip : list Z) : M Z :=
  ok ← WSAStartup;
  if negb ok then mret (-1)
  else
    controlSocket ← socket;
    if controlSocket =? -1 then WSACleanup;; mret (-1)
    else
      match inet_pton server_ip with
      | None => closesocket controlSocket;; WSACleanup;; mret (-1)
      | Some addr =>
          ok ← connect controlSocket addr 21;
          if ok : bool then mret controlSocket else closesocket controlSocket;; WSACleanup;; mret (-1)
      end.

Definition send_ftp_command (command : list Z) : M Z :=
  let command_with_crlf := snprintf 256 (command ++ crlf) in
  ok ← answer Sending;
  if ok : bool then emit (Send command_with_crlf);; mret 0 else mret (-1).

(** [response]: the array of the caller, [None] as long as it was never written.  The NUL goes behind
    what was received. *)
Definition receive_ftp_response (response : option (list Z)) (response_size : nat) : M (option (list Z)) :=
  r ← recv_control response_size;
  match r with
  | Some (c :: bytes) =>
      if (length (c :: bytes) <? response_size)%nat then mret (Some (c :: bytes)) else fault OobWrite
  | _ => mret response
  end.

(** The text in [response], when a call reads it. *)
Definition text_of (response : option (list Z)) : res (list Z) :=
  match response with None => Ub Uninit | Some bytes => Ok (c_string bytes) end.

Definition ftp_login : M Z :=
  send_ftp_command (str "USER anonymous");;
  response ← receive_ftp_response None 1024;
  send_ftp_command (str "PASS anonymous");;
  response ← receive_ftp_response response 1024;
  text ← lift (text_of response);
  mret (if is_prefix (str "230") text then 0 else -1).

(** "%d,%d,%d,%d,%d,%d" *)
Definition fmt_pasv : list directive :=
  [DInt; DLit 44; DInt; DLit 44; DInt; DLit 44; DInt; DLit 44; DInt; DLit 44; DInt].

(** The numbers after the parenthesis; one that is not assigned is used all the same. *)
Definition scan_pasv (text : list Z) : res (list Z) :=
  match strchr text 40 with
  | None => Ub NullDeref
  | Some n =>
      let ns := omap (fun i => match i with SInt n => Some n | SStr _ => None end) (sscanf (drop (S n) text) fmt_pasv) in
      if (length ns =? 6)%nat then Ok ns else Ub Uninit
  end.

(** data_ip, cut to its 16 bytes, and data_port. *)
Definition data_address (ns : list Z) : res (list Z * Z) :=
  match ns with
  | [a; b; c; d; p; q] =>
      if int_range (p * 256) && int_range (p * 256 + q)
      then Ok (snprintf 16 (print_int a ++ [46] ++ print_int b ++ [46] ++ print_int c ++ [46] ++ print_int d), p * 256 + q)
      else Ub IntOverflow
  | _ => Ub Uninit
  end.

(** The results of socket and inet_pton are not looked at. *)
Definition establish_data_connection : M Z :=
  send_ftp_command (str "PASV");;
  response ← receive_ftp_response None 1024;
  text ← lift (text_of response);
  ns ← lift (scan_pasv text);
  '(data_ip, data_port) ← lift (data_address ns);
  dataSocket ← socket;
  match inet_pton data_ip with
  | None => fault Uninit
  | Some addr =>
      ok ← connect dataSocket addr (u16 data_port);
      if ok : bool then mret dataSocket else closesocket dataSocket;; mret (-1)
  end.

(** while ((bytesReceived = recv (...)) > 0); a script that is used up ends with an error of recv. *)
Fixpoint recv_loop (fuel : nat) : M unit :=
  match fuel with
  | O => fault NoReturn
  | S fuel =>
      r ← recv_data 1024;
      match r with
      | Some (c :: bytes) => emit (Write (c :: bytes));; recv_loop fuel
      | _ => mret tt
      end
  end.

(** The answers and the bytes still to come bound the rounds. *)
Definition recv_fuel (s : state) : nat := S (length (data (net s)) + length (concat (omap id (data (net s))))).

Definition recv_all : M unit := fun s => recv_loop (recv_fuel s) s.

Definition ftp_download_file (filename : list Z) : M Z :=
  dataSocket ← establish_data_connection;
  if dataSocket =? -1 then mret (-1)
  else
    send_ftp_command (snprintf 256 (str "RETR " ++ filename));;
    receive_ftp_response None 1024;;
    ok ← answer Creating;
    if negb ok then closesocket dataSocket;; mret (-1)
    else
      emit (Open filename);; count 0 1;;
      recv_all;;
      count 0 (-1);; closesocket dataSocket;; mret 0.

Definition main : M Z :=
  controlSocket ← connect_to_ftp_server (str "192.168.1.10");
  if controlSocket =? -1 then mret 1
  else
    ret ← ftp_login;
    if ret =? -1 then mret 1
    else
      ftp_download_file (str "testfile.txt");;
      send_ftp_command (str "QUIT");; closesocket controlSocket;; WSACleanup;; mret 0.
End Client.

(** * What a download does *)

Definition chunk_ok (bytes : list Z) : Prop := (0 < length bytes <= 1024)%nat.

(** The data connection has ended: in order, or with an error. *)
Definition ended (l : list (option (list Z))) : Prop :=
  match l with [] | None :: _ | Some [] :: _ => True | _ => False end.

Lemma next_chunk bytes l : chunk_ok bytes -> next 1024 (Some bytes :: l) = (Some bytes, l).
Proof.
  intros [_ Hl]. unfold next. rewrite firstn_all2 by done. by rewrite (proj2 (Nat.ltb_ge _ _)).
Qed.

Lemma recv_loop_collects chunks rest : Forall chunk_ok chunks -> ended rest -> forall fuel s,
  (length chunks < fuel)%nat -> data (net s) = map Some chunks ++ rest ->
  exists t, recv_loop fuel s = Ok (tt, t) /\ log t = log s ++ map Write chunks /\ fds t = fds s /\ wsa t = wsa s /\
    files t = files s /\ control (net t) = control (net s) /\ answers (net t) = answers (net s).
Proof.
  intros Hc He. induction Hc as [|bytes chunks Hb Hc IH]; intros [|fuel] [[ctl dat ans socks] lg fs ws fl] Hf Hd;
    cbn [length] in Hf; try lia; cbn [net data] in Hd; subst dat.
  - destruct rest as [|[[|c r]|] rest]; try done; eexists; (split; [reflexivity|]); cbn; by rewrite app_nil_r.
  - destruct bytes as [|c r]; [by destruct Hb; cbn in *; lia|].
    destruct (IH fuel (State (Script ctl (map Some chunks ++ rest) ans socks) (lg ++ [Write (c :: r)]) fs ws fl)) as (t & E & Hl & Ht);
      [lia|done|]. exists t. cbn [log] in Hl. rewrite Hl, <- app_assoc. split; [|done]. rewrite <- E.
    cbn [recv_loop map app]. unfold recv_data, put_net, emit, mbind, ST_bind. cbn [net data]. rewrite next_chunk by done. reflexivity.
Qed.

(** ** The calls that go well *)

Definition logged (e : event) (s : state) : state := State (net s) (log s ++ [e]) (fds s) (wsa s) (files s).

Definition all_well (s : state) : Prop := forall c, answers (net s) c = [].

Definition short (text : list Z) : Prop := (0 < length text < 1024)%nat.

Lemma wp_answer c Q s : all_well s -> Q true s -> wp (answer c) Q s.
Proof. intros Ha HQ. unfold answer, wpu. by rewrite Ha. Qed.

Lemma wp_send cmd Q s : all_well s -> Q 0 (logged (Send (snprintf 256 (cmd ++ crlf))) s) -> wp (send_ftp_command cmd) Q s.
Proof. intros Ha HQ. unfold send_ftp_command, answer, wpu, mbind, ST_bind. by rewrite Ha. Qed.

Lemma wp_receive response r more Q s :
  control (net s) = Some r :: more -> short r ->
  Q (Some r) (State (Script more (data (net s)) (answers (net s)) (sockets (net s))) (log s) (fds s) (wsa s) (files s)) ->
  wp (receive_ftp_response response 1024) Q s.
Proof.
  intros Hc [Hr1 Hr2] HQ. unfold receive_ftp_response, recv_control, wpu, mbind, ST_bind. rewrite Hc, next_chunk by (split; lia).
  unfold put_net. cbn [res_bind]. destruct r as [|c r]; [cbn in Hr1; lia|]. by rewrite (proj2 (Nat.ltb_lt _ _)).
Qed.

Lemma wp_new_socket fd more Q s :
  sockets (net s) = fd :: more -> 0 <= fd ->
  Q fd (State (Script (control (net s)) (data (net s)) (answers (net s)) more) (log s) ({[fd]} ∪ fds s) (wsa s) (files s)) ->
  wp socket Q s.
Proof. intros Hs Hf HQ. unfold socket, wpu. rewrite Hs. cbn. by rewrite (proj2 (Z.ltb_ge fd 0)). Qed.

Lemma wp_connect fd addr port Q s : 0 <= fd -> all_well s -> Q true (logged (Connect addr port) s) -> wp (connect fd addr port) Q s.
Proof.
  intros Hf Ha HQ. unfold connect, answer, wpu, mbind, ST_bind. rewrite (proj2 (Z.ltb_ge fd 0)) by done. by rewrite Ha.
Qed.

Lemma wp_recv_all chunks rest Q s :
  Forall chunk_ok chunks -> ended rest -> data (net s) = map Some chunks ++ rest ->
  (forall t, log t = log s ++ map Write chunks -> fds t = fds s -> wsa t = wsa s -> files t = files s -> Q tt t) ->
  wp recv_all Q s.
Proof.
  intros Hc He Hd HQ. unfold wpu, recv_all.
  destruct (recv_loop_collects chunks rest Hc He (recv_fuel s) s) as (t & -> & Hl & Hf & Hw & Hfi & _); [|done|by apply HQ].
  unfold recv_fuel. rewrite Hd, length_app, length_map. lia.
Qed.

(** A server that answers PASV with its address, and RETR with anything; [s] before a download. *)
Section Download.
Context (inet_pton : list Z -> option Z) (addr port fd : Z) (ip ns : list Z) (r1 r2 : list Z).

Record offers (s : state) (chunks : list (list Z)) (rest : list (option (list Z))) : Prop := {
  offers_control : exists more, control (net s) = Some r1 :: Some r2 :: more;
  offers_short : short r1 /\ short r2;
  offers_numbers : scan_pasv (c_string r1) = Ok ns;
  offers_address : data_address ns = Ok (ip, port);
  offers_pton : inet_pton ip = Some addr;
  offers_socket : exists more, sockets (net s) = fd :: more;
  offers_new : 0 <= fd /\ fd ∉ fds s;
  offers_well : all_well s;
  offers_data : data (net s) = map Some chunks ++ rest;
  offers_chunks : Forall chunk_ok chunks;
  offers_end : ended rest }.

(** The file is what the data connection gave before it ended, whether it ended in order or not; the
    result is 0 in both cases, and everything is closed. *)
Lemma ftp_download_stores s filename chunks rest :
  offers s chunks rest ->
  wp (ftp_download_file inet_pton filename) (fun r t => r = 0 /\
    log t = log s ++ [Send (str "PASV" ++ crlf); Connect addr (u16 port); Send (snprintf 256 (snprintf 256 (str "RETR " ++ filename) ++ crlf));
                      Open filename] ++ map Write chunks /\
    fds t = fds s /\ files t = files s /\ wsa t = wsa s) s.
Proof.
  intros [(ctl & Hc) [H1 H2] Hn Ha Hp (socks & Hs) [Hfd Hnew] Hw Hd Hch He]. unfold ftp_download_file, establish_data_connection.
  do 2 apply wp_bind. apply wp_send; [done|]. apply wp_bind. eapply wp_receive; [exact Hc|done|].
  apply wp_bind, (wp_lift_Ok _ (c_string r1)); [done|]. apply wp_bind, (wp_lift_Ok _ ns); [done|].
  apply wp_bind, (wp_lift_Ok _ (ip, port)); [done|]. apply wp_bind. eapply wp_new_socket; [exact Hs|done|].
  rewrite Hp. apply wp_bind, wp_connect; [done|done|]. apply wp_ret. rewrite (proj2 (Z.eqb_neq fd (-1))) by lia.
  apply wp_bind, wp_send; [done|]. apply wp_bind. eapply wp_receive; [reflexivity|done|]. apply wp_bind.
  apply wp_answer; [exact Hw|]. cbn [negb].
  do 2 (apply wp_bind; unfold wpu at 1, emit, count). apply wp_bind, (wp_recv_all chunks rest); [done|done|exact Hd|].
  intros t Hl Hf Hws Hfi. do 2 (apply wp_bind; unfold wpu at 1, count, closesocket, put_fds). apply wp_ret.
  cbn [log fds wsa files logged net] in *. rewrite Hl, Hf, Hws, Hfi, <- !app_assoc. split_and!; [done|done|set_solver|lia|lia].
Qed.
End Download.

(** ** Runs: inet_pton knows the addresses of the examples *)

Definition pton (text : list Z) : option Z :=
  if decide (text = str "192.168.1.10") then Some 3232235786 else if decide (text = str "10.0.0.7") then Some 167772167 else None.

Definition begin (control data : list (option (list Z))) (refused : list bool) : state :=
  State (Script control data (fun c => if decide (c = Connecting) then true :: refused else []) [3; 4]) [] ∅ 0 0.

Definition reply (s : string) : option (list Z) := Some (str s ++ crlf).

Definition pasv_reply : option (list Z) := reply "227 Entering Passive Mode (10,0,0,7,4,1)".

(** A server that does not greet. *)
Definition silent_server : list (option (list Z)) :=
  [reply "331 password"; reply "230 logged in"; pasv_reply; reply "150 here it comes"; reply "226 done"].

Lemma download_run :
  (fun p => (p.1, log p.2, fds p.2, wsa p.2)) <$>
    (match main pton (begin silent_server [Some (str "abc"); Some (str "def"); Some []] []) with Ok p => Some p | Ub _ => None end)
  = Some (0, [Connect 3232235786 21; Send (str "USER anonymous" ++ crlf); Send (str "PASS anonymous" ++ crlf); Send (str "PASV" ++ crlf);
              Connect 167772167 1025; Send (str "RETR testfile.txt" ++ crlf); Open (str "testfile.txt"); Write (str "abc"); Write (str "def");
              Send (str "QUIT" ++ crlf)], ∅, 0).
Proof. vm_compute. reflexivity. Qed.

(** A server greets before it is asked: its first reply is taken for the one to USER, the one to USER for
    the one to PASS, and the login fails; the socket stays open and WSACleanup is not called. *)
Lemma greeting_fails_login :
  (fun p => (p.1, fds p.2, wsa p.2)) <$>
    (match main pton (begin (reply "220 ready" :: silent_server) [] []) with Ok p => Some p | Ub _ => None end)
  = Some (1, {[3]}, 1).
Proof. vm_compute. reflexivity. Qed.

(** What the client does with replies it does not expect. *)
Lemma unexpected_replies :
  ftp_login (begin [] [] []) = Ub Uninit /\
  ftp_login (begin [Some (replicate 1024 48)] [] []) = Ub OobWrite /\
  establish_data_connection pton (begin [reply "500 no"] [] []) = Ub NullDeref /\
  establish_data_connection pton (begin [reply "227 (10,0,0,7)"] [] []) = Ub Uninit /\
  establish_data_connection pton (begin [reply "227 (10,0,0,7,9000000,0)"] [] []) = Ub IntOverflow.
Proof. vm_compute. done. Qed.
